(** * CrawlSmith: a shallow embedding of the crawl engine and the PageRank engine

  Sources embedded here:
  - [pkg/crawler/crawler.go]: [NewCrawler], [isAllowedByRobots], [crawlPage],
    [isWebpageURL], [extractTextLinksAndMetadata], [getPathType],
    [resolveURL];
  - the analyzer package: [calculatePageRank];
  - [internal/models/page.go]: [Page], [Link], [CrawlResult].

  Go strings are byte sequences and are modelled by [string] (a sequence of
  8-bit [ascii]); Go maps are [gmap]s; [float64] is the kernel's binary64
  [float].  Functions of third-party packages that the code calls are either
  written out from their documented behaviour or taken as members of a
  class, so that every theorem holds for whatever these functions compute. *)

From stdpp Require Import base option list gmap strings.
From Stdlib Require Import ZArith QArith Qcanon Ascii.
From Stdlib Require PrimFloat Uint63 DecimalString.
From Stdlib Require Reals Lra Floats.
From Stdlib Require String.

Set Warnings "-inexact-float,-register-all".
Local Open Scope Z_scope.

(** ** Go's [strings] package *)

Module GoStrings.

Definition byte (c : ascii) : N := N_of_ascii c.

Fixpoint string_drop (n : nat) (s : string) : string :=
  match n, s with
  | O, _ => s
  | S n', String _ s' => string_drop n' s'
  | S _, EmptyString => EmptyString
  end.

Fixpoint string_take (n : nat) (s : string) : string :=
  match n, s with
  | O, _ => EmptyString
  | S n', String c s' => String c (string_take n' s')
  | S _, EmptyString => EmptyString
  end.

(** [strings.HasPrefix(s, prefix)]:
    [len(s) >= len(prefix) && s[:len(prefix)] == prefix]. *)
Definition HasPrefix (s prefix : string) : bool :=
  (String.length prefix <=? String.length s)%nat
  && String.eqb (string_take (String.length prefix) s) prefix.

(** [strings.HasSuffix(s, suffix)]:
    [len(s) >= len(suffix) && s[len(s)-len(suffix):] == suffix]. *)
Definition HasSuffix (s suffix : string) : bool :=
  (String.length suffix <=? String.length s)%nat
  && String.eqb (string_drop (String.length s - String.length suffix) s) suffix.

(** [strings.Contains(s, substr)]: some position of [s] starts with
    [substr]. *)
Fixpoint Contains (s substr : string) : bool :=
  HasPrefix s substr
  || match s with
     | EmptyString => false
     | String _ s' => Contains s' substr
     end.

Fixpoint mapBytes (f : ascii -> ascii) (s : string) : string :=
  match s with
  | EmptyString => EmptyString
  | String c s' => String (f c) (mapBytes f s')
  end.

Fixpoint allBytes (p : ascii -> bool) (s : string) : bool :=
  match s with
  | EmptyString => true
  | String c s' => p c && allBytes p s'
  end.

(** [c < utf8.RuneSelf] *)
Definition isASCIIByte (c : ascii) : bool := (byte c <? 128)%N.

Definition isUpperByte (c : ascii) : bool :=
  (65 <=? byte c)%N && (byte c <=? 90)%N.

(** [c += 'a' - 'A'] on an upper-case ASCII letter. *)
Definition lowerByte (c : ascii) : ascii :=
  if isUpperByte c then ascii_of_N (byte c + 32) else c.

(** The six bytes of Go's [asciiSpace] table. *)
Definition asciiSpace (c : ascii) : bool :=
  (byte c =? 9)%N || (byte c =? 10)%N || (byte c =? 11)%N
  || (byte c =? 12)%N || (byte c =? 13)%N || (byte c =? 32)%N.

(** What Go's [strings] does on input with a byte above 0x7f depends on the
    Unicode tables; these paths are members of a class. *)
Class UnicodeTables := {
  (** [strings.Map(unicode.ToLower, s)] *)
  mapUnicodeToLower : string -> string;
  (** [strings.TrimFunc(s, unicode.IsSpace)] *)
  trimFuncIsSpace : string -> string;
  (** [strings.TrimRightFunc(s, unicode.IsSpace)] *)
  trimRightFuncIsSpace : string -> string
}.

Section WithTables.
Context {tables : UnicodeTables}.

(** [strings.ToLower]: the ASCII-only fast path lowers the bytes
    ['A'..'Z']; any other input goes through the Unicode mapping. *)
Definition ToLower (s : string) : string :=
  if allBytes isASCIIByte s then mapBytes lowerByte s
  else mapUnicodeToLower s.

(** Second loop of [strings.TrimSpace], run on [s[start:]] reversed: the
    flag tells whether a byte >= 0x80 was met at [s[stop-1]], the string is
    [s[start:stop]] reversed. *)
Fixpoint trimSpaceRight (rs : string) : bool * string :=
  match rs with
  | EmptyString => (false, EmptyString)
  | String c rs' =>
      if negb (isASCIIByte c) then (true, rs)
      else if asciiSpace c then trimSpaceRight rs'
      else (false, rs)
  end.

Fixpoint string_rev (s : string) : string :=
  match s with
  | EmptyString => EmptyString
  | String c s' => string_rev s' +:+ String c EmptyString
  end.

Definition trimSpaceStop (s : string) : string :=
  let '(nonASCII, rs) := trimSpaceRight (string_rev s) in
  if nonASCII then trimRightFuncIsSpace (string_rev rs) else string_rev rs.

(** [strings.TrimSpace]: the first loop runs from the start; at the first
    ASCII byte that is no space the second loop runs from the end. *)
Fixpoint TrimSpace (s : string) : string :=
  match s with
  | EmptyString => EmptyString
  | String c s' =>
      if negb (isASCIIByte c) then trimFuncIsSpace s
      else if asciiSpace c then TrimSpace s'
      else trimSpaceStop s
  end.
End WithTables.

(** Tables under which the definitions can be run on ASCII input, where
    the Unicode paths are never entered. *)
Definition asciiTables : UnicodeTables :=
  {| mapUnicodeToLower := fun s => s;
     trimFuncIsSpace := fun s => s;
     trimRightFuncIsSpace := fun s => s |}.

(** [strings.Trim(s, "/")] *)
Fixpoint trimLeftByte (b : ascii) (s : string) : string :=
  match s with
  | EmptyString => EmptyString
  | String c s' => if Ascii.eqb c b then trimLeftByte b s' else s
  end.

Definition trimByte (b : ascii) (s : string) : string :=
  string_rev (trimLeftByte b (string_rev (trimLeftByte b s))).

(** [strings.Split(s, sep)] for a one-byte separator: never empty. *)
Fixpoint splitByte (b : ascii) (s : string) : list string :=
  match s with
  | EmptyString => [EmptyString]
  | String c s' =>
      if Ascii.eqb c b then EmptyString :: splitByte b s'
      else match splitByte b s' with
           | [] => [String c EmptyString]
           | seg :: rest => String c seg :: rest
           end
  end.

(** [strings.Cut(s, sep)] for a one-byte separator: the text before the
    first [sep], or all of [s]. *)
Fixpoint cutBefore (b : ascii) (s : string) : string :=
  match s with
  | EmptyString => EmptyString
  | String c s' => if Ascii.eqb c b then EmptyString else String c (cutBefore b s')
  end.

End GoStrings.

(** ** Go values shared by the packages below *)

Module Go.

(** A call either returns or panics; a panic carries its message. *)
Inductive result (A : Type) : Type :=
| Returns (a : A)
| Panics (msg : string).
Arguments Returns {A} a.
Arguments Panics {A} msg.

Definition nilDereference : string :=
  "invalid memory address or nil pointer dereference".

End Go.

(** ** Go's [net/url] and [golang.org/x/net/publicsuffix] *)

Module NetURL.
Import GoStrings.

(** The fields of [url.URL] the crawler reads or writes. *)
Record URL := mkURL {
  Scheme : string;
  Host : string;
  Path : string;
  RawQuery : string;
  Fragment : string
}.

Definition withRawQuery (q : string) (u : URL) : URL :=
  {| Scheme := Scheme u; Host := Host u; Path := Path u;
     RawQuery := q; Fragment := Fragment u |}.

(** [stringContainsCTLByte]: a byte below 0x20 or the byte 0x7f. *)
Definition isCTLByte (c : ascii) : bool := (byte c <? 32)%N || (byte c =? 127)%N.

Definition stringContainsCTLByte (s : string) : bool :=
  negb (allBytes (fun c => negb (isCTLByte c)) s).

(** The rest of the two packages is left open. *)
Class Library := {
  (** [url.Parse] on input that passed the control-character check;
      [None] is a non-nil error (and a nil pointer). *)
  parseChecked : string -> option URL;
  (** the method [Hostname] of a parsed URL *)
  Hostname : URL -> string;
  (** [base.ResolveReference(ref).String()] *)
  resolveReferenceString : URL -> URL -> string;
  (** [publicsuffix.EffectiveTLDPlusOne]; [None] is a non-nil error. *)
  EffectiveTLDPlusOne : string -> option string
}.

Section WithLibrary.
Context {net : Library}.

(** [url.Parse]: the fragment is cut off, then [parse] first refuses any
    string with an ASCII control character. *)
Definition Parse (rawURL : string) : option URL :=
  if stringContainsCTLByte (cutBefore "#" rawURL) then None
  else parseChecked rawURL.

End WithLibrary.

(** A library under which the definitions can be run: it parses nothing.
    It is used at inputs that [url.Parse] refuses before it looks at the
    rest of the library. *)
Definition refusingLibrary : Library :=
  {| parseChecked := fun _ => None;
     Hostname := Host;
     resolveReferenceString := fun _ ref => Path ref;
     EffectiveTLDPlusOne := fun _ => None |}.

End NetURL.

(** ** [float64] *)

Module Float64.
Import PrimFloat.

Definition float64 : Type := float.
Definition zero : float64 := 0%float.
Definition one : float64 := 1%float.
(** The constant [0.85] and the constant expression [1.0 - 0.85], which Go
    evaluates exactly before it rounds to [float64]. *)
Definition dampingFactor : float64 := 0.85%float.
Definition oneMinusDamping : float64 := 0.15%float.
(** The tolerance [1e-6]. *)
Definition tolerance : float64 := 0.000001%float.

End Float64.

(** ** [float64] numbers as real numbers *)

Module Binary64.
Import Reals SpecFloat FloatOps.
Local Open Scope R_scope.

(** Two to the power [e]. *)
Definition pow2 (e : Z) : R := powerRZ 2 e.

(** The unit roundoff of [float64]. *)
Definition roundoff : R := pow2 (-53).

(** The real number a finite [spec_float] stands for; zero for the others. *)
Definition valueOfSF (x : spec_float) : R :=
  match x with
  | S754_finite s m e =>
      if s then - (IZR (Zpos m) * pow2 e) else IZR (Zpos m) * pow2 e
  | _ => 0
  end.

(** The real number a [float64] stands for. *)
Definition valueOf (x : PrimFloat.float) : R := valueOfSF (Prim2SF x).

(** A positive [float64] with a mantissa of 53 bits. *)
Definition normalPositive (x : PrimFloat.float) : Prop :=
  exists m e, Prim2SF x = S754_finite false m e
              /\ Zpos (digits2_pos m) = 53%Z /\ (-1074 <= e <= 971)%Z.

(** A real [x] between [m] and [m + 1], with the two bits that tell where:
    at [m], below the middle, at the middle, above the middle. *)
Definition locates (mrs : shr_record) (x : R) : Prop :=
  IZR (shr_m mrs) <= x < IZR (shr_m mrs) + 1
  /\ match shr_r mrs, shr_s mrs with
     | false, false => x = IZR (shr_m mrs)
     | false, true => IZR (shr_m mrs) < x < IZR (shr_m mrs) + / 2
     | true, false => x = IZR (shr_m mrs) + / 2
     | true, true => IZR (shr_m mrs) + / 2 < x
     end.

(** What a rounded operation gives for the number [x]: a positive number
    with a mantissa of 53 bits, off by at most the unit roundoff. *)
Definition rounds (z : PrimFloat.float) (x : R) : Prop :=
  normalPositive z
  /\ (1 - roundoff) * x <= valueOf z <= (1 + roundoff) * x.

(** [v] is [x] after at most [k] roundings. *)
Definition within (k : nat) (v x : R) : Prop :=
  (1 - roundoff) ^ k * x <= v <= (1 + roundoff) ^ k * x.

(** Sums of real numbers over a list. *)
Definition rsum {A : Type} (f : A -> R) (l : list A) : R :=
  fold_right (fun x s => f x + s) 0 l.

End Binary64.

(** ** [internal/models]: pages, links and crawl results *)

Module Models.

Record Link := mkLink {
  ToURL : string;
  AnchorText : string
}.

(** [Page], generic in the type [F] that stands for [float64].  The five
    contact lists, [CrawledAt] and [StatusCode] are left out: nothing below
    reads them. *)
Record Page (F : Type) := mkPage {
  URL : string;
  Text : string;
  Links : list Link;
  MetaTitle : string;
  MetaDescription : string;
  ETag : string;
  PageRank : F
}.
Arguments mkPage {F}.
Arguments URL {F}.
Arguments Text {F}.
Arguments Links {F}.
Arguments MetaTitle {F}.
Arguments MetaDescription {F}.
Arguments ETag {F}.
Arguments PageRank {F}.

Definition withPageRank {F : Type} (r : F) (p : Page F) : Page F :=
  {| URL := URL p; Text := Text p; Links := Links p;
     MetaTitle := MetaTitle p; MetaDescription := MetaDescription p;
     ETag := ETag p; PageRank := r |}.

(** [CrawlResult] without its [CrawlTime]. *)
Record CrawlResult (F : Type) := mkCrawlResult {
  Domain : string;
  Pages : list (Page F);
  TotalPages : Z;
  ErrorCount : Z;
  Subdomains : list string
}.
Arguments mkCrawlResult {F}.
Arguments Domain {F}.
Arguments Pages {F}.
Arguments TotalPages {F}.
Arguments ErrorCount {F}.
Arguments Subdomains {F}.

Definition withPages {F : Type} (ps : list (Page F)) (r : CrawlResult F)
  : CrawlResult F :=
  {| Domain := Domain r; Pages := ps; TotalPages := TotalPages r;
     ErrorCount := ErrorCount r; Subdomains := Subdomains r |}.

End Models.

(** ** [golang.org/x/net/html]: the parsed document *)

Module HTML.

Inductive NodeType :=
| ErrorNode | TextNode | DocumentNode | ElementNode
| CommentNode | DoctypeNode | RawNode.

(** [html.Attribute] without its [Namespace], which the crawler does not
    read. *)
Record Attribute := mkAttr {
  Key : string;
  Val : string
}.

(** A node with its children in sibling order ([FirstChild],
    [NextSibling], ...). *)
Inductive Node :=
| mkNode (type : NodeType) (data : string) (attr : list Attribute)
         (children : list Node).

Definition Type_ (n : Node) : NodeType := let 'mkNode t _ _ _ := n in t.
Definition Data (n : Node) : string := let 'mkNode _ d _ _ := n in d.
Definition Attr (n : Node) : list Attribute := let 'mkNode _ _ a _ := n in a.
Definition children (n : Node) : list Node := let 'mkNode _ _ _ c := n in c.

(** [n.FirstChild]; [None] is nil. *)
Definition FirstChild (n : Node) : option Node := head (children n).

Definition isElementNode (t : NodeType) : bool :=
  match t with ElementNode => true | _ => false end.

Definition isTextNode (t : NodeType) : bool :=
  match t with TextNode => true | _ => false end.

(** Document order: a node, then its children's subtrees from left to
    right. *)
Fixpoint preorder (n : Node) : list Node :=
  match n with
  | mkNode _ _ _ cs => n :: flat_map preorder cs
  end.

(** Induction on a node with the property at hand for all its children. *)
Fixpoint Node_forall_ind (P : Node -> Prop)
    (step : forall t d a cs, Forall P cs -> P (mkNode t d a cs)) (n : Node)
  : P n :=
  match n with
  | mkNode t d a cs =>
      step t d a cs
           ((fix all (l : list Node) : Forall P l :=
               match l with
               | [] => @List.Forall_nil Node P
               | c :: l' =>
                   @List.Forall_cons Node P c l' (Node_forall_ind P step c) (all l')
               end) cs)
  end.

(** The two parsers the extractor calls. *)
Class Library := {
  (** [html.Parse]; [None] is a non-nil error. *)
  Parse : string -> option Node;
  (** [trafilatura.Extract]'s [ContentText]; [None] is an error or a nil
      result. *)
  trafilaturaContentText : string -> option string
}.

End HTML.

(** ** [pkg/crawler]: the functions without state *)

Module Crawler.
Import GoStrings Models HTML.

Section Functions.
Context {tables : UnicodeTables} {net : NetURL.Library} {html : HTML.Library}.

Definition nonWebExts : list string :=
  [".jpg"; ".jpeg"; ".png"; ".gif"; ".pdf"; ".zip"; ".mp4"; ".mp3"; ".css"; ".js"].

(** The loop of [isWebpageURL]: [true] when some extension made it return. *)
Fixpoint hasNonWebExt (lowercaseURL : string) (exts : list string) : bool :=
  match exts with
  | [] => false
  | ext :: rest =>
      if HasSuffix lowercaseURL ext then true else hasNonWebExt lowercaseURL rest
  end.

Definition isWebpageURL (pageURL : string) : bool :=
  let lowercaseURL := ToLower pageURL in
  if hasNonWebExt lowercaseURL nonWebExts then false
  else negb (Contains pageURL "#").

Definition webpageMIMEs : list string :=
  ["text/html"; "application/xhtml+xml"; "application/xhtml"; "text/xml";
   "application/xml"].

Definition isWebpageMIME (contentType : string) : bool :=
  let mimeType := hd EmptyString (splitByte ";" (ToLower contentType)) in
  existsb (fun mime => String.eqb mime mimeType) webpageMIMEs.

(** [getPathType] drops the error of [url.Parse] and writes to the field
    [RawQuery] of the pointer it got: on a nil pointer this panics. *)
Definition getPathType (rawURL : string) : Go.result string :=
  match NetURL.Parse rawURL with
  | None => Go.Panics Go.nilDereference
  | Some u =>
      let u := NetURL.withRawQuery EmptyString u in
      let segments := splitByte "/" (trimByte "/" (NetURL.Path u)) in
      match segments with
      | seg0 :: _ =>
          if negb (String.eqb seg0 EmptyString) then Go.Returns ("/" +:+ seg0)
          else Go.Returns "/"
      | [] => Go.Returns "/"
      end
  end.

Definition resolveURL (base ref : string) : string :=
  match NetURL.Parse base with
  | None => ref
  | Some baseURL =>
      match NetURL.Parse ref with
      | None => ref
      | Some refURL => NetURL.resolveReferenceString baseURL refURL
      end
  end.

(** The bytes the pattern [[^\w\s.,!?-]] leaves in place.  Every byte from
    0x80 on belongs to a rune (or is an invalid byte) that the pattern
    matches. *)
Definition keptByNormalize (c : ascii) : bool :=
  let b := byte c in
  ((48 <=? b) && (b <=? 57) || (65 <=? b) && (b <=? 90)
   || (97 <=? b) && (b <=? 122) || (b =? 95)
   || (b =? 9) || (b =? 10) || (b =? 12) || (b =? 13) || (b =? 32)
   || (b =? 46) || (b =? 44) || (b =? 33) || (b =? 63) || (b =? 45))%N.

Fixpoint filterBytes (p : ascii -> bool) (s : string) : string :=
  match s with
  | EmptyString => EmptyString
  | String c s' => if p c then String c (filterBytes p s') else filterBytes p s'
  end.

Definition normalizeText (s : string) : string :=
  ToLower (TrimSpace (filterBytes keptByNormalize s)).

(** *** [extractTextLinksAndMetadata] *)

(** A loop over the attributes that assigns at every match keeps the last
    one; a loop that returns at the first match keeps the first one. *)
Definition lastAttrVal (key : string) (attrs : list Attribute) : string :=
  fold_left (fun v a => if String.eqb (Key a) key then Val a else v)
            attrs EmptyString.

Definition firstAttrVal (key : string) (attrs : list Attribute) : option string :=
  Val <$> find (fun a => String.eqb (Key a) key) attrs.

Section Walk.
Variable baseURL : string.

(** The inner closure [extractText]. *)
Fixpoint extractText (n : Node) : string :=
  match n with
  | mkNode ty data attrs cs =>
      if isTextNode ty then TrimSpace data
      else
        match (if isElementNode ty && String.eqb data "img"
               then firstAttrVal "src" attrs else None) with
        | Some src => resolveURL baseURL src
        | None => fold_left (fun text c => text +:+ extractText c) cs EmptyString
        end
  end.

(** The variables the closure [f] captures. *)
Record walkState := mkWalkState {
  links : list Link;
  seen : gmap string bool;
  foundTitle : bool;
  title : string;
  desc : string
}.

Definition initialWalkState : walkState :=
  {| links := []; seen := ∅; foundTitle := false;
     title := EmptyString; desc := EmptyString |}.

(** The loop over the attributes of a [<meta>] element. *)
Definition metaScan (attrs : list Attribute) : bool * string :=
  fold_left
    (fun '(isDesc, content) a =>
       (if String.eqb (ToLower (Key a)) "name"
           && String.eqb (ToLower (Val a)) "description"
        then true else isDesc,
        if String.eqb (ToLower (Key a)) "content"
        then TrimSpace (Val a) else content))
    attrs (false, EmptyString).

Definition anchorTextOf (n : Node) : string :=
  let anchorText := TrimSpace (extractText n) in
  if String.eqb anchorText EmptyString then "N/A" else anchorText.

(** What [f] does at one node before it descends. *)
Definition visit (n : Node) (st : walkState) : walkState :=
  if isElementNode (Type_ n) then
    if String.eqb (Data n) "a" then
      let href := lastAttrVal "href" (Attr n) in
      if negb (String.eqb href EmptyString) then
        let anchorText := anchorTextOf n in
        if negb (default false (seen st !! href)) then
          {| links := links st ++ [mkLink href anchorText];
             seen := <[href := true]> (seen st);
             foundTitle := foundTitle st; title := title st; desc := desc st |}
        else st
      else st
    else if String.eqb (Data n) "title" then
      match FirstChild n with
      | Some c =>
          if negb (foundTitle st) then
            {| links := links st; seen := seen st; foundTitle := true;
               title := TrimSpace (Data c); desc := desc st |}
          else st
      | None => st
      end
    else if String.eqb (Data n) "meta" then
      let '(isDesc, content) := metaScan (Attr n) in
      if isDesc && negb (String.eqb content EmptyString) then
        {| links := links st; seen := seen st; foundTitle := foundTitle st;
           title := title st; desc := content |}
      else st
    else st
  else st.

(** The closure [f]: the node, then every child in order. *)
Fixpoint walk (n : Node) (st : walkState) : walkState :=
  match n with
  | mkNode _ _ _ cs => fold_left (fun s c => walk c s) cs (visit n st)
  end.

End Walk.

Definition orX (s : string) : string :=
  if String.eqb s EmptyString then "x" else s.

Fixpoint replaceByte (old new : ascii) (s : string) : string :=
  match s with
  | EmptyString => EmptyString
  | String c s' =>
      String (if Ascii.eqb c old then new else c) (replaceByte old new s')
  end.

Definition fallbackTextExtraction (body : string) : string :=
  match HTML.Parse body with
  | None => EmptyString
  | Some doc =>
      fold_left
        (fun b n => if isTextNode (Type_ n) then b +:+ Data n +:+ ";" else b)
        (preorder doc) EmptyString
  end.

(** The first four results of [extractTextLinksAndMetadata]; the five
    contact lists are left out. *)
Record Extracted := mkExtracted {
  exText : string;
  exLinks : list Link;
  exTitle : string;
  exDesc : string
}.

Definition extractTextLinksAndMetadata (body baseURL domain : string)
  : Extracted :=
  let text :=
    match trafilaturaContentText body with
    | Some content =>
        if negb (String.eqb content EmptyString)
        then replaceByte "010" ";" content
        else fallbackTextExtraction body
    | None => fallbackTextExtraction body
    end in
  match HTML.Parse body with
  | None => mkExtracted text [] "x" "x"
  | Some doc =>
      let st := walk baseURL doc initialWalkState in
      mkExtracted text (links st) (orX (title st)) (orX (desc st))
  end.

End Functions.
End Crawler.

(** ** [golang.org/x/time/rate] *)

Module Rate.

(** [rate.Limit]: events per second, or [rate.Inf]. *)
Inductive Limit :=
| Inf
| PerSecond (r : Qc).

(** [time.Duration] counts nanoseconds. *)
Definition Millisecond : Z := 1000000.
Definition Second : Z := 1000 * Millisecond.

(** [rate.Every(interval)]: [Inf] when [interval <= 0], else
    [1 / interval.Seconds()]. *)
Definition Every (interval : Z) : Limit :=
  if interval <=? 0 then Inf
  else PerSecond (1 / (Q2Qc (inject_Z interval) / Q2Qc (inject_Z Second)))%Qc.

(** A token bucket of size [burst], refilled at [limit] tokens per second. *)
Record Limiter := mkLimiter {
  limit : Limit;
  burst : Z
}.

Definition NewLimiter (r : Limit) (b : Z) : Limiter := mkLimiter r b.

End Rate.

(** ** [pkg/crawler]: the crawler's state and one worker *)

Module Engine.
Import GoStrings Models.

(** An HTTP response as the worker reads it; [Body] is [None] when
    [io.ReadAll] fails. *)
Record Response := mkResponse {
  StatusCode : Z;
  ContentType : string;
  ETagHeader : string;
  Body : option string
}.

(** [github.com/temoto/robotstxt] *)
Class RobotsLibrary := {
  RobotsData : Type;
  (** [robotstxt.FromResponse]; [None] is a non-nil error. *)
  FromResponse : Response -> option RobotsData;
  (** [robots.TestAgent(path, agent)] *)
  TestAgent : RobotsData -> string -> string -> bool
}.

(** What a worker does that others can observe, in the order it does it. *)
Inductive Event :=
| Sleep (nanos : Z)
| ClientGet (url : string)
| LimiterWait
| ClientDo (url : string)
| GoCrawlPage (url : string) (depth : Z)
| Signal.

(** What the worker cannot decide itself, as a function of what happened so
    far. *)
Class Environment := {
  (** the answer to [c.client.Get] or [c.client.Do]; [None] is a non-nil
      error *)
  respond : list Event -> string -> option Response;
  (** whether [c.ctx] is done *)
  ctxDone : list Event -> bool;
  (** whether [c.limiter.Wait] returns an error *)
  limiterWaitFails : list Event -> bool;
  (** [rand.Intn(n)] *)
  randIntn : list Event -> Z -> Z;
  (** [time.Now()] in nanoseconds *)
  now : list Event -> Z;
  (** the message of a panic raised inside the third-party parsers on this
      body, if one is *)
  parserPanics : string -> option string
}.

Record LinkQueueEntry := mkEntry {
  entryURL : string;
  entryDepth : Z
}.

(** The fields of [Crawler] that hold data.  [sem] counts the tokens in the
    channel of capacity 50, [wg] is the counter of the wait group. *)
Record Crawler := mkCrawler {
  domain : string;
  visited : gset string;
  pathCounts : gmap string Z;
  pathPages : gmap string (list (Page Float64.float64));
  pathDelays : gmap string Z;
  sem : nat;
  wg : Z;
  maxPerPath : Z;
  maxPathTypes : Z;
  totalCrawled : Z;
  active : Z;
  limiter : Rate.Limiter;
  linkQueue : list LinkQueueEntry
}.

Definition semCapacity : nat := 50.

Definition withVisited (v : gset string) (c : Crawler) : Crawler :=
  mkCrawler (domain c) v (pathCounts c) (pathPages c) (pathDelays c) (sem c)
            (wg c) (maxPerPath c) (maxPathTypes c) (totalCrawled c) (active c)
            (limiter c) (linkQueue c).

Definition withPathDelays (d : gmap string Z) (c : Crawler) : Crawler :=
  mkCrawler (domain c) (visited c) (pathCounts c) (pathPages c) d (sem c)
            (wg c) (maxPerPath c) (maxPathTypes c) (totalCrawled c) (active c)
            (limiter c) (linkQueue c).

(** [c.pathPages[f] = append(c.pathPages[f], p); c.pathCounts[f]++;
    atomic.AddInt32(&c.totalCrawled, 1)] *)
Definition storePage (f : string) (p : Page Float64.float64) (c : Crawler) : Crawler :=
  mkCrawler (domain c) (visited c)
            (<[f := default 0 (pathCounts c !! f) + 1]> (pathCounts c))
            (<[f := default [] (pathPages c !! f) ++ [p]]> (pathPages c))
            (pathDelays c) (sem c) (wg c) (maxPerPath c) (maxPathTypes c)
            (totalCrawled c + 1) (active c) (limiter c) (linkQueue c).

(** [c.sem <- struct{}{}; c.wg.Add(1); atomic.AddInt32(&c.active, 1)] *)
Definition acquireForChild (c : Crawler) : Crawler :=
  mkCrawler (domain c) (visited c) (pathCounts c) (pathPages c) (pathDelays c)
            (S (sem c)) (wg c + 1) (maxPerPath c) (maxPathTypes c)
            (totalCrawled c) (active c + 1) (limiter c) (linkQueue c).

(** [c.linkQueue.PushBack(e)] *)
Definition pushBack (e : LinkQueueEntry) (c : Crawler) : Crawler :=
  mkCrawler (domain c) (visited c) (pathCounts c) (pathPages c) (pathDelays c)
            (sem c) (wg c) (maxPerPath c) (maxPathTypes c) (totalCrawled c)
            (active c) (limiter c) (linkQueue c ++ [e]).

(** [<-c.sem; c.wg.Done(); atomic.AddInt32(&c.active, -1)].  Whoever starts
    a worker has put a token into [c.sem] and added one to [c.wg] for it:
    the receive finds a token and the counter of the wait group stays at or
    above zero. *)
Definition releaseOwn (c : Crawler) : Crawler :=
  mkCrawler (domain c) (visited c) (pathCounts c) (pathPages c) (pathDelays c)
            (Nat.pred (sem c)) (wg c - 1) (maxPerPath c) (maxPathTypes c)
            (totalCrawled c) (active c - 1) (limiter c) (linkQueue c).

(** [c.wg.Add(1); c.sem <- struct{}{}] of [Crawl], before the first
    worker is started. *)
Definition startCrawl (c : Crawler) : Crawler :=
  mkCrawler (domain c) (visited c) (pathCounts c) (pathPages c) (pathDelays c)
            (S (sem c)) (wg c + 1) (maxPerPath c) (maxPathTypes c)
            (totalCrawled c) (active c) (limiter c) (linkQueue c).

(** The struct literal of [NewCrawler]. *)
Definition newCrawlerFor (rootDomain : string) (maxPerPath maxPathTypes : Z)
  : Crawler :=
  {| domain := rootDomain;
     visited := ∅;
     pathCounts := ∅;
     pathPages := ∅;
     pathDelays := ∅;
     sem := 0;
     wg := 0;
     maxPerPath := maxPerPath;
     maxPathTypes := maxPathTypes;
     totalCrawled := 0;
     active := 0;
     limiter := Rate.NewLimiter (Rate.Every Rate.Second) 10;
     linkQueue := [] |}.

(** The part of [crawlPage] between [c.mu.Lock()] and [c.mu.Unlock()].  The
    flag tells whether the worker goes on to the links of the page ([false]:
    it returned). [t] is the clock when the lock is taken; the clock is
    taken not to move while the lock is held, other than by the sleep. *)
Definition admission (t : Z) (pathType normalized : string) (page : Page Float64.float64)
    (c : Crawler) : bool * Crawler :=
  let count := default 0 (pathCounts c !! pathType) in
  if (count >=? maxPerPath c)
     || ((Z.of_nat (size (pathCounts c)) >=? maxPathTypes c) && (count =? 0))
  then (false, c)
  else
    let stamp :=
      match pathDelays c !! pathType with
      | Some lastCrawl =>
          if t - lastCrawl <? 500 * Rate.Millisecond
          then lastCrawl + 500 * Rate.Millisecond
          else t
      | None => t
      end in
    let c := withPathDelays (<[pathType := stamp]> (pathDelays c)) c in
    if negb (String.eqb normalized EmptyString)
    then (true, storePage pathType page c)
    else (true, c).

Section Worker.
Context {tables : UnicodeTables} {net : NetURL.Library} {html : HTML.Library}
        {robots : RobotsLibrary} {env : Environment}.

(** [NewCrawler]; [None] is a non-nil error. *)
Definition NewCrawler (startURL : string) (maxPerPath maxPathTypes : Z)
  : option Crawler :=
  match NetURL.Parse startURL with
  | None => None
  | Some u =>
      match NetURL.EffectiveTLDPlusOne (NetURL.Hostname u) with
      | None => None
      | Some rootDomain => Some (newCrawlerFor rootDomain maxPerPath maxPathTypes)
      end
  end.

(** The crawler and what its workers have done so far. *)
Record World := mkWorld {
  crawler : Crawler;
  trace : list Event
}.

Definition emit (e : Event) (w : World) : World :=
  mkWorld (crawler w) (trace w ++ [e]).

Definition onCrawler (f : Crawler -> Crawler) (w : World) : World :=
  mkWorld (f (crawler w)) (trace w).

Definition robotsURLOf (c : Crawler) : string :=
  "http://" +:+ domain c +:+ "/robots.txt".

Definition isAllowedByRobots (pageURL : string) (w : World) : bool * World :=
  let robotsURL := robotsURLOf (crawler w) in
  let resp := respond (trace w) robotsURL in
  let w := emit (ClientGet robotsURL) w in
  match resp with
  | None => (true, w)
  | Some r =>
      if negb (StatusCode r =? 200) then (true, w)
      else
        match FromResponse r with
        | None => (true, w)
        | Some robots => (TestAgent robots pageURL "MyCrawler", w)
        end
  end.

(** One round of the loop over the links of a stored page. *)
Definition followLink (pageURL : string) (depth : Z) (w : World) (link : Link)
  : World :=
  let absLink := Crawler.resolveURL pageURL (ToURL link) in
  if negb (Crawler.isWebpageURL absLink) then w
  else
    match NetURL.Parse absLink with
    | None => w
    | Some u =>
        if String.eqb (NetURL.Hostname u) EmptyString then w
        else
          match NetURL.EffectiveTLDPlusOne (NetURL.Hostname u) with
          | None => w
          | Some linkedDomain =>
              if negb (String.eqb linkedDomain (domain (crawler w))) then w
              else if (sem (crawler w) <? semCapacity)%nat then
                emit (GoCrawlPage absLink (depth + 1)) (onCrawler acquireForChild w)
              else
                emit Signal
                     (onCrawler (pushBack (mkEntry absLink (depth + 1))) w)
          end
    end.

(** The body of the loop once a response with status 200 is there. *)
Definition onStatusOK (pageURL : string) (depth : Z) (r : Response) (w : World)
  : Go.result unit * World :=
  match Body r with
  | None => (Go.Returns tt, w)
  | Some body =>
      if Contains body "cf-browser-verification" || Contains body "Access denied"
      then (Go.Returns tt, w)
      else if negb (Crawler.isWebpageMIME (ContentType r)) then (Go.Returns tt, w)
      else
        let etag :=
          if String.eqb (ETagHeader r) EmptyString then "N/A" else ETagHeader r in
        match parserPanics body with
        | Some msg => (Go.Panics msg, w)
        | None =>
            let ex := Crawler.extractTextLinksAndMetadata
                        body pageURL (domain (crawler w)) in
            match Crawler.getPathType pageURL with
            | Go.Panics msg => (Go.Panics msg, w)
            | Go.Returns pathType =>
                let normalized := Crawler.normalizeText (Crawler.exText ex) in
                let page :=
                  mkPage pageURL normalized (Crawler.exLinks ex)
                         (Crawler.exTitle ex) (Crawler.exDesc ex) etag Float64.zero in
                let '(goOn, c) :=
                  admission (now (trace w)) pathType normalized page (crawler w) in
                let w := mkWorld c (trace w) in
                if negb goOn then (Go.Returns tt, w)
                else
                  (Go.Returns tt,
                   fold_left (followLink pageURL depth) (Crawler.exLinks ex) w)
            end
        end
  end.

(** The loop [for retries := 0; retries < 3; retries++]; [left] rounds are
    left, [retries = 3 - left]. *)
Fixpoint fetchLoop (left : nat) (pageURL : string) (depth : Z) (w : World)
  : Go.result unit * World :=
  match left with
  | O => (Go.Returns tt, w)
  | S left' =>
      let retries := 3 - Z.of_nat left in
      let resp := respond (trace w) pageURL in
      let w := emit (ClientDo pageURL) w in
      match (match resp with
             | Some r => if StatusCode r =? 200 then Some r else None
             | None => None
             end) with
      | Some r => onStatusOK pageURL depth r w
      | None =>
          let w := emit (Sleep (100 * 2 ^ retries * Rate.Millisecond)) w in
          if retries =? 2 then (Go.Returns tt, w)
          else fetchLoop left' pageURL depth w
      end
  end.

(** [crawlPage] without its deferred function. *)
Definition crawlPageBody (pageURL : string) (depth : Z) (w : World)
  : Go.result unit * World :=
  let w := emit (Sleep ((50 + randIntn (trace w) 200) * Rate.Millisecond)) w in
  if ctxDone (trace w) then (Go.Returns tt, w)
  else
    let '(allowed, w) := isAllowedByRobots pageURL w in
    if negb allowed then (Go.Returns tt, w)
    else if bool_decide (pageURL ∈ visited (crawler w)) then (Go.Returns tt, w)
    else
      let w := onCrawler (fun c => withVisited ({[pageURL]} ∪ visited c) c) w in
      let failed := limiterWaitFails (trace w) in
      let w := emit LimiterWait w in
      if failed then (Go.Returns tt, w)
      else
        match NetURL.Parse pageURL with
        | None => (Go.Returns tt, w)
        | Some _ => fetchLoop 3 pageURL depth w
        end.

(** The deferred function: it gives the token back, and it does not call
    [recover]. *)
Definition crawlPageDeferred (w : World) : World :=
  emit Signal (onCrawler releaseOwn w).

(** [crawlPage]: deferred functions run when the body returns and when it
    panics; a panic that no deferred function recovers goes on to the
    caller. *)
Definition crawlPage (pageURL : string) (depth : Z) (w : World)
  : Go.result unit * World :=
  let '(r, w) := crawlPageBody pageURL depth w in
  (r, crawlPageDeferred w).

(** A program either runs on or has exited on a panic. *)
Inductive Program :=
| Running (w : World)
| Crashed (msg : string).

(** [go c.crawlPage(pageURL, depth)]: a panic that reaches the top of a
    goroutine ends the program. *)
Definition goCrawlPage (pageURL : string) (depth : Z) (w : World) : Program :=
  match crawlPage pageURL depth w with
  | (Go.Returns _, w') => Running w'
  | (Go.Panics msg, _) => Crashed msg
  end.

End Worker.
End Engine.

(** ** The analyzer: [calculatePageRank] *)

Module Analyzer.
Import Models.

(** The arithmetic [calculatePageRank] uses.  The code computes in
    [float64]; the same function is also run on exact rationals. *)
Class Arith (F : Type) := {
  zero : F;
  (** the constant [1.0] *)
  one : F;
  (** the constant [dampingFactor = 0.85] *)
  dampingFactor : F;
  (** the constant expression [1.0 - dampingFactor] *)
  oneMinusDamping : F;
  add : F -> F -> F;
  mul : F -> F -> F;
  div : F -> F -> F;
  (** [float64(n)] for a length [n] *)
  ofLen : nat -> F;
  (** [x > 0] *)
  positive : F -> bool
}.

Definition iterations : nat := 100.

Section PageRank.
Context {F : Type} {arith : Arith F}.

(** [m[k] = append(m[k], v)] *)
Definition appendAt (k v : string) (m : gmap string (list string))
  : gmap string (list string) :=
  <[k := default [] (m !! k) ++ [v]]> m.

(** The two maps built by the first loop. *)
Definition buildGraph (pages : list (Page F))
  : gmap string (list string) * gmap string (list string) :=
  fold_left
    (fun g page =>
       fold_left
         (fun '(linkGraph, inboundLinks) link =>
            (appendAt (URL page) (ToURL link) linkGraph,
             appendAt (ToURL link) (URL page) inboundLinks))
         (Links page) g)
    pages (∅, ∅).

Definition linkGraphOf (pages : list (Page F)) : gmap string (list string) :=
  fst (buildGraph pages).

Definition inboundLinksOf (pages : list (Page F)) : gmap string (list string) :=
  snd (buildGraph pages).

(** A loop over the pages that assigns [m[page.URL] = v page] into a fresh
    map. *)
Definition assignAll (v : Page F -> F) (pages : list (Page F)) : gmap string F :=
  fold_left (fun m page => <[URL page := v page]> m) pages ∅.

(** [m[k]] on a map of numbers: the zero value when [k] is absent. *)
Definition at_ (m : gmap string F) (k : string) : F := default zero (m !! k).

(** The inner loop over [inboundLinks[page.URL]]. *)
Definition rankOf (linkGraph inboundLinks : gmap string (list string))
    (pageCount : F) (pageRank : gmap string F) (page : Page F) : F :=
  fold_left
    (fun rank inbound =>
       let outboundCount := ofLen (length (default [] (linkGraph !! inbound))) in
       if positive outboundCount
       then add rank (div (mul dampingFactor (at_ pageRank inbound)) outboundCount)
       else rank)
    (default [] (inboundLinks !! URL page))
    (div oneMinusDamping pageCount).

(** One round of the iteration: [newPageRank]. *)
Definition iteration (linkGraph inboundLinks : gmap string (list string))
    (pageCount : F) (pages : list (Page F)) (pageRank : gmap string F)
  : gmap string F :=
  assignAll (rankOf linkGraph inboundLinks pageCount pageRank) pages.

(** The map [pageRank] after the loop of [iterations] rounds. *)
Definition pageRankMap (pages : list (Page F)) : gmap string F :=
  let '(linkGraph, inboundLinks) := buildGraph pages in
  let pageCount := ofLen (length pages) in
  Nat.iter iterations
           (iteration linkGraph inboundLinks pageCount pages)
           (assignAll (fun _ => div one pageCount) pages).

Definition calculatePageRank (crawlResult : CrawlResult F) : CrawlResult F :=
  let pageRank := pageRankMap (Pages crawlResult) in
  withPages
    (map (fun page => withPageRank (at_ pageRank (URL page)) page)
         (Pages crawlResult))
    crawlResult.

(** The sum of the pagerank values over all pages. *)
Definition pageRankSum (crawlResult : CrawlResult F) : F :=
  fold_left (fun s page => add s (PageRank page)) (Pages crawlResult) zero.

End PageRank.

(** [float64] as the code has it. *)
Definition float64Arith : Arith Float64.float64 :=
  {| zero := Float64.zero;
     one := Float64.one;
     dampingFactor := Float64.dampingFactor;
     oneMinusDamping := Float64.oneMinusDamping;
     add := PrimFloat.add;
     mul := PrimFloat.mul;
     div := PrimFloat.div;
     ofLen := fun n => PrimFloat.of_uint63 (Uint63.of_Z (Z.of_nat n));
     positive := fun x => PrimFloat.ltb Float64.zero x |}.

(** The number [n] as a rational. *)
Fixpoint QcOfNat (n : nat) : Qc :=
  match n with
  | O => 0%Qc
  | S n' => (QcOfNat n' + 1)%Qc
  end.

(** Exact rational arithmetic: the same operations without rounding. *)
Definition exactArith : Arith Qc :=
  {| zero := 0%Qc;
     one := 1%Qc;
     dampingFactor := Q2Qc (85 # 100);
     oneMinusDamping := Q2Qc (15 # 100);
     add := Qcplus;
     mul := Qcmult;
     div := Qcdiv;
     ofLen := QcOfNat;
     positive := fun x => if Qclt_le_dec 0%Qc x then true else false |}.

End Analyzer.

(** ** Libraries and environments to run the definitions

    The theorems below hold for every library and every environment.  The
    ones here serve to evaluate the definitions at concrete inputs. *)

Module Samples.
Import GoStrings Models HTML.

(** [scheme://rest], when the string has that shape. *)
Definition splitScheme (s : string) : option (string * string) :=
  let scheme := cutBefore ":" s in
  let rest := string_drop (String.length scheme) s in
  if HasPrefix rest "://" && negb (String.eqb scheme EmptyString)
  then Some (scheme, string_drop 3 rest) else None.

Definition plainParse (raw : string) : option NetURL.URL :=
  let beforeFragment := cutBefore "#" raw in
  let fragment := string_drop (S (String.length beforeFragment)) raw in
  let beforeQuery := cutBefore "?" beforeFragment in
  let query := string_drop (S (String.length beforeQuery)) beforeFragment in
  match splitScheme beforeQuery with
  | Some (scheme, rest) =>
      let host := cutBefore "/" rest in
      Some (NetURL.mkURL scheme host (string_drop (String.length host) rest)
                         query fragment)
  | None => Some (NetURL.mkURL EmptyString EmptyString beforeQuery query fragment)
  end.

Definition render (u : NetURL.URL) : string :=
  (if String.eqb (NetURL.Scheme u) EmptyString then EmptyString
   else NetURL.Scheme u +:+ "://" +:+ NetURL.Host u)
  +:+ NetURL.Path u
  +:+ (if String.eqb (NetURL.RawQuery u) EmptyString then EmptyString
       else "?" +:+ NetURL.RawQuery u)
  +:+ (if String.eqb (NetURL.Fragment u) EmptyString then EmptyString
       else "#" +:+ NetURL.Fragment u).

Definition plainResolve (base ref : NetURL.URL) : string :=
  if negb (String.eqb (NetURL.Scheme ref) EmptyString) then render ref
  else if HasPrefix (NetURL.Path ref) "/" then
    render (NetURL.mkURL (NetURL.Scheme base) (NetURL.Host base)
                         (NetURL.Path ref) (NetURL.RawQuery ref)
                         (NetURL.Fragment ref))
  else
    render (NetURL.mkURL (NetURL.Scheme base) (NetURL.Host base)
                         (NetURL.Path base) (NetURL.RawQuery ref)
                         (NetURL.Fragment ref)).

Definition lastTwoLabels (host : string) : option string :=
  match rev (splitByte "." host) with
  | tld :: name :: _ =>
      if String.eqb tld EmptyString || String.eqb name EmptyString then None
      else Some (name +:+ "." +:+ tld)
  | _ => None
  end.

(** [net/url] and [publicsuffix] on plain URLs: [scheme://host/path] with a
    host [name.tld] under a one-label suffix, no port, no user, no escapes,
    and references that are such URLs or absolute paths. *)
Definition plainLibrary : NetURL.Library :=
  {| NetURL.parseChecked := plainParse;
     NetURL.Hostname := fun u => cutBefore ":" (NetURL.Host u);
     NetURL.resolveReferenceString := plainResolve;
     NetURL.EffectiveTLDPlusOne := lastTwoLabels |}.

(** A parser that answers every body with the given document. *)
Definition parsingTo (doc : Node) : HTML.Library :=
  {| HTML.Parse := fun _ => Some doc;
     HTML.trafilaturaContentText := fun _ => None |}.

Definition element (tag : string) (attrs : list Attribute) (cs : list Node)
  : Node := mkNode ElementNode tag attrs cs.

Definition text (s : string) : Node := mkNode TextNode s [] [].

Definition document (cs : list Node) : Node :=
  mkNode DocumentNode EmptyString [] cs.

(** A robots library that refuses every response: all URLs are allowed. *)
Definition noRobots : Engine.RobotsLibrary :=
  {| Engine.RobotsData := unit;
     Engine.FromResponse := fun _ => None;
     Engine.TestAgent := fun _ _ _ => true |}.

Definition okResponse (body : string) : Engine.Response :=
  Engine.mkResponse 200 "text/html; charset=utf-8" EmptyString (Some body).

(** A server that answers every request with status 200 and the given body;
    the context is never done and the limiter never fails. *)
Definition serving (body : string) (panics : option string)
  : Engine.Environment :=
  {| Engine.respond := fun _ _ => Some (okResponse body);
     Engine.ctxDone := fun _ => false;
     Engine.limiterWaitFails := fun _ => false;
     Engine.randIntn := fun _ _ => 0;
     Engine.now := fun evs => Z.of_nat (length evs) * Rate.Second;
     Engine.parserPanics := fun _ => panics |}.

(** The document of
    [<html><head><meta name=description content=first>
     <meta name=description content=second></head><body></body></html>]. *)
Definition twoDescriptionsBody : string :=
  "<html><head><meta name=description content=first><meta name=description content=second></head><body></body></html>".

Definition twoDescriptions : Node :=
  document
    [element "html" []
       [element "head" []
          [element "meta"
             [mkAttr "name" "description"; mkAttr "content" "first"] [];
           element "meta"
             [mkAttr "name" "description"; mkAttr "content" "second"] []];
        element "body" [] []]].

(** The document of
    [<html><head><title> Docs </title></head><body></body></html>]. *)
Definition paddedTitleBody : string :=
  "<html><head><title> Docs </title></head><body></body></html>".

Definition paddedTitle : Node :=
  document
    [element "html" []
       [element "head" [] [element "title" [] [text " Docs "]];
        element "body" [] []]].

(** The document of
    [<html><head></head><body><a href=/x>Logo<img src=/l.png></a></body></html>]. *)
Definition logoAnchorBody : string :=
  "<html><head></head><body><a href=/x>Logo<img src=/l.png></a></body></html>".

Definition logoImg : Node := element "img" [mkAttr "src" "/l.png"] [].

Definition logoAnchor : Node :=
  element "a" [mkAttr "href" "/x"] [text "Logo"; logoImg].

Definition logoAnchorDoc : Node :=
  document
    [element "html" []
       [element "head" [] [];
        element "body" [] [logoAnchor]]].

(** An anchor whose only child is an image. *)
Definition imageOnlyAnchor : Node :=
  element "a" [mkAttr "href" "/x"] [logoImg].

(** The world in which [Crawl] starts its first worker. *)
Definition startedWorld : Engine.World :=
  Engine.mkWorld
    (Engine.startCrawl (Engine.newCrawlerFor "example.com" 10 10)) [].

End Samples.

(** ** The extractor's results, read off the document in document order *)

Module DocumentOrder.
Import GoStrings Models HTML.

Section WithLibraries.
Context {tables : UnicodeTables} {net : NetURL.Library}.

Definition isElement (tag : string) (n : Node) : bool :=
  isElementNode (Type_ n) && String.eqb (Data n) tag.

(** A [<title>] element with a first child. *)
Definition isTitleWithChild (n : Node) : bool :=
  isElement "title" n
  && match FirstChild n with Some _ => true | None => false end.

(** The trimmed data of the first child of the first [<title>] element
    that has a child; empty when there is none. *)
Definition titleOf (doc : Node) : string :=
  match find isTitleWithChild (preorder doc) with
  | Some n =>
      match FirstChild n with
      | Some c => TrimSpace (Data c)
      | None => EmptyString
      end
  | None => EmptyString
  end.

(** A [<meta>] element with an attribute [name] of value [description]
    (both compared in lower case) and a last attribute [content] whose
    trimmed value is not empty. *)
Definition isDescriptionMeta (n : Node) : bool :=
  isElement "meta" n
  && fst (Crawler.metaScan (Attr n))
  && negb (String.eqb (snd (Crawler.metaScan (Attr n))) EmptyString).

(** The trimmed content of the last such element; empty when there is
    none. *)
Definition descriptionOf (doc : Node) : string :=
  match find isDescriptionMeta (rev (preorder doc)) with
  | Some n => snd (Crawler.metaScan (Attr n))
  | None => EmptyString
  end.

(** An [<a>] element whose last [href] attribute is not empty. *)
Definition isAnchorWithHref (n : Node) : bool :=
  isElement "a" n
  && negb (String.eqb (Crawler.lastAttrVal "href" (Attr n)) EmptyString).

Definition anchorsOf (doc : Node) : list Node :=
  List.filter isAnchorWithHref (preorder doc).

Definition linkOf (baseURL : string) (n : Node) : Link :=
  mkLink (Crawler.lastAttrVal "href" (Attr n)) (Crawler.anchorTextOf baseURL n).

Definition hasTarget (href : string) (ls : list Link) : bool :=
  existsb (fun l => String.eqb (ToURL l) href) ls.

(** Keep a link unless an earlier one has its target. *)
Definition addLink (ls : list Link) (l : Link) : list Link :=
  if hasTarget (ToURL l) ls then ls else ls ++ [l].

Definition firstPerTarget (ls : list Link) : list Link :=
  fold_left addLink ls [].

(** The map [seen] holds the targets of the links emitted so far. *)
Definition seenAgrees (st : Crawler.walkState) : Prop :=
  forall h, default false (Crawler.seen st !! h)
            = hasTarget h (Crawler.links st).

(** An [<img>] element with a [src] attribute. *)
Definition imgSrc (n : Node) : option string :=
  if isElement "img" n then Crawler.firstAttrVal "src" (Attr n) else None.

End WithLibraries.
End DocumentOrder.

(** ** Runs of the engine and what is counted on them *)

Module Runs.
Import GoStrings Models Engine.

(** One worker reaching the locked region: the clock, the path-family of
    its URL, the normalized text and the page it would store. *)
Record AdmissionStep := mkStep {
  stepClock : Z;
  stepFamily : string;
  stepText : string;
  stepPage : Page Float64.float64
}.

(** The mutex makes the locked regions of the workers run one after the
    other, in some order. *)
Definition runAdmissions (steps : list AdmissionStep) (c : Crawler) : Crawler :=
  fold_left
    (fun c s => snd (admission (stepClock s) (stepFamily s) (stepText s)
                               (stepPage s) c))
    steps c.

(** The number of pages stored under a path-family. *)
Definition pagesUnder (f : string) (c : Crawler) : nat :=
  length (default [] (pathPages c !! f)).

(** The number of path-families with at least one stored page. *)
Definition familiesWithPages (c : Crawler) : nat :=
  size (filter (fun kv => length (snd kv) ≠ 0%nat) (pathPages c)).

(** The budgets are respected, and the counters agree with the pages. *)
Record budgetsHold (c : Crawler) : Prop := {
  countsArePages :
    forall f, Z.of_nat (pagesUnder f c) = default 0 (pathCounts c !! f);
  countsArePositive :
    forall f n, pathCounts c !! f = Some n -> 1 <= n;
  perPathBudget :
    forall f, default 0 (pathCounts c !! f) <= Z.max 0 (maxPerPath c);
  pathTypesBudget :
    Z.of_nat (size (pathCounts c)) <= Z.max 0 (maxPathTypes c)
}.

Definition isGo (e : Event) : bool :=
  match e with GoCrawlPage _ _ => true | _ => false end.

Definition isGetOf (url : string) (e : Event) : bool :=
  match e with ClientGet u => String.eqb u url | _ => false end.

Definition isDo (e : Event) : bool :=
  match e with ClientDo _ => true | _ => false end.

Definition countEvents (p : Event -> bool) (evs : list Event) : nat :=
  length (List.filter p evs).

Section WithEnvironment.
Context {robots : RobotsLibrary} {env : Environment}.

(** The robots gate asked for one URL after the other. *)
Definition askRobots (urls : list string) (w : World) : list bool * World :=
  fold_left
    (fun '(answers, w) url =>
       let '(allowed, w) := isAllowedByRobots url w in
       (answers ++ [allowed], w))
    urls ([], w).

End WithEnvironment.

(** The trace only grows. *)
Definition grows (w w' : World) : Prop :=
  exists evs, trace w' = trace w ++ evs.

(** The tokens in the semaphore beyond those taken for the children
    started. *)
Definition ownTokens (w : World) : Z :=
  Z.of_nat (sem (crawler w)) - Z.of_nat (countEvents isGo (trace w)).

End Runs.

(** ** The link graph, read off the pages *)

Module Graph.
Import GoStrings Models Analyzer.

Section Generic.
Context {F : Type}.

(** The targets of the links of the pages with URL [u], as the pages hold
    them. *)
Definition outOf (pages : list (Page F)) (u : string) : list string :=
  flat_map
    (fun p => if String.eqb (URL p) u then map ToURL (Links p) else [])
    pages.

(** The URLs of the pages with a link whose target is [t], once per link. *)
Definition inOf (pages : list (Page F)) (t : string) : list string :=
  flat_map
    (fun p =>
       flat_map (fun l => if String.eqb (ToURL l) t then [URL p] else [])
                (Links p))
    pages.

(** The pages have different URLs, there is a page, every page has a link,
    and the target of every link is, as a string, the URL of a page. *)
Record closedGraph (pages : list (Page F)) : Prop := {
  urlsDiffer : NoDup (map URL pages);
  somePage : pages <> [];
  noDangling : forall p, p ∈ pages -> Links p <> [];
  targetsArePages :
    forall p l, p ∈ pages -> l ∈ Links p -> ToURL l ∈ map URL pages
}.

End Generic.

(** Sums of rationals over a list. *)
Definition qsum {A : Type} (f : A -> Qc) (l : list A) : Qc :=
  fold_right (fun x s => (f x + s)%Qc) 0%Qc l.

(** What a page on [inbound] hands on: its rank, damped, over the number of
    its links. *)
Definition handedOn (linkGraph : gmap string (list string))
    (pageRank : gmap string Qc) (inbound : string) : Qc :=
  if positive (Arith := exactArith)
              (QcOfNat (length (default [] (linkGraph !! inbound))))
  then (dampingFactor (Arith := exactArith)
        * at_ (arith := exactArith) pageRank inbound
        / QcOfNat (length (default [] (linkGraph !! inbound))))%Qc
  else 0%Qc.

(** The sum of the ranks a map holds for the pages. *)
Definition sumAt (pages : list (Page Qc)) (pageRank : gmap string Qc) : Qc :=
  qsum (fun p => at_ (arith := exactArith) pageRank (URL p)) pages.

Definition pageOf {F : Type} (zero : F) (url : string) (targets : list string)
  : Page F :=
  mkPage url "text" (map (fun t => mkLink t "N/A") targets) "x" "x" "N/A" zero.

Definition resultOf {F : Type} (pages : list (Page F)) : CrawlResult F :=
  mkCrawlResult "example.com" pages (Z.of_nat (length pages)) 0 [].

(** Two pages, the first with a link to the second, the second without
    links. *)
Definition danglingPages {F : Type} (zero : F) : list (Page F) :=
  [pageOf zero "http://example.com/" ["http://example.com/about"];
   pageOf zero "http://example.com/about" []].

(** Two pages with a link to each other. *)
Definition cyclePages {F : Type} (zero : F) : list (Page F) :=
  [pageOf zero "http://example.com/" ["http://example.com/about"];
   pageOf zero "http://example.com/about" ["http://example.com/"]].

(** The document of
    [<html><head></head><body><a href=/page1>Page 1</a></body></html>] and
    the two pages of a crawl that starts there. *)
Definition relativeLinkBody : string :=
  "<html><head></head><body><a href=/page1>Page 1</a></body></html>".

Definition relativeLinkDoc : HTML.Node :=
  Samples.document
    [Samples.element "html" []
       [Samples.element "head" [] [];
        Samples.element "body" []
          [Samples.element "a" [HTML.mkAttr "href" "/page1"]
             [Samples.text "Page 1"]]]].

Definition relativeLinkPages : list (Page Float64.float64) :=
  [mkPage "http://example.com/" "page 1"
     (Crawler.exLinks
        (Crawler.extractTextLinksAndMetadata
           (tables := asciiTables) (net := Samples.plainLibrary)
           (html := Samples.parsingTo relativeLinkDoc)
           relativeLinkBody "http://example.com/" "example.com"))
     "x" "x" "N/A" Float64.zero;
   mkPage "http://example.com/page1" "page 1" [] "x" "x" "N/A" Float64.zero].

End Graph.

(** ** The pagerank values as real numbers *)

Module RankValues.
Import Reals Models Analyzer Graph Binary64.
Local Open Scope R_scope.

(** The real number the map holds at [u]. *)
Definition valueAt (pageRank : gmap string Float64.float64) (u : string) : R :=
  valueOf (at_ (arith := float64Arith) pageRank u).

(** The sum of the values the map holds for the pages. *)
Definition sumOfValues (pages : list (Page Float64.float64))
    (pageRank : gmap string Float64.float64) : R :=
  rsum (fun p => valueAt pageRank (URL p)) pages.

(** What the page at [inbound] hands on over one of its links, without
    rounding. *)
Definition handsOn (pages : list (Page Float64.float64))
    (pageRank : gmap string Float64.float64) (inbound : string) : R :=
  valueOf Float64.dampingFactor * valueAt pageRank inbound
  / INR (length (outOf pages inbound)).

(** The new rank of a page, without rounding. *)
Definition unroundedRank (pages : list (Page Float64.float64))
    (pageRank : gmap string Float64.float64) (p : Page Float64.float64) : R :=
  valueOf Float64.oneMinusDamping / INR (length pages)
  + rsum (handsOn pages pageRank) (inOf pages (URL p)).

(** What the loop over the inbound links needs of a page that links: it
    has between one and 1,000,000 links, and the map holds for it a positive
    number with a mantissa of 53 bits between [1e-7] and [2]. *)
Definition sound (pages : list (Page Float64.float64))
    (pageRank : gmap string Float64.float64) (inbound : string) : Prop :=
  (1 <= Z.of_nat (length (outOf pages inbound)) <= 1000000)%Z
  /\ normalPositive (at_ (arith := float64Arith) pageRank inbound)
  /\ / 10000000 <= valueAt pageRank inbound <= 2.

(** What every round keeps: the map holds for every page a positive number
    with a mantissa of 53 bits, not below [1e-7], and the values sum to one
    up to [1e-8]. *)
Definition ranked (pages : list (Page Float64.float64))
    (pageRank : gmap string Float64.float64) : Prop :=
  (forall p, p ∈ pages ->
     exists x : Float64.float64,
       pageRank !! URL p = Some x
       /\ normalPositive x /\ / 10000000 <= valueOf x)
  /\ 1 - / 100000000 <= sumOfValues pages pageRank <= 1 + / 100000000.

(** The sum of the pagerank values of the pages, as a real number. *)
Definition realPageRankSum (crawlResult : CrawlResult Float64.float64) : R :=
  rsum (fun p => valueOf (PageRank p)) (Pages crawlResult).

End RankValues.

(** ** The words of the specification, where they differ from the code *)

Module SpecWords.
Import GoStrings Models HTML.

Fixpoint takeWhileByte (p : ascii -> bool) (s : string) : string :=
  match s with
  | EmptyString => EmptyString
  | String c s' => if p c then String c (takeWhileByte p s') else EmptyString
  end.

Definition isOneOf (bytes : string) (c : ascii) : bool :=
  Contains bytes (String c EmptyString).

(** The path of a URL, by the components of RFC 3986, appendix B:
    [scheme ":"], ["//" authority], path, ["?" query], ["#" fragment]. *)
Definition pathOf (u : string) : string :=
  let scheme := takeWhileByte (fun c => negb (isOneOf ":/?#" c)) u in
  let afterScheme :=
    if negb (String.eqb scheme EmptyString)
       && HasPrefix (string_drop (String.length scheme) u) ":"
    then string_drop (S (String.length scheme)) u else u in
  let afterAuthority :=
    if HasPrefix afterScheme "//" then
      let r := string_drop 2 afterScheme in
      string_drop
        (String.length (takeWhileByte (fun c => negb (isOneOf "/?#" c)) r)) r
    else afterScheme in
  takeWhileByte (fun c => negb (isOneOf "?#" c)) afterAuthority.

(** "The path of u ends in one of the extensions (compared
    case-insensitively) or u contains the character #". *)
Definition pathEndsInNonWebExtOrHasFragment {tables : UnicodeTables} (u : string) : Prop :=
  (exists ext p, ext ∈ Crawler.nonWebExts /\ ToLower (pathOf u) = p +:+ ext)
  \/ (exists a b, u = a +:+ "#" +:+ b).

(** "The first [<title>] element's first text node; when it is absent or
    empty, the string x". *)
Definition firstTitleText (doc : Node) : string :=
  match find (DocumentOrder.isElement "title") (preorder doc) with
  | Some n =>
      match find (fun c => isTextNode (Type_ c)) (children n) with
      | Some c => Crawler.orX (Data c)
      | None => "x"
      end
  | None => "x"
  end.

(** "The content of the first [<meta name=description>] element (name
    matched case-insensitively); when it is absent or empty, the string x". *)
Definition isMetaNamedDescription {tables : UnicodeTables} (n : Node) : bool :=
  DocumentOrder.isElement "meta" n
  && existsb (fun a => String.eqb (ToLower (Key a)) "name"
                       && String.eqb (ToLower (Val a)) "description")
             (Attr n).

Definition firstMetaDescription {tables : UnicodeTables} (doc : Node) : string :=
  match find isMetaNamedDescription (preorder doc) with
  | Some n =>
      match find (fun a => String.eqb (ToLower (Key a)) "content") (Attr n) with
      | Some a => Crawler.orX (Val a)
      | None => "x"
      end
  | None => "x"
  end.

(** "When the anchor's descendant is an [<img>] the anchor text is the img
    src resolved against the page URL". *)
Definition imgAnchorsCarryResolvedSrc {tables : UnicodeTables} {net : NetURL.Library}
    (baseURL : string) (doc : Node) : Prop :=
  forall a img src,
    a ∈ DocumentOrder.anchorsOf doc ->
    img ∈ flat_map preorder (children a) ->
    DocumentOrder.imgSrc img = Some src ->
    Crawler.anchorTextOf baseURL a = Crawler.resolveURL baseURL src.

(** "robots.txt is fetched at most once during a crawl". *)
Definition robotsFetchedAtMostOnce (c : Engine.Crawler) (evs : list Engine.Event)
  : Prop :=
  (Runs.countEvents (Runs.isGetOf (Engine.robotsURLOf c)) evs <= 1)%nat.

(** "A panic of the worker is caught": the program runs on. *)
Definition workerPanicIsCaught
    {tables : UnicodeTables} {net : NetURL.Library} {html : HTML.Library}
    {robots : Engine.RobotsLibrary} {env : Engine.Environment}
    (pageURL : string) (depth : Z) (w : Engine.World) : Prop :=
  exists w', Engine.goCrawlPage pageURL depth w = Engine.Running w'.

(** "The sum of the pagerank values over all pages differs from 1.0 by at
    most 1e-6". *)
Definition sumsToOne (crawlResult : CrawlResult Float64.float64) : Prop :=
  PrimFloat.leb
    (PrimFloat.abs
       (PrimFloat.sub
          (Analyzer.pageRankSum (arith := Analyzer.float64Arith) crawlResult)
          Float64.one))
    Float64.tolerance
  = true.

End SpecWords.

(** * More of the two packages

    The rest of [pkg/crawler] and of the analyzer, and what is needed to
    state what they do. *)

(** ** Text without bytes from 0x80 on *)

Module AsciiText.
Import GoStrings.

(** [s] without its leading ASCII spaces. *)
Fixpoint trimLeftSpace (s : string) : string :=
  match s with
  | EmptyString => EmptyString
  | String c s' => if asciiSpace c then trimLeftSpace s' else s
  end.

(** [s] without its leading and its trailing ASCII spaces. *)
Definition trimSpaces (s : string) : string :=
  string_rev (trimLeftSpace (string_rev (trimLeftSpace s))).

(** The bytes [normalizeText] can return: [a-z], [0-9], [_], the five
    spaces of [\s] and [. , ! ? -]. *)
Definition isNormalByte (c : ascii) : bool :=
  Crawler.keptByNormalize c && negb (isUpperByte c).

(** [n] times the byte [b]. *)
Fixpoint repeatByte (b : ascii) (n : nat) : string :=
  match n with
  | O => EmptyString
  | S n' => String b (repeatByte b n')
  end.

End AsciiText.

(** ** [pkg/crawler]: [Crawl], [processQueue] and the steps of a worker *)

Module Scheduler.
Import GoStrings Models Engine.

Definition withLinkQueue (q : list LinkQueueEntry) (c : Crawler) : Crawler :=
  mkCrawler (domain c) (visited c) (pathCounts c) (pathPages c) (pathDelays c)
            (sem c) (wg c) (maxPerPath c) (maxPathTypes c) (totalCrawled c)
            (active c) (limiter c) q.

(** [Crawl] up to the start of the first worker:
    [c.wg.Add(1); c.sem <- struct{}{}; go c.crawlPage(startURL, 0)]. *)
Definition beginCrawl (startURL : string) (w : World) : World :=
  emit (GoCrawlPage startURL 0) (onCrawler startCrawl w).

(** What a round of the loop of [processQueue] finds when it looks at the
    other goroutines: whether [c.ctx] is done at the first [select] and at
    the second, and which case the second [select] takes when both the send
    on [c.sem] and the receive from [c.ctx.Done()] can proceed. *)
Record RoundView := mkView {
  doneAtTop : bool;
  doneAtSelect : bool;
  sendFirst : bool
}.

(** How a round ends: [processQueue] returns, it blocks in
    [c.queueCond.Wait()] on the empty queue, or it goes on to the next
    round. *)
Inductive Round :=
| Returned (w : World)
| Waiting
| Continues (w : World).

(** One round of the loop [for] of [processQueue]. *)
Definition processQueueRound (v : RoundView) (w : World) : Round :=
  if doneAtTop v then Returned w
  else
    match linkQueue (crawler w) with
    | [] => Waiting
    | entry :: rest =>
        let w := onCrawler (withLinkQueue rest) w in
        let canSend := (sem (crawler w) <? semCapacity)%nat in
        if canSend && (negb (doneAtSelect v) || sendFirst v) then
          Continues (emit (GoCrawlPage (entryURL entry) (entryDepth entry))
                          (onCrawler acquireForChild w))
        else if doneAtSelect v then Returned w
        else
          Continues (emit (Sleep (100 * Rate.Millisecond))
                          (onCrawler (pushBack entry) w))
    end.

Section Steps.
Context {tables : UnicodeTables} {net : NetURL.Library} {html : HTML.Library}
        {robots : RobotsLibrary} {env : Environment}.

(** The page a worker builds from a response with a body. *)
Definition pageOfResponse (pageURL : string) (r : Response) (body domain : string)
  : Page Float64.float64 :=
  let ex := Crawler.extractTextLinksAndMetadata body pageURL domain in
  mkPage pageURL (Crawler.normalizeText (Crawler.exText ex)) (Crawler.exLinks ex)
         (Crawler.exTitle ex) (Crawler.exDesc ex)
         (if String.eqb (ETagHeader r) EmptyString then "N/A" else ETagHeader r)
         Float64.zero.

(** The links a worker follows: a webpage URL with a host whose eTLD+1 is
    the domain of the crawl. *)
Definition followable (domain u : string) : Prop :=
  Crawler.isWebpageURL u = true
  /\ exists parsed,
       NetURL.Parse u = Some parsed
       /\ NetURL.Hostname parsed <> EmptyString
       /\ NetURL.EffectiveTLDPlusOne (NetURL.Hostname parsed) = Some domain.

(** The events of the worker for [pageURL] other than the start of a
    child. *)
Definition ownEvent (pageURL : string) (e : Event) : bool :=
  match e with
  | Sleep _ | ClientGet _ | LimiterWait | Signal => true
  | ClientDo u => String.eqb u pageURL
  | GoCrawlPage _ _ => false
  end.

(** The steps of the body of [crawlPage pageURL depth], one at a time. *)
Inductive workerStep (pageURL : string) (depth : Z) : World -> World -> Prop :=
| step_emit (e : Event) (w : World) :
    ownEvent pageURL e = true ->
    workerStep pageURL depth w (emit e w)
| step_visit (w : World) :
    pageURL ∉ visited (crawler w) ->
    workerStep pageURL depth w
      (onCrawler (fun c => withVisited ({[pageURL]} ∪ visited c) c) w)
| step_admit (r : Response) (body pathType : string) (w : World) :
    Body r = Some body ->
    Crawler.getPathType pageURL = Go.Returns pathType ->
    pageURL ∈ visited (crawler w) ->
    let page := pageOfResponse pageURL r body (domain (crawler w)) in
    workerStep pageURL depth w
      (mkWorld (snd (admission (now (trace w)) pathType (Text page) page
                               (crawler w)))
               (trace w))
| step_go (link : Link) (w : World) :
    followable (domain (crawler w)) (Crawler.resolveURL pageURL (ToURL link)) ->
    (sem (crawler w) < semCapacity)%nat ->
    workerStep pageURL depth w
      (emit (GoCrawlPage (Crawler.resolveURL pageURL (ToURL link)) (depth + 1))
            (onCrawler acquireForChild w))
| step_queue (link : Link) (w : World) :
    followable (domain (crawler w)) (Crawler.resolveURL pageURL (ToURL link)) ->
    (semCapacity <= sem (crawler w))%nat ->
    workerStep pageURL depth w
      (emit Signal
            (onCrawler (pushBack (mkEntry (Crawler.resolveURL pageURL (ToURL link))
                                          (depth + 1))) w)).

(** What a worker for [pageURL] at [depth] has started and queued between
    [w] and [w']: children at the next depth, each for a link of [links]
    that can be followed; the domain of the crawl stays, and nothing leaves
    the queue. *)
Definition childrenOf (pageURL : string) (depth : Z) (links : list Link)
    (w w' : World) : Prop :=
  domain (crawler w') = domain (crawler w)
  /\ exists evs es,
       trace w' = trace w ++ evs
       /\ linkQueue (crawler w') = linkQueue (crawler w) ++ es
       /\ (forall u d,
              GoCrawlPage u d ∈ evs ->
              d = depth + 1
              /\ followable (domain (crawler w)) u
              /\ exists l, l ∈ links /\ u = Crawler.resolveURL pageURL (ToURL l))
       /\ (forall e,
              e ∈ es ->
              entryDepth e = depth + 1
              /\ followable (domain (crawler w)) (entryURL e)
              /\ exists l,
                  l ∈ links /\ entryURL e = Crawler.resolveURL pageURL (ToURL l)).

End Steps.

(** The number of pages in [c.pathPages] and the sum of [c.pathCounts]. *)
Definition storedPages (c : Crawler) : Z :=
  map_fold (fun _ pages n => Z.of_nat (length pages) + n) 0 (pathPages c).

Definition countedPages (c : Crawler) : Z :=
  map_fold (fun _ count n => count + n) 0 (pathCounts c).

Section Stored.
Context {tables : UnicodeTables} {net : NetURL.Library}.

(** What holds of a page stored under the path-family [f]. *)
Record wellStored (c : Crawler) (f : string) (p : Page Float64.float64)
  : Prop := {
  storedVisited : URL p ∈ visited c;
  storedFamily : Crawler.getPathType (URL p) = Go.Returns f;
  storedText : Text p <> EmptyString;
  storedNormal : Crawler.normalizeText (Text p) = Text p;
  storedETag : ETag p <> EmptyString;
  storedTitle : MetaTitle p <> EmptyString;
  storedDescription : MetaDescription p <> EmptyString;
  storedLinks :
    forall l, l ∈ Links p -> ToURL l <> EmptyString /\ AnchorText l <> EmptyString
}.

Definition allWellStored (c : Crawler) : Prop :=
  forall f p, p ∈ default [] (pathPages c !! f) -> wellStored c f p.

End Stored.

(** The counter [totalCrawled], the pages stored and the counters of the
    path-families tell the same number. *)
Record countersAgree (c : Crawler) : Prop := {
  totalIsStored : totalCrawled c = storedPages c;
  totalIsCounted : totalCrawled c = countedPages c
}.

(** A server that answers no request: every [c.client.Do] fails. *)
Definition silentServer : Environment :=
  {| respond := fun _ _ => None;
     ctxDone := fun _ => false;
     limiterWaitFails := fun _ => false;
     randIntn := fun _ _ => 0;
     now := fun evs => Z.of_nat (length evs) * Rate.Second;
     parserPanics := fun _ => None |}.

End Scheduler.

(** ** [pkg/crawler]: the contact lists of [extractTextLinksAndMetadata] *)

Module Contacts.
Import GoStrings.

(** The five patterns the function compiles: for email addresses, phone
    numbers, WhatsApp links, X or Twitter handles and LinkedIn profiles. *)
Inductive Pattern :=
| emailRegex | phoneRegex | whatsappRegex | twitterRegex | linkedinRegex.

(** Go's [regexp]. *)
Class Regexp := {
  (** [re.FindAllString(s, -1)] for the pattern [re] *)
  FindAllString : Pattern -> string -> list string
}.

(** The loop [for _, match := range matches] with its map [seen]. *)
Definition keepFirst (matches : list string) : list string :=
  snd (fold_left
         (fun '(seen, result) m =>
            if negb (default false (seen !! m))
            then (<[m := true]> seen, result ++ [m])
            else (seen, result))
         matches ((∅ : gmap string bool), [])).

(** The map [seen] holds the strings of the result. *)
Definition seenIs (seen : gmap string bool) (result : list string) : Prop :=
  forall s, default false (seen !! s) = true <-> s ∈ result.

Record ContactLists := mkContacts {
  emails : list string;
  phones : list string;
  whatsapps : list string;
  xHandles : list string;
  linkedins : list string
}.

(** The last five results of [extractTextLinksAndMetadata]: [nil] five
    times when [html.Parse] fails, and else the matches of the five
    patterns in the text the function extracted, a semicolon and the
    body. *)
Definition extractContacts
    {tables : UnicodeTables} {net : NetURL.Library} {html : HTML.Library}
    {regexp : Regexp} (body baseURL domain : string) : ContactLists :=
  let text :=
    Crawler.exText (Crawler.extractTextLinksAndMetadata body baseURL domain) in
  match HTML.Parse body with
  | None => mkContacts [] [] [] [] []
  | Some _ =>
      let rawBody := body in
      let combinedText := text +:+ ";" +:+ rawBody in
      {| emails := keepFirst (FindAllString emailRegex combinedText);
         phones := keepFirst (FindAllString phoneRegex combinedText);
         whatsapps := keepFirst (FindAllString whatsappRegex combinedText);
         xHandles := keepFirst (FindAllString twitterRegex combinedText);
         linkedins := keepFirst (FindAllString linkedinRegex combinedText) |}
  end.

End Contacts.

(** ** [pkg/extractor] *)

Module Extractor.
Import GoStrings HTML.

Record Link := mkLink {
  URL : string;
  AnchorText : string
}.

(** [uniqueStrings] *)
Definition uniqueStrings (strs : list string) : list string :=
  snd (fold_left
         (fun '(seen, result) s =>
            if negb (default false (seen !! s))
            then (<[s := true]> seen, result ++ [s])
            else (seen, result))
         strs ((∅ : gmap string bool), [])).

(** [strings.ReplaceAll(s, old, "")] for a one-byte [old]. *)
Fixpoint deleteByte (old : ascii) (s : string) : string :=
  match s with
  | EmptyString => EmptyString
  | String c s' =>
      if Ascii.eqb c old then deleteByte old s' else String c (deleteByte old s')
  end.

Definition cleanPhoneNumber (phone : string) : string :=
  let cleaned := deleteByte " " phone in
  let cleaned := deleteByte "-" cleaned in
  let cleaned := deleteByte "(" cleaned in
  let cleaned := deleteByte ")" cleaned in
  let cleaned := deleteByte "." cleaned in
  cleaned.

(** The function [extractText] of the package: the data of the text nodes
    below [n], one after the other. *)
Fixpoint extractText (n : Node) : string :=
  match n with
  | mkNode ty data _ cs =>
      if isTextNode ty then data
      else fold_left (fun text c => text +:+ extractText c) cs EmptyString
  end.

(** [strings.Index(s, substr)]: the first position where [substr] starts,
    or -1. *)
Fixpoint Index (s substr : string) : Z :=
  if HasPrefix s substr then 0
  else
    match s with
    | EmptyString => -1
    | String _ s' => let i := Index s' substr in if i <? 0 then -1 else i + 1
    end.

(** The function [resolveURL] of the package, on strings alone. *)
Definition resolveURL (base href : string) : string :=
  if HasPrefix href "http://" || HasPrefix href "https://" then href
  else if HasPrefix href "//" then "https:" +:+ href
  else
    let absolutePath :=
      if HasPrefix href "/" then
        let idx := Index base "://" in
        if idx >? 0 then
          let idx2 := Index (string_drop (Z.to_nat (idx + 3)) base) "/" in
          if idx2 >? 0
          then Some (string_take (Z.to_nat (idx + 3 + idx2)) base +:+ href)
          else Some (base +:+ href)
        else None
      else None in
    match absolutePath with
    | Some resolved => resolved
    | None =>
        let base := if negb (HasSuffix base "/") then base +:+ "/" else base in
        base +:+ href
    end.

Section WithLibraries.
Context {tables : UnicodeTables} {html : HTML.Library}.

(** What the closure of [ExtractLinks] does at one node before it
    descends. *)
Definition visitLink (baseURL : string) (n : Node) (links : list Link)
  : list Link :=
  if isElementNode (Type_ n) && String.eqb (Data n) "a" then
    let href := Crawler.lastAttrVal "href" (Attr n) in
    let text :=
      match FirstChild n with
      | Some _ => extractText n
      | None => EmptyString
      end in
    if negb (String.eqb href EmptyString)
    then links ++ [mkLink (resolveURL baseURL href) (TrimSpace text)]
    else links
  else links.

Fixpoint walkLinks (baseURL : string) (n : Node) (links : list Link)
  : list Link :=
  match n with
  | mkNode _ _ _ cs =>
      fold_left (fun ls c => walkLinks baseURL c ls) cs (visitLink baseURL n links)
  end.

(** [ExtractLinks]; [None] is a non-nil error. *)
Definition ExtractLinks (htmlContent baseURL : string) : option (list Link) :=
  match HTML.Parse htmlContent with
  | None => None
  | Some doc => Some (walkLinks baseURL doc [])
  end.

(** The loop over the attributes of a [<meta>] element in
    [ExtractMetadata]. *)
Definition metaNameContent (attrs : list Attribute) : string * string :=
  fold_left
    (fun '(name, content) attr =>
       (if String.eqb (Key attr) "name" && String.eqb (Val attr) "description"
        then Val attr else name,
        if String.eqb (Key attr) "content" then Val attr else content))
    attrs (EmptyString, EmptyString).

(** What the closure of [ExtractMetadata] does at one node: the pair is
    [(title, description)]. *)
Definition visitMetadata (n : Node) (found : string * string) : string * string :=
  if isElementNode (Type_ n) then
    match (if String.eqb (Data n) "title" then FirstChild n else None) with
    | Some c => (Data c, snd found)
    | None =>
        if String.eqb (Data n) "meta" then
          let '(name, content) := metaNameContent (Attr n) in
          if String.eqb name "description" then (fst found, content) else found
        else found
    end
  else found.

Fixpoint walkMetadata (n : Node) (found : string * string) : string * string :=
  match n with
  | mkNode _ _ _ cs =>
      fold_left (fun f c => walkMetadata c f) cs (visitMetadata n found)
  end.

(** [ExtractMetadata]; [None] is a non-nil error. *)
Definition ExtractMetadata (htmlContent : string) : option (string * string) :=
  match HTML.Parse htmlContent with
  | None => None
  | Some doc => Some (walkMetadata doc (EmptyString, EmptyString))
  end.

End WithLibraries.

(** The elements [ExtractMetadata] reads. *)
Definition isTitleWithChild (n : Node) : bool :=
  isElementNode (Type_ n) && String.eqb (Data n) "title"
  && match FirstChild n with Some _ => true | None => false end.

Definition isDescriptionMeta (n : Node) : bool :=
  isElementNode (Type_ n) && String.eqb (Data n) "meta"
  && String.eqb (fst (metaNameContent (Attr n))) "description".

(** The title and the description [ExtractMetadata] reads off a document:
    those of the last element of either kind, in document order. *)
Definition lastTitle (doc : Node) : string :=
  match find isTitleWithChild (rev (preorder doc)) with
  | Some n =>
      match FirstChild n with
      | Some c => Data c
      | None => EmptyString
      end
  | None => EmptyString
  end.

Definition lastDescription (doc : Node) : string :=
  match find isDescriptionMeta (rev (preorder doc)) with
  | Some n => snd (metaNameContent (Attr n))
  | None => EmptyString
  end.

(** The link [ExtractLinks] makes of an [<a>] element. *)
Definition linkOf {tables : UnicodeTables} (baseURL : string) (a : Node) : Link :=
  mkLink (resolveURL baseURL (Crawler.lastAttrVal "href" (Attr a)))
         (TrimSpace (extractText a)).

(** The bytes [cleanPhoneNumber] removes. *)
Definition isSeparator (c : ascii) : bool :=
  Ascii.eqb c " " || Ascii.eqb c "-" || Ascii.eqb c "(" || Ascii.eqb c ")"
  || Ascii.eqb c ".".

Definition isDigit (c : ascii) : bool := (48 <=? byte c)%N && (byte c <=? 57)%N.

End Extractor.

(** ** The analyzer: the scores, the findings and the report *)

Module Scoring.
Import GoStrings.

(** The arithmetic of [float64] the scores use.  The code computes in
    [float64]; the same functions are also run on exact rationals. *)
Class Numbers (F : Type) := {
  (** [float64(n)] for an [int], and the constants that are whole numbers *)
  ofInt : Z -> F;
  (** the constants [0.5], [0.3] and [0.2] *)
  half : F;
  threeTenths : F;
  twoTenths : F;
  add : F -> F -> F;
  sub : F -> F -> F;
  mul : F -> F -> F;
  div : F -> F -> F;
  (** [x <= y] and [x < y] *)
  leb : F -> F -> bool;
  ltb : F -> F -> bool;
  (** [math.Max] and [math.Min] *)
  max : F -> F -> F;
  min : F -> F -> F
}.

(** [models.Page] with the fields the analyzer reads besides those of
    [Models.Page]. *)
Record Page (F : Type) := mkPage {
  page : Models.Page F;
  Emails : list string;
  Phones : list string;
  StatusCode : Z
}.
Arguments mkPage {F}.
Arguments page {F}.
Arguments Emails {F}.
Arguments Phones {F}.
Arguments StatusCode {F}.

(** [models.CrawlResult] with such pages. *)
Record CrawlResult (F : Type) := mkCrawlResult {
  Domain : string;
  Pages : list (Page F);
  TotalPages : Z
}.
Arguments mkCrawlResult {F}.
Arguments Domain {F}.
Arguments Pages {F}.
Arguments TotalPages {F}.

Record OverallScores (F : Type) := mkScores {
  Technical : F;
  Content : F;
  Performance : F;
  Security : F;
  Overall : F
}.
Arguments mkScores {F}.
Arguments Technical {F}.
Arguments Content {F}.
Arguments Performance {F}.
Arguments Security {F}.
Arguments Overall {F}.

Module Finding.
Record t := mk {
  Category : string;
  Type_ : string;
  Description : string;
  Severity : string;
  Details : string
}.
End Finding.

Module Recommendation.
Record t := mk {
  Priority : string;
  Category : string;
  Action : string;
  Impact : string;
  Effort : string;
  Description : string
}.
End Recommendation.

Record ExecutiveSummary (F : Type) := mkSummary {
  OverallGrade : string;
  OverallScore : F;
  Strengths : list string;
  Weaknesses : list string;
  TopPriorities : list string;
  EstimatedImpact : string
}.
Arguments mkSummary {F}.
Arguments OverallGrade {F}.
Arguments OverallScore {F}.
Arguments Strengths {F}.
Arguments Weaknesses {F}.
Arguments TopPriorities {F}.
Arguments EstimatedImpact {F}.

(** [models.SEOReport] without its [GeneratedAt]. *)
Record SEOReport (F : Type) := mkReport {
  ReportDomain : string;
  Summary : ExecutiveSummary F;
  Scores : OverallScores F;
  KeyFindings : list Finding.t;
  Recommendations : list Recommendation.t;
  DataSources : list string
}.
Arguments mkReport {F}.
Arguments ReportDomain {F}.
Arguments Summary {F}.
Arguments Scores {F}.
Arguments KeyFindings {F}.
Arguments Recommendations {F}.
Arguments DataSources {F}.

(** The analyzer's [Config]. *)
Record Config := mkConfig {
  EnableAI : bool;
  OpenAIKey : string;
  AnalyzePageRank : bool;
  AnalyzeContent : bool;
  AnalyzeTechnical : bool;
  AnalyzePerformance : bool
}.

(** The configuration of [New]. *)
Definition New : Config :=
  {| EnableAI := false; OpenAIKey := EmptyString;
     AnalyzePageRank := true; AnalyzeContent := true;
     AnalyzeTechnical := true; AnalyzePerformance := true |}.

(** A list in the order of a key of its elements. *)
Fixpoint sortedBy {A : Type} (key : A -> Z) (l : list A) : Prop :=
  match l with
  | [] => True
  | x :: l' => Forall (fun y => key x <= key y) l' /\ sortedBy key l'
  end.

(** What the analyzer takes from libraries. *)
Class Library := {
  (** [strings.FieldsFunc(s, unicode.IsSpace)], which [strings.Fields]
      calls when [s] has a byte from 0x80 on *)
  fieldsFuncIsSpace : string -> list string;
  (** the order in which [range] visits the keys of a map *)
  rangeOrder : list string -> list string;
  (** [sort.Slice] with a [less] that compares a key of its elements; the
      sort is not stable *)
  sortSliceBy : forall A : Type, (A -> Z) -> list A -> list A
}.

(** What Go promises of [range] and of [sort.Slice]: every key is visited
    once, and the slice is permuted into the order of [less]. *)
Record lawful (library : Library) : Prop := {
  rangeOrder_permutation : forall keys, rangeOrder keys ≡ₚ keys;
  sortSliceBy_permutation :
    forall (A : Type) (key : A -> Z) (l : list A), sortSliceBy A key l ≡ₚ l;
  sortSliceBy_sorted :
    forall (A : Type) (key : A -> Z) (l : list A),
      sortedBy key (sortSliceBy A key l)
}.

(** The loop with which [strings.Fields] counts the fields of ASCII
    text. *)
Fixpoint countFields (wasSpace : bool) (s : string) : nat :=
  match s with
  | EmptyString => O
  | String c s' =>
      ((if wasSpace && negb (asciiSpace c) then 1 else 0)
       + countFields (asciiSpace c) s')%nat
  end.

(** [%d] *)
Definition decimal (n : Z) : string :=
  DecimalString.NilZero.string_of_int (Z.to_int n).

Section Functions.
Context {F : Type} {numbers : Numbers F} {library : Library}.

(** [len(strings.Fields(s))] *)
Definition wordCount (s : string) : Z :=
  if allBytes isASCIIByte s then Z.of_nat (countFields true s)
  else Z.of_nat (length (fieldsFuncIsSpace s)).

Definition len (s : string) : Z := Z.of_nat (String.length s).

(** The body of the loop of [analyzeContent]: the score and the factors. *)
Definition contentOfPage (acc : F * Z) (p : Page F) : F * Z :=
  let '(score, factors) := acc in
  let score :=
    if (len (Models.MetaTitle (page p)) >? 0)
       && (len (Models.MetaTitle (page p)) <=? 60)
    then add score (ofInt 1)
    else if len (Models.MetaTitle (page p)) >? 0 then add score half
    else score in
  let factors := factors + 1 in
  let score :=
    if (len (Models.MetaDescription (page p)) >=? 120)
       && (len (Models.MetaDescription (page p)) <=? 160)
    then add score (ofInt 1)
    else if len (Models.MetaDescription (page p)) >? 0 then add score half
    else score in
  let factors := factors + 1 in
  let wordCount := wordCount (Models.Text (page p)) in
  let score :=
    if wordCount >=? 300 then add score (ofInt 1)
    else if wordCount >=? 100 then add score half
    else score in
  let factors := factors + 1 in
  (score, factors).

Definition analyzeContent (crawlResult : CrawlResult F) : F :=
  let '(score, factors) :=
    fold_left contentOfPage (Pages crawlResult) (ofInt 0, 0) in
  if factors =? 0 then ofInt 0
  else mul (div score (ofInt factors)) (ofInt 100).

(** [titles[page.MetaTitle]++] over the pages. *)
Definition titleCounts (pages : list (Page F)) : gmap string Z :=
  fold_left
    (fun titles p =>
       <[Models.MetaTitle (page p)
         := default 0 (titles !! Models.MetaTitle (page p)) + 1]> titles)
    pages ∅.

Definition analyzeTechnical (crawlResult : CrawlResult F) : F :=
  let score := ofInt 0 in
  let factors := 0 in
  let titles := titleCounts (Pages crawlResult) in
  let duplicateTitles :=
    Z.of_nat (size (filter (fun kv => 1 <? snd kv) titles)) in
  let score :=
    if duplicateTitles =? 0 then add score (ofInt 1)
    else add score
             (max (ofInt 0)
                  (sub (ofInt 1)
                       (div (ofInt duplicateTitles)
                            (ofInt (Z.of_nat (size titles)))))) in
  let factors := factors + 1 in
  let brokenLinks :=
    Z.of_nat (length (List.filter (fun p => StatusCode p >=? 400)
                                  (Pages crawlResult))) in
  let score :=
    if brokenLinks =? 0 then add score (ofInt 1)
    else add score
             (max (ofInt 0)
                  (sub (ofInt 1)
                       (div (ofInt brokenLinks)
                            (ofInt (Z.of_nat (length (Pages crawlResult))))))) in
  let factors := factors + 1 in
  let '(score, factors) :=
    match Pages crawlResult with
    | p :: _ =>
        (if negb (Contains (Models.URL (page p)) "?")
            && negb (Contains (Models.URL (page p)) "#")
         then add score (ofInt 1) else add score half,
         factors + 1)
    | [] => (score, factors)
    end in
  if factors =? 0 then ofInt 0
  else mul (div score (ofInt factors)) (ofInt 100).

Definition analyzePerformance (crawlResult : CrawlResult F) : F :=
  let score := ofInt 75 in
  let score :=
    if TotalPages crawlResult >? 1000 then sub score (ofInt 10) else score in
  let hasContact :=
    existsb (fun p => (Z.of_nat (length (Emails p)) >? 0)
                      || (Z.of_nat (length (Phones p)) >? 0))
            (Pages crawlResult) in
  let score := if hasContact then add score (ofInt 5) else score in
  max (ofInt 0) (min (ofInt 100) score).

Definition calculateOverallScore (scores : OverallScores F) : F :=
  add (add (add (mul (Technical scores) threeTenths)
                (mul (Content scores) threeTenths))
           (mul (Performance scores) twoTenths))
      (mul (Security scores) twoTenths).

(** [titles[page.MetaTitle] = append(titles[page.MetaTitle], page.URL)]
    over the pages. *)
Definition titleURLs (pages : list (Page F)) : gmap string (list string) :=
  fold_left
    (fun titles p =>
       <[Models.MetaTitle (page p)
         := default [] (titles !! Models.MetaTitle (page p))
            ++ [Models.URL (page p)]]> titles)
    pages ∅.

Definition generateFindings (crawlResult : CrawlResult F) : list Finding.t :=
  let findings := [] in
  let missingDesc :=
    Z.of_nat (length (List.filter
                        (fun p => String.eqb (Models.MetaDescription (page p))
                                             EmptyString)
                        (Pages crawlResult))) in
  let findings :=
    if missingDesc >? 0 then
      findings ++ [Finding.mk "Content" "Missing Meta Descriptions"
                     (decimal missingDesc +:+ " pages lack meta descriptions")
                     "medium" EmptyString]
    else findings in
  let titles := titleURLs (Pages crawlResult) in
  let findings :=
    fold_left
      (fun findings title =>
         let urls := default [] (titles !! title) in
         if (Z.of_nat (length urls) >? 1) && negb (String.eqb title EmptyString)
         then
           findings ++ [Finding.mk "Technical" "Duplicate Title"
                          ("Title '" +:+ title +:+ "' used on "
                           +:+ decimal (Z.of_nat (length urls)) +:+ " pages")
                          "high" EmptyString]
         else findings)
      (rangeOrder (map fst (map_to_list titles))) findings in
  let thinContent :=
    Z.of_nat (length (List.filter
                        (fun p => wordCount (Models.Text (page p)) <? 100)
                        (Pages crawlResult))) in
  if thinContent >? 0 then
    findings ++ [Finding.mk "Content" "Thin Content"
                   (decimal thinContent +:+ " pages have less than 100 words")
                   "medium" EmptyString]
  else findings.

(** [severityOrder[s]]: the zero value for a string that is no key. *)
Definition severityOrder (severity : string) : Z :=
  if String.eqb severity "critical" then 0
  else if String.eqb severity "high" then 1
  else if String.eqb severity "medium" then 2
  else if String.eqb severity "low" then 3
  else 0.

(** The [switch] of [generateRecommendations]; [None] is [continue]. *)
Definition recommendationFor (finding : Finding.t) : option Recommendation.t :=
  if String.eqb (Finding.Type_ finding) "Missing Meta Descriptions" then
    Some (Recommendation.mk "high" "Content" "Add unique meta descriptions"
            "high" "low"
            "Write unique, compelling meta descriptions (120-160 characters) for all pages")
  else if String.eqb (Finding.Type_ finding) "Duplicate Title" then
    Some (Recommendation.mk "critical" "Technical" "Fix duplicate titles"
            "high" "low"
            "Ensure each page has a unique, descriptive title tag")
  else if String.eqb (Finding.Type_ finding) "Thin Content" then
    Some (Recommendation.mk "medium" "Content" "Expand content"
            "medium" "medium"
            "Add more valuable, relevant content to pages with less than 300 words")
  else None.

(** [generateRecommendations] sorts the slice it is given in place: the
    first result is that slice after the call, the second the
    recommendations. *)
Definition generateRecommendations (findings : list Finding.t)
  : list Finding.t * list Recommendation.t :=
  let findings :=
    sortSliceBy Finding.t (fun f => severityOrder (Finding.Severity f)) findings in
  (findings,
   fold_left
     (fun recommendations finding =>
        match recommendationFor finding with
        | Some rec => recommendations ++ [rec]
        | None => recommendations
        end)
     findings []).

Definition generateExecutiveSummary (report : SEOReport F) : ExecutiveSummary F :=
  let score := Overall (Scores report) in
  let grade :=
    if leb (ofInt 90) score then "A"
    else if leb (ofInt 80) score then "B"
    else if leb (ofInt 70) score then "C"
    else if leb (ofInt 60) score then "D"
    else "F" in
  let strengths := [] in
  let strengths :=
    if leb (ofInt 80) (Technical (Scores report))
    then strengths ++ ["Strong technical SEO foundation"] else strengths in
  let strengths :=
    if leb (ofInt 80) (Content (Scores report))
    then strengths ++ ["High-quality content optimization"] else strengths in
  let strengths :=
    if leb (ofInt 80) (Performance (Scores report))
    then strengths ++ ["Excellent site performance"] else strengths in
  let weaknesses := [] in
  let weaknesses :=
    if ltb (Technical (Scores report)) (ofInt 60)
    then weaknesses ++ ["Technical SEO issues need attention"] else weaknesses in
  let weaknesses :=
    if ltb (Content (Scores report)) (ofInt 60)
    then weaknesses ++ ["Content optimization required"] else weaknesses in
  let weaknesses :=
    if ltb (Performance (Scores report)) (ofInt 60)
    then weaknesses ++ ["Performance improvements needed"] else weaknesses in
  let topPriorities :=
    map Recommendation.Action (firstn 3 (Recommendations report)) in
  let estimatedImpact :=
    if Z.of_nat (length (Recommendations report)) >? 0 then
      let highPriority :=
        Z.of_nat
          (length (List.filter
                     (fun rec =>
                        String.eqb (Recommendation.Priority rec) "critical"
                        || String.eqb (Recommendation.Priority rec) "high")
                     (Recommendations report))) in
      if highPriority >? 5
      then "Significant improvements possible with focused effort"
      else "Moderate improvements achievable with targeted optimizations"
    else EmptyString in
  mkSummary grade score strengths weaknesses topPriorities estimatedImpact.

End Functions.

Section Analyze.
Context {F : Type} {numbers : Numbers F} {arith : Analyzer.Arith F}
        {library : Library}.

(** The pages after [calculatePageRank] has written their ranks. *)
Definition withPageRanks (crawlResult : CrawlResult F) : CrawlResult F :=
  let ranked :=
    Models.Pages
      (Analyzer.calculatePageRank
         (Models.mkCrawlResult (Domain crawlResult)
                               (map page (Pages crawlResult))
                               (TotalPages crawlResult) 0 [])) in
  mkCrawlResult
    (Domain crawlResult)
    (map (fun '(p, r) => mkPage r (Emails p) (Phones p) (StatusCode p))
         (zip (Pages crawlResult) ranked))
    (TotalPages crawlResult).

(** [Analyze]: the report, and the crawl result as the call leaves it.
    The argument [full] is not read. *)
Definition Analyze (config : Config) (crawlResult : CrawlResult F) (full : bool)
  : SEOReport F * CrawlResult F :=
  let crawlResult :=
    if AnalyzePageRank config then withPageRanks crawlResult else crawlResult in
  let content :=
    if AnalyzeContent config then analyzeContent crawlResult else ofInt 0 in
  let technical :=
    if AnalyzeTechnical config then analyzeTechnical crawlResult else ofInt 0 in
  let performance :=
    if AnalyzePerformance config then analyzePerformance crawlResult
    else ofInt 0 in
  let scores := mkScores technical content performance (ofInt 0) (ofInt 0) in
  let scores :=
    mkScores technical content performance (ofInt 0)
             (calculateOverallScore scores) in
  let '(keyFindings, recommendations) :=
    generateRecommendations (generateFindings crawlResult) in
  let report :=
    mkReport (Domain crawlResult)
             (mkSummary EmptyString (ofInt 0) [] [] [] EmptyString)
             scores keyFindings recommendations [] in
  (mkReport (Domain crawlResult) (generateExecutiveSummary report)
            scores keyFindings recommendations [],
   crawlResult).

End Analyze.

(** [float64] as the code has it. *)
Definition float64OfInt (n : Z) : Float64.float64 :=
  if n <? 0
  then PrimFloat.opp (PrimFloat.of_uint63 (Uint63.of_Z (- n)))
  else PrimFloat.of_uint63 (Uint63.of_Z n).

(** [math.Max] and [math.Min] with their special cases. *)
Definition float64Max (x y : Float64.float64) : Float64.float64 :=
  if (PrimFloat.is_infinity x && negb (PrimFloat.get_sign x))
     || (PrimFloat.is_infinity y && negb (PrimFloat.get_sign y))
  then PrimFloat.infinity
  else if PrimFloat.is_nan x || PrimFloat.is_nan y then PrimFloat.nan
  else if PrimFloat.is_zero x && PrimFloat.eqb x y
  then (if PrimFloat.get_sign x then y else x)
  else if PrimFloat.ltb y x then x else y.

Definition float64Min (x y : Float64.float64) : Float64.float64 :=
  if (PrimFloat.is_infinity x && PrimFloat.get_sign x)
     || (PrimFloat.is_infinity y && PrimFloat.get_sign y)
  then PrimFloat.neg_infinity
  else if PrimFloat.is_nan x || PrimFloat.is_nan y then PrimFloat.nan
  else if PrimFloat.is_zero x && PrimFloat.eqb x y
  then (if PrimFloat.get_sign x then x else y)
  else if PrimFloat.ltb x y then x else y.

(** The constants [0.5], [0.3] and [0.2] of [float64]. *)
Module Float64Constants.
Import PrimFloat.
Definition half : Float64.float64 := 0.5%float.
Definition threeTenths : Float64.float64 := 0.3%float.
Definition twoTenths : Float64.float64 := 0.2%float.
End Float64Constants.

Definition float64Numbers : Numbers Float64.float64 :=
  {| ofInt := float64OfInt;
     half := Float64Constants.half;
     threeTenths := Float64Constants.threeTenths;
     twoTenths := Float64Constants.twoTenths;
     add := PrimFloat.add;
     sub := PrimFloat.sub;
     mul := PrimFloat.mul;
     div := PrimFloat.div;
     leb := PrimFloat.leb;
     ltb := PrimFloat.ltb;
     max := float64Max;
     min := float64Min |}.

(** Exact rational arithmetic: the same operations without rounding. *)
Definition exactNumbers : Numbers Qc :=
  {| ofInt := fun n => Q2Qc (inject_Z n);
     half := Q2Qc (1 # 2);
     threeTenths := Q2Qc (3 # 10);
     twoTenths := Q2Qc (2 # 10);
     add := Qcplus;
     sub := Qcminus;
     mul := Qcmult;
     div := Qcdiv;
     leb := fun x y => if Qclt_le_dec y x then false else true;
     ltb := fun x y => if Qclt_le_dec x y then true else false;
     max := fun x y => if Qclt_le_dec y x then x else y;
     min := fun x y => if Qclt_le_dec x y then x else y |}.

(** A library to run the definitions on ASCII text, for which
    [strings.Fields] does not call [FieldsFunc]: maps visited in the order
    of their keys and slices sorted by insertion. *)
Fixpoint insertBy {A : Type} (key : A -> Z) (x : A) (l : list A) : list A :=
  match l with
  | [] => [x]
  | y :: l' => if key x <=? key y then x :: l else y :: insertBy key x l'
  end.

Definition insertionSortBy (A : Type) (key : A -> Z) (l : list A) : list A :=
  fold_right (insertBy key) [] l.

Definition plainLibrary : Library :=
  {| fieldsFuncIsSpace := fun _ => [];
     rangeOrder := fun keys => keys;
     sortSliceBy := insertionSortBy |}.

End Scoring.

(** * Theorems *)

(** ** Strings *)

Import GoStrings.

Lemma append_cons (c : ascii) (a b : string) :
  String c a +:+ b = String c (a +:+ b).
Proof. reflexivity. Qed.

Lemma append_nil (b : string) : EmptyString +:+ b = b.
Proof. reflexivity. Qed.

(** Proof steps used more than once. *)

Ltac unfold_append := rewrite ?append_cons, ?append_nil in *.

Ltac string_tests :=
  repeat match goal with
    | H : String.eqb _ _ = true |- _ => apply String.eqb_eq in H; subst
    | H : negb _ = true |- _ => apply negb_true_iff in H
    | H : negb _ = false |- _ => apply negb_false_iff in H
    | H : _ && _ = true |- _ => apply andb_true_iff in H as [? ?]
    end.


Lemma string_length_append (a b : string) :
  String.length (a +:+ b) = (String.length a + String.length b)%nat.
Proof.
  induction a as [|c a IH]; unfold_append; simpl; [reflexivity | now f_equal].
Qed.

Lemma string_append_assoc (a b c : string) : (a +:+ b) +:+ c = a +:+ (b +:+ c).
Proof.
  induction a as [|x a IH]; unfold_append; [reflexivity | now f_equal].
Qed.

Lemma string_append_empty_r (a : string) : a +:+ EmptyString = a.
Proof.
  induction a as [|x a IH]; unfold_append; [reflexivity | now f_equal].
Qed.

Lemma string_take_drop (n : nat) (s : string) :
  string_take n s +:+ string_drop n s = s.
Proof.
  revert s; induction n as [|n IH]; intros [|c s]; simpl; unfold_append;
    try reflexivity.
  f_equal. apply IH.
Qed.

Lemma string_drop_append (p s : string) :
  string_drop (String.length p) (p +:+ s) = s.
Proof.
  induction p as [|c p IH]; unfold_append; simpl; [now destruct s | exact IH].
Qed.

Lemma string_take_append (p s : string) :
  string_take (String.length p) (p +:+ s) = p.
Proof.
  induction p as [|c p IH]; unfold_append; simpl; [now destruct s | now f_equal].
Qed.

Lemma HasSuffix_spec (s suffix : string) :
  HasSuffix s suffix = true <-> exists p, s = p +:+ suffix.
Proof.
  unfold HasSuffix. rewrite andb_true_iff, Nat.leb_le, String.eqb_eq. split.
  - intros [_ Hd].
    exists (string_take (String.length s - String.length suffix) s).
    rewrite <- Hd at 2. symmetry. apply string_take_drop.
  - intros [p ->]. rewrite string_length_append. split; [lia|].
    replace (String.length p + String.length suffix - String.length suffix)%nat
      with (String.length p) by lia.
    apply string_drop_append.
Qed.

Lemma HasPrefix_spec (s prefix : string) :
  HasPrefix s prefix = true <-> exists r, s = prefix +:+ r.
Proof.
  unfold HasPrefix. rewrite andb_true_iff, Nat.leb_le, String.eqb_eq. split.
  - intros [_ Ht]. exists (string_drop (String.length prefix) s).
    rewrite <- Ht at 1. symmetry. apply string_take_drop.
  - intros [r ->]. rewrite string_length_append. split; [lia|].
    apply string_take_append.
Qed.

Lemma Contains_spec (s substr : string) :
  Contains s substr = true <-> exists a b, s = a +:+ substr +:+ b.
Proof.
  induction s as [|c s IH].
  - simpl. rewrite orb_false_r, HasPrefix_spec. split.
    + intros [r Hr]. now exists EmptyString, r.
    + intros [[|x a] [b Hb]]; [now exists b | discriminate].
  - cbn [Contains]. rewrite orb_true_iff, HasPrefix_spec, IH. split.
    + intros [[r Hr] | [a [b Hab]]].
      * now exists EmptyString, r.
      * exists (String c a), b. unfold_append. now rewrite Hab.
    + intros [[|x a] [b Hb]].
      * left. now exists b.
      * right. unfold_append. injection Hb as _ Hb. now exists a, b.
Qed.

Lemma hasNonWebExt_spec {tables : UnicodeTables} (l : string) (exts : list string) :
  Crawler.hasNonWebExt l exts = true
  <-> exists ext, ext ∈ exts /\ HasSuffix l ext = true.
Proof.
  induction exts as [|e exts IH]; simpl.
  - split; [discriminate | intros [ext [Hin _]]; inversion Hin].
  - destruct (HasSuffix l e) eqn:He.
    + split; [|reflexivity]. intros _. exists e. split; [left | exact He].
    + rewrite IH. split.
      * intros [ext [Hin Hs]]. exists ext. split; [now right | exact Hs].
      * intros [ext [Hin Hs]]. inversion Hin; subst; [congruence|].
        now exists ext.
Qed.

(** ** C8: [isWebpageURL] *)

(** C8, as the code has it: [isWebpageURL u] returns false if and only if
    the whole URL string [u], lowered, ends in one of the ten extensions, or
    [u] contains the character [#].  The test looks at the end of the
    string, not at the end of the path. *)
Theorem isWebpageURL_false_iff {tables : UnicodeTables} (u : string) :
  Crawler.isWebpageURL u = false
  <-> (exists ext p, ext ∈ Crawler.nonWebExts /\ ToLower u = p +:+ ext)
      \/ (exists a b, u = a +:+ "#" +:+ b).
Proof.
  unfold Crawler.isWebpageURL.
  destruct (Crawler.hasNonWebExt (ToLower u) Crawler.nonWebExts) eqn:Hext.
  - split; [intros _ | reflexivity]. left.
    apply hasNonWebExt_spec in Hext as [ext [Hin Hs]].
    apply HasSuffix_spec in Hs as [p Hp]. now exists ext, p.
  - rewrite negb_false_iff, Contains_spec. split.
    + intros Hc. now right.
    + intros [[ext [p [Hin Hp]]] | Hc]; [|exact Hc].
      assert (Crawler.hasNonWebExt (ToLower u) Crawler.nonWebExts = true) as Ht.
      { apply hasNonWebExt_spec. exists ext. split; [exact Hin|].
        apply HasSuffix_spec. now exists p. }
      congruence.
Qed.

(** C8, as stated, fails: the path of [http://example.com/a.pdf?x=1] ends
    in [.pdf], and [isWebpageURL] returns true for it. *)
Lemma isWebpageURL_path_counterexample :
  ~ (Crawler.isWebpageURL (tables := asciiTables) "http://example.com/a.pdf?x=1" = false
     <-> SpecWords.pathEndsInNonWebExtOrHasFragment
           (tables := asciiTables) "http://example.com/a.pdf?x=1").
Proof.
  intros [_ Hback].
  assert (Crawler.isWebpageURL (tables := asciiTables) "http://example.com/a.pdf?x=1"
          = true) as Ht by (vm_compute; reflexivity).
  rewrite Hback in Ht; [discriminate|].
  left. exists ".pdf", "/a". split.
  - unfold Crawler.nonWebExts. set_solver.
  - vm_compute. reflexivity.
Qed.

(** ** [getPathType] and [url.Parse] *)

Lemma Parse_refuses_control_characters {net : NetURL.Library} (rawURL : string) :
  NetURL.stringContainsCTLByte (cutBefore "#" rawURL) = true ->
  NetURL.Parse rawURL = None.
Proof. intros Hctl. unfold NetURL.Parse. now rewrite Hctl. Qed.

(** [getPathType] panics exactly when [url.Parse] fails, and returns a
    path-family otherwise. *)
Lemma getPathType_panics_iff {net : NetURL.Library} (rawURL : string) :
  Crawler.getPathType rawURL = Go.Panics Go.nilDereference
  <-> NetURL.Parse rawURL = None.
Proof.
  unfold Crawler.getPathType. destruct (NetURL.Parse rawURL) as [u|].
  - split; [|discriminate].
    destruct (splitByte "/" (trimByte "/" (NetURL.Path (NetURL.withRawQuery "" u))))
      as [|seg0 rest]; [discriminate|].
    destruct (negb (String.eqb seg0 "")); discriminate.
  - split; reflexivity.
Qed.

Lemma getPathType_returns_iff {net : NetURL.Library} (rawURL : string) :
  (exists f, Crawler.getPathType rawURL = Go.Returns f)
  <-> exists u, NetURL.Parse rawURL = Some u.
Proof.
  unfold Crawler.getPathType. destruct (NetURL.Parse rawURL) as [u|].
  - split; [intros _; now exists u | intros _].
    destruct (splitByte "/" (trimByte "/" (NetURL.Path (NetURL.withRawQuery "" u))))
      as [|seg0 rest]; [now eexists|].
    destruct (negb (String.eqb seg0 "")); now eexists.
  - split; intros [x Hx]; discriminate.
Qed.

(** On every input with an ASCII control character before its fragment,
    [url.Parse] fails, [getPathType] drops the error and dereferences the
    nil pointer: it panics and yields no path-family. *)
Lemma getPathType_panics_on_control_character {net : NetURL.Library}
    (rawURL : string) :
  NetURL.stringContainsCTLByte (cutBefore "#" rawURL) = true ->
  Crawler.getPathType rawURL = Go.Panics Go.nilDereference.
Proof.
  intros Hctl. apply getPathType_panics_iff.
  now apply Parse_refuses_control_characters.
Qed.

(** ** The extractor: the walk of the document *)

Import Models HTML.

Section Walk.
Context {tables : UnicodeTables} {net : NetURL.Library}.
Variable baseURL : string.

Abbreviation visitAll :=
  (fold_left (fun s m => Crawler.visit baseURL m s)).

(** The closure [f] visits the nodes in document order. *)
Lemma walk_preorder (n : Node) (st : Crawler.walkState) :
  Crawler.walk baseURL n st = visitAll (preorder n) st.
Proof.
  revert st. induction n as [t d a cs IH] using Node_forall_ind. intros st.
  cbn [Crawler.walk preorder fold_left].
  generalize (Crawler.visit baseURL (mkNode t d a cs) st). clear st.
  induction IH as [|c cs Hc _ IHcs]; intros st; [reflexivity|].
  cbn [fold_left flat_map]. rewrite fold_left_app, Hc. apply IHcs.
Qed.

(** What one visit does to the title. *)
Lemma visit_title (n : Node) (st : Crawler.walkState) :
  let st' := Crawler.visit baseURL n st in
  (Crawler.foundTitle st', Crawler.title st')
  = if DocumentOrder.isTitleWithChild n && negb (Crawler.foundTitle st)
    then (true, match FirstChild n with
                | Some c => TrimSpace (Data c)
                | None => EmptyString
                end)
    else (Crawler.foundTitle st, Crawler.title st).
Proof.
  destruct n as [t d a cs].
  unfold Crawler.visit, DocumentOrder.isTitleWithChild, DocumentOrder.isElement.
  cbn [Type_ Data Attr].
  destruct (isElementNode t); [|reflexivity]. cbn [andb].
  destruct (String.eqb d "a") eqn:Ea.
  { string_tests. cbn. repeat case_match; reflexivity. }
  destruct (String.eqb d "title") eqn:Et.
  { cbn [andb]. destruct (FirstChild (mkNode t d a cs)); [|reflexivity].
    destruct st as [ls sn [|] ti de]; reflexivity. }
  cbn [andb]. repeat case_match; reflexivity.
Qed.

(** What one visit does to the description. *)
Lemma visit_desc (n : Node) (st : Crawler.walkState) :
  Crawler.desc (Crawler.visit baseURL n st)
  = if DocumentOrder.isDescriptionMeta n
    then snd (Crawler.metaScan (Attr n))
    else Crawler.desc st.
Proof.
  destruct n as [t d a cs].
  unfold Crawler.visit, DocumentOrder.isDescriptionMeta, DocumentOrder.isElement.
  cbn [Type_ Data Attr].
  destruct (isElementNode t); [|reflexivity]. cbn [andb].
  destruct (String.eqb d "a") eqn:Ea.
  { string_tests. cbn. repeat case_match; reflexivity. }
  destruct (String.eqb d "title") eqn:Et.
  { string_tests. cbn. repeat case_match; reflexivity. }
  destruct (String.eqb d "meta") eqn:Em; [|reflexivity]. cbn [andb].
  destruct (Crawler.metaScan a) as [isDesc content]. cbn [fst snd].
  destruct isDesc; [|reflexivity]. cbn [andb].
  destruct (negb (String.eqb content "")); reflexivity.
Qed.

Lemma visitAll_title (nodes : list Node) (st : Crawler.walkState) :
  let st' := visitAll nodes st in
  (Crawler.foundTitle st', Crawler.title st')
  = if Crawler.foundTitle st then (true, Crawler.title st)
    else match find DocumentOrder.isTitleWithChild nodes with
         | Some n => (true, match FirstChild n with
                            | Some c => TrimSpace (Data c)
                            | None => EmptyString
                            end)
         | None => (false, Crawler.title st)
         end.
Proof.
  cbv zeta. revert st. induction nodes as [|n nodes IH]; intros st.
  - cbn. destruct (Crawler.foundTitle st); reflexivity.
  - cbn [fold_left find]. rewrite IH.
    pose proof (visit_title n st) as Hv. cbv zeta in Hv.
    destruct (DocumentOrder.isTitleWithChild n), (Crawler.foundTitle st);
      cbn in Hv; injection Hv as -> ->; reflexivity.
Qed.

Lemma visitAll_desc (nodes : list Node) (st : Crawler.walkState) :
  Crawler.desc (visitAll nodes st)
  = match find DocumentOrder.isDescriptionMeta (rev nodes) with
    | Some n => snd (Crawler.metaScan (Attr n))
    | None => Crawler.desc st
    end.
Proof.
  induction nodes as [|n nodes IH] using rev_ind; [reflexivity|].
  rewrite fold_left_app, rev_unit. cbn [fold_left find].
  rewrite visit_desc. destruct (DocumentOrder.isDescriptionMeta n);
    [reflexivity | exact IH].
Qed.

Lemma hasTarget_app (h : string) (ls ls' : list Link) :
  DocumentOrder.hasTarget h (ls ++ ls')
  = DocumentOrder.hasTarget h ls || DocumentOrder.hasTarget h ls'.
Proof. apply existsb_app. Qed.

(** What one visit does to the links. *)
Lemma visit_links (n : Node) (st : Crawler.walkState) :
  DocumentOrder.seenAgrees st ->
  DocumentOrder.seenAgrees (Crawler.visit baseURL n st)
  /\ Crawler.links (Crawler.visit baseURL n st)
     = if DocumentOrder.isAnchorWithHref n
       then DocumentOrder.addLink (Crawler.links st)
                                  (DocumentOrder.linkOf baseURL n)
       else Crawler.links st.
Proof.
  intros Hinv. destruct n as [t d a cs].
  unfold Crawler.visit, DocumentOrder.isAnchorWithHref, DocumentOrder.isElement.
  cbn [Type_ Data Attr].
  destruct (isElementNode t); [|now split]. cbn [andb].
  destruct (String.eqb d "a") eqn:Ea.
  - cbn [andb].
    destruct (negb (String.eqb (Crawler.lastAttrVal "href" a) "")); [|now split].
    unfold DocumentOrder.addLink, DocumentOrder.linkOf. cbn [ToURL Attr].
    rewrite Hinv.
    destruct (DocumentOrder.hasTarget (Crawler.lastAttrVal "href" a)
                                      (Crawler.links st)) eqn:Hseen;
      cbn [negb]; [now split|].
    split; [|reflexivity].
    intros h. cbn [Crawler.seen Crawler.links].
    rewrite hasTarget_app, lookup_insert, <- Hinv.
    cbn [DocumentOrder.hasTarget existsb ToURL]. rewrite orb_false_r.
    destruct (decide (Crawler.lastAttrVal "href" a = h)) as [->|Hne].
    + rewrite String.eqb_refl. cbn. now rewrite orb_true_r.
    + apply String.eqb_neq in Hne. rewrite Hne. now rewrite orb_false_r.
  - cbn [andb]. destruct (String.eqb d "title").
    + destruct (FirstChild (mkNode t d a cs)); [|now split].
      destruct (negb (Crawler.foundTitle st)); now split.
    + destruct (String.eqb d "meta"); [|now split].
      destruct (Crawler.metaScan a) as [isDesc content].
      destruct (isDesc && negb (String.eqb content "")); now split.
Qed.

Lemma visitAll_links (nodes : list Node) (st : Crawler.walkState) :
  DocumentOrder.seenAgrees st ->
  DocumentOrder.seenAgrees (visitAll nodes st)
  /\ Crawler.links (visitAll nodes st)
     = fold_left DocumentOrder.addLink
         (map (DocumentOrder.linkOf baseURL)
              (List.filter DocumentOrder.isAnchorWithHref nodes))
         (Crawler.links st).
Proof.
  revert st. induction nodes as [|n nodes IH]; intros st Hinv; [now split|].
  cbn [fold_left List.filter].
  destruct (visit_links n st Hinv) as [Hinv' Hl].
  destruct (IH _ Hinv') as [Hinv'' Hls]. split; [exact Hinv''|].
  rewrite Hls, Hl. now destruct (DocumentOrder.isAnchorWithHref n).
Qed.

Lemma seenAgrees_initial : DocumentOrder.seenAgrees Crawler.initialWalkState.
Proof. intros h. cbn. now rewrite lookup_empty. Qed.

End Walk.

(** ** C7: title and description *)

(** C7, as the code has it: the title is the trimmed data of the first child
    of the first [<title>] element that has a child, and the description is
    the trimmed content of the last [<meta>] element named description
    (attribute name and value compared in lower case) whose trimmed content
    is not empty; either is the string x when there is none, when it is
    empty, or when the body does not parse. *)
Theorem metadata_in_document_order
    {tables : UnicodeTables} {net : NetURL.Library} {html : HTML.Library}
    (body baseURL domain : string) :
  Crawler.exTitle (Crawler.extractTextLinksAndMetadata body baseURL domain)
  = match HTML.Parse body with
    | Some doc => Crawler.orX (DocumentOrder.titleOf doc)
    | None => "x"
    end
  /\ Crawler.exDesc (Crawler.extractTextLinksAndMetadata body baseURL domain)
     = match HTML.Parse body with
       | Some doc => Crawler.orX (DocumentOrder.descriptionOf doc)
       | None => "x"
       end.
Proof.
  unfold Crawler.extractTextLinksAndMetadata.
  destruct (HTML.Parse body) as [doc|]; [|now split].
  cbn [Crawler.exTitle Crawler.exDesc]. rewrite walk_preorder. split.
  - pose proof (visitAll_title baseURL (preorder doc) Crawler.initialWalkState)
      as Ht. cbv zeta in Ht. cbn [Crawler.foundTitle Crawler.initialWalkState
                                  Crawler.title] in Ht.
    unfold DocumentOrder.titleOf.
    destruct (find DocumentOrder.isTitleWithChild (preorder doc));
      injection Ht as _ ->; reflexivity.
  - rewrite visitAll_desc. reflexivity.
Qed.

(** C7, as stated, fails: of two description elements the extractor returns
    the content of the second; and of the title [ Docs ] it returns the
    trimmed text, not the text node. *)
Lemma description_first_meta_counterexample :
  Crawler.exDesc
    (Crawler.extractTextLinksAndMetadata
       (tables := asciiTables) (net := Samples.plainLibrary)
       (html := Samples.parsingTo Samples.twoDescriptions)
       Samples.twoDescriptionsBody "http://example.com/" "example.com")
  <> SpecWords.firstMetaDescription (tables := asciiTables) Samples.twoDescriptions
  /\ Crawler.exTitle
       (Crawler.extractTextLinksAndMetadata
          (tables := asciiTables) (net := Samples.plainLibrary)
          (html := Samples.parsingTo Samples.paddedTitle)
          Samples.paddedTitleBody "http://example.com/" "example.com")
     <> SpecWords.firstTitleText Samples.paddedTitle.
Proof. split; vm_compute; discriminate. Qed.

(** ** C9: links *)

Lemma hasTarget_true_iff (h : string) (ls : list Link) :
  DocumentOrder.hasTarget h ls = true <-> h ∈ map ToURL ls.
Proof.
  unfold DocumentOrder.hasTarget. rewrite existsb_exists, list_elem_of_fmap.
  split.
  - intros [l [Hin Heq]]. apply String.eqb_eq in Heq.
    exists l. split; [now symmetry | now apply list_elem_of_In].
  - intros [l [-> Hin]]. exists l.
    split; [now apply list_elem_of_In | apply String.eqb_refl].
Qed.

Lemma addLink_NoDup (ls : list Link) (l : Link) :
  NoDup (map ToURL ls) -> NoDup (map ToURL (DocumentOrder.addLink ls l)).
Proof.
  intros Hnd. unfold DocumentOrder.addLink.
  destruct (DocumentOrder.hasTarget (ToURL l) ls) eqn:Hseen; [exact Hnd|].
  rewrite map_app. apply NoDup_app. split; [exact Hnd|]. split.
  - intros x Hx Hx'. apply list_elem_of_singleton in Hx'. subst x.
    apply hasTarget_true_iff in Hx. congruence.
  - apply NoDup_singleton.
Qed.

Lemma fold_addLink_NoDup (ls acc : list Link) :
  NoDup (map ToURL acc) ->
  NoDup (map ToURL (fold_left DocumentOrder.addLink ls acc)).
Proof.
  revert acc. induction ls as [|l ls IH]; intros acc Hnd; [exact Hnd|].
  cbn [fold_left]. apply IH. now apply addLink_NoDup.
Qed.

(** The links kept are taken from the input in its order. *)
Lemma fold_addLink_sublist (ls acc : list Link) :
  exists more, fold_left DocumentOrder.addLink ls acc = acc ++ more
               /\ more `sublist_of` ls.
Proof.
  revert acc. induction ls as [|l ls IH]; intros acc.
  - exists []. split; [now rewrite app_nil_r | constructor].
  - cbn [fold_left]. destruct (IH (DocumentOrder.addLink acc l)) as [more [Hm Hs]].
    unfold DocumentOrder.addLink in *.
    destruct (DocumentOrder.hasTarget (ToURL l) acc).
    + exists more. split; [exact Hm | now constructor].
    + exists (l :: more). split; [now rewrite Hm, <- app_assoc | now constructor].
Qed.

Lemma addLink_keeps (ls : list Link) (l : Link) (h : string) :
  h ∈ map ToURL ls \/ h = ToURL l ->
  h ∈ map ToURL (DocumentOrder.addLink ls l).
Proof.
  unfold DocumentOrder.addLink.
  destruct (DocumentOrder.hasTarget (ToURL l) ls) eqn:Hseen.
  - intros [Hin | ->]; [exact Hin | now apply hasTarget_true_iff].
  - rewrite map_app, elem_of_app. intros [Hin | ->]; [now left | right].
    now apply list_elem_of_singleton.
Qed.

(** Every target of the input is the target of a link kept. *)
Lemma fold_addLink_covers (ls acc : list Link) (h : string) :
  h ∈ map ToURL (acc ++ ls) ->
  h ∈ map ToURL (fold_left DocumentOrder.addLink ls acc).
Proof.
  revert acc. induction ls as [|l ls IH]; intros acc Hin.
  - now rewrite app_nil_r in Hin.
  - cbn [fold_left]. apply IH.
    rewrite map_app, elem_of_app in Hin |- *. rewrite map_cons, elem_of_cons in Hin.
    destruct Hin as [Hin | [-> | Hin]]; [left | left | now right];
      apply addLink_keeps; auto.
Qed.

Lemma extractText_image_only {tables : UnicodeTables} {net : NetURL.Library}
    (baseURL : string) (a img : Node) (src : string) :
  DocumentOrder.isElement "a" a = true ->
  children a = [img] ->
  DocumentOrder.imgSrc img = Some src ->
  Crawler.extractText baseURL a = Crawler.resolveURL baseURL src.
Proof.
  destruct a as [t d attrs cs], img as [t' d' attrs' cs'].
  unfold DocumentOrder.isElement, DocumentOrder.imgSrc, DocumentOrder.isElement.
  cbn [Type_ Data Attr children]. intros Ha -> Hsrc.
  apply andb_true_iff in Ha as [Ht Hd]. apply String.eqb_eq in Hd. subst d.
  destruct (isElementNode t' && String.eqb d' "img") eqn:Himg; [|discriminate].
  apply andb_true_iff in Himg as [Ht' Hd'].
  destruct t; try discriminate. destruct t'; try discriminate.
  cbn [Crawler.extractText isTextNode isElementNode andb fold_left].
  rewrite Hd', Hsrc. change (String.eqb "a" "img") with false.
  cbn iota. apply append_nil.
Qed.

(** C9, as the code has it: the links are those of the [<a>] elements with
    a non-empty href, in document order, the first of every href only; the
    anchor text is "N/A" when the trimmed text of the element is empty; and
    an anchor whose only child is an [<img>] with a src has as anchor text
    the trimmed src resolved against the page URL ("N/A" if that is
    empty). *)
Theorem links_in_document_order
    {tables : UnicodeTables} {net : NetURL.Library} {html : HTML.Library}
    (body baseURL domain : string) :
  let links :=
    Crawler.exLinks (Crawler.extractTextLinksAndMetadata body baseURL domain) in
  let anchors :=
    match HTML.Parse body with
    | Some doc => DocumentOrder.anchorsOf doc
    | None => []
    end in
  links = DocumentOrder.firstPerTarget (map (DocumentOrder.linkOf baseURL) anchors)
  /\ NoDup (map ToURL links)
  /\ links `sublist_of` map (DocumentOrder.linkOf baseURL) anchors
  /\ (forall a, a ∈ anchors ->
                Crawler.lastAttrVal "href" (Attr a) ∈ map ToURL links)
  /\ (forall a, TrimSpace (Crawler.extractText baseURL a) = EmptyString ->
                Crawler.anchorTextOf baseURL a = "N/A")
  /\ (forall a img src,
        DocumentOrder.isElement "a" a = true ->
        children a = [img] ->
        DocumentOrder.imgSrc img = Some src ->
        Crawler.anchorTextOf baseURL a
        = if String.eqb (TrimSpace (Crawler.resolveURL baseURL src)) EmptyString
          then "N/A" else TrimSpace (Crawler.resolveURL baseURL src)).
Proof.
  cbv zeta.
  assert (Crawler.exLinks (Crawler.extractTextLinksAndMetadata body baseURL domain)
          = DocumentOrder.firstPerTarget
              (map (DocumentOrder.linkOf baseURL)
                   match HTML.Parse body with
                   | Some doc => DocumentOrder.anchorsOf doc
                   | None => []
                   end)) as Hlinks.
  { unfold Crawler.extractTextLinksAndMetadata.
    destruct (HTML.Parse body) as [doc|]; [|reflexivity].
    cbn [Crawler.exLinks]. rewrite walk_preorder.
    destruct (visitAll_links baseURL (preorder doc) Crawler.initialWalkState
                             (seenAgrees_initial)) as [_ Hl].
    exact Hl. }
  rewrite Hlinks. unfold DocumentOrder.firstPerTarget.
  repeat split.
  - apply fold_addLink_NoDup. constructor.
  - destruct (fold_addLink_sublist
                (map (DocumentOrder.linkOf baseURL)
                     match HTML.Parse body with
                     | Some doc => DocumentOrder.anchorsOf doc
                     | None => []
                     end) []) as [more [-> Hs]].
    exact Hs.
  - intros a Ha. apply fold_addLink_covers. cbn [app].
    apply (list_elem_of_fmap_2 (DocumentOrder.linkOf baseURL)) in Ha.
    apply (list_elem_of_fmap_2 ToURL) in Ha. exact Ha.
  - intros a Ha. unfold Crawler.anchorTextOf. now rewrite Ha.
  - intros a img src Ha Hc Hsrc. unfold Crawler.anchorTextOf.
    now rewrite (extractText_image_only baseURL a img src Ha Hc Hsrc).
Qed.

(** C9, as stated, fails: the anchor of [<a href=/x>Logo<img src=/l.png></a>]
    has an [<img>] among its descendants, and its anchor text is the text
    followed by the resolved src, not the resolved src. *)
Lemma img_anchor_text_counterexample :
  ~ SpecWords.imgAnchorsCarryResolvedSrc
      (tables := asciiTables) (net := Samples.plainLibrary)
      "http://example.com/" Samples.logoAnchorDoc.
Proof.
  intros Hclaim.
  specialize (Hclaim Samples.logoAnchor Samples.logoImg "/l.png").
  assert (Crawler.anchorTextOf (tables := asciiTables) (net := Samples.plainLibrary)
            "http://example.com/" Samples.logoAnchor
          = "Logohttp://example.com/l.png") as Htext
    by (vm_compute; reflexivity).
  rewrite Htext in Hclaim.
  assert ("Logohttp://example.com/l.png"
          = Crawler.resolveURL (net := Samples.plainLibrary)
              "http://example.com/" "/l.png") as Habs.
  { apply Hclaim.
    - replace (DocumentOrder.anchorsOf Samples.logoAnchorDoc)
        with [Samples.logoAnchor] by (vm_compute; reflexivity).
      now apply list_elem_of_singleton.
    - cbn. apply elem_of_cons. right. now apply list_elem_of_singleton.
    - reflexivity. }
  vm_compute in Habs. discriminate.
Qed.

(** ** C4: the budgets of the path-families *)

Import Engine Runs.

Lemma admission_keeps_limits (t : Z) (f normalized : string)
    (p : Page Float64.float64) (c : Crawler) :
  maxPerPath (snd (admission t f normalized p c)) = maxPerPath c
  /\ maxPathTypes (snd (admission t f normalized p c)) = maxPathTypes c.
Proof.
  unfold admission. repeat case_match; now split.
Qed.

(** The locked region keeps the budgets. *)
Lemma admission_keeps_budgets (t : Z) (f normalized : string)
    (p : Page Float64.float64) (c : Crawler) :
  budgetsHold c -> budgetsHold (snd (admission t f normalized p c)).
Proof.
  intros [Hpages Hpos Hper Htypes]. unfold admission.
  set (count := default 0 (pathCounts c !! f)) in *.
  destruct ((count >=? maxPerPath c)
            || ((Z.of_nat (size (pathCounts c)) >=? maxPathTypes c)
                && (count =? 0))) eqn:Hguard; [now split|].
  apply orb_false_iff in Hguard as [Hroom Hnew].
  rewrite Z.geb_leb in Hroom. apply Z.leb_gt in Hroom.
  destruct (negb (String.eqb normalized "")); cbn [snd]; [|now split].
  assert (0 <= count) as Hcount0.
  { unfold count. rewrite <- Hpages. lia. }
  split; unfold pagesUnder;
    cbn [storePage withPathDelays pathCounts pathPages maxPerPath maxPathTypes].
  - intros g. destruct (decide (f = g)) as [<-|Hne].
    + rewrite !lookup_insert_eq. cbn [default from_option id].
      rewrite length_app. cbn [length].
      specialize (Hpages f). unfold pagesUnder in Hpages. fold count. lia.
    + rewrite !lookup_insert_ne by exact Hne. apply Hpages.
  - intros g n. destruct (decide (f = g)) as [<-|Hne].
    + rewrite lookup_insert_eq. intros [= <-]. fold count. lia.
    + rewrite lookup_insert_ne by exact Hne. apply Hpos.
  - intros g. destruct (decide (f = g)) as [<-|Hne].
    + rewrite lookup_insert_eq. cbn [default from_option id]. fold count. lia.
    + rewrite lookup_insert_ne by exact Hne. apply Hper.
  - rewrite map_size_insert.
    destruct (pathCounts c !! f) as [n|] eqn:Hf; [exact Htypes|].
      assert (count = 0) as Hzero by reflexivity.
      rewrite Hzero in Hnew. cbn in Hnew. rewrite andb_true_r in Hnew.
      rewrite Z.geb_leb in Hnew. apply Z.leb_gt in Hnew. lia.
Qed.

Lemma newCrawlerFor_budgets (rootDomain : string) (maxPerPath maxPathTypes : Z) :
  budgetsHold (newCrawlerFor rootDomain maxPerPath maxPathTypes).
Proof.
  split; unfold pagesUnder; cbn.
  - intros f. now rewrite !lookup_empty.
  - intros f n. now rewrite lookup_empty.
  - intros f. rewrite lookup_empty. cbn. lia.
  - rewrite map_size_empty. lia.
Qed.

Lemma runAdmissions_keeps (steps : list AdmissionStep) (c : Crawler) :
  budgetsHold c ->
  budgetsHold (runAdmissions steps c)
  /\ maxPerPath (runAdmissions steps c) = maxPerPath c
  /\ maxPathTypes (runAdmissions steps c) = maxPathTypes c.
Proof.
  revert c. induction steps as [|s steps IH]; intros c Hc;
    [split; [exact Hc | split; reflexivity]|].
  change (runAdmissions (s :: steps) c)
    with (runAdmissions steps
            (snd (admission (stepClock s) (stepFamily s) (stepText s)
                            (stepPage s) c))).
  pose proof (admission_keeps_budgets (stepClock s) (stepFamily s) (stepText s)
                                      (stepPage s) c Hc) as Hc'.
  destruct (admission_keeps_limits (stepClock s) (stepFamily s) (stepText s)
                                   (stepPage s) c) as [Hp Ht].
  destruct (IH _ Hc') as [Hb [Hp' Ht']].
  split; [exact Hb | split; congruence].
Qed.

(** A path-family with a stored page has a counter. *)
Lemma families_with_pages_counted (c : Crawler) :
  budgetsHold c -> (familiesWithPages c <= size (pathCounts c))%nat.
Proof.
  intros [Hpages _ _ _]. unfold familiesWithPages.
  rewrite <- !size_dom. apply subseteq_size. intros f Hf.
  apply elem_of_dom in Hf as [ps Hps]. apply map_lookup_filter_Some in Hps
    as [Hps Hlen]. cbn [snd] in Hlen.
  specialize (Hpages f). unfold pagesUnder in Hpages. rewrite Hps in Hpages.
  cbn [default] in Hpages. apply elem_of_dom.
  destruct (pathCounts c !! f) as [n|]; [now exists n|]. cbn in Hpages. lia.
Qed.

(** C4: whatever the order in which the workers pass the locked region,
    the pages stored under a path-family never exceed [maxPerPath] and the
    path-families with a stored page never exceed [maxPathTypes], for limits
    that are not negative (the last two parts); for any limits the bounds
    are [max(maxPerPath, 0)] and [max(maxPathTypes, 0)] (the first two). *)
Theorem path_budgets_hold (rootDomain : string) (maxPerPath maxPathTypes : Z)
    (steps : list AdmissionStep) :
  let c := runAdmissions steps
             (newCrawlerFor rootDomain maxPerPath maxPathTypes) in
  (forall f, Z.of_nat (pagesUnder f c) <= Z.max 0 maxPerPath)
  /\ Z.of_nat (familiesWithPages c) <= Z.max 0 maxPathTypes
  /\ (0 <= maxPerPath -> forall f, Z.of_nat (pagesUnder f c) <= maxPerPath)
  /\ (0 <= maxPathTypes -> Z.of_nat (familiesWithPages c) <= maxPathTypes).
Proof.
  cbv zeta.
  destruct (runAdmissions_keeps steps _
              (newCrawlerFor_budgets rootDomain maxPerPath maxPathTypes))
    as [Hb [Hp Ht]].
  cbn [Engine.maxPerPath Engine.maxPathTypes newCrawlerFor] in Hp, Ht.
  assert (forall f,
             Z.of_nat (pagesUnder f (runAdmissions steps
               (newCrawlerFor rootDomain maxPerPath maxPathTypes)))
             <= Z.max 0 maxPerPath) as Hper.
  { intros f. pose proof (perPathBudget _ Hb f) as Hle. rewrite Hp in Hle.
    now rewrite (countsArePages _ Hb). }
  assert (Z.of_nat (familiesWithPages (runAdmissions steps
            (newCrawlerFor rootDomain maxPerPath maxPathTypes)))
          <= Z.max 0 maxPathTypes) as Htypes.
  { pose proof (families_with_pages_counted _ Hb) as Hle.
    pose proof (pathTypesBudget _ Hb) as Hsz. rewrite Ht in Hsz. lia. }
  split; [exact Hper|]. split; [exact Htypes|]. split.
  - intros Hnn f. specialize (Hper f). lia.
  - intros Hnn. lia.
Qed.

(** A limit below zero cannot be met by any crawl: with [maxPerPath = -1]
    the page is turned away, and the zero pages stored under its path-family
    are more than the limit. *)
Lemma negative_budget_is_never_met :
  ~ (Z.of_nat
       (pagesUnder "/blog"
          (runAdmissions
             [mkStep 0 "/blog" "text"
                     (mkPage "http://example.com/blog/1" "text" [] "x" "x"
                             "N/A" Float64.zero)]
             (newCrawlerFor "example.com" (-1) 10)))
     <= -1).
Proof. vm_compute. intros Hle. now apply Hle. Qed.

(** ** One worker, step by step *)

Section Steps.
Context {tables : UnicodeTables} {net : NetURL.Library} {html : HTML.Library}
        {robots : RobotsLibrary} {env : Environment}.

(** A relation between worlds that every step of a worker respects is
    respected by the worker. *)
Variable R : World -> World -> Prop.
Hypothesis R_refl : forall w, R w w.
Hypothesis R_trans : forall w1 w2 w3, R w1 w2 -> R w2 w3 -> R w1 w3.
Hypothesis R_emit : forall e w, isGo e = false -> R w (emit e w).
Hypothesis R_visited :
  forall url w,
    R w (onCrawler (fun c => withVisited ({[url]} ∪ visited c) c) w).
Hypothesis R_admission :
  forall t f normalized p w,
    R w (mkWorld (snd (admission t f normalized p (crawler w))) (trace w)).
Hypothesis R_follow : forall url depth w link, R w (followLink url depth w link).

Lemma steps_links (url : string) (depth : Z) (ls : list Link) (w : World) :
  R w (fold_left (followLink url depth) ls w).
Proof.
  revert w. induction ls as [|l ls IH]; intros w; [apply R_refl|].
  cbn [fold_left]. eapply R_trans; [apply R_follow | apply IH].
Qed.

Lemma steps_isAllowedByRobots (url : string) (w : World) :
  R w (snd (isAllowedByRobots url w)).
Proof.
  unfold isAllowedByRobots. repeat case_match; cbn [snd];
    apply R_emit; reflexivity.
Qed.

Lemma steps_onStatusOK (url : string) (depth : Z) (r : Response) (w : World) :
  R w (snd (onStatusOK url depth r w)).
Proof.
  unfold onStatusOK.
  destruct (Body r) as [body|]; [|apply R_refl].
  destruct (Contains body "cf-browser-verification"
            || Contains body "Access denied"); [apply R_refl|].
  destruct (negb (Crawler.isWebpageMIME (ContentType r))); [apply R_refl|].
  destruct (parserPanics body); [apply R_refl|].
  destruct (Crawler.getPathType url) as [pathType|]; [|apply R_refl].
  match goal with
  | |- context [admission ?t ?f ?n ?p ?c] =>
      pose proof (R_admission t f n p w) as Hadm;
      destruct (admission t f n p c) as [goOn c'] eqn:Ea
  end.
  cbn [snd] in Hadm. destruct (negb goOn); cbn [snd]; [exact Hadm|].
  eapply R_trans; [exact Hadm | apply steps_links].
Qed.

Lemma R_emit_then (e : Event) (w w' : World) :
  isGo e = false -> R (emit e w) w' -> R w w'.
Proof. intros He Hr. eapply R_trans; [apply R_emit, He | exact Hr]. Qed.

Lemma steps_fetchLoop (left : nat) (url : string) (depth : Z) (w : World) :
  R w (snd (fetchLoop left url depth w)).
Proof.
  revert w. induction left as [|left IH]; intros w; [apply R_refl|].
  cbn [fetchLoop]. apply (R_emit_then (ClientDo url)); [reflexivity|].
  match goal with
  | |- context [match ?x with Some r => onStatusOK _ _ r _ | None => _ end] =>
      destruct x as [r|]
  end; [apply steps_onStatusOK|].
  match goal with
  | |- context [emit (Sleep ?n) _] =>
      apply (R_emit_then (Sleep n)); [reflexivity|]
  end.
  destruct (3 - Z.of_nat (S left) =? 2); [apply R_refl | apply IH].
Qed.

Lemma steps_crawlPageBody (url : string) (depth : Z) (w : World) :
  R w (snd (crawlPageBody url depth w)).
Proof.
  unfold crawlPageBody.
  match goal with
  | |- context [emit (Sleep ?n) w] =>
      apply (R_emit_then (Sleep n)); [reflexivity|]; generalize (emit (Sleep n) w)
  end.
  clear w. intros w.
  destruct (ctxDone (trace w)); [apply R_refl|].
  pose proof (steps_isAllowedByRobots url w) as Hrobots.
  destruct (isAllowedByRobots url w) as [allowed w1]. cbn [snd] in Hrobots.
  eapply R_trans; [exact Hrobots|]. clear Hrobots.
  destruct (negb allowed); [apply R_refl|].
  destruct (bool_decide (url ∈ visited (crawler w1))); [apply R_refl|].
  eapply R_trans; [apply (R_visited url)|].
  apply (R_emit_then LimiterWait); [reflexivity|].
  destruct (limiterWaitFails _); [apply R_refl|].
  destruct (NetURL.Parse url); [apply steps_fetchLoop | apply R_refl].
Qed.

End Steps.

(** *** What the steps keep *)

Section Kept.
Context {tables : UnicodeTables} {net : NetURL.Library} {html : HTML.Library}
        {robots : RobotsLibrary} {env : Environment}.

Lemma grows_refl (w : World) : grows w w.
Proof. exists []. now rewrite app_nil_r. Qed.

Lemma grows_trans (w1 w2 w3 : World) : grows w1 w2 -> grows w2 w3 -> grows w1 w3.
Proof.
  intros [e1 H1] [e2 H2]. exists (e1 ++ e2). now rewrite H2, H1, app_assoc.
Qed.

Lemma grows_emit (e : Event) (w : World) : grows w (emit e w).
Proof. now exists [e]. Qed.

Lemma grows_same_trace (w w' : World) : trace w' = trace w -> grows w w'.
Proof. intros Ht. exists []. now rewrite app_nil_r. Qed.

Lemma followLink_cases (url : string) (depth : Z) (w : World) (link : Link) :
  followLink url depth w link = w
  \/ (exists u d, followLink url depth w link
                  = emit (GoCrawlPage u d) (onCrawler acquireForChild w))
  \/ (exists e, followLink url depth w link
                = emit Signal (onCrawler (pushBack e) w)).
Proof.
  unfold followLink. repeat case_match; eauto.
Qed.

Lemma crawlPageBody_grows (url : string) (depth : Z) (w : World) :
  grows w (snd (crawlPageBody url depth w)).
Proof.
  apply steps_crawlPageBody.
  - apply grows_refl.
  - apply grows_trans.
  - intros e w0 _. apply grows_emit.
  - intros u w0. now apply grows_same_trace.
  - intros t f n p w0. now apply grows_same_trace.
  - intros u d w0 l.
    destruct (followLink_cases u d w0 l) as [-> | [[u' [d' ->]] | [e ->]]];
      [apply grows_refl | now eexists | now eexists].
Qed.

Lemma fetchLoop_grows (left : nat) (url : string) (depth : Z) (w : World) :
  grows w (snd (fetchLoop left url depth w)).
Proof.
  apply steps_fetchLoop.
  - apply grows_refl.
  - apply grows_trans.
  - intros e w0 _. apply grows_emit.
  - intros t f n p w0. now apply grows_same_trace.
  - intros u d w0 l.
    destruct (followLink_cases u d w0 l) as [-> | [[u' [d' ->]] | [e ->]]];
      [apply grows_refl | now eexists | now eexists].
Qed.

Lemma countEvents_app (p : Event -> bool) (evs evs' : list Event) :
  countEvents p (evs ++ evs') = (countEvents p evs + countEvents p evs')%nat.
Proof. unfold countEvents. now rewrite List.filter_app, length_app. Qed.

(** The tokens beyond those taken for children stay the same through the
    body. *)
Lemma crawlPageBody_ownTokens (url : string) (depth : Z) (w : World) :
  ownTokens (snd (crawlPageBody url depth w)) = ownTokens w.
Proof.
  apply (steps_crawlPageBody (fun w w' => ownTokens w' = ownTokens w)).
  - reflexivity.
  - intros w1 w2 w3 H12 H23. congruence.
  - intros e w0 He. unfold ownTokens, emit. cbn [crawler trace].
    rewrite countEvents_app. unfold countEvents at 2. cbn [List.filter].
    rewrite He. cbn [length]. lia.
  - reflexivity.
  - intros t f n p w0. unfold ownTokens, admission. cbn [crawler trace].
    repeat case_match; reflexivity.
  - intros u d w0 l.
    destruct (followLink_cases u d w0 l) as [-> | [[u' [d' ->]] | [e ->]]];
      [reflexivity | |];
      unfold ownTokens, emit, onCrawler; cbn [crawler trace sem acquireForChild pushBack];
      rewrite countEvents_app; unfold countEvents at 2; cbn; lia.
Qed.

(** The body never takes a token out of the semaphore. *)
Lemma crawlPageBody_sem (url : string) (depth : Z) (w : World) :
  (sem (crawler w) <= sem (crawler (snd (crawlPageBody url depth w))))%nat.
Proof.
  apply (steps_crawlPageBody
           (fun w w' => (sem (crawler w) <= sem (crawler w'))%nat)).
  - reflexivity.
  - intros w1 w2 w3 H12 H23. lia.
  - reflexivity.
  - reflexivity.
  - intros t f n p w0. unfold admission. cbn [crawler].
    repeat case_match; reflexivity.
  - intros u d w0 l.
    destruct (followLink_cases u d w0 l) as [-> | [[u' [d' ->]] | [e ->]]];
      cbn; lia.
Qed.

(** The body leaves the domain as it is. *)
Lemma crawlPageBody_domain (url : string) (depth : Z) (w : World) :
  domain (crawler (snd (crawlPageBody url depth w))) = domain (crawler w).
Proof.
  apply (steps_crawlPageBody
           (fun w w' => domain (crawler w') = domain (crawler w))).
  - reflexivity.
  - intros w1 w2 w3 H12 H23. congruence.
  - reflexivity.
  - reflexivity.
  - intros t f n p w0. unfold admission. cbn [crawler].
    repeat case_match; reflexivity.
  - intros u d w0 l.
    destruct (followLink_cases u d w0 l) as [-> | [[u' [d' ->]] | [e ->]]];
      reflexivity.
Qed.

(** The counter of the wait group and the counter [active] move with the
    children started, and with nothing else, through the body. *)
Lemma crawlPageBody_counters (url : string) (depth : Z) (w : World) :
  let w' := snd (crawlPageBody url depth w) in
  wg (crawler w') - Z.of_nat (countEvents isGo (trace w'))
  = wg (crawler w) - Z.of_nat (countEvents isGo (trace w))
  /\ active (crawler w') - Z.of_nat (countEvents isGo (trace w'))
     = active (crawler w) - Z.of_nat (countEvents isGo (trace w)).
Proof.
  cbv zeta.
  apply (steps_crawlPageBody
           (fun w w' =>
              wg (crawler w') - Z.of_nat (countEvents isGo (trace w'))
              = wg (crawler w) - Z.of_nat (countEvents isGo (trace w))
              /\ active (crawler w') - Z.of_nat (countEvents isGo (trace w'))
                 = active (crawler w) - Z.of_nat (countEvents isGo (trace w)))).
  - now split.
  - intros w1 w2 w3 [H12 H12'] [H23 H23']. split; congruence.
  - intros e w0 He. unfold emit. cbn [crawler trace].
    rewrite countEvents_app. unfold countEvents at 2 5. cbn [List.filter].
    rewrite He. cbn [length]. split; lia.
  - now split.
  - intros t f n p w0. unfold admission. cbn [crawler trace].
    repeat case_match; now split.
  - intros u d w0 l.
    destruct (followLink_cases u d w0 l) as [-> | [[u' [d' ->]] | [e ->]]];
      [now split | |];
      unfold emit, onCrawler;
      cbn [crawler trace wg active acquireForChild pushBack];
      rewrite countEvents_app; unfold countEvents at 2 5; cbn; split; lia.
Qed.

(** A panic of the body is a panic of the parsers on the body of an answer
    with the status 200: [getPathType] is reached only with a URL that the
    construction of the request has parsed. *)
Lemma onStatusOK_panics (url : string) (depth : Z) (r : Response) (w : World)
    (msg : string) :
  NetURL.Parse url <> None ->
  fst (onStatusOK url depth r w) = Go.Panics msg ->
  exists body, Body r = Some body /\ parserPanics body = Some msg.
Proof.
  intros Hparse. unfold onStatusOK.
  destruct (Body r) as [body|]; [|discriminate].
  destruct (Contains body "cf-browser-verification"
            || Contains body "Access denied"); [discriminate|].
  destruct (negb (Crawler.isWebpageMIME (ContentType r))); [discriminate|].
  destruct (parserPanics body) as [msg'|] eqn:Hpanic.
  - cbn [fst]. intros [= <-]. now exists body.
  - destruct (Crawler.getPathType url) as [pathType|msg'] eqn:Hfamily.
    + match goal with
      | |- context [admission ?t ?f ?n ?p ?c] =>
          destruct (admission t f n p c) as [goOn c']
      end.
      destruct (negb goOn); discriminate.
    + exfalso. apply Hparse. unfold Crawler.getPathType in Hfamily.
      destruct (NetURL.Parse url) as [u|]; [|reflexivity].
      destruct (splitByte "/" (trimByte "/" (NetURL.Path (NetURL.withRawQuery "" u))))
        as [|seg0 rest]; [discriminate|].
      destruct (negb (String.eqb seg0 "")); discriminate.
Qed.

Lemma fetchLoop_panics (left : nat) (url : string) (depth : Z) (w : World)
    (msg : string) :
  NetURL.Parse url <> None ->
  fst (fetchLoop left url depth w) = Go.Panics msg ->
  exists evs r body,
    respond evs url = Some r /\ StatusCode r = 200
    /\ Body r = Some body /\ parserPanics body = Some msg.
Proof.
  intros Hparse. revert w. induction left as [|left IH]; intros w; [discriminate|].
  cbn [fetchLoop].
  destruct (respond (trace w) url) as [r|] eqn:Hr.
  - destruct (Z.eqb_spec (StatusCode r) 200) as [Hok|_].
    + intros Hpanic.
      destruct (onStatusOK_panics url depth r _ msg Hparse Hpanic)
        as [body [Hbody Hmsg]].
      now exists (trace w), r, body.
    + destruct (3 - Z.of_nat (S left) =? 2); [discriminate | apply IH].
  - destruct (3 - Z.of_nat (S left) =? 2); [discriminate | apply IH].
Qed.

Lemma crawlPageBody_panics (url : string) (depth : Z) (w : World) (msg : string) :
  fst (crawlPageBody url depth w) = Go.Panics msg ->
  exists evs r body,
    respond evs url = Some r /\ StatusCode r = 200
    /\ Body r = Some body /\ parserPanics body = Some msg.
Proof.
  unfold crawlPageBody.
  destruct (ctxDone _); [discriminate|].
  destruct (isAllowedByRobots url _) as [allowed w1].
  destruct (negb allowed); [discriminate|].
  destruct (bool_decide (url ∈ visited (crawler w1))); [discriminate|].
  destruct (limiterWaitFails _); [discriminate|].
  destruct (NetURL.Parse url) as [u|] eqn:Hparse; [|discriminate].
  apply fetchLoop_panics. now rewrite Hparse.
Qed.

(** A worker touches the maps of the path-families in the locked region
    only: it keeps the budgets. *)
Lemma crawlPage_keeps_budgets (url : string) (depth : Z) (w : World) :
  budgetsHold (crawler w) ->
  budgetsHold (crawler (snd (crawlPage url depth w))).
Proof.
  intros Hw.
  assert (budgetsHold (crawler (snd (crawlPageBody url depth w)))) as Hbody.
  { revert Hw.
    apply (steps_crawlPageBody
             (fun w w' => budgetsHold (crawler w) -> budgetsHold (crawler w'))).
    - auto.
    - auto.
    - auto.
    - intros u w0 [H1 H2 H3 H4]. now split.
    - intros t f n p w0. apply admission_keeps_budgets.
    - intros u d w0 l [H1 H2 H3 H4].
      destruct (followLink_cases u d w0 l) as [-> | [[u' [d' ->]] | [e ->]]];
        now split. }
  unfold crawlPage. destruct (crawlPageBody url depth w) as [r w1].
  cbn [snd] in *. destruct Hbody as [H1 H2 H3 H4]. now split.
Qed.

End Kept.

(** ** C6: a panic in a worker *)

(** C6, as the code has it: the deferred function of [crawlPage] gives the
    worker's token back and takes one from the counter of the wait group and
    one from the counter [active], whether the body returned or panicked:
    beyond what the body added for the children it started, each of the
    three is one less after the call.  The deferred function does not
    recover: what the body did is what [crawlPage] does, a panic of the body
    ends the program, and the program ends on no other panic.  Such a panic
    is a panic of the parsers on the body of an answer with the status
    200. *)
Theorem worker_releases_token_and_panic_ends_program
    {tables : UnicodeTables} {net : NetURL.Library} {html : HTML.Library}
    {robots : RobotsLibrary} {env : Environment}
    (pageURL : string) (depth : Z) (w : World) :
  (1 <= sem (crawler w))%nat ->
  let w' := snd (crawlPage pageURL depth w) in
  let started :=
    Z.of_nat (countEvents isGo (trace w'))
    - Z.of_nat (countEvents isGo (trace w)) in
  ownTokens w' = ownTokens w - 1
  /\ Z.of_nat (sem (crawler w')) = Z.of_nat (sem (crawler w)) + started - 1
  /\ wg (crawler w') = wg (crawler w) + started - 1
  /\ active (crawler w') = active (crawler w) + started - 1
  /\ fst (crawlPage pageURL depth w) = fst (crawlPageBody pageURL depth w)
  /\ (forall msg, fst (crawlPageBody pageURL depth w) = Go.Panics msg
                  <-> goCrawlPage pageURL depth w = Crashed msg)
  /\ (forall msg, goCrawlPage pageURL depth w = Crashed msg ->
                  exists evs r body,
                    respond evs pageURL = Some r /\ StatusCode r = 200
                    /\ Body r = Some body /\ parserPanics body = Some msg).
Proof.
  intros Hown. cbv zeta.
  assert (forall msg, fst (crawlPageBody pageURL depth w) = Go.Panics msg
                      <-> goCrawlPage pageURL depth w = Crashed msg) as Hcrash.
  { intros msg. unfold goCrawlPage, crawlPage.
    destruct (crawlPageBody pageURL depth w) as [[[]|msg'] w1]; cbn [fst].
    - split; discriminate.
    - split; intros [= ->]; reflexivity. }
  pose proof (crawlPageBody_ownTokens pageURL depth w) as Htokens.
  pose proof (crawlPageBody_sem pageURL depth w) as Hsem.
  pose proof (crawlPageBody_counters pageURL depth w) as Hcounters.
  cbv zeta in Hcounters. destruct Hcounters as [Hwg Hactive].
  assert (fst (crawlPage pageURL depth w) = fst (crawlPageBody pageURL depth w))
    as Hfst by (unfold crawlPage; now destruct (crawlPageBody pageURL depth w)).
  assert (snd (crawlPage pageURL depth w)
          = crawlPageDeferred (snd (crawlPageBody pageURL depth w))) as Hsnd
    by (unfold crawlPage; now destruct (crawlPageBody pageURL depth w)).
  rewrite Hsnd. unfold ownTokens in *.
  destruct (snd (crawlPageBody pageURL depth w)) as [c1 evs1].
  unfold crawlPageDeferred, emit, onCrawler in *.
  cbn [crawler trace sem wg active releaseOwn] in *.
  rewrite !countEvents_app. change (countEvents isGo [Signal]) with 0%nat.
  split; [lia|]. split; [lia|]. split; [lia|]. split; [lia|].
  split; [exact Hfst|]. split; [exact Hcrash|].
  intros msg Hmsg. apply Hcrash in Hmsg. now apply crawlPageBody_panics in Hmsg.
Qed.

(** The first worker of a crawl, with parsers that panic on the page: the
    program ends, and the token is given back all the same. *)
Lemma worker_releases_token_and_panic_ends_program_witness :
  let run :=
    crawlPage (tables := asciiTables) (net := Samples.plainLibrary)
              (html := Samples.parsingTo Samples.logoAnchorDoc)
              (robots := Samples.noRobots)
              (env := Samples.serving Samples.logoAnchorBody (Some "boom"))
              "http://example.com/" 0 Samples.startedWorld in
  (1 <= sem (crawler Samples.startedWorld))%nat
  /\ fst run = Go.Panics "boom"
  /\ Z.of_nat (sem (crawler (snd run)))
     = Z.of_nat (sem (crawler Samples.startedWorld))
       + (Z.of_nat (countEvents isGo (trace (snd run)))
          - Z.of_nat (countEvents isGo (trace Samples.startedWorld))) - 1
  /\ wg (crawler (snd run))
     = wg (crawler Samples.startedWorld)
       + (Z.of_nat (countEvents isGo (trace (snd run)))
          - Z.of_nat (countEvents isGo (trace Samples.startedWorld))) - 1
  /\ active (crawler (snd run))
     = active (crawler Samples.startedWorld)
       + (Z.of_nat (countEvents isGo (trace (snd run)))
          - Z.of_nat (countEvents isGo (trace Samples.startedWorld))) - 1.
Proof.
  cbv zeta.
  assert ((1 <= sem (crawler Samples.startedWorld))%nat) as Hown by (cbn; lia).
  split; [exact Hown|]. split; [vm_compute; reflexivity|].
  pose proof (worker_releases_token_and_panic_ends_program
                (tables := asciiTables) (net := Samples.plainLibrary)
                (html := Samples.parsingTo Samples.logoAnchorDoc)
                (robots := Samples.noRobots)
                (env := Samples.serving Samples.logoAnchorBody (Some "boom"))
                "http://example.com/" 0 Samples.startedWorld Hown) as Hall.
  cbv zeta in Hall. destruct Hall as [_ [Hsem [Hwg [Hactive _]]]].
  split; [exact Hsem|]. split; [exact Hwg | exact Hactive].
Defined.

(** C6, as stated, fails: when the parsers panic on the body of a page, the
    worker does not catch the panic and the program ends. *)
Lemma worker_panic_counterexample :
  ~ SpecWords.workerPanicIsCaught
      (tables := asciiTables) (net := Samples.plainLibrary)
      (html := Samples.parsingTo Samples.logoAnchorDoc)
      (robots := Samples.noRobots)
      (env := Samples.serving Samples.logoAnchorBody (Some "boom"))
      "http://example.com/" 0 Samples.startedWorld.
Proof.
  intros [w' Hrun].
  assert (goCrawlPage
            (tables := asciiTables) (net := Samples.plainLibrary)
            (html := Samples.parsingTo Samples.logoAnchorDoc)
            (robots := Samples.noRobots)
            (env := Samples.serving Samples.logoAnchorBody (Some "boom"))
            "http://example.com/" 0 Samples.startedWorld
          = Crashed "boom") as Hcrash by (vm_compute; reflexivity).
  rewrite Hcrash in Hrun. discriminate.
Qed.

(** ** C10: [getPathType] and the worker *)

(** C10, as the code has it: [getPathType] returns a path-family exactly on
    the strings that [url.Parse] accepts; on the others, those with an ASCII
    control character before the fragment among them, it panics on the nil
    pointer.  The worker does not meet that panic: [crawlPage] builds its
    request from the same string first and returns when that fails, so that
    a worker for a string [url.Parse] refuses returns, and when the parsers
    of the page do not panic no worker ends the program, whatever its
    URL. *)
Theorem getPathType_returns_on_parsed_input
    {tables : UnicodeTables} {net : NetURL.Library} {html : HTML.Library}
    {robots : RobotsLibrary} {env : Environment} :
  (forall rawURL,
      (exists f, Crawler.getPathType rawURL = Go.Returns f)
      <-> exists u, NetURL.Parse rawURL = Some u)
  /\ (forall rawURL,
         Crawler.getPathType rawURL = Go.Panics Go.nilDereference
         <-> NetURL.Parse rawURL = None)
  /\ (forall rawURL,
         NetURL.stringContainsCTLByte (cutBefore "#" rawURL) = true ->
         Crawler.getPathType rawURL = Go.Panics Go.nilDereference)
  /\ (forall pageURL depth w,
         NetURL.Parse pageURL = None ->
         fst (crawlPage pageURL depth w) = Go.Returns tt
         /\ exists w', goCrawlPage pageURL depth w = Running w')
  /\ (forall pageURL depth w,
         (forall body, parserPanics body = None) ->
         fst (crawlPage pageURL depth w) = Go.Returns tt
         /\ exists w', goCrawlPage pageURL depth w = Running w').
Proof.
  assert (forall pageURL depth w,
             (forall msg, fst (crawlPageBody pageURL depth w) <> Go.Panics msg) ->
             fst (crawlPage pageURL depth w) = Go.Returns tt
             /\ exists w', goCrawlPage pageURL depth w = Running w') as Hruns.
  { intros pageURL depth w Hnone. unfold goCrawlPage, crawlPage.
    destruct (crawlPageBody pageURL depth w) as [[[]|msg] w1]; cbn [fst] in *.
    - split; [reflexivity | now eexists].
    - now destruct (Hnone msg). }
  split; [|split; [|split; [|split]]].
  - apply getPathType_returns_iff.
  - apply getPathType_panics_iff.
  - apply getPathType_panics_on_control_character.
  - intros pageURL depth w Hparse. apply Hruns. intros msg.
    unfold crawlPageBody.
    destruct (ctxDone _); [discriminate|].
    destruct (isAllowedByRobots pageURL _) as [allowed w1].
    destruct (negb allowed); [discriminate|].
    destruct (bool_decide (pageURL ∈ visited (crawler w1))); [discriminate|].
    destruct (limiterWaitFails _); [discriminate|].
    rewrite Hparse. discriminate.
  - intros pageURL depth w Hquiet. apply Hruns. intros msg Hmsg.
    apply crawlPageBody_panics in Hmsg as [evs [r [body [_ [_ [_ Hpanic]]]]]].
    rewrite Hquiet in Hpanic. discriminate.
Qed.

(** C10, as stated, fails: on the URL [http://example.com/a], a line feed,
    [b], [getPathType] returns no path-family, whatever the libraries do on
    other inputs. *)
Lemma getPathType_control_character_counterexample :
  ~ (exists (net : NetURL.Library) (f : string),
        Crawler.getPathType (net := net)
                            ("http://example.com/a" +:+ String "010" "b")
        = Go.Returns f).
Proof.
  intros [net [f Hf]].
  rewrite (getPathType_panics_on_control_character (net := net)) in Hf;
    [discriminate | reflexivity].
Qed.

(** ** C5: robots.txt *)

Section Robots.
Context {tables : UnicodeTables} {net : NetURL.Library} {html : HTML.Library}
        {robots : RobotsLibrary} {env : Environment}.

(** A query fetches robots.txt and changes nothing in the crawler. *)
Lemma isAllowedByRobots_fetches (pageURL : string) (w : World) :
  snd (isAllowedByRobots pageURL w)
  = emit (ClientGet (robotsURLOf (crawler w))) w.
Proof. unfold isAllowedByRobots. repeat case_match; reflexivity. Qed.

Lemma askRobots_fetches (urls : list string) (answers : list bool) (w : World) :
  let w' :=
    snd (fold_left
           (fun '(answers, w) url =>
              let '(allowed, w) := isAllowedByRobots url w in
              (answers ++ [allowed], w))
           urls (answers, w)) in
  crawler w' = crawler w
  /\ trace w'
     = trace w ++ repeat (ClientGet (robotsURLOf (crawler w))) (length urls).
Proof.
  cbv zeta. revert answers w. induction urls as [|url urls IH]; intros answers w.
  - cbn. now rewrite app_nil_r.
  - cbn [fold_left length repeat].
    pose proof (isAllowedByRobots_fetches url w) as Hq.
    destruct (isAllowedByRobots url w) as [allowed w1]. cbn [snd] in Hq. subst w1.
    destruct (IH (answers ++ [allowed])
                 (emit (ClientGet (robotsURLOf (crawler w))) w)) as [Hc Ht].
    split; [exact Hc|]. rewrite Ht. cbn [emit crawler trace].
    now rewrite <- app_assoc.
Qed.

(** The answer of a query: it is read off the response just fetched. *)
Lemma isAllowedByRobots_answer (pageURL : string) (w : World) :
  fst (isAllowedByRobots pageURL w)
  = match respond (trace w) (robotsURLOf (crawler w)) with
    | Some r =>
        if StatusCode r =? 200 then
          match FromResponse r with
          | Some rules => TestAgent rules pageURL "MyCrawler"
          | None => true
          end
        else true
    | None => true
    end.
Proof.
  unfold isAllowedByRobots.
  destruct (respond (trace w) (robotsURLOf (crawler w))) as [r|]; [|reflexivity].
  destruct (StatusCode r =? 200); cbn [negb]; [|reflexivity].
  now destruct (FromResponse r).
Qed.

(** The answers of the queries, each from the world its query finds. *)
Lemma askRobots_answers_from (urls : list string) (answers : list bool) (w : World) :
  fst (fold_left
         (fun '(answers, w) url =>
            let '(allowed, w) := isAllowedByRobots url w in
            (answers ++ [allowed], w))
         urls (answers, w))
  = answers
    ++ imap (fun i url =>
               fst (isAllowedByRobots
                      url
                      (mkWorld (crawler w)
                               (trace w ++ repeat (ClientGet (robotsURLOf (crawler w)))
                                                  i))))
            urls.
Proof.
  revert answers w. induction urls as [|url urls IH]; intros answers w.
  - cbn. now rewrite app_nil_r.
  - cbn [fold_left imap].
    pose proof (isAllowedByRobots_fetches url w) as Hq.
    destruct (isAllowedByRobots url w) as [allowed w1] eqn:Hask. cbn [snd] in Hq.
    subst w1. rewrite IH, <- app_assoc. cbn [app repeat]. f_equal.
    rewrite app_nil_r. f_equal.
    + destruct w as [c evs]. cbn [crawler trace]. now rewrite Hask.
    + apply imap_ext. intros i u _. cbn [emit crawler trace compose repeat].
      now rewrite <- app_assoc.
Qed.

Lemma countEvents_repeat_get (url : string) (n : nat) :
  countEvents (isGetOf url) (repeat (ClientGet url) n) = n.
Proof.
  unfold countEvents. induction n as [|n IH]; [reflexivity|].
  cbn [repeat List.filter isGetOf]. rewrite String.eqb_refl. cbn [length].
  now rewrite IH.
Qed.

(** The shape of the trace of one worker: after the first sleep, unless the
    context is done, comes the fetch of robots.txt; and a request for the
    page comes only after the wait on the limiter. *)
Lemma crawlPageBody_trace (pageURL : string) (depth : Z) (w : World) :
  let w0 :=
    emit (Sleep ((50 + randIntn (trace w) 200) * Rate.Millisecond)) w in
  if ctxDone (trace w0) then snd (crawlPageBody pageURL depth w) = w0
  else exists evs,
      trace (snd (crawlPageBody pageURL depth w))
      = trace w0 ++ ClientGet (robotsURLOf (crawler w)) :: evs
      /\ (forall i u, evs !! i = Some (ClientDo u) ->
                      exists j, (j < i)%nat /\ evs !! j = Some LimiterWait).
Proof.
  cbv zeta. unfold crawlPageBody.
  set (w0 := emit (Sleep ((50 + randIntn (trace w) 200) * Rate.Millisecond)) w).
  destruct (ctxDone (trace w0)); [reflexivity|].
  pose proof (isAllowedByRobots_fetches pageURL w0) as Hq.
  destruct (isAllowedByRobots pageURL w0) as [allowed w1]. cbn [snd] in Hq.
  subst w1. change (crawler w0) with (crawler w).
  set (w1 := emit (ClientGet (robotsURLOf (crawler w))) w0).
  assert (trace w1 = trace w0 ++ [ClientGet (robotsURLOf (crawler w))]) as Hw1
    by reflexivity.
  assert (forall (i : nat) (u : string),
             ([] : list Event) !! i = Some (ClientDo u) ->
             exists j, (j < i)%nat /\ ([] : list Event) !! j = Some LimiterWait)
    as Hnil by (intros i u Hi; now rewrite lookup_nil in Hi).
  assert (forall (i : nat) (u : string),
             [LimiterWait] !! i = Some (ClientDo u) ->
             exists j, (j < i)%nat /\ [LimiterWait] !! j = Some LimiterWait)
    as Hwait by (intros [|[|i]] u Hi; discriminate).
  destruct (negb allowed).
  { exists []. split; [exact Hw1 | exact Hnil]. }
  destruct (bool_decide (pageURL ∈ visited (crawler w1))).
  { exists []. split; [exact Hw1 | exact Hnil]. }
  destruct (limiterWaitFails _).
  { exists [LimiterWait]. split; [|exact Hwait].
    cbn [snd emit onCrawler trace]. now rewrite Hw1, <- app_assoc. }
  destruct (NetURL.Parse pageURL) as [parsed|].
  - match goal with
    | |- context [fetchLoop 3 pageURL depth ?w2] =>
        destruct (fetchLoop_grows 3 pageURL depth w2) as [more Hmore]
    end.
    exists (LimiterWait :: more). split.
    + rewrite Hmore. cbn [emit onCrawler trace]. rewrite Hw1.
      now rewrite <- !app_assoc.
    + intros [|i] u Hi; [discriminate|]. exists 0%nat. split; [lia | reflexivity].
  - exists [LimiterWait]. split; [|exact Hwait].
    cbn [snd emit onCrawler trace]. now rewrite Hw1, <- app_assoc.
Qed.

End Robots.

(** C5, as the code has it: every query of the robots gate fetches
    robots.txt anew and keeps nothing in the crawler, so that [n] queries
    make [n] fetches; its answer is read off the response just fetched, for
    the agent [MyCrawler], and is [true] when the fetch fails, when the
    status is not 200 and when the response does not parse; the answers of
    queries made one after the other are each read off the response to
    their own fetch; and every worker whose context is not done makes such a
    query. *)
Theorem robots_fetched_at_every_query
    {tables : UnicodeTables} {net : NetURL.Library} {html : HTML.Library}
    {robots : RobotsLibrary} {env : Environment} (w : World) :
  (forall pageURL,
      snd (isAllowedByRobots pageURL w)
      = mkWorld (crawler w) (trace w ++ [ClientGet (robotsURLOf (crawler w))]))
  /\ (forall pageURL,
         fst (isAllowedByRobots pageURL w)
         = match respond (trace w) (robotsURLOf (crawler w)) with
           | Some r =>
               if StatusCode r =? 200 then
                 match FromResponse r with
                 | Some rules => TestAgent rules pageURL "MyCrawler"
                 | None => true
                 end
               else true
           | None => true
           end)
  /\ (forall urls,
         countEvents (isGetOf (robotsURLOf (crawler w)))
                     (trace (snd (askRobots urls w)))
         = (countEvents (isGetOf (robotsURLOf (crawler w))) (trace w)
            + length urls)%nat)
  /\ (forall urls i url,
         urls !! i = Some url ->
         fst (askRobots urls w) !! i
         = Some (fst (isAllowedByRobots
                        url
                        (mkWorld (crawler w)
                                 (trace w
                                  ++ repeat (ClientGet (robotsURLOf (crawler w)))
                                            i)))))
  /\ (forall pageURL depth,
         ctxDone (trace w ++ [Sleep ((50 + randIntn (trace w) 200)
                                     * Rate.Millisecond)]) = false ->
         (countEvents (isGetOf (robotsURLOf (crawler w))) (trace w) + 1
          <= countEvents (isGetOf (robotsURLOf (crawler w)))
                         (trace (snd (crawlPageBody pageURL depth w))))%nat).
Proof.
  split; [|split; [|split; [|split]]].
  - intros pageURL. apply isAllowedByRobots_fetches.
  - intros pageURL. apply isAllowedByRobots_answer.
  - intros urls. unfold askRobots.
    destruct (askRobots_fetches urls [] w) as [_ Ht]. rewrite Ht.
    now rewrite countEvents_app, countEvents_repeat_get.
  - intros urls i url Hi. unfold askRobots.
    rewrite askRobots_answers_from. cbn [app].
    rewrite list_lookup_imap, Hi. reflexivity.
  - intros pageURL depth Hctx.
    pose proof (crawlPageBody_trace pageURL depth w) as Hshape.
    cbv zeta in Hshape. cbn [emit trace] in Hshape. rewrite Hctx in Hshape.
    destruct Hshape as [evs [Ht _]]. rewrite Ht.
    rewrite !countEvents_app.
    change (ClientGet (robotsURLOf (crawler w)) :: evs)
      with ([ClientGet (robotsURLOf (crawler w))] ++ evs).
    rewrite countEvents_app.
    assert (countEvents (isGetOf (robotsURLOf (crawler w)))
                        [ClientGet (robotsURLOf (crawler w))] = 1%nat) as Hone.
    { apply (countEvents_repeat_get _ 1). }
    rewrite Hone. lia.
Qed.

(** C5, as stated, fails: two queries of the robots gate fetch robots.txt
    twice. *)
Lemma robots_fetched_twice_counterexample :
  ~ SpecWords.robotsFetchedAtMostOnce
      (crawler Samples.startedWorld)
      (trace (snd (askRobots
                     (robots := Samples.noRobots)
                     (env := Samples.serving Samples.logoAnchorBody None)
                     ["http://example.com/"; "http://example.com/about"]
                     Samples.startedWorld))).
Proof. vm_compute. lia. Qed.

(** ** C3: the limiter *)

Lemma Every_Second : Rate.Every Rate.Second = Rate.PerSecond 1.
Proof.
  unfold Rate.Every. change (Rate.Second <=? 0) with false. cbn iota.
  f_equal; try (apply Qc_is_canon; reflexivity).
Qed.

(** In a run of one worker a request for the page comes only after the wait
    on the limiter. *)
Lemma wait_before_every_request
    {tables : UnicodeTables} {net : NetURL.Library} {html : HTML.Library}
    {robots : RobotsLibrary} {env : Environment}
    (pageURL : string) (depth : Z) (w : World) (evs : list Event) :
  trace (snd (crawlPageBody pageURL depth w)) = trace w ++ evs ->
  forall i u, evs !! i = Some (ClientDo u) ->
              exists j, (j < i)%nat /\ evs !! j = Some LimiterWait.
Proof.
  intros Hevs i u Hi.
  pose proof (crawlPageBody_trace pageURL depth w) as Hshape.
  cbv zeta in Hshape.
  destruct (ctxDone _).
  - rewrite Hshape in Hevs. cbn [emit trace] in Hevs.
    apply app_inv_head in Hevs. subst evs. destruct i as [|[|i]]; discriminate.
  - destruct Hshape as [evs' [Ht Hwait]]. rewrite Ht in Hevs.
    cbn [emit trace] in Hevs. rewrite <- app_assoc in Hevs.
    apply app_inv_head in Hevs. subst evs.
    destruct i as [|[|i]]; [discriminate | discriminate |].
    cbn in Hi. destruct (Hwait i u Hi) as [j [Hlt Hj]].
    exists (S (S j)). split; [lia | exact Hj].
Qed.

(** C3, on the code: the limiter of [NewCrawler] is
    [rate.NewLimiter(rate.Every(time.Second), 10)], a bucket of 10 tokens
    refilled at one token per second, not ten; a worker waits on it once,
    before its first request for the page. *)
Theorem limiter_refills_one_token_per_second
    {tables : UnicodeTables} {net : NetURL.Library} {html : HTML.Library}
    {robots : RobotsLibrary} {env : Environment}
    (rootDomain : string) (maxPerPath maxPathTypes : Z) :
  limiter (newCrawlerFor rootDomain maxPerPath maxPathTypes)
  = Rate.mkLimiter (Rate.PerSecond 1) 10
  /\ Rate.PerSecond 1 <> Rate.PerSecond (Q2Qc 10)
  /\ (forall startURL c,
         NewCrawler startURL maxPerPath maxPathTypes = Some c ->
         limiter c = Rate.mkLimiter (Rate.PerSecond 1) 10)
  /\ (forall pageURL depth w evs,
         trace (snd (crawlPageBody pageURL depth w)) = trace w ++ evs ->
         forall i u, evs !! i = Some (ClientDo u) ->
                     exists j, (j < i)%nat /\ evs !! j = Some LimiterWait).
Proof.
  assert (limiter (newCrawlerFor rootDomain maxPerPath maxPathTypes)
          = Rate.mkLimiter (Rate.PerSecond 1) 10) as Hlim.
  { cbn [limiter newCrawlerFor]. unfold Rate.NewLimiter. now rewrite Every_Second. }
  split; [exact Hlim|]. split; [|split].
  - intros Heq. injection Heq as Heq. discriminate.
  - intros startURL c. unfold NewCrawler.
    destruct (NetURL.Parse startURL) as [u|]; [|discriminate].
    destruct (NetURL.EffectiveTLDPlusOne (NetURL.Hostname u)) as [root|];
      [|discriminate].
    intros [= <-]. cbn [limiter newCrawlerFor]. unfold Rate.NewLimiter.
    now rewrite Every_Second.
  - intros pageURL depth w evs. apply wait_before_every_request.
Qed.

(** ** The link graph of [calculatePageRank] *)

Import Analyzer Graph.

Section GraphFacts.
Context {F : Type} {arith : Arith F}.

Lemma appendAt_lookup (k v : string) (m : gmap string (list string)) (u : string) :
  default [] (appendAt k v m !! u)
  = default [] (m !! u) ++ (if String.eqb k u then [v] else []).
Proof.
  unfold appendAt. destruct (String.eqb_spec k u) as [->|Hne].
  - now rewrite lookup_insert_eq.
  - rewrite lookup_insert_ne by exact Hne. now rewrite app_nil_r.
Qed.

Lemma links_loop_lookup (page : Page F) (links : list Link)
    (g i : gmap string (list string)) (u : string) :
  let r :=
    fold_left
      (fun '(linkGraph, inboundLinks) link =>
         (appendAt (URL page) (ToURL link) linkGraph,
          appendAt (ToURL link) (URL page) inboundLinks))
      links (g, i) in
  default [] (fst r !! u)
  = default [] (g !! u)
    ++ (if String.eqb (URL page) u then map ToURL links else [])
  /\ default [] (snd r !! u)
     = default [] (i !! u)
       ++ flat_map (fun l => if String.eqb (ToURL l) u then [URL page] else [])
                   links.
Proof.
  cbv zeta. revert g i. induction links as [|l links IH]; intros g i.
  - cbn. destruct (String.eqb (URL page) u); now rewrite !app_nil_r.
  - cbn [fold_left flat_map map].
    destruct (IH (appendAt (URL page) (ToURL l) g)
                 (appendAt (ToURL l) (URL page) i)) as [Hg Hi].
    rewrite Hg, Hi, !appendAt_lookup. split.
    + destruct (String.eqb (URL page) u); now rewrite <- app_assoc.
    + now rewrite <- app_assoc.
Qed.

Lemma pages_loop_lookup (pages : list (Page F))
    (g i : gmap string (list string)) (u : string) :
  let r :=
    fold_left
      (fun gi page =>
         fold_left
           (fun '(linkGraph, inboundLinks) link =>
              (appendAt (URL page) (ToURL link) linkGraph,
               appendAt (ToURL link) (URL page) inboundLinks))
           (Links page) gi)
      pages (g, i) in
  default [] (fst r !! u) = default [] (g !! u) ++ outOf pages u
  /\ default [] (snd r !! u) = default [] (i !! u) ++ inOf pages u.
Proof.
  cbv zeta. revert g i. induction pages as [|p pages IH]; intros g i.
  - cbn. now rewrite !app_nil_r.
  - cbn [fold_left]. unfold outOf, inOf. cbn [flat_map].
    destruct (links_loop_lookup p (Links p) g i u) as [Hg Hi]. cbv zeta in Hg, Hi.
    destruct (fold_left _ (Links p) (g, i)) as [g' i']. cbn [fst snd] in Hg, Hi.
    destruct (IH g' i') as [Hg' Hi'].
    rewrite Hg', Hi', Hg, Hi. unfold outOf, inOf. now rewrite <- !app_assoc.
Qed.

(** The graph holds the targets of the links as the pages hold them. *)
Lemma linkGraphOf_lookup (pages : list (Page F)) (u : string) :
  default [] (linkGraphOf pages !! u) = outOf pages u.
Proof.
  destruct (pages_loop_lookup pages ∅ ∅ u) as [Hg _]. cbv zeta in Hg.
  unfold linkGraphOf, buildGraph. rewrite Hg. now rewrite lookup_empty.
Qed.

Lemma inboundLinksOf_lookup (pages : list (Page F)) (u : string) :
  default [] (inboundLinksOf pages !! u) = inOf pages u.
Proof.
  destruct (pages_loop_lookup pages ∅ ∅ u) as [_ Hi]. cbv zeta in Hi.
  unfold inboundLinksOf, buildGraph. rewrite Hi. now rewrite lookup_empty.
Qed.

(** With URLs that differ, the links out of a page's URL are the links of
    the page. *)
Lemma outOf_page (pages : list (Page F)) (p : Page F) :
  NoDup (map URL pages) -> p ∈ pages ->
  outOf pages (URL p) = map ToURL (Links p).
Proof.
  unfold outOf. induction pages as [|q pages IH]; intros Hnd Hin.
  - now apply elem_of_nil in Hin.
  - cbn [map] in Hnd. apply NoDup_cons in Hnd as [Hq Hnd]. cbn [flat_map].
    apply elem_of_cons in Hin as [-> | Hin].
    + rewrite String.eqb_refl.
      assert (flat_map
                (fun p0 : Page F =>
                   if String.eqb (URL p0) (URL q) then map ToURL (Links p0) else [])
                pages = []) as ->; [|now rewrite app_nil_r].
      clear IH Hnd. induction pages as [|r pages IHp]; [reflexivity|].
      cbn [flat_map]. cbn [map] in Hq. apply not_elem_of_cons in Hq as [Hne Hq].
      destruct (String.eqb_spec (URL r) (URL q)) as [Heq|_]; [congruence|].
      now apply IHp.
    + destruct (String.eqb_spec (URL q) (URL p)) as [Heq|_].
      * exfalso. apply Hq. rewrite Heq. now apply list_elem_of_fmap_2.
      * now apply IH.
Qed.

(** [assignAll] on pages whose URLs differ. *)
Lemma assignAll_lookup (v : Page F -> F) (pages : list (Page F)) (p : Page F) :
  NoDup (map URL pages) -> p ∈ pages ->
  assignAll v pages !! URL p = Some (v p).
Proof.
  unfold assignAll. generalize (∅ : gmap string F).
  induction pages as [|q pages IH]; intros m Hnd Hin.
  - now apply elem_of_nil in Hin.
  - cbn [map] in Hnd. apply NoDup_cons in Hnd as [Hq Hnd]. cbn [fold_left].
    apply elem_of_cons in Hin as [-> | Hin]; [|now apply IH].
    clear IH Hnd. revert m. induction pages as [|r pages IHp]; intros m.
    + cbn. now rewrite lookup_insert_eq.
    + cbn [fold_left]. cbn [map] in Hq. apply not_elem_of_cons in Hq as [Hne Hq].
      rewrite insert_insert_ne by congruence. now apply IHp.
Qed.

End GraphFacts.

(** ** The sum of the pagerank values, in exact arithmetic *)

Section Sums.
Local Open Scope Qc_scope.
Context {A : Type}.

Lemma qsum_nil (f : A -> Qc) : qsum f [] = 0.
Proof. reflexivity. Qed.

Lemma qsum_cons (f : A -> Qc) (x : A) (l : list A) :
  qsum f (x :: l) = f x + qsum f l.
Proof. reflexivity. Qed.

Lemma qsum_app (f : A -> Qc) (l l' : list A) :
  qsum f (l ++ l') = qsum f l + qsum f l'.
Proof.
  induction l as [|x l IH]; cbn [app]; rewrite ?qsum_nil, ?qsum_cons; [ring|].
  rewrite IH. ring.
Qed.

Lemma qsum_ext_in (f g : A -> Qc) (l : list A) :
  (forall x, x ∈ l -> f x = g x) -> qsum f l = qsum g l.
Proof.
  induction l as [|x l IH]; intros Hfg; [reflexivity|].
  rewrite !qsum_cons, IH, Hfg; [reflexivity | now left |].
  intros y Hy. apply Hfg. now right.
Qed.

Lemma qsum_zero (l : list A) : qsum (fun _ => 0) l = 0.
Proof.
  induction l as [|x l IH]; [reflexivity|]. rewrite qsum_cons, IH. ring.
Qed.

Lemma qsum_plus (f g : A -> Qc) (l : list A) :
  qsum (fun x => f x + g x) l = qsum f l + qsum g l.
Proof.
  induction l as [|x l IH]; rewrite ?qsum_nil, ?qsum_cons; [ring|].
  rewrite IH. ring.
Qed.

Lemma qsum_scale (c : Qc) (f : A -> Qc) (l : list A) :
  qsum (fun x => c * f x) l = c * qsum f l.
Proof.
  induction l as [|x l IH]; rewrite ?qsum_nil, ?qsum_cons; [ring|].
  rewrite IH. ring.
Qed.

Lemma qsum_const (c : Qc) (l : list A) :
  qsum (fun _ => c) l = QcOfNat (length l) * c.
Proof.
  induction l as [|x l IH]; cbn [length QcOfNat];
    rewrite ?qsum_nil, ?qsum_cons; [ring|].
  rewrite IH. ring.
Qed.

(** A loop that adds to an accumulator computes a sum. *)
Lemma fold_left_qsum (f : A -> Qc) (l : list A) (a : Qc) :
  fold_left (fun s x => s + f x) l a = a + qsum f l.
Proof.
  revert a. induction l as [|x l IH]; intros a; cbn [fold_left];
    rewrite ?qsum_nil, ?qsum_cons; [ring|].
  rewrite IH. ring.
Qed.

End Sums.

Section DoubleSums.
Local Open Scope Qc_scope.

Lemma qsum_flat_map {A B : Type} (f : B -> Qc) (g : A -> list B) (l : list A) :
  qsum f (flat_map g l) = qsum (fun x => qsum f (g x)) l.
Proof.
  induction l as [|x l IH]; [reflexivity|].
  cbn [flat_map]. rewrite qsum_app, qsum_cons, IH. reflexivity.
Qed.

Lemma qsum_swap {A B : Type} (f : A -> B -> Qc) (l : list A) (l' : list B) :
  qsum (fun x => qsum (f x) l') l = qsum (fun y => qsum (fun x => f x y) l) l'.
Proof.
  induction l as [|x l IH].
  - rewrite qsum_nil. symmetry. apply qsum_zero.
  - rewrite qsum_cons, IH, <- qsum_plus. reflexivity.
Qed.

End DoubleSums.

Section Exact.
Local Open Scope Qc_scope.
#[local] Existing Instance exactArith.

Lemma QcOfNat_this (n : nat) : (QcOfNat n == inject_Z (Z.of_nat n))%Q.
Proof.
  induction n as [|n IH]; [reflexivity|].
  cbn [QcOfNat]. unfold Qcplus, Q2Qc. cbn [this].
  rewrite Qred_correct, IH. rewrite Nat2Z.inj_succ, <- Z.add_1_r.
  rewrite inject_Z_plus. reflexivity.
Qed.

Lemma QcOfNat_pos (n : nat) : 0 < QcOfNat (S n).
Proof.
  unfold Qclt. rewrite QcOfNat_this.
  change (this 0) with (0 # 1)%Q. unfold Qlt. cbn [Qnum Qden inject_Z]. lia.
Qed.

Lemma QcOfNat_nonzero (n : nat) : n <> O -> QcOfNat n <> 0.
Proof.
  destruct n as [|n]; [congruence|]. intros _ Hz.
  pose proof (QcOfNat_pos n) as Hpos. rewrite Hz in Hpos.
  now apply Qclt_not_eq in Hpos.
Qed.

Lemma positive_QcOfNat (n : nat) : n <> O -> positive (QcOfNat n) = true.
Proof.
  destruct n as [|n]; [congruence|]. intros _. cbn [positive exactArith].
  destruct (Qclt_le_dec 0 (QcOfNat (S n))) as [_|Hle]; [reflexivity|].
  exfalso. now apply (Qclt_not_le _ _ (QcOfNat_pos n)).
Qed.

Lemma damping_constants : oneMinusDamping + dampingFactor * 1 = 1.
Proof. apply Qc_is_canon. reflexivity. Qed.

Lemma rankOf_exact (linkGraph inboundLinks : gmap string (list string))
    (pageCount : Qc) (pageRank : gmap string Qc) (page : Page Qc) :
  rankOf linkGraph inboundLinks pageCount pageRank page
  = oneMinusDamping / pageCount
    + qsum (handedOn linkGraph pageRank)
           (default [] (inboundLinks !! URL page)).
Proof.
  unfold rankOf. cbn [add mul div ofLen exactArith].
  generalize (oneMinusDamping / pageCount).
  induction (default [] (inboundLinks !! URL page)) as [|v l IH]; intros a.
  - cbn [fold_left]. rewrite qsum_nil. ring.
  - cbn [fold_left]. rewrite IH, qsum_cons. unfold handedOn at 2.
    destruct (positive (QcOfNat (length (default [] (linkGraph !! v))))); ring.
Qed.

Lemma qsum_indicator_absent (c : Qc) (pages : list (Page Qc)) (t : string) :
  t ∉ map URL pages ->
  qsum (fun p => if String.eqb t (URL p) then c else 0) pages = 0.
Proof.
  induction pages as [|q pages IH]; intros Hnot; [reflexivity|].
  cbn [map] in Hnot. apply not_elem_of_cons in Hnot as [Hne Hnot].
  rewrite qsum_cons, IH by exact Hnot.
  destruct (String.eqb_spec t (URL q)) as [Heq|_]; [congruence | ring].
Qed.

Lemma qsum_indicator (c : Qc) (pages : list (Page Qc)) (t : string) :
  NoDup (map URL pages) -> t ∈ map URL pages ->
  qsum (fun p => if String.eqb t (URL p) then c else 0) pages = c.
Proof.
  induction pages as [|q pages IH]; intros Hnd Hin.
  - now apply elem_of_nil in Hin.
  - cbn [map] in Hnd, Hin. apply NoDup_cons in Hnd as [Hq Hnd].
    rewrite qsum_cons. destruct (String.eqb_spec t (URL q)) as [->|Hne].
    + rewrite qsum_indicator_absent by exact Hq. ring.
    + apply elem_of_cons in Hin as [Heq | Hin]; [congruence|].
      rewrite IH by assumption. ring.
Qed.

(** Summed over the pages, what comes in is what the pages hand on, once
    for each of their links. *)
Lemma inbound_sum (pages : list (Page Qc)) (g : string -> Qc) :
  closedGraph pages ->
  qsum (fun p => qsum g (inOf pages (URL p))) pages
  = qsum (fun q => QcOfNat (length (Links q)) * g (URL q)) pages.
Proof.
  intros [Hnd _ _ Htargets].
  assert (forall t,
             qsum g (inOf pages t)
             = qsum (fun q =>
                       qsum (fun l => if String.eqb (ToURL l) t
                                      then g (URL q) else 0)
                            (Links q)) pages) as Hin.
  { intros t. unfold inOf. rewrite qsum_flat_map.
    apply qsum_ext_in. intros q _. rewrite qsum_flat_map.
    apply qsum_ext_in. intros l _.
    destruct (String.eqb (ToURL l) t); rewrite ?qsum_cons, ?qsum_nil; ring. }
  rewrite (qsum_ext_in _ _ pages (fun p _ => Hin (URL p))).
  rewrite qsum_swap. apply qsum_ext_in. intros q Hq.
  rewrite qsum_swap.
  rewrite (qsum_ext_in _ (fun _ => g (URL q)) (Links q)).
  - rewrite qsum_const. reflexivity.
  - intros l Hl. apply qsum_indicator; [exact Hnd|]. now apply (Htargets q l).
Qed.

Lemma pageCount_nonzero (pages : list (Page Qc)) :
  pages <> [] -> QcOfNat (length pages) <> 0.
Proof.
  intros Hne. apply QcOfNat_nonzero. destruct pages; [congruence | discriminate].
Qed.

Lemma sumAt_assignAll (v : Page Qc -> Qc) (pages : list (Page Qc)) :
  NoDup (map URL pages) ->
  sumAt pages (assignAll v pages) = qsum v pages.
Proof.
  intros Hnd. unfold sumAt. apply qsum_ext_in. intros p Hp.
  unfold at_. now rewrite (assignAll_lookup v pages p Hnd Hp).
Qed.

Lemma initial_sum (pages : list (Page Qc)) :
  closedGraph pages ->
  sumAt pages (assignAll (fun _ => one / ofLen (length pages)) pages) = 1.
Proof.
  intros Hclosed. rewrite sumAt_assignAll by apply (urlsDiffer _ Hclosed).
  rewrite qsum_const. cbn [one div ofLen exactArith].
  pose proof (pageCount_nonzero pages (somePage _ Hclosed)) as Hn.
  field. exact Hn.
Qed.

(** One round keeps the sum at one. *)
Lemma iteration_sum (pages : list (Page Qc)) (pageRank : gmap string Qc) :
  closedGraph pages ->
  sumAt pages pageRank = 1 ->
  sumAt pages
        (iteration (linkGraphOf pages) (inboundLinksOf pages)
                   (ofLen (length pages)) pages pageRank)
  = 1.
Proof.
  intros Hclosed Hone. unfold iteration.
  rewrite sumAt_assignAll by apply (urlsDiffer _ Hclosed).
  rewrite (qsum_ext_in _
             (fun p => oneMinusDamping / QcOfNat (length pages)
                       + qsum (handedOn (linkGraphOf pages) pageRank)
                              (inOf pages (URL p))) pages).
  2:{ intros p _. rewrite rankOf_exact, inboundLinksOf_lookup. reflexivity. }
  rewrite qsum_plus, qsum_const, inbound_sum by exact Hclosed.
  rewrite (qsum_ext_in _ (fun q => dampingFactor * at_ pageRank (URL q)) pages).
  2:{ intros q Hq. unfold handedOn.
      rewrite linkGraphOf_lookup,
        (outOf_page pages q (urlsDiffer _ Hclosed) Hq), length_map.
      assert (length (Links q) <> O) as Hlen.
      { pose proof (noDangling _ Hclosed q Hq) as Hl.
        destruct (Links q); [congruence | discriminate]. }
      rewrite (positive_QcOfNat _ Hlen).
      pose proof (QcOfNat_nonzero _ Hlen) as Hnz. field. exact Hnz. }
  rewrite qsum_scale. fold (sumAt pages pageRank). rewrite Hone.
  pose proof (pageCount_nonzero pages (somePage _ Hclosed)) as Hn.
  transitivity (oneMinusDamping + dampingFactor * 1);
    [field; exact Hn | apply damping_constants].
Qed.

Lemma iterations_sum (n : nat) (pages : list (Page Qc)) :
  closedGraph pages ->
  sumAt pages
        (Nat.iter n
           (iteration (linkGraphOf pages) (inboundLinksOf pages)
                      (ofLen (length pages)) pages)
           (assignAll (fun _ => one / ofLen (length pages)) pages))
  = 1.
Proof.
  intros Hclosed. induction n as [|n IH]; cbn [Nat.iter].
  - now apply initial_sum.
  - now apply iteration_sum.
Qed.

Lemma pageRankSum_calculated (crawlResult : CrawlResult Qc) :
  pageRankSum (calculatePageRank crawlResult)
  = sumAt (Pages crawlResult) (pageRankMap (Pages crawlResult)).
Proof.
  unfold pageRankSum, calculatePageRank, withPages, sumAt. cbn [Pages].
  cbn [add zero exactArith]. rewrite fold_left_qsum.
  generalize (pageRankMap (Pages crawlResult)). intros m.
  induction (Pages crawlResult) as [|p ps IH]; cbn [map];
    rewrite ?qsum_nil, ?qsum_cons; [ring|].
  cbn [PageRank withPageRank]. rewrite <- IH. ring.
Qed.

End Exact.

(** In exact arithmetic, not in the [float64] of the code: when the pages
    have different URLs, there is a page, every page has a link, and the
    target of every link is, as the string the page holds, the URL of a
    page, the pagerank values after the 100 rounds sum to one. *)
Lemma pagerank_sums_to_one_on_closed_graph (crawlResult : CrawlResult Qc) :
  closedGraph (Pages crawlResult) ->
  pageRankSum (arith := exactArith)
              (calculatePageRank (arith := exactArith) crawlResult)
  = 1%Qc.
Proof.
  intros Hclosed. rewrite pageRankSum_calculated. unfold pageRankMap.
  pose proof (iterations_sum iterations (Pages crawlResult) Hclosed) as Hsum.
  unfold linkGraphOf, inboundLinksOf in Hsum.
  destruct (buildGraph (Pages crawlResult)) as [linkGraph inboundLinks].
  exact Hsum.
Qed.

Lemma cyclePages_closed {F : Type} (zero : F) : closedGraph (cyclePages zero).
Proof.
  split.
  - cbn. apply NoDup_cons. split; [|apply NoDup_singleton].
    intros Hin. apply list_elem_of_singleton in Hin. discriminate.
  - discriminate.
  - intros p Hp. unfold cyclePages in Hp.
    repeat (apply elem_of_cons in Hp as [-> | Hp]); [discriminate.. |].
    now apply elem_of_nil in Hp.
  - intros p l Hp Hl. unfold cyclePages in Hp.
    repeat (apply elem_of_cons in Hp as [-> | Hp]);
      [| |now apply elem_of_nil in Hp];
      cbn in Hl; apply list_elem_of_singleton in Hl; subst l; cbn.
    + apply elem_of_cons. right. now apply list_elem_of_singleton.
    + apply elem_of_cons. now left.
Qed.

(** Two pages with a link to each other form such a graph. *)
Lemma pagerank_sums_to_one_on_closed_graph_witness :
  pageRankSum (arith := exactArith)
              (calculatePageRank (arith := exactArith)
                                 (resultOf (cyclePages 0%Qc)))
  = 1%Qc.
Proof.
  apply (pagerank_sums_to_one_on_closed_graph (resultOf (cyclePages 0%Qc))).
  exact (cyclePages_closed 0%Qc).
Defined.

(** In [float64], as the code computes: for a page with a link to a page
    without links the values sum to 0.21375, which is further than 1e-6
    from one. *)
Lemma pagerank_sum_counterexample :
  ~ SpecWords.sumsToOne
      (calculatePageRank (arith := float64Arith)
                         (resultOf (danglingPages Float64.zero))).
Proof.
  unfold SpecWords.sumsToOne. vm_compute. discriminate.
Qed.

(** ** Rounding to [float64] *)

Module Binary64Facts.
Import Reals Lra SpecFloat FloatOps FloatAxioms Binary64.
Local Open Scope R_scope.

Lemma pow2_pos (e : Z) : 0 < pow2 e.
Proof. apply powerRZ_lt. lra. Qed.

Lemma pow2_add (a b : Z) : pow2 (a + b) = pow2 a * pow2 b.
Proof. apply powerRZ_add. lra. Qed.

Lemma pow2_opp (a : Z) : pow2 (- a) = / pow2 a.
Proof. apply powerRZ_neg'. Qed.

Lemma pow2_sub (a b : Z) : pow2 (a - b) = pow2 a / pow2 b.
Proof. unfold Z.sub. rewrite pow2_add, pow2_opp. reflexivity. Qed.

Lemma pow2_nat (n : nat) : pow2 (Z.of_nat n) = 2 ^ n.
Proof. symmetry. apply pow_powerRZ. Qed.

Lemma pow2_IZR (n : Z) : (0 <= n)%Z -> IZR (2 ^ n) = pow2 n.
Proof.
  intros Hn. rewrite <- (Z2Nat.id n Hn) at 1 2.
  rewrite pow2_nat, <- pow_IZR. reflexivity.
Qed.

Lemma pow2_ge_1 (n : Z) : (0 <= n)%Z -> 1 <= pow2 n.
Proof.
  intros Hn. rewrite <- pow2_IZR by exact Hn. apply IZR_le.
  pose proof (Z.pow_pos_nonneg 2 n ltac:(lia) Hn). lia.
Qed.

Lemma pow2_le (a b : Z) : (a <= b)%Z -> pow2 a <= pow2 b.
Proof.
  intros Hab. replace b with (a + (b - a))%Z by lia. rewrite pow2_add.
  pose proof (pow2_pos a). pose proof (pow2_ge_1 (b - a) ltac:(lia)). nra.
Qed.

Lemma pow2_lt (a b : Z) : (a < b)%Z -> pow2 a < pow2 b.
Proof.
  intros Hab. replace b with (a + 1 + (b - a - 1))%Z by lia.
  rewrite !pow2_add. change (pow2 1) with (2 * 1).
  pose proof (pow2_pos a). pose proof (pow2_ge_1 (b - a - 1) ltac:(lia)). nra.
Qed.

Lemma pow2_lt_inv (a b : Z) : pow2 a < pow2 b -> (a < b)%Z.
Proof.
  intros Hlt. destruct (Z.lt_ge_cases a b) as [H|H]; [exact H|].
  pose proof (pow2_le b a H). lra.
Qed.

(** ** The number of bits of a mantissa *)

Lemma digits2_pos_bounds (p : BinNums.positive) :
  (2 ^ (Zpos (digits2_pos p) - 1) <= Zpos p < 2 ^ Zpos (digits2_pos p))%Z.
Proof.
  induction p as [p IH|p IH|]; cbn [digits2_pos].
  - assert (2 ^ Zpos (digits2_pos p) = 2 * 2 ^ (Zpos (digits2_pos p) - 1))%Z as Hd.
    { rewrite <- Z.pow_succ_r by lia. f_equal. lia. }
    rewrite Pos2Z.inj_succ, (Pos2Z.inj_xI p).
    replace (Z.succ (Zpos (digits2_pos p)) - 1)%Z
      with (Zpos (digits2_pos p)) by lia.
    rewrite Z.pow_succ_r by lia. lia.
  - assert (2 ^ Zpos (digits2_pos p) = 2 * 2 ^ (Zpos (digits2_pos p) - 1))%Z as Hd.
    { rewrite <- Z.pow_succ_r by lia. f_equal. lia. }
    rewrite Pos2Z.inj_succ, (Pos2Z.inj_xO p).
    replace (Z.succ (Zpos (digits2_pos p)) - 1)%Z
      with (Zpos (digits2_pos p)) by lia.
    rewrite Z.pow_succ_r by lia. lia.
  - cbn. lia.
Qed.

Lemma digits2_pos_unique (p : BinNums.positive) (n : Z) :
  (2 ^ (n - 1) <= Zpos p < 2 ^ n)%Z -> Zpos (digits2_pos p) = n.
Proof.
  intros [Hlo Hhi]. pose proof (digits2_pos_bounds p) as [Hlo' Hhi'].
  assert (0 < n)%Z as Hn.
  { destruct (Z.lt_ge_cases 0 n) as [H|H]; [exact H|].
    destruct (Z.eq_dec n 0) as [->|Hne]; [cbn in Hhi; lia|].
    rewrite (Z.pow_neg_r 2 n) in Hhi by lia. lia. }
  destruct (Z.lt_trichotomy (Zpos (digits2_pos p)) n) as [H|[H|H]].
  - pose proof (Z.pow_le_mono_r 2 (Zpos (digits2_pos p)) (n - 1)
                                ltac:(lia) ltac:(lia)). lia.
  - exact H.
  - pose proof (Z.pow_le_mono_r 2 n (Zpos (digits2_pos p) - 1)
                                ltac:(lia) ltac:(lia)). lia.
Qed.

Lemma digits2_pos_real (p : BinNums.positive) :
  pow2 (Zpos (digits2_pos p) - 1) <= IZR (Zpos p) < pow2 (Zpos (digits2_pos p)).
Proof.
  pose proof (digits2_pos_bounds p) as [Hlo Hhi].
  rewrite <- !pow2_IZR by lia. split; [now apply IZR_le | now apply IZR_lt].
Qed.

(** ** Shifting to the right *)

Lemma iter_pos_nat {A : Type} (f : A -> A) (p : BinNums.positive) (x : A) :
  SpecFloat.iter_pos f p x = Nat.iter (Pos.to_nat p) f x.
Proof.
  revert x. induction p as [p IH|p IH|]; intros x; cbn [SpecFloat.iter_pos].
  - rewrite !IH, Pos2Nat.inj_xI. cbn [Nat.mul].
    rewrite Nat.add_0_r, <- Nat.iter_add, <- Nat.iter_succ_r. reflexivity.
  - rewrite !IH, Pos2Nat.inj_xO. cbn [Nat.mul].
    now rewrite Nat.add_0_r, Nat.iter_add.
  - reflexivity.
Qed.

Lemma shr_1_locates (mrs : shr_record) (x : R) :
  (0 <= shr_m mrs)%Z -> locates mrs x ->
  locates (shr_1 mrs) (x / 2) /\ (0 <= shr_m (shr_1 mrs))%Z.
Proof.
  destruct mrs as [m r s]. unfold locates. cbn [shr_m shr_r shr_s].
  intros Hm [Hx Hloc].
  destruct m as [|[p|p|]|p]; [| | | |lia]; cbn [shr_1 shr_m shr_r shr_s];
    rewrite ?(Pos2Z.inj_xI p), ?(Pos2Z.inj_xO p), ?plus_IZR, ?mult_IZR in *;
    (split; [|lia]);
    destruct r, s; cbn [orb]; lra.
Qed.

Lemma shr_iter_locates (n : nat) (mrs : shr_record) (x : R) :
  (0 <= shr_m mrs)%Z -> locates mrs x ->
  locates (Nat.iter n shr_1 mrs) (x / 2 ^ n)
  /\ (0 <= shr_m (Nat.iter n shr_1 mrs))%Z.
Proof.
  intros Hm Hx. induction n as [|n [IHx IHm]].
  - cbn. replace (x / 1) with x by field. now split.
  - rewrite Nat.iter_succ. cbn [pow].
    replace (x / (2 * 2 ^ n)) with (x / 2 ^ n / 2).
    + now apply shr_1_locates.
    + field. apply pow_nonzero. lra.
Qed.

Lemma shr_locates (mrs : shr_record) (e n : Z) (x : R) :
  (0 <= shr_m mrs)%Z -> (0 <= n)%Z -> locates mrs x ->
  locates (fst (shr mrs e n)) (x / pow2 n)
  /\ snd (shr mrs e n) = (e + n)%Z
  /\ (0 <= shr_m (fst (shr mrs e n)))%Z.
Proof.
  intros Hm Hn Hx. destruct n as [|p|p]; [| |lia].
  - cbn [shr fst snd]. change (pow2 0) with 1.
    replace (x / 1) with x by field. split; [exact Hx|]. split; [lia | exact Hm].
  - cbn [shr fst snd]. rewrite iter_pos_nat.
    rewrite <- (positive_nat_Z p), pow2_nat.
    destruct (shr_iter_locates (Pos.to_nat p) mrs x Hm Hx) as [H1 H2].
    split; [exact H1|]. split; [rewrite positive_nat_Z; reflexivity | exact H2].
Qed.

Lemma round_nearest_even_locates (mrs : shr_record) (x : R) :
  locates mrs x ->
  let m' := round_nearest_even (shr_m mrs) (loc_of_shr_record mrs) in
  (m' = shr_m mrs \/ m' = (shr_m mrs + 1)%Z)
  /\ x - / 2 <= IZR m' <= x + / 2.
Proof.
  destruct mrs as [m r s]. unfold locates. cbn [shr_m shr_r shr_s].
  intros [Hx Hloc]. cbv zeta.
  destruct r, s; cbn [loc_of_shr_record round_nearest_even].
  - split; [now right|]. rewrite plus_IZR. lra.
  - destruct (Z.even m).
    + split; [now left|]. lra.
    + split; [now right|]. rewrite plus_IZR. lra.
  - split; [now left|]. lra.
  - split; [now left|]. lra.
Qed.

Lemma shr_record_of_loc_m (m : Z) (l : location) :
  shr_m (shr_record_of_loc m l) = m.
Proof. destruct l as [|[]]; reflexivity. Qed.

(** ** Rounding to the nearest [float64] *)

Lemma fexp_normal (n : Z) : (-1074 <= n - 53)%Z -> fexp prec emax n = (n - 53)%Z.
Proof. unfold fexp, emin, prec, emax. lia. Qed.

Lemma digits2_pos_ge (p : BinNums.positive) (n : Z) :
  (2 ^ (n - 1) <= Zpos p)%Z -> (n <= Zpos (digits2_pos p))%Z.
Proof.
  intros Hlo. pose proof (digits2_pos_bounds p) as [_ Hhi].
  destruct (Z.le_gt_cases n (Zpos (digits2_pos p))) as [H|H]; [exact H|].
  pose proof (Z.pow_le_mono_r 2 (Zpos (digits2_pos p)) (n - 1)
                              ltac:(lia) ltac:(lia)). lia.
Qed.

Lemma shr_fexp_kept (p : BinNums.positive) (e : Z) :
  Zpos (digits2_pos p) = 53%Z -> (-1074 <= e)%Z ->
  shr_fexp prec emax (Zpos p) e loc_Exact
  = ({| shr_m := Zpos p; shr_r := false; shr_s := false |}, e).
Proof.
  intros Hd He. unfold shr_fexp. cbn [Zdigits2]. rewrite Hd.
  rewrite fexp_normal by lia. replace (53 + e - 53 - e)%Z with 0%Z by lia.
  reflexivity.
Qed.

Lemma shr_fexp_carried (e : Z) :
  (-1074 <= e)%Z ->
  shr_fexp prec emax 9007199254740992 e loc_Exact
  = ({| shr_m := 4503599627370496; shr_r := false; shr_s := false |},
     (e + 1)%Z).
Proof.
  intros He. unfold shr_fexp.
  change (Zdigits2 9007199254740992) with 54%Z.
  rewrite fexp_normal by lia. replace (54 + e - 53 - e)%Z with 1%Z by lia.
  reflexivity.
Qed.

(** The end of [binary_round_aux]: a mantissa of 53 bits stays, the mantissa
    [2^53] turns into [2^52]. *)
Lemma round_tail (sx : bool) (m1 e1 : Z) :
  (2 ^ 52 <= m1 <= 2 ^ 53)%Z -> (-1074 <= e1 <= 970)%Z ->
  exists m e,
    (let '(mrs, e2) := shr_fexp prec emax m1 e1 loc_Exact in
     match shr_m mrs with
     | Z0 => S754_zero sx
     | Zpos m =>
         if Z.leb e2 (emax - prec) then S754_finite sx m e2
         else S754_infinity sx
     | Zneg _ => S754_nan
     end) = S754_finite sx m e
    /\ Zpos (digits2_pos m) = 53%Z /\ (-1074 <= e <= 971)%Z
    /\ IZR (Zpos m) * pow2 e = IZR m1 * pow2 e1.
Proof.
  intros [Hlo Hhi] He.
  destruct (Z.eq_dec m1 (2 ^ 53)) as [->|Hne].
  - exists 4503599627370496%positive, (e1 + 1)%Z.
    change (2 ^ 53)%Z with 9007199254740992%Z.
    rewrite shr_fexp_carried by lia. cbn [shr_m].
    replace (e1 + 1 <=? emax - prec)%Z with true
      by (symmetry; apply Z.leb_le; unfold emax, prec; lia).
    split; [reflexivity|]. split; [reflexivity|]. split; [lia|].
    rewrite pow2_add. change (pow2 1) with (2 * 1). lra.
  - destruct m1 as [|p|p]; [lia| |lia].
    assert (Zpos (digits2_pos p) = 53%Z) as Hd.
    { apply digits2_pos_unique. change (53 - 1)%Z with 52%Z. lia. }
    exists p, e1. rewrite shr_fexp_kept by lia. cbn [shr_m].
    replace (e1 <=? emax - prec)%Z with true
      by (symmetry; apply Z.leb_le; unfold emax, prec; lia).
    split; [reflexivity|]. split; [exact Hd|]. split; [lia | reflexivity].
Qed.

(** The exponents of a number in a range far from the ends of [float64]. *)
Lemma exponent_in_range (d e : Z) (x : R) :
  pow2 (d - 1 + e) <= x < pow2 (d + e) ->
  pow2 (-1000) <= x <= pow2 1000 ->
  (-1000 < d + e <= 1001)%Z.
Proof.
  intros [Hlo Hhi] [Hlo' Hhi']. split.
  - apply pow2_lt_inv. lra.
  - assert (d - 1 + e < 1001)%Z; [|lia]. apply pow2_lt_inv.
    pose proof (pow2_lt 1000 1001 ltac:(lia)). lra.
Qed.

(** [binary_round_aux] on a mantissa of 53 bits or more: the result is a
    [float64] with a mantissa of 53 bits, off by at most the unit roundoff,
    relative to the number rounded. *)
Lemma binary_round_aux_correct (sx : bool) (mx : BinNums.positive) (ex : Z)
    (lx : location) (x : R) :
  locates (shr_record_of_loc (Zpos mx) lx) x ->
  (53 <= Zpos (digits2_pos mx))%Z ->
  pow2 (-1000) <= x * pow2 ex <= pow2 1000 ->
  exists m e,
    binary_round_aux prec emax sx (Zpos mx) ex lx = S754_finite sx m e
    /\ Zpos (digits2_pos m) = 53%Z /\ (-1074 <= e <= 971)%Z
    /\ (1 - roundoff) * (x * pow2 ex) <= IZR (Zpos m) * pow2 e
       <= (1 + roundoff) * (x * pow2 ex).
Proof.
  intros Hloc Hd Hrange.
  set (d := Zpos (digits2_pos mx)) in *.
  pose proof (digits2_pos_real mx) as [Hlo Hhi]. fold d in Hlo, Hhi.
  pose proof (digits2_pos_bounds mx) as [_ Hhi']. fold d in Hhi'.
  assert (IZR (Zpos mx) <= x < IZR (Zpos mx) + 1) as Hx.
  { destruct Hloc as [Hx _]. now rewrite shr_record_of_loc_m in Hx. }
  assert (IZR (Zpos mx) + 1 <= pow2 d) as Hhi''.
  { rewrite <- pow2_IZR by lia. rewrite <- (plus_IZR _ 1). apply IZR_le. lia. }
  pose proof (pow2_pos ex) as Hex.
  assert (-1000 < d + ex <= 1001)%Z as Hde.
  { apply (exponent_in_range d ex (x * pow2 ex)); [|exact Hrange].
    rewrite !pow2_add. split; nra. }
  assert (exists mrs,
             shr_fexp prec emax (Zpos mx) ex lx = (mrs, (d + ex - 53)%Z)
             /\ locates mrs (x / pow2 (d - 53))
             /\ (0 <= shr_m mrs)%Z) as (mrs & Hshr & Hloc' & Hm).
  { unfold shr_fexp. cbn [Zdigits2]. fold d. rewrite fexp_normal by lia.
    replace (d + ex - 53 - ex)%Z with (d - 53)%Z by lia.
    destruct (shr_locates (shr_record_of_loc (Zpos mx) lx) ex (d - 53) x)
      as (H1 & H2 & H3);
      [rewrite shr_record_of_loc_m; lia | lia | exact Hloc |].
    destruct (shr (shr_record_of_loc (Zpos mx) lx) ex (d - 53)) as [mrs e'].
    cbn [fst snd] in H1, H2, H3. exists mrs. subst e'.
    split; [f_equal; lia|]. now split. }
  unfold binary_round_aux. rewrite Hshr.
  pose proof (pow2_pos (d - 53)) as Hk.
  set (y := x / pow2 (d - 53)) in *.
  assert (x = y * pow2 (d - 53)) as Hxy by (unfold y; field; lra).
  assert (pow2 52 <= y < pow2 53) as Hy.
  { assert (pow2 (d - 1) = pow2 52 * pow2 (d - 53)) as H1
        by (rewrite <- pow2_add; f_equal; lia).
    assert (pow2 d = pow2 53 * pow2 (d - 53)) as H2
        by (rewrite <- pow2_add; f_equal; lia).
    split; nra. }
  destruct (round_nearest_even_locates mrs y Hloc') as [Hcase Hnear].
  cbv zeta in Hcase, Hnear.
  set (m1 := round_nearest_even (shr_m mrs) (loc_of_shr_record mrs)) in *.
  assert (2 ^ 52 <= shr_m mrs < 2 ^ 53)%Z as Hmrs.
  { destruct Hloc' as [[Hl Hh] _]. rewrite <- !pow2_IZR in Hy by lia. split.
    - assert (2 ^ 52 < shr_m mrs + 1)%Z; [|lia].
      apply lt_IZR. rewrite plus_IZR. lra.
    - apply lt_IZR. lra. }
  destruct (round_tail sx m1 (d + ex - 53)) as (m & e & Heq & Hdm & He & Hval);
    [lia | lia |].
  exists m, e. split; [exact Heq|]. split; [exact Hdm|]. split; [exact He|].
  rewrite Hval.
  assert (x * pow2 ex = y * pow2 (d + ex - 53)) as ->.
  { rewrite Hxy. replace (d + ex - 53)%Z with (d - 53 + ex)%Z by lia.
    rewrite pow2_add. ring. }
  pose proof (pow2_pos (d + ex - 53)) as He1.
  unfold roundoff. rewrite <- (pow2_IZR 52) in Hy by lia.
  change (IZR (2 ^ 52)) with 4503599627370496 in Hy.
  replace (pow2 (-53)) with (/ 9007199254740992).
  2:{ change (-53)%Z with (- (53))%Z. rewrite pow2_opp, <- pow2_IZR by lia.
      reflexivity. }
  split; nra.
Qed.

(** A mantissa of 53 bits is not rounded. *)
Lemma binary_round_aux_exact (sx : bool) (mx : BinNums.positive) (ex : Z) :
  Zpos (digits2_pos mx) = 53%Z -> (-1074 <= ex <= 971)%Z ->
  binary_round_aux prec emax sx (Zpos mx) ex loc_Exact = S754_finite sx mx ex.
Proof.
  intros Hd He. unfold binary_round_aux. rewrite shr_fexp_kept by lia.
  cbn [shr_m loc_of_shr_record round_nearest_even].
  rewrite shr_fexp_kept by lia. cbn [shr_m].
  replace (ex <=? emax - prec)%Z with true
    by (symmetry; apply Z.leb_le; unfold emax, prec; lia).
  reflexivity.
Qed.

(** ** [binary_round]: aligning, then rounding *)

Lemma iter_xO_value (m d : BinNums.positive) :
  Zpos (Pos.iter xO m d) = (Zpos m * 2 ^ Zpos d)%Z.
Proof.
  rewrite (Pos.iter_swap_gen _ _ Zpos xO (Z.mul 2)) by reflexivity.
  change (Pos.iter (Z.mul 2) (Zpos m) d) with (Z.shiftl (Zpos m) (Zpos d)).
  apply Z.shiftl_mul_pow2. lia.
Qed.

Lemma shl_align_value (mx : BinNums.positive) (ex ez : Z) :
  (ez <= ex)%Z ->
  Zpos (fst (shl_align mx ex ez)) = (Zpos mx * 2 ^ (ex - ez))%Z
  /\ snd (shl_align mx ex ez) = ez.
Proof.
  intros Hle. unfold shl_align. destruct (ez - ex)%Z as [|p|p] eqn:Hdiff.
  - cbn [fst snd]. replace (ex - ez)%Z with 0%Z by lia. split; lia.
  - lia.
  - cbn [fst snd]. replace (ex - ez)%Z with (Zpos p) by lia.
    split; [apply iter_xO_value | reflexivity].
Qed.

(** A mantissa of 53 bits or more is rounded where it stands. *)
Lemma binary_round_long (sx : bool) (mx : BinNums.positive) (ex : Z) :
  (53 <= Zpos (digits2_pos mx))%Z ->
  (-1074 <= Zpos (digits2_pos mx) + ex - 53)%Z ->
  binary_round prec emax sx mx ex
  = binary_round_aux prec emax sx (Zpos mx) ex loc_Exact.
Proof.
  intros Hd He. unfold binary_round. rewrite fexp_normal by lia.
  unfold shl_align.
  destruct (Zpos (digits2_pos mx) + ex - 53 - ex)%Z eqn:Hdiff;
    [reflexivity | reflexivity | lia].
Qed.

(** A mantissa of 53 bits or fewer is shifted to 53 bits and kept. *)
Lemma binary_round_short (sx : bool) (mx : BinNums.positive) (ex : Z) :
  let d := Zpos (digits2_pos mx) in
  (d <= 53)%Z -> (-1074 <= d + ex - 53 <= 971)%Z ->
  exists m,
    binary_round prec emax sx mx ex = S754_finite sx m (d + ex - 53)
    /\ Zpos m = (Zpos mx * 2 ^ (53 - d))%Z
    /\ Zpos (digits2_pos m) = 53%Z.
Proof.
  intros d Hd He. unfold binary_round. fold d. rewrite fexp_normal by lia.
  destruct (shl_align_value mx ex (d + ex - 53)) as [Hm Hez]; [lia|].
  destruct (shl_align mx ex (d + ex - 53)) as [mz ez].
  cbn [fst snd] in Hm, Hez. subst ez.
  replace (ex - (d + ex - 53))%Z with (53 - d)%Z in Hm by lia.
  assert (Zpos (digits2_pos mz) = 53%Z) as Hdz.
  { apply digits2_pos_unique. rewrite Hm.
    pose proof (digits2_pos_bounds mx) as [Hlo Hhi]. fold d in Hlo, Hhi.
    pose proof (Pos2Z.is_pos (digits2_pos mx)) as Hpos. fold d in Hpos.
    assert (2 ^ (53 - 1) = 2 ^ (d - 1) * 2 ^ (53 - d))%Z as ->
        by (rewrite <- Z.pow_add_r by lia; f_equal; lia).
    assert (2 ^ 53 = 2 ^ d * 2 ^ (53 - d))%Z as ->
        by (rewrite <- Z.pow_add_r by lia; f_equal; lia).
    pose proof (Z.pow_pos_nonneg 2 (53 - d) ltac:(lia) ltac:(lia)). nia. }
  exists mz. rewrite binary_round_aux_exact by (exact Hdz || lia).
  split; [reflexivity|]. now split.
Qed.

(** ** The operations on positive numbers *)

Lemma valueOf_normalPositive (x : PrimFloat.float) :
  normalPositive x ->
  exists m e, Prim2SF x = S754_finite false m e
              /\ Zpos (digits2_pos m) = 53%Z /\ (-1074 <= e <= 971)%Z
              /\ valueOf x = IZR (Zpos m) * pow2 e
              /\ 0 < valueOf x.
Proof.
  intros (m & e & Hx & Hd & He). exists m, e. unfold valueOf. rewrite Hx.
  cbn [valueOfSF]. split; [reflexivity|]. split; [exact Hd|].
  split; [exact He|]. split; [reflexivity|].
  apply Rmult_lt_0_compat; [apply IZR_lt; lia | apply pow2_pos].
Qed.

Lemma rounds_of_SF (z : PrimFloat.float) (x : R) :
  (exists m e,
      Prim2SF z = S754_finite false m e
      /\ Zpos (digits2_pos m) = 53%Z /\ (-1074 <= e <= 971)%Z
      /\ (1 - roundoff) * x <= IZR (Zpos m) * pow2 e <= (1 + roundoff) * x) ->
  rounds z x.
Proof.
  intros (m & e & Hz & Hd & He & Hv). split.
  - now exists m, e.
  - unfold valueOf. rewrite Hz. exact Hv.
Qed.

Lemma mul_correct (x y : PrimFloat.float) :
  normalPositive x -> normalPositive y ->
  pow2 (-1000) <= valueOf x * valueOf y <= pow2 1000 ->
  rounds (PrimFloat.mul x y) (valueOf x * valueOf y).
Proof.
  intros Hx Hy Hrange.
  destruct (valueOf_normalPositive x Hx) as (mx & ex & Hsx & Hdx & Hex & Hvx & _).
  destruct (valueOf_normalPositive y Hy) as (my & ey & Hsy & Hdy & Hey & Hvy & _).
  apply rounds_of_SF. rewrite mul_spec, Hsx, Hsy. unfold SF64mul.
  cbn [SFmul xorb].
  assert (valueOf x * valueOf y = IZR (Zpos (mx * my)) * pow2 (ex + ey)) as Hv.
  { rewrite Hvx, Hvy, Pos2Z.inj_mul, mult_IZR, pow2_add. ring. }
  rewrite Hv in *.
  apply (binary_round_aux_correct false (mx * my) (ex + ey) loc_Exact).
  - unfold locates. cbn. split; [lra | reflexivity].
  - apply digits2_pos_ge. rewrite Pos2Z.inj_mul.
    pose proof (digits2_pos_bounds mx) as [Hlo _]. rewrite Hdx in Hlo.
    pose proof (digits2_pos_bounds my) as [Hlo' _]. rewrite Hdy in Hlo'.
    change (2 ^ (53 - 1))%Z with 4503599627370496%Z in *. nia.
  - exact Hrange.
Qed.

Lemma add_correct (x y : PrimFloat.float) :
  normalPositive x -> normalPositive y ->
  pow2 (-1000) <= valueOf x + valueOf y <= pow2 1000 ->
  rounds (PrimFloat.add x y) (valueOf x + valueOf y).
Proof.
  intros Hx Hy Hrange.
  destruct (valueOf_normalPositive x Hx) as (mx & ex & Hsx & Hdx & Hex & Hvx & Hpx).
  destruct (valueOf_normalPositive y Hy) as (my & ey & Hsy & Hdy & Hey & Hvy & Hpy).
  apply rounds_of_SF. rewrite add_spec, Hsx, Hsy. unfold SF64add.
  cbn [SFadd cond_Zopp].
  set (ez := Z.min ex ey).
  assert (-1074 <= ez /\ ez <= ex /\ ez <= ey)%Z as (Hez & Hezx & Hezy)
      by (unfold ez; lia).
  destruct (shl_align_value mx ex ez) as [Hmx _]; [lia|].
  destruct (shl_align_value my ey ez) as [Hmy _]; [lia|].
  set (mx' := fst (shl_align mx ex ez)) in *.
  set (my' := fst (shl_align my ey ez)) in *.
  change (Zpos mx' + Zpos my')%Z with (Zpos (mx' + my')).
  cbn [binary_normalize].
  assert (IZR (Zpos mx') * pow2 ez = valueOf x) as Hvx'.
  { rewrite Hmx, mult_IZR, pow2_IZR, Hvx by lia.
    replace ex with (ex - ez + ez)%Z at 2 by lia. rewrite pow2_add. ring. }
  assert (IZR (Zpos my') * pow2 ez = valueOf y) as Hvy'.
  { rewrite Hmy, mult_IZR, pow2_IZR, Hvy by lia.
    replace ey with (ey - ez + ez)%Z at 2 by lia. rewrite pow2_add. ring. }
  assert (valueOf x + valueOf y = IZR (Zpos (mx' + my')) * pow2 ez) as Hv.
  { rewrite Pos2Z.inj_add, plus_IZR, <- Hvx', <- Hvy'. ring. }
  assert (53 <= Zpos (digits2_pos (mx' + my')))%Z as Hd.
  { apply digits2_pos_ge. rewrite Pos2Z.inj_add, Hmx.
    pose proof (digits2_pos_bounds mx) as [Hlo _]. rewrite Hdx in Hlo.
    pose proof (Z.pow_pos_nonneg 2 (ex - ez) ltac:(lia) ltac:(lia)). nia. }
  rewrite binary_round_long by lia.
  rewrite Hv in *.
  apply (binary_round_aux_correct false (mx' + my') ez loc_Exact).
  - unfold locates. cbn. split; [lra | reflexivity].
  - exact Hd.
  - exact Hrange.
Qed.

Lemma new_location_locates (q n r : Z) :
  (0 <= r < n)%Z ->
  locates (shr_record_of_loc q (new_location n r)) (IZR q + IZR r / IZR n).
Proof.
  intros Hr. assert (0 < IZR n) as Hn by (apply IZR_lt; lia).
  assert (0 <= IZR r) as Hr0 by (apply IZR_le; lia).
  set (t := IZR r / IZR n).
  assert (t * IZR n = IZR r) as Ht by (unfold t; field; lra).
  assert (forall c, new_location n r = loc_Inexact c ->
                    (0 < r)%Z /\ match c with
                                 | Lt => (2 * r < n)%Z
                                 | Eq => (2 * r = n)%Z
                                 | Gt => (n < 2 * r)%Z
                                 end) as Hloc.
  { intros c. unfold new_location, new_location_even, new_location_odd.
    destruct (Z.even n) eqn:Heven; destruct (Z.eqb_spec r 0) as [->|Hne];
      try discriminate.
    - intros [= <-]. split; [lia|]. destruct (Z.compare_spec (2 * r) n); lia.
    - intros [= <-]. split; [lia|].
      assert (Z.odd n = true) as Hodd by (rewrite <- Z.negb_even, Heven; reflexivity).
      apply Z.odd_spec in Hodd as [k Hk].
      destruct (Z.compare_spec (2 * r + 1) n); lia. }
  destruct (new_location n r) as [|c] eqn:Hnl.
  - assert (r = 0)%Z as Hz.
    { revert Hnl. unfold new_location, new_location_even, new_location_odd.
      destruct (Z.even n); destruct (Z.eqb_spec r 0); congruence. }
    unfold locates. cbn. assert (t = 0) by (unfold t; rewrite Hz; field; lra).
    split; lra.
  - destruct (Hloc c eq_refl) as [Hpos Hc].
    assert (0 < IZR r) as Hr1 by (apply IZR_lt; lia).
    assert (IZR r < IZR n) as Hr2 by (apply IZR_lt; lia).
    assert (0 < t < 1) as Ht01 by (split; nra).
    unfold locates. destruct c; cbn.
    + assert (2 * IZR r = IZR n) as H2
          by (rewrite <- (mult_IZR 2); f_equal; exact Hc).
      assert (t = / 2) by nra. split; lra.
    + assert (2 * IZR r < IZR n) as H2
          by (rewrite <- (mult_IZR 2); apply IZR_lt; exact Hc).
      assert (t < / 2) by nra. split; lra.
    + assert (IZR n < 2 * IZR r) as H2
          by (rewrite <- (mult_IZR 2); apply IZR_lt; exact Hc).
      assert (/ 2 < t) by nra. split; lra.
Qed.

Lemma SFdiv_core_binary_normal (mx my : BinNums.positive) (ex ey : Z) :
  Zpos (digits2_pos mx) = 53%Z -> Zpos (digits2_pos my) = 53%Z ->
  (-1074 <= ex - ey - 53)%Z ->
  SFdiv_core_binary prec emax (Zpos mx) ex (Zpos my) ey
  = ((Zpos mx * 2 ^ 53 / Zpos my)%Z, (ex - ey - 53)%Z,
     new_location (Zpos my) ((Zpos mx * 2 ^ 53) mod Zpos my)%Z).
Proof.
  intros Hdx Hdy He. unfold SFdiv_core_binary. cbn [Zdigits2].
  rewrite Hdx, Hdy. cbv zeta.
  replace (53 + ex - (53 + ey))%Z with (ex - ey)%Z by lia.
  rewrite fexp_normal by lia.
  replace (Z.min (ex - ey - 53) (ex - ey)) with (ex - ey - 53)%Z by lia.
  replace (ex - ey - (ex - ey - 53))%Z with 53%Z by lia.
  cbv iota. rewrite Z.shiftl_mul_pow2 by lia.
  unfold Z.div, Z.modulo.
  destruct (Z.div_eucl (Zpos mx * 2 ^ 53) (Zpos my)) as [q r]. reflexivity.
Qed.

Lemma div_correct (x y : PrimFloat.float) :
  normalPositive x -> normalPositive y ->
  pow2 (-1000) <= valueOf x / valueOf y <= pow2 1000 ->
  rounds (PrimFloat.div x y) (valueOf x / valueOf y).
Proof.
  intros Hx Hy Hrange.
  destruct (valueOf_normalPositive x Hx) as (mx & ex & Hsx & Hdx & Hex & Hvx & Hpx).
  destruct (valueOf_normalPositive y Hy) as (my & ey & Hsy & Hdy & Hey & Hvy & Hpy).
  apply rounds_of_SF. rewrite div_spec, Hsx, Hsy. unfold SF64div.
  cbn [SFdiv xorb].
  pose proof (digits2_pos_bounds mx) as [Hlox Hhix]. rewrite Hdx in Hlox, Hhix.
  pose proof (digits2_pos_bounds my) as [Hloy Hhiy]. rewrite Hdy in Hloy, Hhiy.
  change (2 ^ (53 - 1))%Z with 4503599627370496%Z in *.
  change (2 ^ 53)%Z with 9007199254740992%Z in *.
  pose proof (pow2_pos ex) as Hpex. pose proof (pow2_pos ey) as Hpey.
  assert (0 < IZR (Zpos mx)) as Hmx by (apply IZR_lt; lia).
  assert (0 < IZR (Zpos my)) as Hmy by (apply IZR_lt; lia).
  assert (valueOf x / valueOf y
          = IZR (Zpos mx) / IZR (Zpos my) * pow2 (ex - ey)) as Hv.
  { rewrite Hvx, Hvy, pow2_sub. field. lra. }
  assert (IZR (Zpos mx) / IZR (Zpos my) < 2) as Hq2.
  { apply IZR_lt in Hhix. apply IZR_le in Hloy.
    apply (Rmult_lt_reg_r (IZR (Zpos my))); [exact Hmy|].
    replace (IZR (Zpos mx) / IZR (Zpos my) * IZR (Zpos my))
      with (IZR (Zpos mx)) by (field; lra). lra. }
  assert (-1074 <= ex - ey - 53)%Z as He.
  { assert (-1000 < ex - ey + 1)%Z; [|lia]. apply pow2_lt_inv.
    rewrite pow2_add. change (pow2 1) with (2 * 1).
    pose proof (pow2_pos (ex - ey)). rewrite Hv in Hrange. nra. }
  rewrite SFdiv_core_binary_normal by assumption.
  change (2 ^ 53)%Z with 9007199254740992%Z.
  set (n := (Zpos mx * 9007199254740992)%Z).
  pose proof (Z.div_mod n (Zpos my) ltac:(lia)) as Hdiv.
  pose proof (Z.mod_pos_bound n (Zpos my) ltac:(lia)) as Hmod.
  set (q := (n / Zpos my)%Z) in *. set (r := (n mod Zpos my)%Z) in *.
  assert (4503599627370496 <= q)%Z as Hq by (unfold n in Hdiv; nia).
  destruct q as [|qp|qp] eqn:Hqp; [lia| |lia].
  assert (valueOf x / valueOf y
          = (IZR (Zpos qp) + IZR r / IZR (Zpos my)) * pow2 (ex - ey - 53)) as Hv'.
  { rewrite Hv. replace (ex - ey)%Z with (53 + (ex - ey - 53))%Z at 1 by lia.
    rewrite pow2_add, <- (pow2_IZR 53) by lia.
    change (IZR (2 ^ 53)) with 9007199254740992.
    assert (IZR (Zpos mx) * 9007199254740992
            = IZR (Zpos my) * IZR (Zpos qp) + IZR r) as Hn.
    { rewrite <- !mult_IZR, <- plus_IZR. f_equal. exact Hdiv. }
    field_simplify_eq; [|lra].
    transitivity (pow2 (ex - ey - 53) * (IZR (Zpos mx) * 9007199254740992));
      [ring | rewrite Hn; ring]. }
  rewrite Hv' in *.
  apply (binary_round_aux_correct false qp (ex - ey - 53)).
  - now apply new_location_locates.
  - apply digits2_pos_ge. change (2 ^ (53 - 1))%Z with 4503599627370496%Z. lia.
  - exact Hrange.
Qed.

(** ** Numbers of elements, constants and comparisons *)

Lemma digits2_pos_le (p : BinNums.positive) (n : Z) :
  (Zpos p < 2 ^ n)%Z -> (Zpos (digits2_pos p) <= n)%Z.
Proof.
  intros Hhi. pose proof (digits2_pos_bounds p) as [Hlo _].
  destruct (Z.le_gt_cases (Zpos (digits2_pos p)) n) as [H|H]; [exact H|].
  pose proof (Z.pow_le_mono_r 2 n (Zpos (digits2_pos p) - 1)
                              ltac:(lia) ltac:(lia)). lia.
Qed.

(** [float64(n)] for a number of elements below [2^53]: the number itself. *)
Lemma of_uint63_correct (n : Z) :
  (0 < n < 2 ^ 53)%Z ->
  normalPositive (PrimFloat.of_uint63 (Uint63.of_Z n))
  /\ valueOf (PrimFloat.of_uint63 (Uint63.of_Z n)) = IZR n.
Proof.
  intros Hn.
  assert (Uint63.to_Z (Uint63.of_Z n) = n) as Hto.
  { rewrite Uint63.of_Z_spec. apply Z.mod_small.
    change Uint63.wB with (2 ^ 63)%Z.
    pose proof (Z.pow_lt_mono_r 2 53 63 ltac:(lia) ltac:(lia) ltac:(lia)). lia. }
  destruct n as [|p|p]; [lia| |lia].
  pose proof (digits2_pos_le p 53 ltac:(lia)) as Hd.
  pose proof (Pos2Z.is_pos (digits2_pos p)) as Hd0.
  destruct (binary_round_short false p 0) as (m & Hm & Hval & Hdm);
    [exact Hd | lia |].
  assert (Prim2SF (PrimFloat.of_uint63 (Uint63.of_Z (Zpos p)))
          = S754_finite false m (Zpos (digits2_pos p) + 0 - 53)) as Hsf.
  { rewrite of_uint63_spec, Hto. exact Hm. }
  split.
  - exists m, (Zpos (digits2_pos p) + 0 - 53)%Z. split; [exact Hsf|].
    split; [exact Hdm | lia].
  - unfold valueOf. rewrite Hsf. cbn [valueOfSF].
    rewrite Hval, mult_IZR, pow2_IZR by lia.
    replace (Zpos (digits2_pos p) + 0 - 53)%Z
      with (- (53 - Zpos (digits2_pos p)))%Z by lia.
    rewrite pow2_opp. field. pose proof (pow2_pos (53 - Zpos (digits2_pos p))). lra.
Qed.

(** A positive number is greater than zero, as [x > 0] tests it. *)
Lemma ltb_zero_normalPositive (x : PrimFloat.float) :
  normalPositive x -> PrimFloat.ltb Float64.zero x = true.
Proof.
  intros (m & e & Hx & _). rewrite ltb_spec, Hx. reflexivity.
Qed.

Lemma add_zero_normalPositive (x : PrimFloat.float) :
  normalPositive x ->
  normalPositive (PrimFloat.add Float64.zero x)
  /\ valueOf (PrimFloat.add Float64.zero x) = valueOf x.
Proof.
  intros (m & e & Hx & Hd & He).
  assert (Prim2SF (PrimFloat.add Float64.zero x) = Prim2SF x) as Heq.
  { rewrite add_spec, Hx. reflexivity. }
  split.
  - exists m, e. rewrite Heq. now split.
  - unfold valueOf. now rewrite Heq.
Qed.

Lemma pow2_neg_53 : pow2 (-53) = / 9007199254740992.
Proof.
  change (-53)%Z with (- (53))%Z. rewrite pow2_opp, <- pow2_IZR by lia.
  reflexivity.
Qed.

Lemma pow2_neg_55 : pow2 (-55) = / 36028797018963968.
Proof.
  change (-55)%Z with (- (55))%Z. rewrite pow2_opp, <- pow2_IZR by lia.
  reflexivity.
Qed.

Lemma pow2_neg_52 : pow2 (-52) = / 4503599627370496.
Proof.
  change (-52)%Z with (- (52))%Z. rewrite pow2_opp, <- pow2_IZR by lia.
  reflexivity.
Qed.

Lemma one_normalPositive :
  normalPositive Float64.one /\ valueOf Float64.one = 1.
Proof.
  split.
  - exists 4503599627370496%positive, (-52)%Z.
    split; [reflexivity|]. split; [reflexivity | lia].
  - change (valueOf Float64.one) with (4503599627370496 * pow2 (-52)).
    rewrite pow2_neg_52. field.
Qed.

(** The constant [0.85] as a [float64]. *)
Lemma dampingFactor_normalPositive :
  normalPositive Float64.dampingFactor
  /\ valueOf Float64.dampingFactor = 7656119366529843 / 9007199254740992.
Proof.
  split.
  - exists 7656119366529843%positive, (-53)%Z.
    split; [reflexivity|]. split; [reflexivity | lia].
  - change (valueOf Float64.dampingFactor) with (7656119366529843 * pow2 (-53)).
    rewrite pow2_neg_53. field.
Qed.

(** The constant [1.0 - 0.85], which is [0.15], as a [float64]. *)
Lemma oneMinusDamping_normalPositive :
  normalPositive Float64.oneMinusDamping
  /\ valueOf Float64.oneMinusDamping = 5404319552844595 / 36028797018963968.
Proof.
  split.
  - exists 5404319552844595%positive, (-55)%Z.
    split; [reflexivity|]. split; [reflexivity | lia].
  - change (valueOf Float64.oneMinusDamping) with (5404319552844595 * pow2 (-55)).
    rewrite pow2_neg_55. field.
Qed.

Lemma pow2_neg_21 : pow2 (-21) = / 2097152.
Proof.
  change (-21)%Z with (- (21))%Z. rewrite pow2_opp, <- pow2_IZR by lia.
  reflexivity.
Qed.

(** A difference that [binary_normalize] keeps: its exponent. *)
Lemma binary_normalize_short (D ez : Z) (n : Z) :
  (Z.abs D < 2 ^ n)%Z -> (0 <= n <= 53)%Z -> (-1000 <= ez <= 0)%Z ->
  match SFabs (binary_normalize prec emax D ez false) with
  | S754_zero s => s = false
  | S754_finite s m e => s = false /\ (e <= n + ez - 53)%Z
  | _ => False
  end.
Proof.
  intros HD Hn Hez. destruct D as [|p|p]; cbn [binary_normalize SFabs].
  - reflexivity.
  - pose proof (digits2_pos_le p n ltac:(lia)) as Hd.
    pose proof (Pos2Z.is_pos (digits2_pos p)) as Hd0.
    destruct (binary_round_short false p ez) as (m & -> & _); [lia | lia |].
    cbn [SFabs]. split; [reflexivity | lia].
  - pose proof (digits2_pos_le p n ltac:(lia)) as Hd.
    pose proof (Pos2Z.is_pos (digits2_pos p)) as Hd0.
    destruct (binary_round_short true p ez) as (m & -> & _); [lia | lia |].
    cbn [SFabs]. split; [reflexivity | lia].
Qed.

(** A number close to one passes the test [|s - 1.0| <= 1e-6]. *)
Lemma close_to_one (s : PrimFloat.float) :
  normalPositive s ->
  1 - pow2 (-21) <= valueOf s <= 1 + pow2 (-21) ->
  PrimFloat.leb (PrimFloat.abs (PrimFloat.sub s Float64.one)) Float64.tolerance
  = true.
Proof.
  intros Hs Hclose.
  destruct (valueOf_normalPositive s Hs) as (m & e & Hsf & Hd & He & Hv & _).
  rewrite pow2_neg_21 in Hclose.
  pose proof (digits2_pos_real m) as [Hlo Hhi]. rewrite Hd in Hlo, Hhi.
  change (53 - 1)%Z with 52%Z in Hlo.
  pose proof (pow2_pos e) as Hpe.
  assert (e = -53 \/ e = -52)%Z as Hcases.
  { assert (-1 < 53 + e)%Z.
    { apply pow2_lt_inv. rewrite pow2_add.
      change (pow2 (-1)) with (/ (2 * 1)). nra. }
    assert (52 + e < 1)%Z.
    { apply pow2_lt_inv. rewrite pow2_add. change (pow2 1) with (2 * 1). nra. }
    lia. }
  rewrite leb_spec, abs_spec, sub_spec, Hsf.
  change (Prim2SF Float64.one)
    with (S754_finite false 4503599627370496 (-52)).
  change (Prim2SF Float64.tolerance)
    with (S754_finite false 4722366482869645 (-72)).
  unfold SF64sub. cbn [SFsub cond_Zopp].
  assert (forall D ez n,
             (Z.abs D < 2 ^ n)%Z -> (0 <= n <= 53)%Z -> (n + ez <= -20)%Z ->
             (-1000 <= ez <= -52)%Z ->
             SFleb (SFabs (binary_normalize prec emax D ez false))
                   (S754_finite false 4722366482869645 (-72)) = true) as Hleb.
  { intros D ez n HD Hn Hnez Hez.
    pose proof (binary_normalize_short D ez n HD ltac:(lia) ltac:(lia)) as H.
    destruct (SFabs (binary_normalize prec emax D ez false)) as [b| | |b m' e'];
      try contradiction.
    - subst b. reflexivity.
    - destruct H as [-> He']. unfold SFleb. cbn [SFcompare].
      destruct (Z.compare_spec e' (-72)); [lia | reflexivity | lia]. }
  rewrite <- (pow2_IZR 52), <- (pow2_IZR 53) in * by lia.
  change (IZR (2 ^ 52)) with 4503599627370496 in *.
  change (IZR (2 ^ 53)) with 9007199254740992 in *.
  destruct Hcases as [-> | ->].
  - change (Z.min (-53) (-52)) with (-53)%Z.
    change (fst (shl_align m (-53) (-53))) with m.
    change (fst (shl_align 4503599627370496 (-52) (-53)))
      with 9007199254740992%positive.
    apply (Hleb _ _ 33%Z); [|lia|lia|lia]. rewrite pow2_neg_53 in Hv, Hpe.
    assert (9007194959773696 <= IZR (Zpos m)) as Hm by nra.
    assert (IZR (Zpos m) < 9007199254740992) as Hm' by lra.
    apply (le_IZR 9007194959773696) in Hm.
    apply (lt_IZR _ 9007199254740992) in Hm'.
    change (2 ^ 33)%Z with 8589934592%Z. lia.
  - change (Z.min (-52) (-52)) with (-52)%Z.
    change (fst (shl_align m (-52) (-52))) with m.
    change (fst (shl_align 4503599627370496 (-52) (-52)))
      with 4503599627370496%positive.
    apply (Hleb _ _ 32%Z); [|lia|lia|lia]. rewrite pow2_neg_52 in Hv, Hpe.
    assert (IZR (Zpos m) <= 4503601774854144) as Hm by nra.
    assert (4503599627370496 <= IZR (Zpos m)) as Hm' by lra.
    apply (le_IZR _ 4503601774854144) in Hm.
    apply (le_IZR 4503599627370496) in Hm'.
    change (2 ^ 32)%Z with 4294967296%Z. lia.
Qed.

End Binary64Facts.

(** ** Sums of real numbers and numbers after some roundings *)

Module RealSums.
Import Reals Lra Models Analyzer Graph Binary64 Binary64Facts.
Local Open Scope R_scope.

Section OverLists.
Context {A : Type}.

Lemma rsum_cons (f : A -> R) (x : A) (l : list A) :
  rsum f (x :: l) = f x + rsum f l.
Proof. reflexivity. Qed.

Lemma rsum_app (f : A -> R) (l l' : list A) :
  rsum f (l ++ l') = rsum f l + rsum f l'.
Proof.
  induction l as [|x l IH]; cbn [app]; rewrite ?rsum_cons.
  - unfold rsum at 2. cbn. ring.
  - rewrite IH. ring.
Qed.

Lemma rsum_ext_in (f g : A -> R) (l : list A) :
  (forall x, x ∈ l -> f x = g x) -> rsum f l = rsum g l.
Proof.
  induction l as [|x l IH]; intros Hfg; [reflexivity|].
  rewrite !rsum_cons, IH, Hfg; [reflexivity | now left |].
  intros y Hy. apply Hfg. now right.
Qed.

Lemma rsum_zero (l : list A) : rsum (fun _ => 0) l = 0.
Proof.
  induction l as [|x l IH]; [reflexivity|]. rewrite rsum_cons, IH. ring.
Qed.

Lemma rsum_plus (f g : A -> R) (l : list A) :
  rsum (fun x => f x + g x) l = rsum f l + rsum g l.
Proof.
  induction l as [|x l IH]; [cbn; ring|]. rewrite !rsum_cons, IH. ring.
Qed.

Lemma rsum_scale (c : R) (f : A -> R) (l : list A) :
  rsum (fun x => c * f x) l = c * rsum f l.
Proof.
  induction l as [|x l IH]; [cbn; ring|]. rewrite !rsum_cons, IH. ring.
Qed.

Lemma rsum_const (c : R) (l : list A) :
  rsum (fun _ => c) l = INR (length l) * c.
Proof.
  induction l as [|x l IH]; [cbn; ring|].
  rewrite rsum_cons, IH. cbn [length]. rewrite S_INR. ring.
Qed.

Lemma rsum_nonneg (f : A -> R) (l : list A) :
  (forall x, x ∈ l -> 0 <= f x) -> 0 <= rsum f l.
Proof.
  induction l as [|x l IH]; intros Hf; [cbn; lra|].
  rewrite rsum_cons. pose proof (Hf x ltac:(now left)).
  pose proof (IH (fun y Hy => Hf y ltac:(now right))). lra.
Qed.

Lemma rsum_le (f g : A -> R) (l : list A) :
  (forall x, x ∈ l -> f x <= g x) -> rsum f l <= rsum g l.
Proof.
  induction l as [|x l IH]; intros Hfg; [cbn; lra|].
  rewrite !rsum_cons. pose proof (Hfg x ltac:(now left)).
  pose proof (IH (fun y Hy => Hfg y ltac:(now right))). lra.
Qed.

(** A term of a sum of numbers that are not negative is at most the sum. *)
Lemma rsum_member_le (f : A -> R) (l : list A) (x : A) :
  (forall y, y ∈ l -> 0 <= f y) -> x ∈ l -> f x <= rsum f l.
Proof.
  induction l as [|y l IH]; intros Hf Hx.
  - now apply elem_of_nil in Hx.
  - rewrite rsum_cons. pose proof (Hf y ltac:(now left)).
    pose proof (rsum_nonneg f l (fun z Hz => Hf z ltac:(now right))).
    apply elem_of_cons in Hx as [-> | Hx]; [lra|].
    pose proof (IH (fun z Hz => Hf z ltac:(now right)) Hx). lra.
Qed.

End OverLists.

Lemma rsum_flat_map {A B : Type} (f : B -> R) (g : A -> list B) (l : list A) :
  rsum f (flat_map g l) = rsum (fun x => rsum f (g x)) l.
Proof.
  induction l as [|x l IH]; [reflexivity|].
  cbn [flat_map]. rewrite rsum_app, rsum_cons, IH. reflexivity.
Qed.

Lemma rsum_swap {A B : Type} (f : A -> B -> R) (l : list A) (l' : list B) :
  rsum (fun x => rsum (f x) l') l = rsum (fun y => rsum (fun x => f x y) l) l'.
Proof.
  induction l as [|x l IH].
  - cbn. symmetry. apply rsum_zero.
  - rewrite rsum_cons, IH, <- rsum_plus. reflexivity.
Qed.

Section OverPages.
Context {F : Type}.

Lemma rsum_indicator_absent (c : R) (pages : list (Page F)) (t : string) :
  t ∉ map URL pages ->
  rsum (fun p => if String.eqb t (URL p) then c else 0) pages = 0.
Proof.
  induction pages as [|q pages IH]; intros Hnot; [reflexivity|].
  cbn [map] in Hnot. apply not_elem_of_cons in Hnot as [Hne Hnot].
  rewrite rsum_cons, IH by exact Hnot.
  destruct (String.eqb_spec t (URL q)) as [Heq|_]; [congruence | ring].
Qed.

Lemma rsum_indicator (c : R) (pages : list (Page F)) (t : string) :
  NoDup (map URL pages) -> t ∈ map URL pages ->
  rsum (fun p => if String.eqb t (URL p) then c else 0) pages = c.
Proof.
  induction pages as [|q pages IH]; intros Hnd Hin.
  - now apply elem_of_nil in Hin.
  - cbn [map] in Hnd, Hin. apply NoDup_cons in Hnd as [Hq Hnd].
    rewrite rsum_cons. destruct (String.eqb_spec t (URL q)) as [->|Hne].
    + rewrite rsum_indicator_absent by exact Hq. ring.
    + apply elem_of_cons in Hin as [Heq | Hin]; [congruence|].
      rewrite IH by assumption. ring.
Qed.

(** Summed over the pages, what comes in is what the pages hand on, once
    for each of their links. *)
Lemma inbound_rsum (pages : list (Page F)) (g : string -> R) :
  closedGraph pages ->
  rsum (fun p => rsum g (inOf pages (URL p))) pages
  = rsum (fun q => INR (length (Links q)) * g (URL q)) pages.
Proof.
  intros [Hnd _ _ Htargets].
  assert (forall t,
             rsum g (inOf pages t)
             = rsum (fun q =>
                       rsum (fun l => if String.eqb (ToURL l) t
                                      then g (URL q) else 0)
                            (Links q)) pages) as Hin.
  { intros t. unfold inOf. rewrite rsum_flat_map.
    apply rsum_ext_in. intros q _. rewrite rsum_flat_map.
    apply rsum_ext_in. intros l _.
    destruct (String.eqb (ToURL l) t); cbn; ring. }
  rewrite (rsum_ext_in _ _ pages (fun p _ => Hin (URL p))).
  rewrite rsum_swap. apply rsum_ext_in. intros q Hq.
  rewrite rsum_swap.
  rewrite (rsum_ext_in _ (fun _ => g (URL q)) (Links q)).
  - rewrite rsum_const. reflexivity.
  - intros l Hl. apply rsum_indicator; [exact Hnd|]. now apply (Htargets q l).
Qed.

(** Who links to a page is a page; no page has more inbound links, or more
    links, than there are links in all. *)
Lemma inOf_pages (pages : list (Page F)) (t j : string) :
  j ∈ inOf pages t -> exists q, q ∈ pages /\ j = URL q.
Proof.
  unfold inOf. intros Hj. apply list_elem_of_In, in_flat_map in Hj as (q & Hq & Hj).
  apply in_flat_map in Hj as (l & _ & Hj). exists q.
  split; [now apply list_elem_of_In|].
  destruct (String.eqb (ToURL l) t); [|contradiction].
  destruct Hj as [<-|[]]. reflexivity.
Qed.

Lemma inOf_length (pages : list (Page F)) (t : string) :
  (length (inOf pages t) <= length (flat_map Links pages))%nat.
Proof.
  unfold inOf. induction pages as [|p pages IH]; [reflexivity|].
  cbn [flat_map]. rewrite !length_app.
  assert (length (flat_map (fun l => if String.eqb (ToURL l) t then [URL p] else [])
                           (Links p)) <= length (Links p))%nat; [|lia].
  induction (Links p) as [|l ls IHl]; [reflexivity|].
  cbn [flat_map]. rewrite length_app. cbn [length].
  destruct (String.eqb (ToURL l) t); cbn [length]; lia.
Qed.

Lemma links_length (pages : list (Page F)) (p : Page F) :
  p ∈ pages -> (length (Links p) <= length (flat_map Links pages))%nat.
Proof.
  induction pages as [|q pages IH]; intros Hp.
  - now apply elem_of_nil in Hp.
  - cbn [flat_map]. rewrite length_app.
    apply elem_of_cons in Hp as [-> | Hp]; [lia|]. specialize (IH Hp). lia.
Qed.

Lemma pages_length (pages : list (Page F)) :
  (forall p, p ∈ pages -> Links p <> []) ->
  (length pages <= length (flat_map Links pages))%nat.
Proof.
  induction pages as [|q pages IH]; intros Hl; [reflexivity|].
  cbn [flat_map length]. rewrite length_app.
  pose proof (Hl q ltac:(now left)) as Hq.
  specialize (IH (fun p Hp => Hl p ltac:(now right))).
  destruct (Links q); [congruence|]. cbn [length]. lia.
Qed.

End OverPages.

(** ** Numbers after some roundings *)

Lemma roundoff_value : roundoff = / 9007199254740992.
Proof. apply pow2_neg_53. Qed.

Lemma within_le (k k' : nat) (v x : R) :
  0 <= x -> (k <= k')%nat -> within k v x -> within k' v x.
Proof.
  intros Hx Hk [Hlo Hhi]. unfold within. pose proof roundoff_value as Hu.
  induction Hk as [|k' Hk IH]; [now split|].
  destruct IH as [IHlo IHhi]. cbn [pow].
  assert (0 <= (1 - roundoff) ^ k') by (apply pow_le; lra).
  assert (0 <= (1 + roundoff) ^ k') by (apply pow_le; lra).
  split; nra.
Qed.

Lemma within_round (k : nat) (v x z : R) :
  within k v x -> (1 - roundoff) * v <= z <= (1 + roundoff) * v ->
  within (S k) z x.
Proof.
  intros [Hlo Hhi] [Hlo' Hhi']. unfold within. cbn [pow].
  pose proof roundoff_value as Hu. split; nra.
Qed.

Lemma within_add (k : nat) (v x w y : R) :
  within k v x -> within k w y -> within k (v + w) (x + y).
Proof. intros [Hlo Hhi] [Hlo' Hhi']. unfold within. split; lra. Qed.

Lemma within_exact (x : R) : within 0 x x.
Proof. unfold within. cbn [pow]. split; lra. Qed.

(** What the roundings add up to, for at most 1,000,002 of them. *)
Lemma pow_roundoff_bounds (k : nat) :
  (Z.of_nat k <= 1000002)%Z ->
  1 - / 4000000000 <= (1 - roundoff) ^ k
  /\ (1 + roundoff) ^ k <= 1 + / 4000000000.
Proof.
  intros Hk. pose proof roundoff_value as Hu.
  assert (1 - INR k * roundoff <= (1 - roundoff) ^ k
          /\ (1 + roundoff) ^ k * (1 - INR k * roundoff) <= 1) as [Hlo Hhi].
  { clear Hk. induction k as [|k [IHlo IHhi]].
    - cbn. split; lra.
    - rewrite S_INR. cbn [pow]. pose proof (pos_INR k) as Hpos.
      assert (0 <= (1 + roundoff) ^ k) by (apply pow_le; lra).
      split; nra. }
  assert (INR k <= 1000002) as Hk'.
  { rewrite INR_IZR_INZ. now apply IZR_le. }
  pose proof (pos_INR k) as Hpos.
  assert (0 <= (1 + roundoff) ^ k) by (apply pow_le; lra).
  split; nra.
Qed.

Lemma within_bounds (k : nat) (v x : R) :
  (Z.of_nat k <= 1000002)%Z -> 0 <= x -> within k v x ->
  (1 - / 4000000000) * x <= v <= (1 + / 4000000000) * x.
Proof.
  intros Hk Hx [Hlo Hhi]. destruct (pow_roundoff_bounds k Hk) as [Hl Hh].
  split; nra.
Qed.

End RealSums.

(** ** The rounds of [calculatePageRank] in [float64] *)

Module RankRounding.
Import Reals Lra Models Analyzer Graph Binary64 Binary64Facts RealSums RankValues.
Local Open Scope R_scope.

Lemma pow2_far : pow2 (-1000) <= / 1267650600228229401496703205376
                 /\ 1267650600228229401496703205376 <= pow2 1000.
Proof.
  assert (pow2 100 = 1267650600228229401496703205376) as H100.
  { rewrite <- pow2_IZR by lia. reflexivity. }
  split.
  - pose proof (pow2_le (-1000) (-100) ltac:(lia)) as Hle.
    change (-100)%Z with (- (100))%Z in Hle. rewrite pow2_opp, H100 in Hle.
    exact Hle.
  - rewrite <- H100. apply pow2_le. lia.
Qed.

(** A quotient by a number of elements. *)
Lemma quotient_bounds (v : R) (n : nat) :
  0 <= v -> (1 <= Z.of_nat n <= 1000000)%Z ->
  v / 1000000 <= v / INR n <= v.
Proof.
  intros Hv [Hlo Hhi]. apply IZR_le in Hlo, Hhi. rewrite <- INR_IZR_INZ in Hlo, Hhi.
  assert (0 < / INR n) as Hinv by (apply Rinv_0_lt_compat; lra).
  assert (/ INR n * INR n = 1) as Hone by (field; lra).
  unfold Rdiv. split; nra.
Qed.

Lemma ofLen_correct (n : nat) :
  (1 <= Z.of_nat n <= 1000000)%Z ->
  normalPositive (ofLen (Arith := float64Arith) n)
  /\ valueOf (ofLen (Arith := float64Arith) n) = INR n
  /\ positive (Arith := float64Arith) (ofLen (Arith := float64Arith) n) = true.
Proof.
  intros Hn. cbn [ofLen positive float64Arith].
  destruct (of_uint63_correct (Z.of_nat n)) as [Hnp Hv].
  { change (2 ^ 53)%Z with 9007199254740992%Z. lia. }
  split; [exact Hnp|]. split; [now rewrite INR_IZR_INZ|].
  now apply ltb_zero_normalPositive.
Qed.

Section OneRank.
Variable pages : list (Page Float64.float64).
Variable pageRank : gmap string Float64.float64.

(** The body of the loop over the inbound links. *)
Abbreviation step :=
  (fun (rank : Float64.float64) (inbound : string) =>
     let outboundCount :=
       ofLen (Arith := float64Arith)
             (length (default [] (linkGraphOf pages !! inbound))) in
     if positive (Arith := float64Arith) outboundCount
     then add (Arith := float64Arith) rank
              (div (Arith := float64Arith)
                   (mul (Arith := float64Arith)
                        (dampingFactor (Arith := float64Arith))
                        (at_ (arith := float64Arith) pageRank inbound))
                   outboundCount)
     else rank).

Lemma handsOn_bounds (inbound : string) :
  sound pages pageRank inbound ->
  / 100000000000000 <= handsOn pages pageRank inbound <= 2.
Proof.
  intros (HL & _ & Hv). unfold handsOn.
  destruct dampingFactor_normalPositive as [_ ->].
  set (c := 7656119366529843 / 9007199254740992).
  assert (/ 2 <= c <= 1) as Hc by (unfold c; lra).
  pose proof (quotient_bounds (c * valueAt pageRank inbound) _
                              ltac:(nra) HL) as [Hlo Hhi].
  split; [|nra].
  eapply Rle_trans; [|exact Hlo]. unfold Rdiv. nra.
Qed.

Lemma step_rounds (rank : Float64.float64) (inbound : string) (A : R) (k : nat) :
  sound pages pageRank inbound ->
  normalPositive rank -> within k (valueOf rank) A ->
  (2 <= k)%nat -> (Z.of_nat k <= 1000001)%Z ->
  / 10000000 <= A -> A + handsOn pages pageRank inbound <= 3000000 ->
  normalPositive (step rank inbound)
  /\ within (S k) (valueOf (step rank inbound))
            (A + handsOn pages pageRank inbound).
Proof.
  intros Hsound Hrank Hw Hk2 Hk HA Hcap.
  pose proof (handsOn_bounds inbound Hsound) as Hh.
  destruct Hsound as (HL & Hnp & Hv).
  destruct (ofLen_correct _ HL) as (HnL & HvL & Hpos).
  cbv beta zeta. rewrite linkGraphOf_lookup, Hpos.
  cbn [add mul div dampingFactor float64Arith].
  destruct dampingFactor_normalPositive as [Hnd Hvd].
  destruct pow2_far as [Hfar Hfar'].
  pose proof roundoff_value as Hu.
  unfold handsOn in *.
  set (c := valueOf Float64.dampingFactor) in *.
  assert (/ 2 <= c <= 1) as Hc by (rewrite Hvd; lra).
  set (x := at_ (arith := float64Arith) pageRank inbound) in *.
  assert (valueAt pageRank inbound = valueOf x) as Hx by reflexivity.
  rewrite Hx in *.
  set (L := ofLen (Arith := float64Arith) (length (outOf pages inbound))) in *.
  destruct (mul_correct Float64.dampingFactor x Hnd Hnp) as [Hnm Hvm].
  { fold c. split; nra. }
  fold c in Hvm.
  set (prod := PrimFloat.mul Float64.dampingFactor x) in *.
  pose proof (quotient_bounds (valueOf prod) _ ltac:(nra) HL) as Hq.
  rewrite <- HvL in *.
  destruct (div_correct prod L Hnm HnL) as [Hnq Hvq].
  { split; [|nra]. eapply Rle_trans; [|exact (proj1 Hq)]. unfold Rdiv. nra. }
  set (quot := PrimFloat.div prod L) in *.
  assert (0 < / valueOf L) as Hinv.
  { apply Rinv_0_lt_compat. rewrite HvL. destruct HL as [HL1 _].
    apply IZR_le in HL1. rewrite <- INR_IZR_INZ in HL1. lra. }
  assert (within 2 (valueOf quot) (c * valueOf x / valueOf L)) as Hwq.
  { apply (within_round 1 (valueOf prod / valueOf L)); [|exact Hvq].
    unfold within, Rdiv. cbn [pow]. split; nra. }
  assert (0 <= c * valueOf x / valueOf L) as Hh0 by lra.
  pose proof (within_le 2 k _ _ Hh0 Hk2 Hwq) as Hwq'.
  pose proof (within_add k _ _ _ _ Hw Hwq') as Hsum.
  assert (0 <= A + c * valueOf x / valueOf L) as Hnn by lra.
  pose proof (within_bounds k _ _ ltac:(lia) Hnn Hsum) as Hb.
  destruct (add_correct rank quot Hrank Hnq) as [Hna Hva].
  { split; nra. }
  split; [exact Hna|]. now apply (within_round k (valueOf rank + valueOf quot)).
Qed.

Lemma fold_rounds (l : list string) (rank : Float64.float64) (A : R) (k : nat) :
  (forall inbound, inbound ∈ l -> sound pages pageRank inbound) ->
  normalPositive rank -> within k (valueOf rank) A ->
  (2 <= k)%nat -> (Z.of_nat k + Z.of_nat (length l) <= 1000002)%Z ->
  / 10000000 <= A -> A + rsum (handsOn pages pageRank) l <= 3000000 ->
  normalPositive (fold_left step l rank)
  /\ within (k + length l) (valueOf (fold_left step l rank))
            (A + rsum (handsOn pages pageRank) l).
Proof.
  revert rank A k.
  induction l as [|j l IH]; intros rank A k Hl Hrank Hw Hk2 Hk HA Hcap.
  - cbn [fold_left length]. rewrite Nat.add_0_r. cbn [rsum fold_right].
    rewrite Rplus_0_r. now split.
  - cbn [fold_left length]. rewrite rsum_cons in *. cbn [length] in Hk.
    pose proof (handsOn_bounds j (Hl j ltac:(now left))) as Hj.
    assert (0 <= rsum (handsOn pages pageRank) l) as Hrest.
    { apply rsum_nonneg. intros i Hi.
      pose proof (handsOn_bounds i (Hl i ltac:(now right))). lra. }
    destruct (step_rounds rank j A k (Hl j ltac:(now left)) Hrank Hw Hk2
                          ltac:(lia) HA ltac:(lra)) as [Hn' Hw'].
    destruct (IH (step rank j) (A + handsOn pages pageRank j) (S k)
                 (fun i Hi => Hl i ltac:(now right)) Hn' Hw' ltac:(lia)
                 ltac:(lia) ltac:(lra) ltac:(lra)) as [Hn'' Hw''].
    split; [exact Hn''|].
    replace (k + S (length l))%nat with (S k + length l)%nat by lia.
    replace (A + (handsOn pages pageRank j + rsum (handsOn pages pageRank) l))
      with (A + handsOn pages pageRank j + rsum (handsOn pages pageRank) l)
      by ring.
    exact Hw''.
Qed.

End OneRank.

Section Rounds.
Variable pages : list (Page Float64.float64).
Hypothesis Hclosed : closedGraph pages.
Hypothesis Hsize : (Z.of_nat (length (flat_map Links pages)) <= 1000000)%Z.

Lemma pageCount_bounds : (1 <= Z.of_nat (length pages) <= 1000000)%Z.
Proof.
  pose proof (pages_length pages (noDangling _ Hclosed)) as Hle.
  pose proof (somePage _ Hclosed) as Hne.
  destruct pages; [congruence|]. cbn [length] in *. lia.
Qed.

Lemma valueAt_ranked (pageRank : gmap string Float64.float64) (p : Page Float64.float64) :
  ranked pages pageRank -> p ∈ pages ->
  normalPositive (at_ (arith := float64Arith) pageRank (URL p))
  /\ / 10000000 <= valueAt pageRank (URL p) <= 1 + / 100000000.
Proof.
  intros [Hall Hsum] Hp.
  assert (forall q, q ∈ pages ->
                    normalPositive (at_ (arith := float64Arith) pageRank (URL q))
                    /\ / 10000000 <= valueAt pageRank (URL q)) as Hq.
  { intros q Hq. destruct (Hall q Hq) as (x & Hx & Hn & Hv).
    unfold valueAt, at_. rewrite Hx. now split. }
  destruct (Hq p Hp) as [Hn Hv]. split; [exact Hn|]. split; [exact Hv|].
  pose proof (rsum_member_le (fun q => valueAt pageRank (URL q)) pages p) as Hle.
  unfold sumOfValues in Hsum.
  assert (valueAt pageRank (URL p)
          <= rsum (fun q => valueAt pageRank (URL q)) pages); [|lra].
  apply Hle; [|exact Hp]. intros q Hq'. destruct (Hq q Hq') as [_ Hv']. lra.
Qed.

Lemma sound_inbound (pageRank : gmap string Float64.float64) (t inbound : string) :
  ranked pages pageRank -> inbound ∈ inOf pages t ->
  sound pages pageRank inbound.
Proof.
  intros Hranked Hin. destruct (inOf_pages pages t inbound Hin) as (q & Hq & ->).
  destruct (valueAt_ranked pageRank q Hranked Hq) as [Hn Hv].
  split; [|split; [exact Hn | lra]].
  rewrite (outOf_page pages q (urlsDiffer _ Hclosed) Hq), length_map.
  pose proof (links_length pages q Hq) as Hle.
  pose proof (noDangling _ Hclosed q Hq) as Hne.
  destruct (Links q); [congruence|]. cbn [length] in *. lia.
Qed.

(** The rank the loop computes for a page, next to the rank without
    rounding. *)
Lemma rankOf_rounds (pageRank : gmap string Float64.float64) (p : Page Float64.float64) :
  ranked pages pageRank -> p ∈ pages ->
  let r := rankOf (arith := float64Arith) (linkGraphOf pages)
                  (inboundLinksOf pages)
                  (ofLen (Arith := float64Arith) (length pages)) pageRank p in
  normalPositive r
  /\ (1 - / 4000000000) * unroundedRank pages pageRank p <= valueOf r
     <= (1 + / 4000000000) * unroundedRank pages pageRank p
  /\ / 10000000 <= valueOf r.
Proof.
  intros Hranked Hp. cbv zeta. unfold rankOf. rewrite inboundLinksOf_lookup.
  pose proof pageCount_bounds as HN.
  destruct (ofLen_correct _ HN) as (HnN & HvN & _).
  destruct oneMinusDamping_normalPositive as [Hn15 Hv15].
  destruct pow2_far as [Hfar Hfar'].
  pose proof roundoff_value as Hu.
  cbn [div oneMinusDamping float64Arith].
  set (c := valueOf Float64.oneMinusDamping) in *.
  assert (/ 8 <= c <= / 4) as Hc by (rewrite Hv15; lra).
  pose proof (quotient_bounds c _ ltac:(lra) HN) as Hq.
  destruct (div_correct Float64.oneMinusDamping
                        (ofLen (Arith := float64Arith) (length pages)) Hn15 HnN)
    as [Hn0 Hv0].
  { fold c. rewrite HvN. unfold Rdiv in *. split; nra. }
  fold c in Hv0. rewrite HvN in Hv0.
  assert (forall inbound, inbound ∈ inOf pages (URL p) ->
                          sound pages pageRank inbound) as Hsound.
  { intros inbound. now apply sound_inbound. }
  assert (0 <= rsum (handsOn pages pageRank) (inOf pages (URL p))
          <= 2000000) as Hrest.
  { split.
    - apply rsum_nonneg. intros i Hi.
      pose proof (handsOn_bounds pages pageRank i (Hsound i Hi)). lra.
    - eapply Rle_trans.
      + apply (rsum_le _ (fun _ => 2)). intros i Hi.
        pose proof (handsOn_bounds pages pageRank i (Hsound i Hi)). lra.
      + rewrite rsum_const. pose proof (inOf_length pages (URL p)) as Hlen.
        assert (INR (length (inOf pages (URL p))) <= 1000000); [|lra].
        rewrite INR_IZR_INZ. apply IZR_le. lia. }
  destruct (fold_rounds pages pageRank (inOf pages (URL p))
              (PrimFloat.div Float64.oneMinusDamping
                             (ofLen (Arith := float64Arith) (length pages)))
              (c / INR (length pages)) 2) as [Hn Hw].
  - exact Hsound.
  - exact Hn0.
  - apply (within_le 1); [lra | lia |]. unfold within. cbn [pow]. lra.
  - lia.
  - pose proof (inOf_length pages (URL p)). lia.
  - unfold Rdiv in *. nra.
  - lra.
  - split; [exact Hn|]. fold (unroundedRank pages pageRank p) in Hw.
    assert (/ 8000000 <= unroundedRank pages pageRank p) as HE.
    { unfold unroundedRank. fold c. unfold Rdiv in *. nra. }
    assert (Z.of_nat (2 + length (inOf pages (URL p))) <= 1000002)%Z as HK
        by (pose proof (inOf_length pages (URL p)); lia).
    assert (0 <= unroundedRank pages pageRank p) as HE0 by lra.
    pose proof (within_bounds _ _ _ HK HE0 Hw) as Hb.
    split; [exact Hb|]. eapply Rle_trans; [|exact (proj1 Hb)]. lra.
Qed.

(** Summed over the pages, the ranks without rounding are what the two
    constants make of the sum of the ranks before. *)
Lemma unroundedRank_sum (pageRank : gmap string Float64.float64) :
  rsum (unroundedRank pages pageRank) pages
  = valueOf Float64.oneMinusDamping
    + valueOf Float64.dampingFactor * sumOfValues pages pageRank.
Proof.
  unfold unroundedRank. rewrite rsum_plus, rsum_const, inbound_rsum by exact Hclosed.
  pose proof pageCount_bounds as [HN _]. apply IZR_le in HN.
  rewrite <- INR_IZR_INZ in HN.
  rewrite (rsum_ext_in _ (fun q => valueOf Float64.dampingFactor
                                   * valueAt pageRank (URL q)) pages).
  - rewrite rsum_scale. unfold sumOfValues. field. lra.
  - intros q Hq. unfold handsOn.
    rewrite (outOf_page pages q (urlsDiffer _ Hclosed) Hq), length_map.
    pose proof (noDangling _ Hclosed q Hq) as Hne.
    assert (1 <= INR (length (Links q))) as Hl.
    { destruct (Links q) as [|l ls]; [congruence|]. cbn [length].
      rewrite S_INR. pose proof (pos_INR (length ls)). lra. }
    field. lra.
Qed.

Lemma sumOfValues_assignAll (v : Page Float64.float64 -> Float64.float64) :
  sumOfValues pages (assignAll v pages) = rsum (fun p => valueOf (v p)) pages.
Proof.
  unfold sumOfValues. apply rsum_ext_in. intros p Hp. unfold valueAt, at_.
  now rewrite (assignAll_lookup v pages p (urlsDiffer _ Hclosed) Hp).
Qed.

(** The ranks before the first round. *)
Lemma initial_ranked :
  ranked pages
         (assignAll (fun _ => div (Arith := float64Arith)
                                  (one (Arith := float64Arith))
                                  (ofLen (Arith := float64Arith) (length pages)))
                    pages).
Proof.
  pose proof pageCount_bounds as HN.
  destruct (ofLen_correct _ HN) as (HnN & HvN & _).
  destruct one_normalPositive as [Hn1 Hv1].
  destruct pow2_far as [Hfar Hfar'].
  pose proof roundoff_value as Hu.
  pose proof (quotient_bounds 1 _ ltac:(lra) HN) as Hq.
  cbn [div one float64Arith].
  destruct (div_correct Float64.one
                        (ofLen (Arith := float64Arith) (length pages)) Hn1 HnN)
    as [Hn0 Hv0].
  { rewrite Hv1, HvN. unfold Rdiv in *. split; nra. }
  rewrite Hv1, HvN in Hv0.
  split.
  - intros p Hp. eexists. split.
    + apply (assignAll_lookup _ pages p (urlsDiffer _ Hclosed) Hp).
    + split; [exact Hn0|]. cbv beta. unfold Rdiv in *. nra.
  - rewrite sumOfValues_assignAll, rsum_const.
    destruct HN as [HN1 _]. apply IZR_le in HN1. rewrite <- INR_IZR_INZ in HN1.
    assert (INR (length pages) * (1 / INR (length pages)) = 1) as Hone
        by (field; lra).
    split; nra.
Qed.

(** One round keeps the ranks as they have to be. *)
Lemma iteration_ranked (pageRank : gmap string Float64.float64) :
  ranked pages pageRank ->
  ranked pages
         (iteration (arith := float64Arith) (linkGraphOf pages)
                    (inboundLinksOf pages)
                    (ofLen (Arith := float64Arith) (length pages))
                    pages pageRank).
Proof.
  intros Hranked. unfold iteration. split.
  - intros p Hp. eexists. split.
    + apply (assignAll_lookup _ pages p (urlsDiffer _ Hclosed) Hp).
    + destruct (rankOf_rounds pageRank p Hranked Hp) as (Hn & _ & Hlo).
      now split.
  - rewrite sumOfValues_assignAll.
    assert ((1 - / 4000000000) * rsum (unroundedRank pages pageRank) pages
            <= rsum (fun p =>
                       valueOf (rankOf (arith := float64Arith) (linkGraphOf pages)
                                       (inboundLinksOf pages)
                                       (ofLen (Arith := float64Arith)
                                              (length pages))
                                       pageRank p)) pages
            <= (1 + / 4000000000) * rsum (unroundedRank pages pageRank) pages)
      as Hsum.
    { rewrite <- !rsum_scale. split; apply rsum_le; intros p Hp;
        destruct (rankOf_rounds pageRank p Hranked Hp) as (_ & Hb & _);
        apply Hb. }
    rewrite unroundedRank_sum in Hsum.
    destruct Hranked as [_ HS].
    destruct oneMinusDamping_normalPositive as [_ Hv15].
    destruct dampingFactor_normalPositive as [_ Hv85].
    rewrite Hv15, Hv85 in Hsum. lra.
Qed.

Lemma iterations_ranked (n : nat) :
  ranked pages
         (Nat.iter n
            (iteration (arith := float64Arith) (linkGraphOf pages)
                       (inboundLinksOf pages)
                       (ofLen (Arith := float64Arith) (length pages)) pages)
            (assignAll (fun _ => div (Arith := float64Arith)
                                     (one (Arith := float64Arith))
                                     (ofLen (Arith := float64Arith)
                                            (length pages)))
                       pages)).
Proof.
  induction n as [|n IH]; cbn [Nat.iter].
  - apply initial_ranked.
  - now apply iteration_ranked.
Qed.

Lemma pageRankMap_ranked :
  ranked pages (pageRankMap (arith := float64Arith) pages).
Proof.
  unfold pageRankMap. pose proof (iterations_ranked iterations) as H.
  unfold linkGraphOf, inboundLinksOf in H.
  destruct (buildGraph pages) as [linkGraph inboundLinks]. exact H.
Qed.

(** The rank without rounding is at least the share every page gets. *)
Lemma unroundedRank_lower (pageRank : gmap string Float64.float64)
    (p : Page Float64.float64) :
  ranked pages pageRank ->
  valueOf Float64.oneMinusDamping / INR (length pages)
  <= unroundedRank pages pageRank p.
Proof.
  intros Hranked. unfold unroundedRank.
  assert (0 <= rsum (handsOn pages pageRank) (inOf pages (URL p))); [|lra].
  apply rsum_nonneg. intros i Hi.
  pose proof (handsOn_bounds pages pageRank i
                (sound_inbound pageRank (URL p) i Hranked Hi)). lra.
Qed.

(** The map after the 100 rounds is the last round's, on a map that is as
    it has to be. *)
Lemma pageRankMap_last_round :
  exists previous,
    ranked pages previous
    /\ pageRankMap (arith := float64Arith) pages
       = iteration (arith := float64Arith) (linkGraphOf pages)
                   (inboundLinksOf pages)
                   (ofLen (Arith := float64Arith) (length pages))
                   pages previous.
Proof.
  eexists. split; [apply (iterations_ranked 99)|].
  unfold pageRankMap, linkGraphOf, inboundLinksOf.
  destruct (buildGraph pages) as [linkGraph inboundLinks]. reflexivity.
Qed.

End Rounds.

(** ** The loop that sums the ranks *)

Lemma sum_loop_rounds (pageRank : gmap string Float64.float64)
    (l : list (Page Float64.float64)) (s : Float64.float64) (A : R) (k : nat) :
  (forall p, p ∈ l ->
     normalPositive (at_ (arith := float64Arith) pageRank (URL p))
     /\ / 10000000 <= valueAt pageRank (URL p)) ->
  normalPositive s -> within k (valueOf s) A ->
  (Z.of_nat k + Z.of_nat (length l) <= 1000002)%Z ->
  / 10000000 <= A -> A + rsum (fun p => valueAt pageRank (URL p)) l <= 2 ->
  let s' := fold_left (fun s page =>
                         PrimFloat.add s (at_ (arith := float64Arith)
                                              pageRank (URL page))) l s in
  normalPositive s'
  /\ within (k + length l) (valueOf s')
            (A + rsum (fun p => valueAt pageRank (URL p)) l).
Proof.
  cbv zeta. revert s A k.
  induction l as [|p l IH]; intros s A k Hl Hs Hw Hk HA Hcap.
  - cbn [fold_left length]. rewrite Nat.add_0_r. cbn [rsum fold_right].
    rewrite Rplus_0_r. now split.
  - cbn [fold_left length]. rewrite rsum_cons in *. cbn [length] in Hk.
    destruct (Hl p ltac:(now left)) as [Hnp Hvp].
    assert (0 <= rsum (fun q => valueAt pageRank (URL q)) l) as Hrest.
    { apply rsum_nonneg. intros q Hq.
      destruct (Hl q ltac:(now right)) as [_ Hvq]. lra. }
    destruct pow2_far as [Hfar Hfar'].
    assert (within k (valueOf s + valueAt pageRank (URL p))
                   (A + valueAt pageRank (URL p))) as Hsum.
    { apply within_add; [exact Hw|]. apply (within_le 0); [lra | lia |].
      apply within_exact. }
    assert (0 <= A + valueAt pageRank (URL p)) as Hnn by lra.
    pose proof (within_bounds k _ _ ltac:(lia) Hnn Hsum) as Hb.
    destruct (add_correct s (at_ (arith := float64Arith) pageRank (URL p))
                          Hs Hnp) as [Hna Hva].
    { unfold valueAt in *. split; nra. }
    destruct (IH (PrimFloat.add s (at_ (arith := float64Arith) pageRank (URL p)))
                 (A + valueAt pageRank (URL p)) (S k)
                 (fun q Hq => Hl q ltac:(now right)) Hna) as [Hn' Hw'].
    + now apply (within_round k (valueOf s + valueAt pageRank (URL p))).
    + lia.
    + lra.
    + lra.
    + split; [exact Hn'|].
      replace (k + S (length l))%nat with (S k + length l)%nat by lia.
      replace (A + (valueAt pageRank (URL p)
                    + rsum (fun q => valueAt pageRank (URL q)) l))
        with (A + valueAt pageRank (URL p)
              + rsum (fun q => valueAt pageRank (URL q)) l) by ring.
      exact Hw'.
Qed.

Lemma pageRankSum_loop (crawlResult : CrawlResult Float64.float64)
    (pageRank : gmap string Float64.float64) (ps : list (Page Float64.float64))
    (s : Float64.float64) :
  fold_left (fun s page => add (Arith := float64Arith) s (PageRank page))
            (map (fun page =>
                    withPageRank (at_ (arith := float64Arith) pageRank (URL page))
                                 page) ps) s
  = fold_left (fun s page =>
                 PrimFloat.add s (at_ (arith := float64Arith)
                                      pageRank (URL page))) ps s.
Proof.
  revert s. induction ps as [|p ps IH]; intros s; [reflexivity|].
  cbn [map fold_left]. rewrite IH. reflexivity.
Qed.

Lemma realPageRankSum_calculated (crawlResult : CrawlResult Float64.float64) :
  realPageRankSum (calculatePageRank (arith := float64Arith) crawlResult)
  = sumOfValues (Pages crawlResult)
                (pageRankMap (arith := float64Arith) (Pages crawlResult)).
Proof.
  unfold realPageRankSum, calculatePageRank, withPages, sumOfValues. cbn [Pages].
  generalize (pageRankMap (arith := float64Arith) (Pages crawlResult)).
  intros m. induction (Pages crawlResult) as [|p ps IH]; [reflexivity|].
  cbn [map]. rewrite !rsum_cons, IH. reflexivity.
Qed.

(** On a closed graph with at most 1,000,000 links the sum the loop computes
    is a positive number close to one. *)
Lemma pageRankSum_rounds (crawlResult : CrawlResult Float64.float64) :
  closedGraph (Pages crawlResult) ->
  (Z.of_nat (length (flat_map Links (Pages crawlResult))) <= 1000000)%Z ->
  normalPositive (pageRankSum (arith := float64Arith)
                    (calculatePageRank (arith := float64Arith) crawlResult))
  /\ 1 - / 10000000
     <= valueOf (pageRankSum (arith := float64Arith)
                   (calculatePageRank (arith := float64Arith) crawlResult))
     <= 1 + / 10000000.
Proof.
  intros Hclosed Hsize.
  pose proof (pageRankMap_ranked _ Hclosed Hsize) as Hranked.
  pose proof (pageCount_bounds _ Hclosed Hsize) as HN.
  unfold pageRankSum, calculatePageRank, withPages. cbn [Pages].
  rewrite (pageRankSum_loop crawlResult).
  set (m := pageRankMap (arith := float64Arith) (Pages crawlResult)) in *.
  assert (forall p, p ∈ Pages crawlResult ->
                    normalPositive (at_ (arith := float64Arith) m (URL p))
                    /\ / 10000000 <= valueAt m (URL p)) as Hall.
  { intros p Hp.
    destruct (valueAt_ranked _ m p Hranked Hp) as [Hn [Hv _]].
    now split. }
  destruct Hranked as [_ HS]. unfold sumOfValues in HS.
  destruct (Pages crawlResult) as [|p ps]; [cbn [length] in HN; lia|].
  cbn [fold_left zero float64Arith]. rewrite rsum_cons in HS.
  destruct (Hall p ltac:(now left)) as [Hnp Hvp].
  destruct (add_zero_normalPositive _ Hnp) as [Hn0 Hv0].
  assert (0 <= rsum (fun q => valueAt m (URL q)) ps) as Hrest.
  { apply rsum_nonneg. intros q Hq.
    destruct (Hall q ltac:(now right)) as [_ Hvq]. lra. }
  destruct (sum_loop_rounds m ps
              (PrimFloat.add Float64.zero (at_ (arith := float64Arith) m (URL p)))
              (valueAt m (URL p)) 0) as [Hn Hw].
  - intros q Hq. apply Hall. now right.
  - exact Hn0.
  - rewrite Hv0. apply within_exact.
  - cbn [length] in HN. lia.
  - exact Hvp.
  - lra.
  - split; [exact Hn|].
    assert (Z.of_nat (0 + length ps) <= 1000002)%Z as HK
        by (cbn [length] in HN; lia).
    assert (0 <= valueAt m (URL p) + rsum (fun q => valueAt m (URL q)) ps)
      as Hnn by lra.
    pose proof (within_bounds _ _ _ HK Hnn Hw) as Hb. lra.
Qed.

End RankRounding.

(** ** C1: the sum of the pagerank values in [float64] *)

Module PageRankSum.
Import Reals Lra Models Analyzer Graph Binary64 Binary64Facts RealSums RankValues
       RankRounding.
Local Open Scope R_scope.

(** C1, on the code, which computes in [float64]: when the pages have
    different URLs, there is a page, every page has a link, the target of
    every link is, as the string the page holds, the URL of a page, and
    there are at most 1,000,000 links in all, the sum of the pagerank values
    after the 100 rounds differs from one by at most [1e-6]: as the loop
    over the pages adds the values up in [float64] and compares, and as the
    sum of the real numbers the values stand for. *)
Theorem pagerank_sum_close_to_one_on_closed_graph
    (crawlResult : CrawlResult Float64.float64) :
  closedGraph (Pages crawlResult) ->
  (Z.of_nat (length (flat_map Links (Pages crawlResult))) <= 1000000)%Z ->
  SpecWords.sumsToOne (calculatePageRank (arith := float64Arith) crawlResult)
  /\ Rabs (realPageRankSum
             (calculatePageRank (arith := float64Arith) crawlResult) - 1)
     <= / 1000000.
Proof.
  intros Hclosed Hsize. split.
  - destruct (pageRankSum_rounds crawlResult Hclosed Hsize) as [Hn Hv].
    unfold SpecWords.sumsToOne. apply close_to_one; [exact Hn|].
    rewrite pow2_neg_21. lra.
  - rewrite realPageRankSum_calculated.
    destruct (pageRankMap_ranked _ Hclosed Hsize) as [_ HS].
    apply Rabs_le. lra.
Qed.

(** Two pages with a link to each other form such a graph. *)
Lemma pagerank_sum_close_to_one_on_closed_graph_witness :
  closedGraph (Pages (resultOf (cyclePages Float64.zero)))
  /\ (Z.of_nat (length (flat_map Links
                          (Pages (resultOf (cyclePages Float64.zero)))))
      <= 1000000)%Z
  /\ SpecWords.sumsToOne
       (calculatePageRank (arith := float64Arith)
                          (resultOf (cyclePages Float64.zero)))
  /\ Rabs (realPageRankSum
             (calculatePageRank (arith := float64Arith)
                                (resultOf (cyclePages Float64.zero))) - 1)
     <= / 1000000.
Proof.
  split; [exact (cyclePages_closed Float64.zero)|].
  split; [cbn; lia|].
  apply (pagerank_sum_close_to_one_on_closed_graph
           (resultOf (cyclePages Float64.zero))).
  - exact (cyclePages_closed Float64.zero).
  - cbn. lia.
Defined.

(** X18: in [float64], on such a graph every page ends with a rank that is
    a positive number with a mantissa of 53 bits (so not zero, not
    infinite and no NaN), that is at least the share [0.15 / N] every one
    of the [N] pages gets, up to the rounding, and at most [1 + 1e-8]. *)
Theorem ranks_are_positive_on_closed_graph
    (crawlResult : CrawlResult Float64.float64) (p : Page Float64.float64) :
  closedGraph (Pages crawlResult) ->
  (Z.of_nat (length (flat_map Links (Pages crawlResult))) <= 1000000)%Z ->
  p ∈ Pages (calculatePageRank (arith := float64Arith) crawlResult) ->
  normalPositive (PageRank p)
  /\ (1 - / 4000000000)
     * (valueOf Float64.oneMinusDamping / INR (length (Pages crawlResult)))
     <= valueOf (PageRank p) <= 1 + / 100000000.
Proof.
  intros Hclosed Hsize Hin.
  unfold calculatePageRank, withPages in Hin. cbn [Pages] in Hin.
  apply list_elem_of_fmap in Hin as [q [-> Hq]]. cbn [PageRank withPageRank].
  destruct (valueAt_ranked _ _ q (pageRankMap_ranked _ Hclosed Hsize) Hq)
    as [Hn [_ Hhi]].
  split; [exact Hn|]. split; [|exact Hhi].
  destruct (pageRankMap_last_round _ Hclosed Hsize) as (previous & Hranked & ->).
  unfold iteration, at_.
  rewrite (assignAll_lookup _ _ q (urlsDiffer _ Hclosed) Hq). cbn [default].
  destruct (rankOf_rounds _ Hclosed Hsize previous q Hranked Hq)
    as (_ & [Hlo _] & _).
  pose proof (unroundedRank_lower _ Hclosed Hsize previous q Hranked) as HE.
  eapply Rle_trans; [|exact Hlo]. lra.
Qed.

(** The first of two pages with a link to each other. *)
Lemma ranks_are_positive_on_closed_graph_witness :
  let p :=
    withPageRank
      (at_ (arith := float64Arith)
           (pageRankMap (arith := float64Arith) (cyclePages Float64.zero))
           "http://example.com/")
      (pageOf Float64.zero "http://example.com/" ["http://example.com/about"]) in
  closedGraph (Pages (resultOf (cyclePages Float64.zero)))
  /\ (Z.of_nat (length (flat_map Links
                          (Pages (resultOf (cyclePages Float64.zero)))))
      <= 1000000)%Z
  /\ p ∈ Pages (calculatePageRank (arith := float64Arith)
                                  (resultOf (cyclePages Float64.zero)))
  /\ normalPositive (PageRank p)
  /\ (1 - / 4000000000) * (valueOf Float64.oneMinusDamping / INR 2)
     <= valueOf (PageRank p) <= 1 + / 100000000.
Proof.
  cbv zeta.
  split; [exact (cyclePages_closed Float64.zero)|].
  split; [cbn; lia|].
  split; [now left|].
  apply (ranks_are_positive_on_closed_graph
           (resultOf (cyclePages Float64.zero))).
  - exact (cyclePages_closed Float64.zero).
  - cbn. lia.
  - now left.
Defined.

End PageRankSum.

(** ** C2: the targets in the graph *)

(** C2, on the code: the graph of [calculatePageRank] holds for every page
    the targets of its links as the page holds them, and the pages hold the
    href attributes as the extractor read them.  For the page
    [http://example.com/] with the link [<a href=/page1>] the graph holds
    ["/page1"], not the resolved [http://example.com/page1]; the page
    [http://example.com/page1] has no inbound link, and both pages end with
    the rank of a page without inbound links. *)
Theorem graph_holds_unresolved_hrefs :
  (forall (F : Type) (pages : list (Page F)) (u : string),
      default [] (linkGraphOf pages !! u) = outOf pages u)
  /\ linkGraphOf relativeLinkPages !! "http://example.com/" = Some ["/page1"]
  /\ Crawler.resolveURL (net := Samples.plainLibrary)
                        "http://example.com/" "/page1"
     = "http://example.com/page1"
  /\ inboundLinksOf relativeLinkPages !! "http://example.com/page1" = None
  /\ map PageRank
         (Pages (calculatePageRank (arith := float64Arith)
                                   (resultOf relativeLinkPages)))
     = [PrimFloat.div Float64.oneMinusDamping (ofLen (Arith := float64Arith) 2);
        PrimFloat.div Float64.oneMinusDamping (ofLen (Arith := float64Arith) 2)].
Proof.
  split; [intros F pages u; apply linkGraphOf_lookup|].
  repeat split; vm_compute; reflexivity.
Qed.

(** * More of the two packages *)

(** ** Bytes and strings *)

Import AsciiText.

Lemma allBytes_append (p : ascii -> bool) (a b : string) :
  allBytes p (a +:+ b) = allBytes p a && allBytes p b.
Proof.
  induction a as [|c a IH]; unfold_append; [reflexivity|].
  cbn [allBytes]. now rewrite IH, andb_assoc.
Qed.

Lemma allBytes_rev (p : ascii -> bool) (s : string) :
  allBytes p (string_rev s) = allBytes p s.
Proof.
  induction s as [|c s IH]; [reflexivity|].
  cbn [string_rev allBytes]. rewrite allBytes_append, IH. cbn [allBytes].
  now rewrite andb_true_r, andb_comm.
Qed.

Lemma allBytes_impl (p q : ascii -> bool) (s : string) :
  (forall c, p c = true -> q c = true) ->
  allBytes p s = true -> allBytes q s = true.
Proof.
  intros Hpq. induction s as [|c s IH]; [reflexivity|].
  cbn [allBytes]. rewrite !andb_true_iff. intros [Hc Hs]. auto.
Qed.

Lemma string_rev_append (a b : string) :
  string_rev (a +:+ b) = string_rev b +:+ string_rev a.
Proof.
  induction a as [|c a IH]; unfold_append.
  - cbn [string_rev]. now rewrite string_append_empty_r.
  - cbn [string_rev]. now rewrite IH, string_append_assoc.
Qed.

Lemma string_rev_involutive (s : string) : string_rev (string_rev s) = s.
Proof.
  induction s as [|c s IH]; [reflexivity|].
  cbn [string_rev]. rewrite string_rev_append, IH. reflexivity.
Qed.

Lemma mapBytes_append (f : ascii -> ascii) (a b : string) :
  mapBytes f (a +:+ b) = mapBytes f a +:+ mapBytes f b.
Proof.
  induction a as [|c a IH]; unfold_append; [reflexivity|].
  cbn [mapBytes]. unfold_append. now rewrite IH.
Qed.

Lemma mapBytes_rev (f : ascii -> ascii) (s : string) :
  mapBytes f (string_rev s) = string_rev (mapBytes f s).
Proof.
  induction s as [|c s IH]; [reflexivity|].
  cbn [string_rev mapBytes]. now rewrite mapBytes_append, IH.
Qed.

Lemma allBytes_mapBytes (p : ascii -> bool) (f : ascii -> ascii) (s : string) :
  allBytes p (mapBytes f s) = allBytes (fun c => p (f c)) s.
Proof.
  induction s as [|c s IH]; [reflexivity|]. cbn [mapBytes allBytes]. now rewrite IH.
Qed.

Lemma filterBytes_all (p : ascii -> bool) (s : string) :
  allBytes p (Crawler.filterBytes p s) = true.
Proof.
  induction s as [|c s IH]; [reflexivity|]. cbn [Crawler.filterBytes].
  destruct (p c) eqn:Hc; [|exact IH]. cbn [allBytes]. now rewrite Hc, IH.
Qed.

Lemma filterBytes_id (p : ascii -> bool) (s : string) :
  allBytes p s = true -> Crawler.filterBytes p s = s.
Proof.
  induction s as [|c s IH]; [reflexivity|]. cbn [allBytes Crawler.filterBytes].
  intros Hall. apply andb_true_iff in Hall as [Hc Hs]. now rewrite Hc, IH.
Qed.

(** *** The spaces at the two ends *)

Lemma trimLeftSpace_all (p : ascii -> bool) (s : string) :
  allBytes p s = true -> allBytes p (trimLeftSpace s) = true.
Proof.
  induction s as [|c s IH]; [reflexivity|]. cbn [trimLeftSpace].
  intros Hall. destruct (asciiSpace c); [|exact Hall].
  cbn [allBytes] in Hall. apply andb_true_iff in Hall as [_ Hs]. auto.
Qed.

Lemma trimLeftSpace_idem (s : string) :
  trimLeftSpace (trimLeftSpace s) = trimLeftSpace s.
Proof.
  induction s as [|c s IH]; [reflexivity|]. cbn [trimLeftSpace].
  destruct (asciiSpace c) eqn:Hc; [exact IH|]. cbn [trimLeftSpace]. now rewrite Hc.
Qed.

(** A byte that is no space at the end stays where it is. *)
Lemma trimLeftSpace_snoc (a : string) (c : ascii) :
  asciiSpace c = false ->
  trimLeftSpace (a +:+ String c EmptyString)
  = trimLeftSpace a +:+ String c EmptyString.
Proof.
  intros Hc. induction a as [|d a IH]; unfold_append.
  - cbn [trimLeftSpace]. now rewrite Hc.
  - cbn [trimLeftSpace]. destruct (asciiSpace d); [exact IH | reflexivity].
Qed.

Lemma trimSpaces_all (p : ascii -> bool) (s : string) :
  allBytes p s = true -> allBytes p (trimSpaces s) = true.
Proof.
  intros Hall. unfold trimSpaces. rewrite allBytes_rev.
  apply trimLeftSpace_all. rewrite allBytes_rev. now apply trimLeftSpace_all.
Qed.

(** The result of [trimSpaces] has no space at its left end ... *)
Lemma trimSpaces_left (s : string) :
  trimLeftSpace (trimSpaces s) = trimSpaces s.
Proof.
  unfold trimSpaces. pose proof (trimLeftSpace_idem s) as Hidem.
  destruct (trimLeftSpace s) as [|c y] eqn:Hy; [reflexivity|].
  assert (asciiSpace c = false) as Hc.
  { cbn [trimLeftSpace] in Hidem. destruct (asciiSpace c) eqn:Hc; [|reflexivity].
    exfalso. clear Hy.
    assert (forall z, String.length (trimLeftSpace z) <= String.length z)%nat as Hlen.
    { induction z as [|d z IHz]; [reflexivity|]. cbn [trimLeftSpace].
      destruct (asciiSpace d); cbn [String.length]; lia. }
    specialize (Hlen y). rewrite Hidem in Hlen. cbn [String.length] in Hlen. lia. }
  cbn [string_rev]. rewrite (trimLeftSpace_snoc _ _ Hc), string_rev_append.
  cbn [string_rev]. rewrite append_nil, append_cons, append_nil.
  cbn [trimLeftSpace]. now rewrite Hc.
Qed.

(** ... and none at its right end. *)
Lemma trimSpaces_right (s : string) :
  trimLeftSpace (string_rev (trimSpaces s)) = string_rev (trimSpaces s).
Proof.
  unfold trimSpaces. rewrite string_rev_involutive. apply trimLeftSpace_idem.
Qed.

Lemma trimSpaces_idem (s : string) : trimSpaces (trimSpaces s) = trimSpaces s.
Proof.
  unfold trimSpaces at 1. rewrite trimSpaces_left, trimSpaces_right.
  apply string_rev_involutive.
Qed.

Lemma trimLeftSpace_mapBytes (f : ascii -> ascii) (s : string) :
  (forall c, asciiSpace (f c) = asciiSpace c) ->
  trimLeftSpace (mapBytes f s) = mapBytes f (trimLeftSpace s).
Proof.
  intros Hf. induction s as [|c s IH]; [reflexivity|].
  cbn [mapBytes trimLeftSpace]. rewrite Hf. now destruct (asciiSpace c).
Qed.

Lemma trimSpaces_mapBytes (f : ascii -> ascii) (s : string) :
  (forall c, asciiSpace (f c) = asciiSpace c) ->
  trimSpaces (mapBytes f s) = mapBytes f (trimSpaces s).
Proof.
  intros Hf. unfold trimSpaces.
  now rewrite (trimLeftSpace_mapBytes f s Hf), <- mapBytes_rev,
    (trimLeftSpace_mapBytes f _ Hf), <- mapBytes_rev.
Qed.

(** *** [strings.TrimSpace] and [strings.ToLower] on ASCII text *)

Section OnAscii.
Context {tables : UnicodeTables}.

Lemma trimSpaceRight_ascii (rs : string) :
  allBytes isASCIIByte rs = true ->
  trimSpaceRight rs = (false, trimLeftSpace rs).
Proof.
  induction rs as [|c rs IH]; [reflexivity|]. cbn [allBytes].
  intros Hall. apply andb_true_iff in Hall as [Hc Hrs].
  cbn [trimSpaceRight trimLeftSpace]. rewrite Hc. cbn [negb].
  destruct (asciiSpace c); [now apply IH | reflexivity].
Qed.

Lemma TrimSpace_ascii (s : string) :
  allBytes isASCIIByte s = true -> TrimSpace s = trimSpaces s.
Proof.
  induction s as [|c s IH]; [reflexivity|]. cbn [allBytes].
  intros Hall. pose proof Hall as Hboth.
  apply andb_true_iff in Hall as [Hc Hs].
  cbn [TrimSpace]. rewrite Hc. cbn [negb]. unfold trimSpaces.
  cbn [trimLeftSpace]. destruct (asciiSpace c); [now apply IH|].
  unfold trimSpaceStop. rewrite trimSpaceRight_ascii; [reflexivity|].
  rewrite allBytes_rev. exact Hboth.
Qed.

Lemma ToLower_ascii (s : string) :
  allBytes isASCIIByte s = true -> ToLower s = mapBytes lowerByte s.
Proof. intros Hall. unfold ToLower. now rewrite Hall. Qed.

End OnAscii.

(** Facts about single bytes, checked on all 256 of them. *)
Ltac all_bytes c :=
  destruct c as [[] [] [] [] [] [] [] []]; vm_compute; try reflexivity;
  try discriminate; try (intros; discriminate); try (intros; reflexivity).

Lemma kept_is_ascii (c : ascii) :
  Crawler.keptByNormalize c = true -> isASCIIByte c = true.
Proof. all_bytes c. Qed.

Lemma kept_lower_is_normal (c : ascii) :
  Crawler.keptByNormalize c = true -> isNormalByte (lowerByte c) = true.
Proof. all_bytes c. Qed.

Lemma normal_is_kept (c : ascii) :
  isNormalByte c = true -> Crawler.keptByNormalize c = true.
Proof. all_bytes c. Qed.

Lemma normal_is_lower (c : ascii) :
  isNormalByte c = true -> lowerByte c = c.
Proof. all_bytes c. Qed.

Lemma lowerByte_space (c : ascii) : asciiSpace (lowerByte c) = asciiSpace c.
Proof. all_bytes c. Qed.

Lemma mapBytes_id_on (p : ascii -> bool) (f : ascii -> ascii) (s : string) :
  (forall c, p c = true -> f c = c) -> allBytes p s = true -> mapBytes f s = s.
Proof.
  intros Hf. induction s as [|c s IH]; [reflexivity|]. cbn [allBytes mapBytes].
  intros Hall. apply andb_true_iff in Hall as [Hc Hs]. now rewrite Hf, IH.
Qed.

(** ** [normalizeText] *)

(** [normalizeText] without the Unicode paths of [strings]: the pattern
    leaves ASCII bytes only. *)
Lemma normalizeText_ascii {tables : UnicodeTables} (s : string) :
  Crawler.normalizeText s
  = mapBytes lowerByte (trimSpaces (Crawler.filterBytes Crawler.keptByNormalize s)).
Proof.
  unfold Crawler.normalizeText.
  assert (allBytes isASCIIByte (Crawler.filterBytes Crawler.keptByNormalize s) = true)
    as Hascii.
  { apply (allBytes_impl _ _ _ kept_is_ascii), filterBytes_all. }
  rewrite (TrimSpace_ascii _ Hascii).
  apply ToLower_ascii. now apply trimSpaces_all.
Qed.

Lemma normalizeText_normal {tables : UnicodeTables} (s : string) :
  allBytes isNormalByte (Crawler.normalizeText s) = true.
Proof.
  rewrite normalizeText_ascii, allBytes_mapBytes.
  apply (allBytes_impl Crawler.keptByNormalize); [apply kept_lower_is_normal|].
  apply trimSpaces_all, filterBytes_all.
Qed.

(** X1: the text [normalizeText] returns holds only the bytes [a-z],
    [0-9], [_], tab, line feed, form feed, carriage return, blank and
    [. , ! ? -]; it has no space at either end; and it is the same whatever
    the Unicode tables of [strings] say, since the pattern removes every
    byte from 0x80 on before [TrimSpace] and [ToLower] run. *)
Theorem normalizeText_shape {tables : UnicodeTables} (s : string) :
  let r := Crawler.normalizeText s in
  allBytes isNormalByte r = true
  /\ trimLeftSpace r = r
  /\ trimLeftSpace (string_rev r) = string_rev r
  /\ r = Crawler.normalizeText (tables := asciiTables) s.
Proof.
  cbv zeta. split; [apply normalizeText_normal|].
  rewrite !normalizeText_ascii.
  rewrite <- (trimSpaces_mapBytes lowerByte _ lowerByte_space).
  split; [apply trimSpaces_left|]. split; [apply trimSpaces_right | reflexivity].
Qed.

Lemma normalizeText_twice {tables : UnicodeTables} (s : string) :
  Crawler.normalizeText (Crawler.normalizeText s) = Crawler.normalizeText s.
Proof.
  pose proof (normalizeText_normal s) as Hnormal.
  rewrite (normalizeText_ascii (Crawler.normalizeText s)).
  rewrite filterBytes_id
    by (apply (allBytes_impl isNormalByte); [apply normal_is_kept | exact Hnormal]).
  assert (trimSpaces (Crawler.normalizeText s) = Crawler.normalizeText s) as ->.
  { rewrite normalizeText_ascii.
    rewrite <- (trimSpaces_mapBytes lowerByte _ lowerByte_space).
    apply trimSpaces_idem. }
  apply (mapBytes_id_on isNormalByte); [apply normal_is_lower | exact Hnormal].
Qed.

(** X2: [normalizeText] is idempotent: normalizing a normalized text
    changes nothing, under whatever Unicode tables. *)
Theorem normalizeText_idempotent {tables : UnicodeTables} (s : string) :
  Crawler.normalizeText (Crawler.normalizeText s) = Crawler.normalizeText s
  /\ Crawler.normalizeText (tables := asciiTables) (Crawler.normalizeText s)
     = Crawler.normalizeText s.
Proof.
  split; [apply normalizeText_twice|].
  rewrite (normalizeText_ascii (tables := tables) s).
  rewrite <- (normalizeText_ascii (tables := asciiTables) s).
  apply normalizeText_twice.
Qed.

(** ** [isWebpageMIME] *)

Lemma hd_splitByte (b : ascii) (s : string) :
  hd EmptyString (splitByte b s) = cutBefore b s.
Proof.
  induction s as [|c s IH]; [reflexivity|]. cbn [splitByte cutBefore].
  destruct (Ascii.eqb c b); [reflexivity|].
  destruct (splitByte b s) as [|seg rest]; cbn [hd] in *; now rewrite <- IH.
Qed.

(** What [cutBefore] cut off starts with the separator. *)
Lemma cutBefore_rest (b : ascii) (s : string) :
  s = cutBefore b s \/ exists r, s = cutBefore b s +:+ String b r.
Proof.
  induction s as [|c s IH]; [now left|]. cbn [cutBefore].
  destruct (Ascii.eqb_spec c b) as [->|Hne].
  - right. now exists s.
  - destruct IH as [IH | [r IH]].
    + left. now f_equal.
    + right. exists r. rewrite append_cons. now f_equal.
Qed.

Lemma cutBefore_without (b : ascii) (m : string) :
  allBytes (fun c => negb (Ascii.eqb c b)) m = true -> cutBefore b m = m.
Proof.
  induction m as [|c m IH]; [reflexivity|]. cbn [allBytes cutBefore].
  intros Hall. apply andb_true_iff in Hall as [Hc Hm].
  apply negb_true_iff in Hc. now rewrite Hc, IH.
Qed.

Lemma cutBefore_append (b : ascii) (m r : string) :
  allBytes (fun c => negb (Ascii.eqb c b)) m = true ->
  cutBefore b (m +:+ String b r) = m.
Proof.
  induction m as [|c m IH]; unfold_append.
  - intros _. cbn [cutBefore]. now rewrite Ascii.eqb_refl.
  - cbn [allBytes cutBefore]. intros Hall. apply andb_true_iff in Hall as [Hc Hm].
    apply negb_true_iff in Hc. now rewrite Hc, IH.
Qed.

Lemma cutBefore_all (b : ascii) (s : string) :
  allBytes (fun c => negb (Ascii.eqb c b)) (cutBefore b s) = true.
Proof.
  induction s as [|c s IH]; [reflexivity|]. cbn [cutBefore].
  destruct (Ascii.eqb c b) eqn:Hc; [reflexivity|]. cbn [allBytes]. now rewrite Hc, IH.
Qed.

Lemma webpageMIMEs_without_semicolon (mime : string) :
  mime ∈ Crawler.webpageMIMEs ->
  allBytes (fun c => negb (Ascii.eqb c ";")) mime = true.
Proof.
  unfold Crawler.webpageMIMEs. intros Hin.
  repeat (apply elem_of_cons in Hin as [-> | Hin]; [reflexivity|]).
  now apply elem_of_nil in Hin.
Qed.

(** X3: [isWebpageMIME] accepts a content type exactly when, lowered, it is
    one of [text/html], [application/xhtml+xml], [application/xhtml],
    [text/xml], [application/xml], or one of these followed by a semicolon
    and anything.  Nothing is trimmed: a blank before the semicolon makes
    the type unknown. *)
Theorem isWebpageMIME_true_iff {tables : UnicodeTables} (contentType : string) :
  (Crawler.isWebpageMIME contentType = true
   <-> exists mime, mime ∈ Crawler.webpageMIMEs
                    /\ (ToLower contentType = mime
                        \/ exists params,
                             ToLower contentType = mime +:+ ";" +:+ params))
  /\ Crawler.isWebpageMIME (tables := asciiTables) "Text/HTML; charset=utf-8" = true
  /\ Crawler.isWebpageMIME (tables := asciiTables) "text/html ; charset=utf-8" = false
  /\ Crawler.isWebpageMIME (tables := asciiTables) "" = false.
Proof.
  split; [|repeat split; reflexivity].
  unfold Crawler.isWebpageMIME. rewrite hd_splitByte, existsb_exists. split.
  - intros [mime [Hin Heq]]. apply String.eqb_eq in Heq. exists mime.
    split; [now apply list_elem_of_In|]. rewrite Heq.
    destruct (cutBefore_rest ";" (ToLower contentType)) as [Hall | [r Hr]].
    + now left.
    + right. now exists r.
  - intros [mime [Hin Hshape]]. exists mime. split; [now apply list_elem_of_In|].
    apply String.eqb_eq. pose proof (webpageMIMEs_without_semicolon mime Hin) as Hm.
    destruct Hshape as [-> | [params ->]].
    + symmetry. now apply cutBefore_without.
    + symmetry. now apply cutBefore_append.
Qed.

(** ** [getPathType] *)

Lemma trimLeftByte_repeat (b : ascii) (s : string) :
  exists n, s = repeatByte b n +:+ trimLeftByte b s.
Proof.
  induction s as [|c s IH]; [now exists O|]. cbn [trimLeftByte].
  destruct (Ascii.eqb_spec c b) as [->|Hne]; [|now exists O].
  destruct IH as [n IH]. exists (S n). cbn [repeatByte]. unfold_append.
  now rewrite <- IH.
Qed.

Lemma string_rev_repeatByte (b : ascii) (n : nat) :
  string_rev (repeatByte b n) = repeatByte b n.
Proof.
  induction n as [|n IH]; [reflexivity|]. cbn [repeatByte string_rev]. rewrite IH.
  clear IH. induction n as [|n IH]; [reflexivity|].
  cbn [repeatByte]. unfold_append. now rewrite IH.
Qed.

(** [strings.Trim] takes bytes [b] off the right end. *)
Lemma trimByte_repeat (b : ascii) (s : string) :
  exists n, trimLeftByte b s = trimByte b s +:+ repeatByte b n.
Proof.
  unfold trimByte.
  destruct (trimLeftByte_repeat b (string_rev (trimLeftByte b s))) as [n Hn].
  exists n. apply (f_equal string_rev) in Hn.
  rewrite string_rev_involutive, string_rev_append, string_rev_repeatByte in Hn.
  exact Hn.
Qed.

Lemma cutBefore_sep (b : ascii) (x z : string) :
  cutBefore b (x +:+ String b z) = cutBefore b x.
Proof.
  induction x as [|c x IH]; unfold_append.
  - cbn [cutBefore]. now rewrite Ascii.eqb_refl.
  - cbn [cutBefore]. destruct (Ascii.eqb c b); [reflexivity | now rewrite IH].
Qed.

(** The first segment of the trimmed path is the first segment of the path
    without its leading slashes. *)
Lemma first_segment (b : ascii) (path : string) :
  cutBefore b (trimByte b path) = cutBefore b (trimLeftByte b path).
Proof.
  destruct (trimByte_repeat b path) as [[|n] Hn]; rewrite Hn.
  - cbn [repeatByte]. now rewrite string_append_empty_r.
  - cbn [repeatByte]. now rewrite cutBefore_sep.
Qed.

Lemma Contains_byte_false (b : ascii) (s : string) :
  allBytes (fun c => negb (Ascii.eqb c b)) s = true ->
  Contains s (String b EmptyString) = false.
Proof.
  induction s as [|c s IH]; [reflexivity|]. cbn [allBytes].
  intros Hall. apply andb_true_iff in Hall as [Hc Hs].
  cbn [Contains]. rewrite (IH Hs), orb_false_r.
  unfold HasPrefix. cbn [String.length string_take]. apply negb_true_iff in Hc.
  apply andb_false_iff. right. apply String.eqb_neq. intros [= Heq].
  apply Ascii.eqb_neq in Hc. congruence.
Qed.

(** X4: on a URL that [url.Parse] accepts, [getPathType] returns a slash
    followed by the first segment of the path, that is the path without its
    leading slashes up to the next slash: the path-family holds no second
    slash, it is [/] for a path of slashes only, and the query and the
    fragment have no part in it. *)
Theorem getPathType_first_segment {net : NetURL.Library} (rawURL : string)
    (u : NetURL.URL) :
  NetURL.Parse rawURL = Some u ->
  let seg := cutBefore "/" (trimLeftByte "/" (NetURL.Path u)) in
  Crawler.getPathType rawURL = Go.Returns ("/" +:+ seg)
  /\ Contains seg "/" = false.
Proof.
  intros Hparse. cbv zeta. split.
  - unfold Crawler.getPathType. rewrite Hparse.
    change (NetURL.Path (NetURL.withRawQuery "" u)) with (NetURL.Path u).
    rewrite <- first_segment, <- hd_splitByte.
    destruct (splitByte "/" (trimByte "/" (NetURL.Path u))) as [|seg0 rest];
      [reflexivity|].
    cbn [hd]. destruct (String.eqb_spec seg0 "") as [->|Hne]; reflexivity.
  - apply Contains_byte_false, cutBefore_all.
Qed.

(** The URL [http://example.com//blog/post-1/?page=2#top] is of the
    family [/blog]. *)
Lemma getPathType_first_segment_witness :
  Crawler.getPathType (net := Samples.plainLibrary)
    "http://example.com//blog/post-1/?page=2#top"
  = Go.Returns "/blog"
  /\ Contains "blog" "/" = false.
Proof.
  apply (getPathType_first_segment (net := Samples.plainLibrary)
           "http://example.com//blog/post-1/?page=2#top"
           (NetURL.mkURL "http" "example.com" "//blog/post-1/" "page=2" "top")).
  reflexivity.
Defined.

(** ** What the extractor never returns *)

Lemma lastAttrVal_app (key : string) (attrs more : list Attribute) (v : string) :
  fold_left (fun v a => if String.eqb (Key a) key then Val a else v)
            (attrs ++ more) v
  = fold_left (fun v a => if String.eqb (Key a) key then Val a else v) more
      (fold_left (fun v a => if String.eqb (Key a) key then Val a else v) attrs v).
Proof. apply fold_left_app. Qed.

Lemma extracted_not_empty
    {tables : UnicodeTables} {net : NetURL.Library} {html : HTML.Library}
    (body baseURL domain : string) :
  let ex := Crawler.extractTextLinksAndMetadata body baseURL domain in
  (forall l, l ∈ Crawler.exLinks ex ->
             ToURL l <> EmptyString /\ AnchorText l <> EmptyString)
  /\ Crawler.exTitle ex <> EmptyString
  /\ Crawler.exDesc ex <> EmptyString.
Proof.
  cbv zeta. unfold Crawler.extractTextLinksAndMetadata.
  assert (forall s, Crawler.orX s <> "") as HorX.
  { intros s. unfold Crawler.orX.
    destruct (String.eqb_spec s "") as [->|Hne]; [discriminate | exact Hne]. }
  destruct (HTML.Parse body) as [doc|]; cbn [Crawler.exLinks Crawler.exTitle
                                              Crawler.exDesc].
  2:{ split; [intros l Hl; now apply elem_of_nil in Hl | split; discriminate]. }
  split; [|split; apply HorX].
  intros l Hl. rewrite walk_preorder in Hl.
  destruct (visitAll_links baseURL (preorder doc) Crawler.initialWalkState
                           (seenAgrees_initial)) as [_ Hlinks].
  rewrite Hlinks in Hl. cbn [Crawler.links Crawler.initialWalkState] in Hl.
  destruct (fold_addLink_sublist
              (map (DocumentOrder.linkOf baseURL)
                   (List.filter DocumentOrder.isAnchorWithHref (preorder doc))) [])
    as [more [Hmore Hsub]].
  rewrite Hmore in Hl. cbn [app] in Hl.
  apply (fun H => elem_of_sublist _ _ _ H Hsub) in Hl.
  apply list_elem_of_fmap in Hl as [a [-> Ha]].
  apply list_elem_of_In, filter_In in Ha as [_ Ha].
  unfold DocumentOrder.isAnchorWithHref in Ha.
  apply andb_true_iff in Ha as [_ Hhref]. apply negb_true_iff in Hhref.
  apply String.eqb_neq in Hhref.
  unfold DocumentOrder.linkOf. cbn [ToURL AnchorText]. split; [exact Hhref|].
  unfold Crawler.anchorTextOf.
  destruct (String.eqb_spec (TrimSpace (Crawler.extractText baseURL a)) "")
    as [_|Hne]; [discriminate | exact Hne].
Qed.

(** X5: the extractor returns no link with an empty target or an empty
    anchor text, and neither an empty title nor an empty description: a
    body that does not parse has no links and the title and description
    [x]. *)
Theorem extracted_fields_are_not_empty
    {tables : UnicodeTables} {net : NetURL.Library} {html : HTML.Library}
    (body baseURL domain : string) :
  let ex := Crawler.extractTextLinksAndMetadata body baseURL domain in
  (forall l, l ∈ Crawler.exLinks ex ->
             ToURL l <> EmptyString /\ AnchorText l <> EmptyString)
  /\ Crawler.exTitle ex <> EmptyString
  /\ Crawler.exDesc ex <> EmptyString
  /\ (HTML.Parse body = None ->
      Crawler.exLinks ex = [] /\ Crawler.exTitle ex = "x" /\ Crawler.exDesc ex = "x").
Proof.
  cbv zeta.
  destruct (extracted_not_empty body baseURL domain) as [Hlinks [Htitle Hdesc]].
  split; [exact Hlinks|]. split; [exact Htitle|]. split; [exact Hdesc|].
  intros Hparse. unfold Crawler.extractTextLinksAndMetadata. rewrite Hparse.
  now repeat split.
Qed.

(** ** One worker as a run of steps *)

Import Engine Runs Scheduler.

Section WorkerSteps.
Context {tables : UnicodeTables} {net : NetURL.Library} {html : HTML.Library}
        {robots : RobotsLibrary} {env : Environment}.
Variables (pageURL : string) (depth : Z).

Abbreviation steps := (rtc (workerStep pageURL depth)).

Lemma steps_emit (e : Event) (w w' : World) :
  ownEvent pageURL e = true -> steps (emit e w) w' -> steps w w'.
Proof.
  intros He Hs. apply rtc_l with (emit e w); [apply step_emit, He | exact Hs].
Qed.

Lemma followLink_step (w : World) (link : Link) :
  followLink pageURL depth w link = w
  \/ workerStep pageURL depth w (followLink pageURL depth w link).
Proof.
  unfold followLink.
  destruct (Crawler.isWebpageURL (Crawler.resolveURL pageURL (ToURL link)))
    eqn:Hweb; cbn [negb]; [|now left].
  destruct (NetURL.Parse (Crawler.resolveURL pageURL (ToURL link)))
    as [parsed|] eqn:Hparse; [|now left].
  destruct (String.eqb_spec (NetURL.Hostname parsed) "") as [Hhost|Hhost];
    [now left|].
  destruct (NetURL.EffectiveTLDPlusOne (NetURL.Hostname parsed))
    as [linkedDomain|] eqn:Hetld; [|now left].
  destruct (String.eqb_spec linkedDomain (domain (crawler w))) as [->|Hne];
    cbn [negb]; [|now left].
  assert (followable (domain (crawler w))
                     (Crawler.resolveURL pageURL (ToURL link))) as Hfollow.
  { split; [exact Hweb|]. now exists parsed. }
  right. destruct (Nat.ltb_spec (sem (crawler w)) semCapacity) as [Hlt|Hge].
  - now apply step_go.
  - now apply step_queue.
Qed.

Lemma links_run (ls : list Link) (w : World) :
  steps w (fold_left (followLink pageURL depth) ls w).
Proof.
  revert w. induction ls as [|l ls IH]; intros w; [apply rtc_refl|].
  cbn [fold_left]. destruct (followLink_step w l) as [Heq | Hstep].
  - rewrite Heq. apply IH.
  - eapply rtc_l; [exact Hstep | apply IH].
Qed.

Lemma onStatusOK_run (r : Response) (w : World) :
  pageURL ∈ visited (crawler w) ->
  steps w (snd (onStatusOK pageURL depth r w)).
Proof.
  intros Hvisited. unfold onStatusOK.
  destruct (Body r) as [body|] eqn:Hbody; [|apply rtc_refl].
  destruct (Contains body "cf-browser-verification"
            || Contains body "Access denied"); [apply rtc_refl|].
  destruct (negb (Crawler.isWebpageMIME (ContentType r))); [apply rtc_refl|].
  destruct (parserPanics body); [apply rtc_refl|].
  destruct (Crawler.getPathType pageURL) as [pathType|] eqn:Hfamily;
    [|apply rtc_refl].
  pose proof (step_admit pageURL depth r body pathType w Hbody Hfamily Hvisited)
    as Hadmit.
  cbv zeta in Hadmit. unfold pageOfResponse in Hadmit. cbn [Text] in Hadmit.
  match goal with
  | |- context [admission ?t ?f ?n ?p ?c] =>
      destruct (admission t f n p c) as [goOn c'] eqn:Ea
  end.
  cbn [snd] in Hadmit. destruct (negb goOn); cbn [snd].
  - now apply rtc_once.
  - eapply rtc_l; [exact Hadmit | apply links_run].
Qed.

Lemma fetchLoop_run (left : nat) (w : World) :
  pageURL ∈ visited (crawler w) ->
  steps w (snd (fetchLoop left pageURL depth w)).
Proof.
  revert w. induction left as [|left IH]; intros w Hvisited; [apply rtc_refl|].
  cbn [fetchLoop]. apply (steps_emit (ClientDo pageURL));
    [apply String.eqb_refl|].
  match goal with
  | |- context [match ?x with Some r => onStatusOK _ _ r _ | None => _ end] =>
      destruct x as [r|]
  end; [now apply onStatusOK_run|].
  match goal with
  | |- context [emit (Sleep ?n) _] => apply (steps_emit (Sleep n)); [reflexivity|]
  end.
  destruct (3 - Z.of_nat (S left) =? 2); [apply rtc_refl | now apply IH].
Qed.

(** The body of [crawlPage] is a run of steps of the worker. *)
Lemma crawlPageBody_run (w : World) :
  steps w (snd (crawlPageBody pageURL depth w)).
Proof.
  unfold crawlPageBody.
  match goal with
  | |- context [emit (Sleep ?n) w] =>
      apply (steps_emit (Sleep n)); [reflexivity|]; generalize (emit (Sleep n) w)
  end.
  clear w. intros w.
  destruct (ctxDone (trace w)); [apply rtc_refl|].
  rewrite (surjective_pairing (isAllowedByRobots pageURL w)).
  rewrite isAllowedByRobots_fetches.
  apply (steps_emit (ClientGet (robotsURLOf (crawler w)))); [reflexivity|].
  destruct (negb (fst (isAllowedByRobots pageURL w))); [apply rtc_refl|].
  cbn [emit crawler].
  destruct (bool_decide_reflect (pageURL ∈ visited (crawler w))) as [Hin|Hnot];
    [apply rtc_refl|].
  eapply rtc_l; [now apply step_visit|].
  apply (steps_emit LimiterWait); [reflexivity|].
  destruct (limiterWaitFails _); [apply rtc_refl|].
  destruct (NetURL.Parse pageURL); [|apply rtc_refl].
  apply fetchLoop_run. cbn. apply elem_of_union. left. now apply elem_of_singleton.
Qed.

(** What every step keeps, every run keeps. *)
Lemma run_keeps (P : World -> Prop) (w w' : World) :
  (forall w1 w2, workerStep pageURL depth w1 w2 -> P w1 -> P w2) ->
  steps w w' -> P w -> P w'.
Proof.
  intros Hstep Hrun. induction Hrun as [|w1 w2 w3 H12 _ IH]; [auto|].
  intros Hw. apply IH. now apply (Hstep w1).
Qed.

End WorkerSteps.

(** ** What a worker starts and what it queues *)

Section Worker.
Context {tables : UnicodeTables} {net : NetURL.Library} {html : HTML.Library}
        {robots : RobotsLibrary} {env : Environment}.

Lemma crawlPage_snd (pageURL : string) (depth : Z) (w : World) :
  snd (crawlPage pageURL depth w)
  = crawlPageDeferred (snd (crawlPageBody pageURL depth w)).
Proof. unfold crawlPage. now destruct (crawlPageBody pageURL depth w). Qed.

(** How the body of [crawlPage] ends: after the first sleep, after the
    fetch of robots.txt, after the wait on the limiter, or with the loop of
    the requests. *)
Lemma crawlPageBody_cases (pageURL : string) (depth : Z) (w : World) :
  let w0 := emit (Sleep ((50 + randIntn (trace w) 200) * Rate.Millisecond)) w in
  let w1 := emit (ClientGet (robotsURLOf (crawler w))) w0 in
  let w2 :=
    emit LimiterWait
         (onCrawler (fun c => withVisited ({[pageURL]} ∪ visited c) c) w1) in
  snd (crawlPageBody pageURL depth w) = w0
  \/ snd (crawlPageBody pageURL depth w) = w1
  \/ ((pageURL ∉ visited (crawler w))
      /\ (snd (crawlPageBody pageURL depth w) = w2
          \/ snd (crawlPageBody pageURL depth w)
             = snd (fetchLoop 3 pageURL depth w2))).
Proof.
  cbv zeta. unfold crawlPageBody.
  set (w0 := emit (Sleep ((50 + randIntn (trace w) 200) * Rate.Millisecond)) w).
  destruct (ctxDone (trace w0)); [now left|].
  rewrite (surjective_pairing (isAllowedByRobots pageURL w0)).
  rewrite isAllowedByRobots_fetches. change (crawler w0) with (crawler w).
  set (w1 := emit (ClientGet (robotsURLOf (crawler w))) w0).
  destruct (negb (fst (isAllowedByRobots pageURL w0)));
    [right; left; reflexivity|].
  change (visited (crawler w1)) with (visited (crawler w)).
  destruct (bool_decide_reflect (pageURL ∈ visited (crawler w))) as [Hin|Hnot];
    [right; left; reflexivity|].
  right. right. split; [exact Hnot|].
  destruct (limiterWaitFails _); [now left|].
  destruct (NetURL.Parse pageURL); [now right | now left].
Qed.

(** *** The children of a worker *)

Lemma childrenOf_quiet (pageURL : string) (depth : Z) (links : list Link)
    (w w' : World) (evs : list Event) :
  domain (crawler w') = domain (crawler w) ->
  linkQueue (crawler w') = linkQueue (crawler w) ->
  trace w' = trace w ++ evs ->
  Forall (fun e => isGo e = false) evs ->
  childrenOf pageURL depth links w w'.
Proof.
  intros Hdom Hq Ht Hevs. split; [exact Hdom|]. exists evs, [].
  split; [exact Ht|]. split; [now rewrite app_nil_r|]. split.
  - intros u d Hin. apply (proj1 (Forall_forall _ evs) Hevs) in Hin. discriminate.
  - intros e Hin. now apply elem_of_nil in Hin.
Qed.

Lemma childrenOf_refl (pageURL : string) (depth : Z) (links : list Link)
    (w : World) :
  childrenOf pageURL depth links w w.
Proof.
  apply (childrenOf_quiet pageURL depth links w w []);
    [reflexivity | reflexivity | now rewrite app_nil_r | constructor].
Qed.

Lemma childrenOf_trans (pageURL : string) (depth : Z) (links : list Link)
    (w1 w2 w3 : World) :
  childrenOf pageURL depth links w1 w2 ->
  childrenOf pageURL depth links w2 w3 ->
  childrenOf pageURL depth links w1 w3.
Proof.
  intros [Hd12 [evs [es [Ht [Hq [Hevs Hes]]]]]]
         [Hd23 [evs' [es' [Ht' [Hq' [Hevs' Hes']]]]]].
  split; [congruence|]. exists (evs ++ evs'), (es ++ es').
  split; [now rewrite Ht', Ht, app_assoc|].
  split; [now rewrite Hq', Hq, app_assoc|]. split.
  - intros u d Hin. apply elem_of_app in Hin as [Hin|Hin]; [now apply Hevs|].
    rewrite <- Hd12. now apply Hevs'.
  - intros e Hin. apply elem_of_app in Hin as [Hin|Hin]; [now apply Hes|].
    rewrite <- Hd12. now apply Hes'.
Qed.

Lemma childrenOf_more (pageURL : string) (depth : Z) (links links' : list Link)
    (w w' : World) :
  (forall l, l ∈ links -> l ∈ links') ->
  childrenOf pageURL depth links w w' ->
  childrenOf pageURL depth links' w w'.
Proof.
  intros Hsub [Hdom [evs [es [Ht [Hq [Hevs Hes]]]]]].
  split; [exact Hdom|]. exists evs, es.
  split; [exact Ht|]. split; [exact Hq|]. split.
  - intros u d Hin. destruct (Hevs u d Hin) as [Hd [Hf [l [Hl Hu]]]].
    split; [exact Hd|]. split; [exact Hf|]. exists l. split; [now apply Hsub | exact Hu].
  - intros e Hin. destruct (Hes e Hin) as [Hd [Hf [l [Hl Hu]]]].
    split; [exact Hd|]. split; [exact Hf|]. exists l. split; [now apply Hsub | exact Hu].
Qed.

Lemma followLink_child (pageURL : string) (depth : Z) (w : World) (link : Link) :
  childrenOf pageURL depth [link] w (followLink pageURL depth w link).
Proof.
  unfold followLink.
  destruct (Crawler.isWebpageURL (Crawler.resolveURL pageURL (ToURL link)))
    eqn:Hweb; cbn [negb]; [|apply childrenOf_refl].
  destruct (NetURL.Parse (Crawler.resolveURL pageURL (ToURL link)))
    as [parsed|] eqn:Hparse; [|apply childrenOf_refl].
  destruct (String.eqb_spec (NetURL.Hostname parsed) "") as [Hhost|Hhost];
    [apply childrenOf_refl|].
  destruct (NetURL.EffectiveTLDPlusOne (NetURL.Hostname parsed))
    as [linkedDomain|] eqn:Hetld; [|apply childrenOf_refl].
  destruct (String.eqb_spec linkedDomain (domain (crawler w))) as [->|Hne];
    cbn [negb]; [|apply childrenOf_refl].
  assert (followable (domain (crawler w))
                     (Crawler.resolveURL pageURL (ToURL link))) as Hfollow.
  { split; [exact Hweb|]. now exists parsed. }
  assert (exists l, l ∈ [link]
                    /\ Crawler.resolveURL pageURL (ToURL link)
                       = Crawler.resolveURL pageURL (ToURL l)) as Hlink.
  { exists link. split; [now apply list_elem_of_singleton | reflexivity]. }
  destruct (sem (crawler w) <? semCapacity)%nat.
  - split; [reflexivity|].
    exists [GoCrawlPage (Crawler.resolveURL pageURL (ToURL link)) (depth + 1)], [].
    split; [reflexivity|]. split; [cbn; now rewrite app_nil_r|]. split.
    + intros u d Hin. apply list_elem_of_singleton in Hin. injection Hin as -> ->.
      now split.
    + intros e Hin. now apply elem_of_nil in Hin.
  - split; [reflexivity|].
    exists [Signal],
      [mkEntry (Crawler.resolveURL pageURL (ToURL link)) (depth + 1)].
    split; [reflexivity|]. split; [reflexivity|]. split.
    + intros u d Hin. apply list_elem_of_singleton in Hin. discriminate.
    + intros e Hin. apply list_elem_of_singleton in Hin. subst e. now split.
Qed.

Lemma followLinks_children (pageURL : string) (depth : Z) (links : list Link)
    (w : World) :
  childrenOf pageURL depth links w (fold_left (followLink pageURL depth) links w).
Proof.
  revert w. induction links as [|l links IH]; intros w; [apply childrenOf_refl|].
  cbn [fold_left].
  apply childrenOf_trans with (followLink pageURL depth w l).
  - apply (childrenOf_more pageURL depth [l]); [|apply followLink_child].
    intros x Hx. apply list_elem_of_singleton in Hx. subst x.
    apply elem_of_cons. now left.
  - apply (childrenOf_more pageURL depth links); [|apply IH].
    intros x Hx. apply elem_of_cons. now right.
Qed.

Lemma onStatusOK_children (pageURL : string) (depth : Z) (r : Response)
    (w : World) :
  exists links,
    (links = []
     \/ exists body,
         Body r = Some body
         /\ links = Crawler.exLinks
                      (Crawler.extractTextLinksAndMetadata
                         body pageURL (domain (crawler w))))
    /\ childrenOf pageURL depth links w (snd (onStatusOK pageURL depth r w)).
Proof.
  assert (exists links : list Link,
             (links = []
              \/ exists body,
                  Body r = Some body
                  /\ links = Crawler.exLinks
                               (Crawler.extractTextLinksAndMetadata
                                  body pageURL (domain (crawler w))))
             /\ childrenOf pageURL depth links w w) as Hstay.
  { exists []. split; [now left | apply childrenOf_refl]. }
  unfold onStatusOK.
  destruct (Body r) as [body|] eqn:Hbody; [|exact Hstay].
  destruct (Contains body "cf-browser-verification"
            || Contains body "Access denied"); [exact Hstay|].
  destruct (negb (Crawler.isWebpageMIME (ContentType r))); [exact Hstay|].
  destruct (parserPanics body); [exact Hstay|].
  destruct (Crawler.getPathType pageURL) as [pathType|]; [|exact Hstay].
  exists (Crawler.exLinks
            (Crawler.extractTextLinksAndMetadata body pageURL (domain (crawler w)))).
  split; [right; now exists body|].
  match goal with
  | |- context [admission ?t ?f ?n ?p ?c] =>
      assert (domain (snd (admission t f n p c)) = domain c
              /\ linkQueue (snd (admission t f n p c)) = linkQueue c)
        as [Hdom Hq]
        by (unfold admission; repeat case_match; now split);
      destruct (admission t f n p c) as [goOn c']
  end.
  cbn [snd] in Hdom, Hq.
  assert (childrenOf pageURL depth
            (Crawler.exLinks
               (Crawler.extractTextLinksAndMetadata body pageURL
                                                    (domain (crawler w))))
            w (mkWorld c' (trace w))) as Hadmitted.
  { apply (childrenOf_quiet _ _ _ w (mkWorld c' (trace w)) []);
      [exact Hdom | exact Hq | cbn; now rewrite app_nil_r | constructor]. }
  destruct (negb goOn); cbn [snd]; [exact Hadmitted|].
  eapply childrenOf_trans; [exact Hadmitted | apply followLinks_children].
Qed.

Lemma childrenOf_after (pageURL : string) (depth : Z) (w w1 : World)
    (evs : list Event) :
  domain (crawler w1) = domain (crawler w) ->
  linkQueue (crawler w1) = linkQueue (crawler w) ->
  trace w1 = trace w ++ evs ->
  Forall (fun e => isGo e = false) evs ->
  forall w',
    (exists links,
        (links = []
         \/ exists evs0 r body,
             respond evs0 pageURL = Some r /\ StatusCode r = 200
             /\ Body r = Some body
             /\ links = Crawler.exLinks
                          (Crawler.extractTextLinksAndMetadata
                             body pageURL (domain (crawler w1))))
        /\ childrenOf pageURL depth links w1 w') ->
    exists links,
      (links = []
       \/ exists evs0 r body,
           respond evs0 pageURL = Some r /\ StatusCode r = 200
           /\ Body r = Some body
           /\ links = Crawler.exLinks
                        (Crawler.extractTextLinksAndMetadata
                           body pageURL (domain (crawler w))))
      /\ childrenOf pageURL depth links w w'.
Proof.
  intros Hdom Hq Ht Hevs w' [links [Hlinks Hchildren]].
  exists links. rewrite <- Hdom. split; [exact Hlinks|].
  eapply childrenOf_trans; [|exact Hchildren].
  now apply (childrenOf_quiet _ _ _ w w1 evs).
Qed.

Lemma fetchLoop_children (left : nat) (pageURL : string) (depth : Z) (w : World) :
  exists links,
    (links = []
     \/ exists evs0 r body,
         respond evs0 pageURL = Some r /\ StatusCode r = 200
         /\ Body r = Some body
         /\ links = Crawler.exLinks
                      (Crawler.extractTextLinksAndMetadata
                         body pageURL (domain (crawler w))))
    /\ childrenOf pageURL depth links w (snd (fetchLoop left pageURL depth w)).
Proof.
  revert w. induction left as [|left IH]; intros w.
  { exists []. split; [now left | apply childrenOf_refl]. }
  cbn [fetchLoop].
  apply (childrenOf_after pageURL depth w (emit (ClientDo pageURL) w)
                          [ClientDo pageURL]);
    [reflexivity | reflexivity | reflexivity | now repeat constructor |].
  destruct (respond (trace w) pageURL) as [r|] eqn:Hr.
  - destruct (Z.eqb_spec (StatusCode r) 200) as [Hok|_].
    + destruct (onStatusOK_children pageURL depth r (emit (ClientDo pageURL) w))
        as [links [Hlinks Hchildren]].
      exists links. split; [|exact Hchildren].
      destruct Hlinks as [->|[body [Hbody ->]]]; [now left|].
      right. now exists (trace w), r, body.
    + match goal with
      | |- context [emit (Sleep ?n) ?w0] =>
          apply (childrenOf_after pageURL depth w0 (emit (Sleep n) w0) [Sleep n]);
            [reflexivity | reflexivity | reflexivity | now repeat constructor |]
      end.
      destruct (3 - Z.of_nat (S left) =? 2); [|apply IH].
      exists []. split; [now left | apply childrenOf_refl].
  - match goal with
    | |- context [emit (Sleep ?n) ?w0] =>
        apply (childrenOf_after pageURL depth w0 (emit (Sleep n) w0) [Sleep n]);
          [reflexivity | reflexivity | reflexivity | now repeat constructor |]
    end.
    destruct (3 - Z.of_nat (S left) =? 2); [|apply IH].
    exists []. split; [now left | apply childrenOf_refl].
Qed.

(** X6: whatever a worker for a page at depth [depth] starts or puts into
    the queue is a child at depth [depth + 1] whose URL is a link of the
    page, one the extractor found in the body of an answer with the status
    200 to a request for the page, resolved against the page URL; it is a
    webpage URL for [isWebpageURL], it parses with a host that is not empty,
    and it has the domain of the crawl as its eTLD+1: a worker never leaves
    the domain, and it takes nothing out of the queue. *)
Theorem children_stay_on_domain (pageURL : string) (depth : Z) (w : World) :
  let w' := snd (crawlPage pageURL depth w) in
  domain (crawler w') = domain (crawler w)
  /\ exists links evs es,
       (links = []
        \/ exists evs0 r body,
            respond evs0 pageURL = Some r /\ StatusCode r = 200
            /\ Body r = Some body
            /\ links = Crawler.exLinks
                         (Crawler.extractTextLinksAndMetadata
                            body pageURL (domain (crawler w))))
       /\ trace w' = trace w ++ evs
       /\ linkQueue (crawler w') = linkQueue (crawler w) ++ es
       /\ (forall u d,
              GoCrawlPage u d ∈ evs ->
              d = depth + 1
              /\ followable (domain (crawler w)) u
              /\ exists l,
                  l ∈ links /\ u = Crawler.resolveURL pageURL (ToURL l))
       /\ (forall e,
              e ∈ es ->
              entryDepth e = depth + 1
              /\ followable (domain (crawler w)) (entryURL e)
              /\ exists l,
                  l ∈ links
                  /\ entryURL e = Crawler.resolveURL pageURL (ToURL l)).
Proof.
  cbv zeta.
  assert (exists links,
             (links = []
              \/ exists evs0 r body,
                  respond evs0 pageURL = Some r /\ StatusCode r = 200
                  /\ Body r = Some body
                  /\ links = Crawler.exLinks
                               (Crawler.extractTextLinksAndMetadata
                                  body pageURL (domain (crawler w))))
             /\ childrenOf pageURL depth links w
                           (snd (crawlPageBody pageURL depth w))) as Hbody.
  { pose proof (crawlPageBody_cases pageURL depth w) as Hcases.
    cbv zeta in Hcases.
    destruct Hcases as [-> | [-> | [_ [-> | ->]]]].
    - exists []. split; [now left|].
      eapply childrenOf_quiet;
        [reflexivity | reflexivity | reflexivity | now repeat constructor].
    - exists []. split; [now left|].
      eapply (childrenOf_quiet _ _ _ _ _ [_; _]);
        [reflexivity | reflexivity | cbn; now rewrite <- app_assoc
         | now repeat constructor].
    - exists []. split; [now left|].
      eapply (childrenOf_quiet _ _ _ _ _ [_; _; _]);
        [reflexivity | reflexivity | cbn; now rewrite <- !app_assoc
         | now repeat constructor].
    - match goal with
      | |- context [fetchLoop 3 pageURL depth ?w2] =>
          apply (childrenOf_after pageURL depth w w2
                   [Sleep ((50 + randIntn (trace w) 200) * Rate.Millisecond);
                    ClientGet (robotsURLOf (crawler w)); LimiterWait]);
            [reflexivity | reflexivity | cbn; now rewrite <- !app_assoc
             | now repeat constructor |]
      end.
      apply fetchLoop_children. }
  destruct Hbody as [links [Hlinks Hchildren]].
  assert (childrenOf pageURL depth links w (snd (crawlPage pageURL depth w)))
    as [Hdom [evs [es [Ht [Hq [Hevs Hes]]]]]].
  { rewrite crawlPage_snd. eapply childrenOf_trans; [exact Hchildren|].
    eapply (childrenOf_quiet _ _ _ _ _ [Signal]);
      [reflexivity | reflexivity | reflexivity | now repeat constructor]. }
  split; [exact Hdom|]. exists links, evs, es.
  split; [exact Hlinks|]. split; [exact Ht|]. split; [exact Hq|].
  split; [exact Hevs | exact Hes].
Qed.

Lemma countEvents_snoc (p : Event -> bool) (evs : list Event) (e : Event) :
  countEvents p (evs ++ [e]) = (countEvents p evs + if p e then 1 else 0)%nat.
Proof.
  rewrite countEvents_app. unfold countEvents at 2. cbn [List.filter].
  now destruct (p e).
Qed.

(** The links of a page are followed without a request. *)
Lemma onStatusOK_requests (pageURL : string) (depth : Z) (r : Response) (w : World) :
  countEvents isDo (trace (snd (onStatusOK pageURL depth r w)))
  = countEvents isDo (trace w).
Proof.
  apply (steps_onStatusOK
           (fun w w' => countEvents isDo (trace w') = countEvents isDo (trace w))).
  - reflexivity.
  - intros w1 w2 w3 H12 H23. congruence.
  - reflexivity.
  - intros u d w0 l.
    destruct (followLink_cases u d w0 l) as [-> | [[u' [d' ->]] | [e ->]]];
      [reflexivity | |]; cbn [emit onCrawler trace]; rewrite countEvents_snoc;
      cbn [isDo]; lia.
Qed.

Lemma fetchLoop_requests (left : nat) (pageURL : string) (depth : Z) (w : World) :
  (countEvents isDo (trace w)
   <= countEvents isDo (trace (snd (fetchLoop left pageURL depth w)))
   <= countEvents isDo (trace w) + left)%nat.
Proof.
  revert w. induction left as [|left IH]; intros w; [cbn; lia|].
  cbn [fetchLoop].
  assert (countEvents isDo (trace (emit (ClientDo pageURL) w))
          = S (countEvents isDo (trace w))) as Hdo.
  { cbn [emit trace]. rewrite countEvents_snoc. cbn [isDo]. lia. }
  match goal with
  | |- context [match ?x with Some r => onStatusOK _ _ r _ | None => _ end] =>
      destruct x as [r|]
  end.
  - rewrite onStatusOK_requests, Hdo. lia.
  - match goal with
    | |- context [emit (Sleep ?n) ?w0] =>
        assert (countEvents isDo (trace (emit (Sleep n) w0))
                = S (countEvents isDo (trace w))) as Hsleep
          by (cbn [emit trace] in *; rewrite countEvents_snoc; cbn [isDo]; lia);
        specialize (IH (emit (Sleep n) w0))
    end.
    destruct (3 - Z.of_nat (S left) =? 2); cbn [snd]; lia.
Qed.

(** X7: a worker sends at most three requests for its page, whatever the
    answers are, and every request it sends is for its own page URL. *)
Theorem at_most_three_requests (pageURL : string) (depth : Z) (w : World) :
  let w' := snd (crawlPage pageURL depth w) in
  (countEvents isDo (trace w) <= countEvents isDo (trace w')
   <= countEvents isDo (trace w) + 3)%nat
  /\ exists evs, trace w' = trace w ++ evs
                 /\ forall u, ClientDo u ∈ evs -> u = pageURL.
Proof.
  cbv zeta. rewrite crawlPage_snd. split.
  - cbn [crawlPageDeferred emit onCrawler trace]. rewrite countEvents_snoc.
    cbn [isDo]. rewrite Nat.add_0_r.
    pose proof (crawlPageBody_cases pageURL depth w) as Hcases. cbv zeta in Hcases.
    destruct Hcases as [-> | [-> | [_ [-> | ->]]]].
    + cbn [emit trace]. rewrite countEvents_snoc. cbn [isDo]. lia.
    + cbn [emit trace]. rewrite !countEvents_snoc. cbn [isDo]. lia.
    + cbn [emit onCrawler trace]. rewrite !countEvents_snoc. cbn [isDo]. lia.
    + match goal with
      | |- context [fetchLoop 3 pageURL depth ?w2] =>
          pose proof (fetchLoop_requests 3 pageURL depth w2) as Hloop;
          assert (countEvents isDo (trace w2) = countEvents isDo (trace w)) as Hw2
      end.
      { cbn [emit onCrawler trace]. rewrite !countEvents_snoc. cbn [isDo]. lia. }
      lia.
  - pose (P := fun w2 : World =>
            exists evs, trace w2 = trace w ++ evs
                        /\ Forall (fun e => ownEvent pageURL e = true
                                            \/ isGo e = true) evs).
    assert (P (snd (crawlPageBody pageURL depth w))) as [evs [Ht Hevs]].
    { apply (run_keeps pageURL depth P w); [|apply crawlPageBody_run|].
      - intros w1 w2 Hstep [evs [Ht Hevs]]. unfold P.
        destruct Hstep as [e w1 He | w1 Hnew | r body pathType w1 Hb Hf Hv page
                          | link w1 Hfollow Hroom | link w1 Hfollow Hfull];
          cbn [emit onCrawler trace]; rewrite ?Ht, <- ?app_assoc.
        + exists (evs ++ [e]). split; [reflexivity|].
          apply Forall_app. split; [exact Hevs|]. apply Forall_singleton. now left.
        + now exists evs.
        + now exists evs.
        + eexists. split; [reflexivity|].
          apply Forall_app. split; [exact Hevs|]. apply Forall_singleton. now right.
        + eexists. split; [reflexivity|].
          apply Forall_app. split; [exact Hevs|]. apply Forall_singleton. now left.
      - exists []. split; [now rewrite app_nil_r | constructor]. }
    exists (evs ++ [Signal]). cbn [crawlPageDeferred emit onCrawler trace].
    rewrite Ht, <- app_assoc. split; [reflexivity|].
    intros u Hin. apply elem_of_app in Hin as [Hin | Hin].
    + apply (proj1 (Forall_forall _ evs) Hevs) in Hin.
      destruct Hin as [Hown | Hgo]; [|discriminate].
      cbn [ownEvent] in Hown. now apply String.eqb_eq in Hown.
    + apply list_elem_of_singleton in Hin. discriminate.
Qed.


(** X9: when no answer to the requests for a page has the status 200, the
    loop of [crawlPage] sends three requests, sleeps 100, 200 and 400
    milliseconds after the first, the second and the third, and returns: it
    stores nothing and follows no link. *)
Theorem three_failed_requests (pageURL : string) (depth : Z) (w : World) :
  (forall evs r, respond evs pageURL = Some r -> StatusCode r <> 200) ->
  fetchLoop 3 pageURL depth w
  = (Go.Returns tt,
     mkWorld (crawler w)
             (trace w ++ [ClientDo pageURL; Sleep (100 * Rate.Millisecond);
                          ClientDo pageURL; Sleep (200 * Rate.Millisecond);
                          ClientDo pageURL; Sleep (400 * Rate.Millisecond)])).
Proof.
  intros Hfail.
  assert (forall evs,
             match respond evs pageURL with
             | Some r => if StatusCode r =? 200 then Some r else None
             | None => None
             end = None) as Hnone.
  { intros evs. destruct (respond evs pageURL) as [r|] eqn:Hr; [|reflexivity].
    destruct (Z.eqb_spec (StatusCode r) 200) as [Heq|_]; [|reflexivity].
    now apply Hfail in Hr. }
  cbn [fetchLoop]. rewrite !Hnone.
  change (3 - Z.of_nat 3 =? 2) with false.
  change (3 - Z.of_nat 2 =? 2) with false.
  change (3 - Z.of_nat 1 =? 2) with true.
  cbn iota. unfold emit. cbn [crawler trace]. rewrite <- !app_assoc.
  reflexivity.
Qed.

(** X10: an answer with the status 200 ends the worker after this one
    request, with nothing stored and no link followed, when its body cannot
    be read, when the body holds [cf-browser-verification] or
    [Access denied], or when its content type is no webpage type. *)
Theorem unusable_answer_ends_worker (pageURL : string) (depth : Z) (w : World)
    (r : Response) :
  respond (trace w) pageURL = Some r ->
  StatusCode r = 200 ->
  Body r = None
  \/ (exists body,
         Body r = Some body
         /\ (Contains body "cf-browser-verification" = true
             \/ Contains body "Access denied" = true
             \/ Crawler.isWebpageMIME (ContentType r) = false)) ->
  fetchLoop 3 pageURL depth w = (Go.Returns tt, emit (ClientDo pageURL) w).
Proof.
  intros Hr Hok Hcase. cbn [fetchLoop]. rewrite Hr, Hok.
  change (200 =? 200) with true. cbn iota. unfold onStatusOK.
  destruct Hcase as [-> | [body [-> [Hbot | [Hdenied | Hmime]]]]]; [reflexivity| | |].
  - now rewrite Hbot.
  - rewrite Hdenied. now rewrite orb_true_r.
  - destruct (Contains body "cf-browser-verification" || Contains body "Access denied");
      [reflexivity|]. now rewrite Hmime.
Qed.

End Worker.

(** A server that answers no request is such a case. *)
Lemma three_failed_requests_witness :
  fetchLoop (tables := asciiTables) (net := Samples.plainLibrary)
            (html := Samples.parsingTo Samples.logoAnchorDoc)
            (env := silentServer) 3 "http://example.com/" 0 Samples.startedWorld
  = (Go.Returns tt,
     mkWorld (crawler Samples.startedWorld)
             (trace Samples.startedWorld
              ++ [ClientDo "http://example.com/"; Sleep (100 * Rate.Millisecond);
                  ClientDo "http://example.com/"; Sleep (200 * Rate.Millisecond);
                  ClientDo "http://example.com/"; Sleep (400 * Rate.Millisecond)])).
Proof.
  apply (three_failed_requests (env := silentServer)).
  intros evs r Hr. discriminate.
Defined.

(** A server that answers with the page [Access denied]. *)
Lemma unusable_answer_ends_worker_witness :
  fetchLoop (tables := asciiTables) (net := Samples.plainLibrary)
            (html := Samples.parsingTo Samples.logoAnchorDoc)
            (env := Samples.serving "<html><body>Access denied</body></html>" None)
            3 "http://example.com/" 0 Samples.startedWorld
  = (Go.Returns tt, emit (ClientDo "http://example.com/") Samples.startedWorld).
Proof.
  apply (unusable_answer_ends_worker
           (env := Samples.serving "<html><body>Access denied</body></html>" None)
           "http://example.com/" 0 Samples.startedWorld
           (Samples.okResponse "<html><body>Access denied</body></html>")).
  - reflexivity.
  - reflexivity.
  - right. exists "<html><body>Access denied</body></html>".
    split; [reflexivity|]. right. left. reflexivity.
Defined.

(** ** The locked region: the stamps of the path-families *)

(** X11: a page that the locked region admits leaves as the stamp of its
    path-family the clock [t], or 500 milliseconds after the stamp that was
    there when that is later: two admissions under the same path-family are
    stamped at least 500 milliseconds apart, the stamps of the other
    path-families stay, and a page that is turned away leaves the crawler
    as it is. *)
Theorem admissions_are_spaced (t : Z) (f normalized : string)
    (p : Page Float64.float64) (c : Crawler) :
  let c' := snd (admission t f normalized p c) in
  if fst (admission t f normalized p c) then
    pathDelays c'
    = <[f := match pathDelays c !! f with
             | Some last => Z.max t (last + 500 * Rate.Millisecond)
             | None => t
             end]> (pathDelays c)
    /\ (forall last stamp,
           pathDelays c !! f = Some last -> pathDelays c' !! f = Some stamp ->
           last + 500 * Rate.Millisecond <= stamp /\ t <= stamp)
    /\ (forall g, g <> f -> pathDelays c' !! g = pathDelays c !! g)
  else c' = c.
Proof.
  cbv zeta. unfold admission.
  destruct ((default 0 (pathCounts c !! f) >=? maxPerPath c)
            || ((Z.of_nat (size (pathCounts c)) >=? maxPathTypes c)
                && (default 0 (pathCounts c !! f) =? 0))); [reflexivity|].
  assert (match pathDelays c !! f with
          | Some lastCrawl =>
              if t - lastCrawl <? 500 * Rate.Millisecond
              then lastCrawl + 500 * Rate.Millisecond else t
          | None => t
          end
          = match pathDelays c !! f with
            | Some last => Z.max t (last + 500 * Rate.Millisecond)
            | None => t
            end) as Hstamp.
  { destruct (pathDelays c !! f) as [last|]; [|reflexivity].
    destruct (Z.ltb_spec (t - last) (500 * Rate.Millisecond)); lia. }
  rewrite Hstamp.
  destruct (negb (String.eqb normalized "")); cbn [fst snd];
    cbn [pathDelays storePage withPathDelays];
    (split; [reflexivity|]; split;
     [intros last stamp Hlast; rewrite lookup_insert_eq, Hlast; intros [= <-]; lia
     |intros g Hne; now rewrite lookup_insert_ne by congruence]).
Qed.

(** ** What the crawl keeps *)

Lemma map_sum_insert {A : Type} (g : A -> Z) (m : gmap string A) (i : string)
    (x : A) :
  map_fold (fun _ y n => g y + n) 0 (<[i := x]> m)
  = map_fold (fun _ y n => g y + n) 0 m + g x
    - match m !! i with Some y => g y | None => 0 end.
Proof.
  assert (forall (m0 : gmap string A) (j1 j2 : string) (z1 z2 : A) (y : Z),
             j1 <> j2 -> m0 !! j1 = Some z1 -> m0 !! j2 = Some z2 ->
             g z1 + (g z2 + y) = g z2 + (g z1 + y)) as Hcomm
    by (intros; lia).
  destruct (m !! i) as [y|] eqn:Hi.
  - rewrite <- insert_delete_eq.
    rewrite (map_fold_insert_L _ _ i x (delete i m) (Hcomm _))
      by apply lookup_delete_eq.
    rewrite (map_fold_delete_L _ _ i y m (Hcomm _) Hi). lia.
  - rewrite (map_fold_insert_L _ _ i x m (Hcomm _) Hi). lia.
Qed.

Lemma admission_keeps_counters (t : Z) (f normalized : string)
    (p : Page Float64.float64) (c : Crawler) :
  countersAgree c -> countersAgree (snd (admission t f normalized p c)).
Proof.
  intros [Hstored Hcounted]. unfold admission.
  destruct ((default 0 (pathCounts c !! f) >=? maxPerPath c)
            || ((Z.of_nat (size (pathCounts c)) >=? maxPathTypes c)
                && (default 0 (pathCounts c !! f) =? 0))); [now split|].
  destruct (negb (String.eqb normalized "")); cbn [snd]; [|now split].
  split; unfold storedPages, countedPages in *;
    cbn [storePage withPathDelays totalCrawled pathPages pathCounts].
  - rewrite (map_sum_insert (fun pages => Z.of_nat (length pages))).
    rewrite Hstored, length_app. cbn [length].
    destruct (pathPages c !! f); cbn [default from_option id length]; lia.
  - rewrite (map_sum_insert (fun count => count)).
    rewrite Hcounted.
    destruct (pathCounts c !! f); cbn [default from_option id]; lia.
Qed.

Lemma processQueueRound_cases (v : RoundView) (w w' : World) :
  processQueueRound v w = Continues w' ->
  exists entry rest,
    linkQueue (crawler w) = entry :: rest
    /\ ((sem (crawler w) < semCapacity)%nat
        /\ w' = emit (GoCrawlPage (entryURL entry) (entryDepth entry))
                     (onCrawler acquireForChild
                                (onCrawler (withLinkQueue rest) w))
        \/ (semCapacity <= sem (crawler w))%nat
           /\ doneAtSelect v = false
           /\ w' = emit (Sleep (100 * Rate.Millisecond))
                        (onCrawler (pushBack entry)
                                   (onCrawler (withLinkQueue rest) w))).
Proof.
  unfold processQueueRound. destruct (doneAtTop v); [discriminate|].
  destruct (linkQueue (crawler w)) as [|entry rest]; [discriminate|].
  cbn [onCrawler crawler sem withLinkQueue].
  destruct (Nat.ltb_spec (sem (crawler w)) semCapacity) as [Hlt|Hge].
  - destruct (negb (doneAtSelect v) || sendFirst v) eqn:Hsend; cbn [andb].
    + intros Hround. injection Hround as <-.
      exists entry, rest. split; [reflexivity|]. left. now split.
    + destruct (doneAtSelect v) eqn:Hdone; [discriminate|]. discriminate.
  - cbn [andb]. destruct (doneAtSelect v) eqn:Hdone; [discriminate|].
    intros Hround. injection Hround as <-.
    exists entry, rest. split; [reflexivity|]. right. now repeat split.
Qed.

Section Invariants.
Context {tables : UnicodeTables} {net : NetURL.Library} {html : HTML.Library}
        {robots : RobotsLibrary} {env : Environment}.

(** An invariant of the steps of a worker that the deferred function keeps
    is an invariant of [crawlPage]. *)
Lemma crawlPage_keeps (P : World -> Prop) (pageURL : string) (depth : Z)
    (w : World) :
  (forall w1 w2, workerStep pageURL depth w1 w2 -> P w1 -> P w2) ->
  (forall w1, P w1 -> P (crawlPageDeferred w1)) ->
  P w -> P (snd (crawlPage pageURL depth w)).
Proof.
  intros Hstep Hdefer Hw. rewrite crawlPage_snd. apply Hdefer.
  exact (run_keeps pageURL depth P w _ Hstep (crawlPageBody_run pageURL depth w) Hw).
Qed.

(** X12: the counter [totalCrawled] is the number of pages stored and the
    sum of the counters of the path-families, and the budgets of the
    path-families hold: this holds of a new crawler, and every worker and
    every round of [processQueue] keeps it. *)
Theorem total_crawled_counts_stored_pages :
  (forall rootDomain maxPerPath maxPathTypes,
      countersAgree (newCrawlerFor rootDomain maxPerPath maxPathTypes)
      /\ budgetsHold (newCrawlerFor rootDomain maxPerPath maxPathTypes))
  /\ (forall pageURL depth w,
         countersAgree (crawler w) /\ budgetsHold (crawler w) ->
         countersAgree (crawler (snd (crawlPage pageURL depth w)))
         /\ budgetsHold (crawler (snd (crawlPage pageURL depth w))))
  /\ (forall v w w',
         processQueueRound v w = Continues w' ->
         countersAgree (crawler w) /\ budgetsHold (crawler w) ->
         countersAgree (crawler w') /\ budgetsHold (crawler w')).
Proof.
  split; [|split].
  - intros rootDomain maxPerPath maxPathTypes.
    split; [|apply newCrawlerFor_budgets].
    split; unfold storedPages, countedPages; cbn; now rewrite map_fold_empty.
  - intros pageURL depth w.
    apply (crawlPage_keeps
             (fun w => countersAgree (crawler w) /\ budgetsHold (crawler w))).
    + intros w1 w2 Hstep [Hcount Hbudget].
      destruct Hstep as [e w1 He | w1 Hnew | r body pathType w1 Hb Hf Hv page
                        | link w1 Hfollow Hroom | link w1 Hfollow Hfull];
        cbn [emit onCrawler crawler].
      * now split.
      * destruct Hcount, Hbudget. now split.
      * split; [now apply admission_keeps_counters
               | now apply admission_keeps_budgets].
      * destruct Hcount, Hbudget. now split.
      * destruct Hcount, Hbudget. now split.
    + intros w1 [[H1 H2] [H3 H4 H5 H6]]. now split.
  - intros v w w' Hround [[H1 H2] [H3 H4 H5 H6]].
    apply processQueueRound_cases in Hround
      as [entry [rest [_ [[_ ->] | [_ [_ ->]]]]]]; now split.
Qed.

(** X13: the semaphore never holds more than its 50 tokens: [Crawl] puts
    the first one into the empty semaphore, a worker sends a token for a
    child only when there is room, a round of [processQueue] likewise, and a
    worker that ends takes one out. *)
Theorem semaphore_holds_at_most_50_tokens :
  (forall rootDomain maxPerPath maxPathTypes startURL,
      sem (crawler (beginCrawl startURL
                      (mkWorld (newCrawlerFor rootDomain maxPerPath maxPathTypes)
                               [])))
      = 1%nat)
  /\ (forall pageURL depth w,
         (sem (crawler w) <= 50)%nat ->
         (sem (crawler (snd (crawlPage pageURL depth w))) <= 50)%nat)
  /\ (forall v w w',
         processQueueRound v w = Continues w' ->
         (sem (crawler w) <= 50)%nat -> (sem (crawler w') <= 50)%nat).
Proof.
  split; [reflexivity|]. split.
  - intros pageURL depth w.
    apply (crawlPage_keeps (fun w => (sem (crawler w) <= 50)%nat)).
    + intros w1 w2 Hstep Hsem.
      destruct Hstep as [e w1 He | w1 Hnew | r body pathType w1 Hb Hf Hv page
                        | link w1 Hfollow Hroom | link w1 Hfollow Hfull];
        cbn [emit onCrawler crawler sem withVisited acquireForChild pushBack];
        try exact Hsem.
      * unfold admission. repeat case_match; exact Hsem.
      * unfold semCapacity in Hroom. lia.
    + intros w1 Hsem. cbn. lia.
  - intros v w w' Hround Hsem.
    apply processQueueRound_cases in Hround
      as [entry [rest [_ [[Hroom ->] | [_ [_ ->]]]]]]; cbn.
    + unfold semCapacity in Hroom. lia.
    + exact Hsem.
Qed.

(** X14: from the start of [Crawl] on the counter [active] is one below
    the counter of the wait group: [Crawl] adds the first worker to the wait
    group only, every later start adds one to both, and every end of a
    worker takes one from both.  When the last worker has ended, [active]
    is -1. *)
Theorem active_is_one_below_the_wait_group :
  (forall rootDomain maxPerPath maxPathTypes startURL,
      let c := crawler (beginCrawl startURL
                          (mkWorld (newCrawlerFor rootDomain maxPerPath
                                                  maxPathTypes) [])) in
      wg c = 1 /\ active c = 0)
  /\ (forall pageURL depth w,
         active (crawler w) = wg (crawler w) - 1 ->
         active (crawler (snd (crawlPage pageURL depth w)))
         = wg (crawler (snd (crawlPage pageURL depth w))) - 1)
  /\ (forall v w w',
         processQueueRound v w = Continues w' ->
         active (crawler w) = wg (crawler w) - 1 ->
         active (crawler w') = wg (crawler w') - 1)
  /\ (forall pageURL depth w,
         active (crawler w) = wg (crawler w) - 1 ->
         wg (crawler (snd (crawlPage pageURL depth w))) = 0 ->
         active (crawler (snd (crawlPage pageURL depth w))) = -1).
Proof.
  assert (forall pageURL depth w,
             active (crawler w) = wg (crawler w) - 1 ->
             active (crawler (snd (crawlPage pageURL depth w)))
             = wg (crawler (snd (crawlPage pageURL depth w))) - 1) as Hworker.
  { intros pageURL depth w.
    apply (crawlPage_keeps (fun w => active (crawler w) = wg (crawler w) - 1)).
    - intros w1 w2 Hstep Hinv.
      destruct Hstep as [e w1 He | w1 Hnew | r body pathType w1 Hb Hf Hv page
                        | link w1 Hfollow Hroom | link w1 Hfollow Hfull];
        cbn [emit onCrawler crawler active wg withVisited acquireForChild pushBack];
        try exact Hinv.
      + unfold admission. repeat case_match; exact Hinv.
      + lia.
    - intros w1 Hinv. cbn. lia. }
  split; [now split|]. split; [exact Hworker|]. split.
  - intros v w w' Hround Hinv.
    apply processQueueRound_cases in Hround
      as [entry [rest [_ [[_ ->] | [_ [_ ->]]]]]]; cbn; lia.
  - intros pageURL depth w Hinv Hzero.
    pose proof (Hworker pageURL depth w Hinv) as Hend. lia.
Qed.

(** X15: a round of [processQueue] that goes on has taken the entry at the
    front of the queue and either started a worker for it, for its URL and
    at its depth, which it does only when the semaphore has room, or put it
    back at the end of the queue and slept 100 milliseconds; the other
    entries stay in their order, no entry is lost, and a round that finds
    the queue empty waits. *)
Theorem queue_round_keeps_the_entries (v : RoundView) (w : World) :
  match processQueueRound v w with
  | Continues w' =>
      exists entry rest,
        linkQueue (crawler w) = entry :: rest
        /\ ((linkQueue (crawler w') = rest
             /\ trace w' = trace w ++ [GoCrawlPage (entryURL entry)
                                                   (entryDepth entry)]
             /\ sem (crawler w') = S (sem (crawler w))
             /\ (sem (crawler w) < 50)%nat)
            \/ (linkQueue (crawler w') = rest ++ [entry]
                /\ trace w' = trace w ++ [Sleep (100 * Rate.Millisecond)]
                /\ sem (crawler w') = sem (crawler w)
                /\ (50 <= sem (crawler w))%nat))
  | Waiting => linkQueue (crawler w) = [] /\ doneAtTop v = false
  | Returned w' =>
      (doneAtTop v = true /\ w' = w)
      \/ (doneAtSelect v = true
          /\ exists entry, linkQueue (crawler w)
                           = entry :: linkQueue (crawler w'))
  end.
Proof.
  destruct (processQueueRound v w) as [w'| |w'] eqn:Hround.
  - unfold processQueueRound in Hround.
    destruct (doneAtTop v); [injection Hround as <-; now left|].
    destruct (linkQueue (crawler w)) as [|entry rest]; [discriminate|].
    destruct (_ && _); [discriminate|].
    destruct (doneAtSelect v); [|discriminate].
    injection Hround as <-. right. split; [reflexivity|]. now exists entry.
  - unfold processQueueRound in Hround.
    destruct (doneAtTop v); [discriminate|].
    destruct (linkQueue (crawler w)) as [|entry rest]; [now split|].
    destruct (_ && _); [discriminate|]. destruct (doneAtSelect v); discriminate.
  - apply processQueueRound_cases in Hround
      as [entry [rest [Hq [[Hroom ->] | [Hfull [_ ->]]]]]];
      exists entry, rest; (split; [exact Hq|]).
    + left. unfold semCapacity in Hroom. now repeat split.
    + right. unfold semCapacity in Hfull. now repeat split.
Qed.

Lemma wellStored_visited (c c' : Crawler) (f : string)
    (p : Page Float64.float64) :
  visited c ⊆ visited c' -> wellStored c f p -> wellStored c' f p.
Proof. intros Hsub [H1 H2 H3 H4 H5 H6 H7 H8]. split; auto. Qed.

Lemma allWellStored_same (c c' : Crawler) :
  pathPages c' = pathPages c -> visited c ⊆ visited c' ->
  allWellStored c -> allWellStored c'.
Proof.
  intros Hpages Hsub Hall f p Hp. rewrite Hpages in Hp.
  now apply (wellStored_visited c), Hall.
Qed.

(** The page of a response is well stored under the path-family of its
    URL, once its text is not empty. *)
Lemma pageOfResponse_wellStored (pageURL : string) (r : Response)
    (body pathType : string) (c : Crawler) :
  Crawler.getPathType pageURL = Go.Returns pathType ->
  pageURL ∈ visited c ->
  Text (pageOfResponse pageURL r body (domain c)) <> EmptyString ->
  wellStored c pathType (pageOfResponse pageURL r body (domain c)).
Proof.
  intros Hfamily Hvisited Htext.
  destruct (extracted_not_empty body pageURL (domain c)) as [Hlinks [Htitle Hdesc]].
  split; unfold pageOfResponse in *;
    cbn [URL Text ETag MetaTitle MetaDescription Links] in *; try assumption.
  - apply normalizeText_twice.
  - destruct (String.eqb_spec (ETagHeader r) "") as [_|Hne];
      [discriminate | exact Hne].
Qed.

(** X16: every page the crawler holds is stored under the path-family that
    [getPathType] gives for its URL, its URL is marked as visited, its text
    is not empty and is a fixed point of [normalizeText], and its ETag, its
    title, its description and the targets and anchor texts of its links are
    not empty: this holds of a new crawler, and every worker and every round
    of [processQueue] keeps it. *)
Theorem stored_pages_are_well_formed :
  (forall rootDomain maxPerPath maxPathTypes,
      allWellStored (newCrawlerFor rootDomain maxPerPath maxPathTypes))
  /\ (forall pageURL depth w,
         allWellStored (crawler w) ->
         allWellStored (crawler (snd (crawlPage pageURL depth w))))
  /\ (forall v w w',
         processQueueRound v w = Continues w' ->
         allWellStored (crawler w) -> allWellStored (crawler w')).
Proof.
  split; [|split].
  - intros rootDomain maxPerPath maxPathTypes f p Hp. cbn in Hp.
    rewrite lookup_empty in Hp. now apply elem_of_nil in Hp.
  - intros pageURL depth w.
    apply (crawlPage_keeps (fun w => allWellStored (crawler w))).
    + intros w1 w2 Hstep Hall.
      destruct Hstep as [e w1 He | w1 Hnew | r body pathType w1 Hb Hf Hv page
                        | link w1 Hfollow Hroom | link w1 Hfollow Hfull];
        cbn [emit onCrawler crawler];
        try (now apply (allWellStored_same (crawler w1))).
      * apply (allWellStored_same (crawler w1)); [reflexivity| |exact Hall].
        intros x Hx. apply elem_of_union. now right.
      * unfold admission.
        destruct ((default 0 (pathCounts (crawler w1) !! pathType)
                   >=? maxPerPath (crawler w1))
                  || ((Z.of_nat (size (pathCounts (crawler w1)))
                       >=? maxPathTypes (crawler w1))
                      && (default 0 (pathCounts (crawler w1) !! pathType) =? 0)));
          [exact Hall|].
        destruct (String.eqb_spec (Text page) "") as [Hempty|Htext]; cbn [negb snd].
        { now apply (allWellStored_same (crawler w1)). }
        intros g p. cbn [storePage withPathDelays pathPages].
        destruct (decide (pathType = g)) as [<-|Hne].
        -- rewrite lookup_insert_eq. cbn [default from_option id].
           intros Hp. apply elem_of_app in Hp as [Hp | Hp].
           ++ now apply (wellStored_visited (crawler w1)), Hall.
           ++ apply list_elem_of_singleton in Hp. subst p.
              apply (wellStored_visited (crawler w1)); [reflexivity|].
              now apply pageOfResponse_wellStored.
        -- rewrite lookup_insert_ne by exact Hne. intros Hp.
           now apply (wellStored_visited (crawler w1)), Hall.
    + intros w1 Hall. now apply (allWellStored_same (crawler w1)).
  - intros v w w' Hround Hall.
    apply processQueueRound_cases in Hround
      as [entry [rest [_ [[_ ->] | [_ [_ ->]]]]]];
      now apply (allWellStored_same (crawler w)).
Qed.

End Invariants.

(** ** More on [calculatePageRank] *)

Import Analyzer Graph.

Section RankFacts.
Context {F : Type} {arith : Arith F}.

(** The last assignment for a URL is the one the map keeps. *)
Lemma assignAll_lookup_some (v : Page F -> F) (pages : list (Page F))
    (m : gmap string F) (u : string) :
  fold_left (fun m page => <[URL page := v page]> m) pages m !! u
  = match find (fun q => String.eqb (URL q) u) (rev pages) with
    | Some q => Some (v q)
    | None => m !! u
    end.
Proof.
  revert m. induction pages as [|q pages IH] using rev_ind; intros m;
    [reflexivity|].
  rewrite fold_left_app, rev_unit. cbn [fold_left find].
  destruct (String.eqb_spec (URL q) u) as [<-|Hne].
  - now rewrite lookup_insert_eq.
  - rewrite lookup_insert_ne by exact Hne. apply IH.
Qed.

(** A value that depends on the URL of the page only is the value the map
    holds for the URL of every page. *)
Lemma assignAll_lookup_url (v : Page F -> F) (pages : list (Page F)) (p : Page F) :
  (forall q, URL q = URL p -> v q = v p) ->
  p ∈ pages ->
  assignAll v pages !! URL p = Some (v p).
Proof.
  intros Hv Hin. unfold assignAll. rewrite assignAll_lookup_some.
  destruct (find (fun q => String.eqb (URL q) (URL p)) (rev pages)) as [q|] eqn:Hfind.
  - apply find_some in Hfind as [_ Heq]. apply String.eqb_eq in Heq.
    now rewrite (Hv q Heq).
  - exfalso. apply list_elem_of_In, in_rev in Hin.
    apply (find_none _ _ Hfind) in Hin. now rewrite String.eqb_refl in Hin.
Qed.

Lemma rankOf_url (linkGraph inboundLinks : gmap string (list string))
    (pageCount : F) (pageRank : gmap string F) (p q : Page F) :
  URL q = URL p ->
  rankOf linkGraph inboundLinks pageCount pageRank q
  = rankOf linkGraph inboundLinks pageCount pageRank p.
Proof. intros Heq. unfold rankOf. now rewrite Heq. Qed.

Lemma inOf_nil (pages : list (Page F)) (u : string) :
  (forall q l, q ∈ pages -> l ∈ Links q -> ToURL l <> u) ->
  inOf pages u = [].
Proof.
  intros Hnone. unfold inOf. induction pages as [|q pages IH]; [reflexivity|].
  cbn [flat_map]. rewrite IH by (intros q' l Hq'; apply Hnone; now right).
  rewrite app_nil_r.
  assert (forall l, l ∈ Links q -> ToURL l <> u) as Hq
    by (intros l; apply Hnone; now left).
  induction (Links q) as [|l ls IHl]; [reflexivity|]. cbn [flat_map].
  destruct (String.eqb_spec (ToURL l) u) as [Heq|_].
  - exfalso. apply (Hq l); [now left | exact Heq].
  - apply IHl. intros l' Hl'. apply Hq. now right.
Qed.

(** The map of the ranks after the rounds, at the URL of a page: the rank
    of the last round, computed from the ranks of the round before. *)
Lemma pageRankMap_lookup (pages : list (Page F)) (p : Page F) :
  p ∈ pages ->
  at_ (pageRankMap pages) (URL p)
  = rankOf (linkGraphOf pages) (inboundLinksOf pages) (ofLen (length pages))
           (Nat.iter 99
              (iteration (linkGraphOf pages) (inboundLinksOf pages)
                         (ofLen (length pages)) pages)
              (assignAll (fun _ => div one (ofLen (length pages))) pages))
           p.
Proof.
  intros Hin. unfold pageRankMap, linkGraphOf, inboundLinksOf.
  destruct (buildGraph pages) as [linkGraph inboundLinks]. cbn [fst snd].
  unfold iterations. rewrite Nat.iter_succ.
  unfold iteration at 1, at_.
  rewrite (assignAll_lookup_url _ pages p); [reflexivity| |exact Hin].
  intros q Heq. now apply rankOf_url.
Qed.

(** X17: a page whose URL is the target of no link, as the pages hold the
    targets, ends with the rank [(1.0 - 0.85) / N] for the [N] pages of the
    result, in the arithmetic of [float64] as in any other: nothing is added
    to the term the rounds start from. *)
Theorem rank_of_a_page_without_inbound_links (crawlResult : CrawlResult F)
    (p : Page F) :
  p ∈ Pages crawlResult ->
  (forall q l, q ∈ Pages crawlResult -> l ∈ Links q -> ToURL l <> URL p) ->
  withPageRank (div oneMinusDamping (ofLen (length (Pages crawlResult)))) p
  ∈ Pages (calculatePageRank crawlResult).
Proof.
  intros Hin Hnone. unfold calculatePageRank, withPages. cbn [Pages].
  apply list_elem_of_fmap. exists p. split; [|exact Hin]. f_equal.
  rewrite (pageRankMap_lookup (Pages crawlResult) p Hin).
  unfold rankOf.
  rewrite inboundLinksOf_lookup, (inOf_nil _ _ Hnone). reflexivity.
Qed.

End RankFacts.

(** The first of two pages, linked to by no page, in [float64]. *)
Lemma rank_of_a_page_without_inbound_links_witness :
  withPageRank
    (PrimFloat.div Float64.oneMinusDamping
                   (ofLen (Arith := float64Arith) 2))
    (pageOf Float64.zero "http://example.com/" ["http://example.com/about"])
  ∈ Pages (calculatePageRank (arith := float64Arith)
                             (resultOf (danglingPages Float64.zero))).
Proof.
  apply (rank_of_a_page_without_inbound_links
           (arith := float64Arith) (resultOf (danglingPages Float64.zero))
           (pageOf Float64.zero "http://example.com/"
                   ["http://example.com/about"])).
  - now left.
  - intros q l Hq Hl. cbn in Hq.
    repeat (apply elem_of_cons in Hq as [-> | Hq]); [| |now apply elem_of_nil in Hq];
      cbn in Hl.
    + apply list_elem_of_singleton in Hl. subst l. discriminate.
    + now apply elem_of_nil in Hl.
Defined.

(** ** Lists without duplicates: the contact lists and [uniqueStrings] *)

Section KeepFirst.

Abbreviation keepStep :=
  (fun '(seen, result) (s : string) =>
     if negb (default false ((seen : gmap string bool) !! s))
     then (<[s := true]> seen, (result : list string) ++ [s])
     else (seen, result)).

Lemma keepStep_loop (l : list string) (seen : gmap string bool)
    (result : list string) :
  Contacts.seenIs seen result -> NoDup result ->
  let out := snd (fold_left keepStep l (seen, result)) in
  NoDup out
  /\ (forall s, s ∈ out <-> s ∈ result \/ s ∈ l)
  /\ (exists more, out = result ++ more /\ more `sublist_of` l)
  /\ (NoDup l -> (forall s, s ∈ l -> s ∉ result) -> out = result ++ l).
Proof.
  cbv zeta. revert seen result.
  induction l as [|x l IH]; intros seen result Hseen Hnd.
  - cbn [fold_left snd]. split; [exact Hnd|]. split.
    + intros s. split; [now left | intros [Hs | Hs]; [exact Hs|]].
      now apply elem_of_nil in Hs.
    + split; [exists []; split; [now rewrite app_nil_r | constructor]|].
      intros _ _. now rewrite app_nil_r.
  - cbn [fold_left]. destruct (default false (seen !! x)) eqn:Hx; cbn [negb].
    + apply Hseen in Hx.
      destruct (IH seen result Hseen Hnd) as [Hnd' [Hin [[more [Hout Hsub]] Hid]]].
      split; [exact Hnd'|]. split; [|split].
      * intros s. rewrite Hin, elem_of_cons. split.
        -- intros [Hs | Hs]; [now left | right; now right].
        -- intros [Hs | [-> | Hs]]; [now left | now left | now right].
      * exists more. split; [exact Hout | now constructor].
      * intros Hndl Hfresh. exfalso. apply (Hfresh x); [now left | exact Hx].
    + assert (x ∉ result) as Hfresh.
      { intros Hin. apply Hseen in Hin. congruence. }
      assert (Contacts.seenIs (<[x := true]> seen) (result ++ [x])) as Hseen'.
      { intros s. rewrite elem_of_app, list_elem_of_singleton.
        destruct (decide (x = s)) as [<-|Hne].
        - rewrite lookup_insert_eq. cbn. split; [now right | reflexivity].
        - rewrite lookup_insert_ne by exact Hne. split.
          + intros Hs. left. now apply Hseen.
          + intros [Hs | Hs]; [now apply Hseen | congruence]. }
      assert (NoDup (result ++ [x])) as Hnd'.
      { apply NoDup_app. split; [exact Hnd|]. split; [|apply NoDup_singleton].
        intros s Hs Hs'. apply list_elem_of_singleton in Hs'. now subst s. }
      destruct (IH _ _ Hseen' Hnd') as [Hnd'' [Hin [[more [Hout Hsub]] Hid]]].
      split; [exact Hnd''|]. split; [|split].
      * intros s. rewrite Hin, elem_of_app, list_elem_of_singleton, elem_of_cons.
        split.
        -- intros [[Hs | ->] | Hs]; [now left | right; now left | right; now right].
        -- intros [Hs | [-> | Hs]]; [left; now left | left; now right | now right].
      * exists (x :: more). split; [now rewrite Hout, <- app_assoc|].
        now constructor.
      * intros Hndl Hnew. apply NoDup_cons in Hndl as [Hxl Hndl].
        rewrite Hid; [now rewrite <- app_assoc | exact Hndl |].
        intros s Hs Hs'. apply elem_of_app in Hs' as [Hs' | Hs'].
        -- apply (Hnew s); [now right | exact Hs'].
        -- apply list_elem_of_singleton in Hs'. now subst s.
Qed.

Lemma keepStep_first (l : list string) :
  let out := snd (fold_left keepStep l (∅, [])) in
  NoDup out
  /\ (forall s, s ∈ out <-> s ∈ l)
  /\ out `sublist_of` l
  /\ (NoDup l -> out = l).
Proof.
  cbv zeta.
  assert (Contacts.seenIs ∅ []) as Hseen.
  { intros s. rewrite lookup_empty. cbn. split; [discriminate|].
    intros Hs. now apply elem_of_nil in Hs. }
  destruct (keepStep_loop l ∅ [] Hseen (NoDup_nil_2))
    as [Hnd [Hin [[more [Hout Hsub]] Hid]]].
  cbv zeta in *. split; [exact Hnd|]. split; [|split].
  - intros s. rewrite Hin. split; [intros [Hs | Hs]; [|exact Hs] | now right].
    now apply elem_of_nil in Hs.
  - rewrite Hout. exact Hsub.
  - intros Hndl. apply Hid; [exact Hndl|]. intros s _ Hs. now apply elem_of_nil in Hs.
Qed.

(** The map [seen] holds the strings of the result, all along. *)
Lemma keepStep_seen (l : list string) (seen : gmap string bool)
    (result : list string) :
  Contacts.seenIs seen result ->
  Contacts.seenIs (fst (fold_left keepStep l (seen, result)))
                  (snd (fold_left keepStep l (seen, result))).
Proof.
  revert seen result. induction l as [|x l IH]; intros seen result Hseen;
    [exact Hseen|].
  cbn [fold_left]. destruct (default false (seen !! x)) eqn:Hx; cbn [negb];
    [now apply IH|].
  apply IH. intros s. rewrite elem_of_app, list_elem_of_singleton.
  destruct (decide (x = s)) as [<-|Hne].
  - rewrite lookup_insert_eq. cbn. split; [now right | reflexivity].
  - rewrite lookup_insert_ne by exact Hne. split.
    + intros Hs. left. now apply Hseen.
    + intros [Hs | Hs]; [now apply Hseen | congruence].
Qed.

(** Where a string stands in the result: behind the strings that come
    before its first occurrence, and behind no other. *)
Lemma keepStep_order (pre post : list string) (s : string) :
  s ∉ pre ->
  exists kpre kpost,
    snd (fold_left keepStep (pre ++ s :: post) (∅, [])) = kpre ++ s :: kpost
    /\ forall t, t ∈ kpre <-> t ∈ pre.
Proof.
  intros Hfresh. rewrite fold_left_app. cbn [fold_left].
  assert (Contacts.seenIs ∅ []) as Hseen0.
  { intros t. rewrite lookup_empty. cbn. split; [discriminate|].
    intros Ht. now apply elem_of_nil in Ht. }
  pose proof (keepStep_seen pre ∅ [] Hseen0) as Hseen.
  destruct (keepStep_first pre) as [Hnd [Hin _]]. cbv zeta in Hnd, Hin.
  destruct (fold_left keepStep pre (∅, [])) as [seen kpre].
  cbn [fst snd] in Hseen, Hnd, Hin.
  destruct (default false (seen !! s)) eqn:Hs; cbn [negb].
  { exfalso. apply Hfresh. apply Hin. now apply Hseen. }
  assert (Contacts.seenIs (<[s := true]> seen) (kpre ++ [s])) as Hseen'.
  { intros t. rewrite elem_of_app, list_elem_of_singleton.
    destruct (decide (s = t)) as [<-|Hne].
    - rewrite lookup_insert_eq. cbn. split; [now right | reflexivity].
    - rewrite lookup_insert_ne by exact Hne. split.
      + intros Ht. left. now apply Hseen.
      + intros [Ht | Ht]; [now apply Hseen | congruence]. }
  assert (NoDup (kpre ++ [s])) as Hnd'.
  { apply NoDup_app. split; [exact Hnd|]. split; [|apply NoDup_singleton].
    intros t Ht Ht'. apply list_elem_of_singleton in Ht'. subst t.
    apply Hfresh. now apply Hin. }
  destruct (keepStep_loop post _ _ Hseen' Hnd') as [_ [_ [[more [Hout _]] _]]].
  exists kpre, more. split; [|exact Hin].
  rewrite Hout. now rewrite <- app_assoc.
Qed.

Lemma keepStep_once (matches : list string) :
  let kept := snd (fold_left keepStep matches (∅, [])) in
  NoDup kept
  /\ (forall s, s ∈ kept <-> s ∈ matches)
  /\ (forall pre s post,
         matches = pre ++ s :: post -> s ∉ pre ->
         exists kpre kpost,
           kept = kpre ++ s :: kpost /\ forall t, t ∈ kpre <-> t ∈ pre).
Proof.
  cbv zeta. destruct (keepStep_first matches) as [Hnd [Hin _]].
  split; [exact Hnd|]. split; [exact Hin|].
  intros pre s post -> Hfresh. now apply keepStep_order.
Qed.

End KeepFirst.

(** X20: when [html.Parse] fails the five contact lists are [nil].
    Otherwise each of them holds every match of its pattern in the
    extracted text, a semicolon and the body, once, in the order in which
    the matches first occur: before a string stand the strings that come
    before its first occurrence among the matches, and no others. *)
Theorem contact_lists_hold_every_match_once
    {tables : UnicodeTables} {net : NetURL.Library} {html : HTML.Library}
    {regexp : Contacts.Regexp} (body baseURL domain : string) :
  let text :=
    Crawler.exText (Crawler.extractTextLinksAndMetadata body baseURL domain) in
  let found := fun pattern =>
    Contacts.FindAllString pattern (text +:+ ";" +:+ body) in
  let lists := Contacts.extractContacts body baseURL domain in
  let once := fun (matches kept : list string) =>
    NoDup kept
    /\ (forall s, s ∈ kept <-> s ∈ matches)
    /\ (forall pre s post,
           matches = pre ++ s :: post -> s ∉ pre ->
           exists kpre kpost,
             kept = kpre ++ s :: kpost /\ forall t, t ∈ kpre <-> t ∈ pre) in
  match HTML.Parse body with
  | None => lists = Contacts.mkContacts [] [] [] [] []
  | Some _ =>
      once (found Contacts.emailRegex) (Contacts.emails lists)
      /\ once (found Contacts.phoneRegex) (Contacts.phones lists)
      /\ once (found Contacts.whatsappRegex) (Contacts.whatsapps lists)
      /\ once (found Contacts.twitterRegex) (Contacts.xHandles lists)
      /\ once (found Contacts.linkedinRegex) (Contacts.linkedins lists)
  end.
Proof.
  cbv zeta. unfold Contacts.extractContacts.
  destruct (HTML.Parse body) as [doc|]; [|reflexivity].
  unfold Contacts.keepFirst.
  cbn [Contacts.emails Contacts.phones Contacts.whatsapps Contacts.xHandles
       Contacts.linkedins].
  split; [apply keepStep_once|]. split; [apply keepStep_once|].
  split; [apply keepStep_once|]. split; apply keepStep_once.
Qed.

(** ** [pkg/extractor] *)

(** X21: [uniqueStrings] returns every string of its argument once, in the
    order in which the strings first occur: before a string stand the
    strings that come before its first occurrence in the argument, and no
    others.  A list without duplicates comes back as it is, and so does
    every result of [uniqueStrings]. *)
Theorem uniqueStrings_keeps_first_occurrences (strs : list string) :
  NoDup (Extractor.uniqueStrings strs)
  /\ (forall s, s ∈ Extractor.uniqueStrings strs <-> s ∈ strs)
  /\ (forall pre s post,
         strs = pre ++ s :: post -> s ∉ pre ->
         exists kpre kpost,
           Extractor.uniqueStrings strs = kpre ++ s :: kpost
           /\ forall t, t ∈ kpre <-> t ∈ pre)
  /\ Extractor.uniqueStrings strs `sublist_of` strs
  /\ (NoDup strs -> Extractor.uniqueStrings strs = strs)
  /\ Extractor.uniqueStrings (Extractor.uniqueStrings strs)
     = Extractor.uniqueStrings strs.
Proof.
  unfold Extractor.uniqueStrings at 1 2 3 4 5.
  destruct (keepStep_first strs) as [Hnd [Hin [Hsub Hid]]].
  split; [exact Hnd|]. split; [exact Hin|].
  split; [intros pre s post -> Hfresh; now apply keepStep_order|].
  split; [exact Hsub|]. split; [exact Hid|].
  unfold Extractor.uniqueStrings at 1.
  destruct (keepStep_first (Extractor.uniqueStrings strs)) as [_ [_ [_ Hid']]].
  apply Hid'. exact Hnd.
Qed.

Lemma deleteByte_filter (old : ascii) (s : string) :
  Extractor.deleteByte old s
  = Crawler.filterBytes (fun c => negb (Ascii.eqb c old)) s.
Proof.
  induction s as [|c s IH]; [reflexivity|].
  cbn [Extractor.deleteByte Crawler.filterBytes].
  destruct (Ascii.eqb c old); cbn [negb]; now rewrite IH.
Qed.

Lemma filterBytes_twice (p q : ascii -> bool) (s : string) :
  Crawler.filterBytes q (Crawler.filterBytes p s)
  = Crawler.filterBytes (fun c => p c && q c) s.
Proof.
  induction s as [|c s IH]; [reflexivity|]. cbn [Crawler.filterBytes].
  destruct (p c); cbn [andb Crawler.filterBytes]; [|exact IH].
  destruct (q c); now rewrite IH.
Qed.

Lemma filterBytes_ext (p q : ascii -> bool) (s : string) :
  (forall c, p c = q c) -> Crawler.filterBytes p s = Crawler.filterBytes q s.
Proof.
  intros Hpq. induction s as [|c s IH]; [reflexivity|].
  cbn [Crawler.filterBytes]. now rewrite Hpq, IH.
Qed.

Lemma cleanPhoneNumber_filter (phone : string) :
  Extractor.cleanPhoneNumber phone
  = Crawler.filterBytes (fun c => negb (Extractor.isSeparator c)) phone.
Proof.
  unfold Extractor.cleanPhoneNumber. rewrite !deleteByte_filter, !filterBytes_twice.
  apply filterBytes_ext. intros c. unfold Extractor.isSeparator.
  now destruct (Ascii.eqb c " "), (Ascii.eqb c "-"), (Ascii.eqb c "("),
    (Ascii.eqb c ")"), (Ascii.eqb c ".").
Qed.

(** X22: [cleanPhoneNumber] returns the bytes of its argument that are
    none of blank, hyphen, the two parentheses and full stop, in their
    order: the five passes are one filter.  The result holds none of these
    five bytes, it holds the digits of the argument, and cleaning it again
    changes nothing. *)
Theorem cleanPhoneNumber_removes_the_separators (phone : string) :
  let cleaned := Extractor.cleanPhoneNumber phone in
  cleaned = Crawler.filterBytes (fun c => negb (Extractor.isSeparator c)) phone
  /\ allBytes (fun c => negb (Extractor.isSeparator c)) cleaned = true
  /\ Crawler.filterBytes Extractor.isDigit cleaned
     = Crawler.filterBytes Extractor.isDigit phone
  /\ Extractor.cleanPhoneNumber cleaned = cleaned.
Proof.
  cbv zeta. rewrite !cleanPhoneNumber_filter.
  split; [reflexivity|]. split; [apply filterBytes_all|]. split.
  - rewrite filterBytes_twice. apply filterBytes_ext. intros c.
    all_bytes c.
  - apply filterBytes_id, filterBytes_all.
Qed.

(** *** [resolveURL] on strings *)

Lemma HasSuffix_append (a b : string) : HasSuffix (a +:+ b) b = true.
Proof. apply HasSuffix_spec. now exists a. Qed.

Lemma HasPrefix_head (x c : ascii) (s t : string) :
  HasPrefix (String x s) (String c t) = true -> x = c.
Proof.
  intros Hp. apply HasPrefix_spec in Hp as [r Hr]. unfold_append.
  now injection Hr.
Qed.

Lemma Index_nonneg_or_none (s substr : string) :
  Extractor.Index s substr = -1 \/ 0 <= Extractor.Index s substr.
Proof.
  induction s as [|c s IH]; cbn [Extractor.Index].
  - destruct (HasPrefix "" substr); [now right | now left].
  - destruct (HasPrefix (String c s) substr); [now right|].
    destruct (Z.ltb_spec (Extractor.Index s substr) 0); [now left | right; lia].
Qed.

(** Where a string without the byte [c] ends and [c] follows, a string
    that starts with [c] is found first. *)
Lemma Index_after (c : ascii) (t a rest : string) :
  allBytes (fun x => negb (Ascii.eqb x c)) a = true ->
  HasPrefix rest (String c t) = true ->
  Extractor.Index (a +:+ rest) (String c t) = Z.of_nat (String.length a).
Proof.
  intros Hall Hrest. induction a as [|x a IH]; unfold_append.
  - destruct rest as [|y rest]; cbn [Extractor.Index]; now rewrite Hrest.
  - cbn [allBytes] in Hall. apply andb_true_iff in Hall as [Hx Ha].
    cbn [Extractor.Index].
    destruct (HasPrefix (String x (a +:+ rest)) (String c t)) eqn:Hp.
    + apply HasPrefix_head in Hp. subst x. now rewrite Ascii.eqb_refl in Hx.
    + rewrite (IH Ha). cbn [String.length].
      destruct (Z.ltb_spec (Z.of_nat (String.length a)) 0); lia.
Qed.

(** X23: the result of [resolveURL] always ends with the href as it was
    given.  An href that starts with [http://] or [https://] comes back as
    it is, one that starts with two slashes comes back behind [https:], and
    an href that does not start with a slash is put behind the whole base,
    with a slash between them if the base does not end with one: no segment
    of the base is taken away and no dot segment is resolved. *)
Theorem resolveURL_keeps_the_href (base href : string) :
  HasSuffix (Extractor.resolveURL base href) href = true
  /\ (HasPrefix href "http://" = true \/ HasPrefix href "https://" = true ->
      Extractor.resolveURL base href = href)
  /\ (HasPrefix href "//" = true ->
      Extractor.resolveURL base href = "https:" +:+ href)
  /\ (HasPrefix href "http://" = false -> HasPrefix href "https://" = false ->
      HasPrefix href "/" = false ->
      Extractor.resolveURL base href
      = (if HasSuffix base "/" then base else base +:+ "/") +:+ href).
Proof.
  assert (forall scheme, HasPrefix href (String "h" scheme) = true ->
                         HasPrefix href "//" = true -> False) as Hclash.
  { intros scheme Hh Hs. apply HasPrefix_spec in Hs as [r ->].
    rewrite !append_cons in Hh. apply HasPrefix_head in Hh. discriminate. }
  unfold Extractor.resolveURL.
  destruct (HasPrefix href "http://") eqn:Hhttp; cbn [orb].
  { split; [apply (HasSuffix_append "" href)|]. split; [reflexivity|].
    split; [|discriminate]. intros Hs. exfalso. now apply (Hclash _ Hhttp). }
  destruct (HasPrefix href "https://") eqn:Hhttps.
  { split; [apply (HasSuffix_append "" href)|]. split; [reflexivity|].
    split; [|discriminate]. intros Hs. exfalso. now apply (Hclash _ Hhttps). }
  destruct (HasPrefix href "//") eqn:Hslashes.
  { split; [apply HasSuffix_append|]. split; [intros [?|?]; discriminate|].
    split; [reflexivity|]. intros _ _ Hslash. exfalso.
    apply HasPrefix_spec in Hslashes as [r ->]. discriminate. }
  split; [|split; [intros [?|?]; discriminate | split; [discriminate|]]].
  - destruct (HasPrefix href "/").
    + destruct (Extractor.Index base "://" >? 0).
      * destruct (_ >? 0); apply HasSuffix_append.
      * destruct (negb (HasSuffix base "/")); apply HasSuffix_append.
    + destruct (negb (HasSuffix base "/")); apply HasSuffix_append.
  - intros _ _ ->. now destruct (HasSuffix base "/").
Qed.

(** X24: an href that starts with one slash, resolved against a base of
    the shape [scheme://host/rest], gives [scheme://host] followed by the
    href: the path of the base is replaced.  Against a base [scheme://host]
    without a slash behind the host it gives the base followed by the
    href. *)
Theorem resolveURL_absolute_path (scheme host rest href : string) :
  scheme <> EmptyString ->
  allBytes (fun x => negb (Ascii.eqb x ":")) scheme = true ->
  host <> EmptyString ->
  allBytes (fun x => negb (Ascii.eqb x "/")) host = true ->
  HasPrefix href "/" = true -> HasPrefix href "//" = false ->
  Extractor.resolveURL (scheme +:+ "://" +:+ host +:+ "/" +:+ rest) href
  = scheme +:+ "://" +:+ host +:+ href
  /\ Extractor.resolveURL (scheme +:+ "://" +:+ host) href
     = scheme +:+ "://" +:+ host +:+ href.
Proof.
  intros Hscheme Hnocolon Hhost Hnoslash Hslash Hone.
  assert (HasPrefix href "http://" = false /\ HasPrefix href "https://" = false)
    as [Hhttp Hhttps].
  { apply HasPrefix_spec in Hslash as [r ->]. rewrite append_cons, append_nil.
    split;
      match goal with
      | |- HasPrefix ?a ?b = false =>
          destruct (HasPrefix a b) eqn:Hp;
          [apply HasPrefix_head in Hp; discriminate | reflexivity]
      end. }
  assert (0 < Z.of_nat (String.length scheme)) as Hlen
    by (destruct scheme; [congruence | cbn [String.length]; lia]).
  assert (0 < Z.of_nat (String.length host)) as Hlen'
    by (destruct host; [congruence | cbn [String.length]; lia]).
  assert (forall tail,
             string_drop (Z.to_nat (Z.of_nat (String.length scheme) + 3))
                         (scheme +:+ "://" +:+ tail) = tail) as Hdrop.
  { intros tail.
    replace (Z.to_nat (Z.of_nat (String.length scheme) + 3))
      with (String.length (scheme +:+ "://"))
      by (rewrite string_length_append; cbn [String.length]; lia).
    rewrite <- string_append_assoc. apply string_drop_append. }
  unfold Extractor.resolveURL. rewrite Hhttp, Hhttps, Hone, Hslash. cbn [orb].
  split.
  - rewrite (Index_after ":" "//" scheme _ Hnocolon) by reflexivity.
    destruct (Z.gtb_spec (Z.of_nat (String.length scheme)) 0) as [_|Hle]; [|lia].
    rewrite Hdrop.
    rewrite (Index_after "/" "" host _ Hnoslash) by reflexivity.
    destruct (Z.gtb_spec (Z.of_nat (String.length host)) 0) as [_|Hle]; [|lia].
    replace (Z.to_nat (Z.of_nat (String.length scheme) + 3
                       + Z.of_nat (String.length host)))
      with (String.length (scheme +:+ "://" +:+ host))
      by (rewrite !string_length_append; cbn [String.length]; lia).
    replace (scheme +:+ "://" +:+ host +:+ "/" +:+ rest)
      with ((scheme +:+ "://" +:+ host) +:+ "/" +:+ rest)
      by (now rewrite !string_append_assoc).
    rewrite string_take_append. now rewrite !string_append_assoc.
  - rewrite (Index_after ":" "//" scheme _ Hnocolon) by reflexivity.
    destruct (Z.gtb_spec (Z.of_nat (String.length scheme)) 0) as [_|Hle]; [|lia].
    rewrite Hdrop.
    assert (Extractor.Index host "/" = -1) as ->.
    { clear - Hnoslash. induction host as [|x host IH]; [reflexivity|].
      cbn [allBytes] in Hnoslash. apply andb_true_iff in Hnoslash as [Hx Hh].
      cbn [Extractor.Index].
      destruct (HasPrefix (String x host) "/") eqn:Hp.
      - apply HasPrefix_head in Hp. subst x. discriminate.
      - now rewrite (IH Hh). }
    cbn. now rewrite !string_append_assoc.
Qed.

(** The base [http://example.com/a/b.html] and the href [/c]. *)
Lemma resolveURL_absolute_path_witness :
  Extractor.resolveURL "http://example.com/a/b.html" "/c" = "http://example.com/c"
  /\ Extractor.resolveURL "http://example.com" "/c" = "http://example.com/c".
Proof.
  apply (resolveURL_absolute_path "http" "example.com" "a/b.html" "/c");
    solve [reflexivity | discriminate].
Defined.

(** *** [ExtractLinks] and [ExtractMetadata] *)

Section ExtractorWalks.
Context {tables : UnicodeTables} {html : HTML.Library}.

Lemma walkLinks_preorder (baseURL : string) (n : Node)
    (links : list Extractor.Link) :
  Extractor.walkLinks baseURL n links
  = fold_left (fun ls m => Extractor.visitLink baseURL m ls) (preorder n) links.
Proof.
  revert links. induction n as [t d a cs IH] using Node_forall_ind. intros links.
  cbn [Extractor.walkLinks preorder fold_left].
  generalize (Extractor.visitLink baseURL (mkNode t d a cs) links). clear links.
  induction IH as [|c cs Hc _ IHcs]; intros links; [reflexivity|].
  cbn [fold_left flat_map]. rewrite fold_left_app, Hc. apply IHcs.
Qed.

Lemma visitLink_anchor (baseURL : string) (n : Node)
    (links : list Extractor.Link) :
  Extractor.visitLink baseURL n links
  = if DocumentOrder.isAnchorWithHref n
    then links ++ [Extractor.linkOf baseURL n]
    else links.
Proof.
  destruct n as [t d a cs].
  unfold Extractor.visitLink, DocumentOrder.isAnchorWithHref,
    DocumentOrder.isElement, Extractor.linkOf.
  cbn [Type_ Data Attr].
  destruct (isElementNode t && String.eqb d "a") eqn:Ha; cbn [andb]; [|reflexivity].
  destruct (negb (String.eqb (Crawler.lastAttrVal "href" a) "")); [|reflexivity].
  apply andb_true_iff in Ha as [Ht _]. destruct t; try discriminate.
  unfold FirstChild. cbn [children Extractor.extractText isTextNode].
  now destruct cs.
Qed.

Lemma visitLinks_anchors (baseURL : string) (nodes : list Node)
    (links : list Extractor.Link) :
  fold_left (fun ls m => Extractor.visitLink baseURL m ls) nodes links
  = links ++ map (Extractor.linkOf baseURL)
                 (List.filter DocumentOrder.isAnchorWithHref nodes).
Proof.
  revert links. induction nodes as [|n nodes IH]; intros links.
  - cbn. now rewrite app_nil_r.
  - cbn [fold_left List.filter]. rewrite IH, visitLink_anchor.
    destruct (DocumentOrder.isAnchorWithHref n); [|reflexivity].
    cbn [map]. now rewrite <- app_assoc.
Qed.

(** X25: [ExtractLinks] returns one link for every [<a>] element with a
    last href attribute that is not empty, in document order: the href
    resolved by [resolveURL] and the trimmed text of the text nodes below the
    element.  It keeps the links of equal href, it gives no link a default
    text, and it fails exactly when the parser fails. *)
Theorem ExtractLinks_lists_every_anchor (htmlContent baseURL : string) :
  Extractor.ExtractLinks htmlContent baseURL
  = match HTML.Parse htmlContent with
    | Some doc =>
        Some (map (Extractor.linkOf baseURL) (DocumentOrder.anchorsOf doc))
    | None => None
    end.
Proof.
  unfold Extractor.ExtractLinks, DocumentOrder.anchorsOf.
  destruct (HTML.Parse htmlContent) as [doc|]; [|reflexivity].
  now rewrite walkLinks_preorder, visitLinks_anchors.
Qed.

Lemma walkMetadata_preorder (n : Node) (found : string * string) :
  Extractor.walkMetadata n found
  = fold_left (fun f m => Extractor.visitMetadata m f) (preorder n) found.
Proof.
  revert found. induction n as [t d a cs IH] using Node_forall_ind. intros found.
  cbn [Extractor.walkMetadata preorder fold_left].
  generalize (Extractor.visitMetadata (mkNode t d a cs) found). clear found.
  induction IH as [|c cs Hc _ IHcs]; intros found; [reflexivity|].
  cbn [fold_left flat_map]. rewrite fold_left_app, Hc. apply IHcs.
Qed.

Lemma visitMetadata_cases (n : Node) (found : string * string) :
  Extractor.visitMetadata n found
  = (if Extractor.isTitleWithChild n
     then match FirstChild n with
          | Some c => Data c
          | None => EmptyString
          end
     else fst found,
     if Extractor.isDescriptionMeta n
     then snd (Extractor.metaNameContent (Attr n))
     else snd found).
Proof.
  destruct n as [t d a cs], found as [title description].
  unfold Extractor.visitMetadata, Extractor.isTitleWithChild,
    Extractor.isDescriptionMeta.
  cbn [Type_ Data Attr fst snd].
  destruct (isElementNode t); cbn [andb]; [|reflexivity].
  destruct (String.eqb_spec d "title") as [->|Hne].
  - change (String.eqb "title" "meta") with false. cbn [andb].
    now destruct (FirstChild (mkNode t "title" a cs)).
  - cbn [andb]. destruct (String.eqb d "meta"); cbn [andb]; [|reflexivity].
    destruct (Extractor.metaNameContent a) as [name content]. cbn [fst snd].
    now destruct (String.eqb name "description").
Qed.

Lemma visitMetadata_all (nodes : list Node) (found : string * string) :
  fold_left (fun f m => Extractor.visitMetadata m f) nodes found
  = (match find Extractor.isTitleWithChild (rev nodes) with
     | Some n => match FirstChild n with
                 | Some c => Data c
                 | None => EmptyString
                 end
     | None => fst found
     end,
     match find Extractor.isDescriptionMeta (rev nodes) with
     | Some n => snd (Extractor.metaNameContent (Attr n))
     | None => snd found
     end).
Proof.
  induction nodes as [|n nodes IH] using rev_ind; [now destruct found|].
  rewrite fold_left_app, rev_unit. cbn [fold_left find].
  rewrite visitMetadata_cases, IH. cbn [fst snd].
  now destruct (Extractor.isTitleWithChild n), (Extractor.isDescriptionMeta n).
Qed.

(** X26: [ExtractMetadata] returns as title the data of the first child of
    the last [<title>] element that has a child, as it is, and as
    description the last content attribute of the last [<meta>] element
    with an attribute of key [name] and value [description], compared as
    they are, be the content empty or not; either is empty when there is no
    such element, and the function fails exactly when the parser fails. *)
Theorem ExtractMetadata_keeps_the_last (htmlContent : string) :
  Extractor.ExtractMetadata htmlContent
  = match HTML.Parse htmlContent with
    | Some doc => Some (Extractor.lastTitle doc, Extractor.lastDescription doc)
    | None => None
    end.
Proof.
  unfold Extractor.ExtractMetadata, Extractor.lastTitle, Extractor.lastDescription.
  destruct (HTML.Parse htmlContent) as [doc|]; [|reflexivity].
  now rewrite walkMetadata_preorder, visitMetadata_all.
Qed.

End ExtractorWalks.

(** ** The scores of the analyzer *)

Import Scoring.

(** X27: the performance score is 75, less 10 when the crawl result tells
    of more than 1000 pages, plus 5 when a page has an email address or a
    phone number: it is one of 65, 70, 75 and 80, in [float64] as in exact
    arithmetic, and the bounds 0 and 100 it is held to are never met. *)
Theorem performance_score_is_one_of_four :
  (forall crawlResult : Scoring.CrawlResult Float64.float64,
      analyzePerformance (numbers := float64Numbers) crawlResult
      = float64OfInt
          (75 - (if Scoring.TotalPages crawlResult >? 1000 then 10 else 0)
           + (if existsb (fun p => (Z.of_nat (length (Emails p)) >? 0)
                                   || (Z.of_nat (length (Phones p)) >? 0))
                         (Scoring.Pages crawlResult)
              then 5 else 0)))
  /\ (forall crawlResult : Scoring.CrawlResult Qc,
         analyzePerformance (numbers := exactNumbers) crawlResult
         = Q2Qc (inject_Z
                   (75 - (if Scoring.TotalPages crawlResult >? 1000 then 10 else 0)
                    + (if existsb (fun p => (Z.of_nat (length (Emails p)) >? 0)
                                            || (Z.of_nat (length (Phones p)) >? 0))
                                  (Scoring.Pages crawlResult)
                       then 5 else 0)))).
Proof.
  split; intros crawlResult; unfold analyzePerformance;
    destruct (Scoring.TotalPages crawlResult >? 1000);
    destruct (existsb _ (Scoring.Pages crawlResult));
    vm_compute; reflexivity.
Qed.

(** *** Findings and recommendations *)

Lemma insertBy_permutation {A : Type} (key : A -> Z) (x : A) (l : list A) :
  insertBy key x l ≡ₚ x :: l.
Proof.
  induction l as [|y l IH]; cbn [insertBy]; [reflexivity|].
  destruct (key x <=? key y); [reflexivity|].
  rewrite IH. apply Permutation_swap.
Qed.

Lemma insertionSortBy_permutation (A : Type) (key : A -> Z) (l : list A) :
  insertionSortBy A key l ≡ₚ l.
Proof.
  induction l as [|x l IH]; cbn [insertionSortBy fold_right]; [reflexivity|].
  rewrite insertBy_permutation. now apply Permutation_skip.
Qed.

Lemma insertBy_sorted {A : Type} (key : A -> Z) (x : A) (l : list A) :
  sortedBy key l -> sortedBy key (insertBy key x l).
Proof.
  induction l as [|y l IH]; cbn [insertBy sortedBy].
  - intros _. split; [constructor | exact I].
  - intros [Hy Hl]. destruct (Z.leb_spec (key x) (key y)) as [Hle|Hlt].
    + cbn [sortedBy]. split; [|now split].
      constructor; [exact Hle|].
      eapply Forall_impl; [exact Hy|]. cbn. intros z Hz. lia.
    + cbn [sortedBy]. split; [|now apply IH].
      rewrite insertBy_permutation. constructor; [lia | exact Hy].
Qed.

Lemma insertionSortBy_sorted (A : Type) (key : A -> Z) (l : list A) :
  sortedBy key (insertionSortBy A key l).
Proof.
  induction l as [|x l IH]; cbn [insertionSortBy fold_right]; [exact I|].
  now apply insertBy_sorted.
Qed.

Lemma plainLibrary_lawful : lawful plainLibrary.
Proof.
  split.
  - reflexivity.
  - apply insertionSortBy_permutation.
  - apply insertionSortBy_sorted.
Qed.

Section Findings.
Context {F : Type} {library : Library}.

Lemma titleURLs_fold (pages : list (Scoring.Page F))
      (m : gmap string (list string)) (t : string) :
  default []
    (fold_left
       (fun titles p =>
          <[Models.MetaTitle (page p)
            := default [] (titles !! Models.MetaTitle (page p))
               ++ [Models.URL (page p)]]> titles)
       pages m !! t)
  = default [] (m !! t)
    ++ map (fun p => Models.URL (page p))
         (List.filter (fun p => String.eqb (Models.MetaTitle (page p)) t) pages).
Proof.
  revert m. induction pages as [|p pages IH]; intros m;
    cbn [fold_left List.filter map].
  - now rewrite app_nil_r.
  - rewrite IH. destruct (String.eqb_spec (Models.MetaTitle (page p)) t) as [->|Hne].
    + rewrite lookup_insert_eq. cbn [default map]. unfold id.
      now rewrite <- app_assoc.
    + now rewrite lookup_insert_ne.
Qed.

Lemma titleURLs_length (pages : list (Scoring.Page F)) (t : string) :
  length (default [] (titleURLs pages !! t))
  = length (List.filter (fun p => String.eqb (Models.MetaTitle (page p)) t) pages).
Proof.
  unfold titleURLs. rewrite titleURLs_fold, lookup_empty. cbn [default app].
  apply length_map.
Qed.

Lemma findings_fold {A : Type} (cond : A -> bool) (mk : A -> Finding.t)
      (keys : list A) (findings : list Finding.t) (f : Finding.t) :
  f ∈ fold_left (fun findings k => if cond k then findings ++ [mk k] else findings)
        keys findings
  <-> f ∈ findings \/ exists k, k ∈ keys /\ cond k = true /\ f = mk k.
Proof.
  revert findings. induction keys as [|k keys IH]; intros findings; cbn [fold_left].
  - split; [now left|]. intros [Hf|[k [Hk _]]]; [exact Hf|].
    now apply elem_of_nil in Hk.
  - rewrite IH. split.
    + intros [Hf|[k' [Hk' [Hc Hm]]]].
      * destruct (cond k) eqn:Hc; [|now left].
        apply elem_of_app in Hf. destruct Hf as [Hf|Hf]; [now left|].
        apply list_elem_of_singleton in Hf. right. exists k.
        split; [apply elem_of_cons; now left | now split].
      * right. exists k'. split; [apply elem_of_cons; now right | now split].
    + intros [Hf|[k' [Hk' [Hc Hm]]]].
      * left. destruct (cond k); [apply elem_of_app; now left | exact Hf].
      * apply elem_of_cons in Hk'. destruct Hk' as [->|Hk'].
        -- left. rewrite Hc. apply elem_of_app. right.
           now apply list_elem_of_singleton.
        -- right. exists k'. now split.
Qed.

(** What [generateFindings] holds. *)
Lemma generateFindings_elem (crawlResult : Scoring.CrawlResult F)
      (finding : Finding.t) :
  lawful library ->
  let count := fun test : Scoring.Page F -> bool =>
                 Z.of_nat (length (List.filter test (Scoring.Pages crawlResult))) in
  finding ∈ generateFindings crawlResult
  <-> (0 < count (fun p => String.eqb (Models.MetaDescription (page p)) "")
       /\ finding
          = Finding.mk "Content" "Missing Meta Descriptions"
              (decimal (count (fun p => String.eqb (Models.MetaDescription (page p)) ""))
               +:+ " pages lack meta descriptions")
              "medium" "")
      \/ (exists title,
             title <> ""
             /\ 1 < count (fun p => String.eqb (Models.MetaTitle (page p)) title)
             /\ finding
                = Finding.mk "Technical" "Duplicate Title"
                    ("Title '" +:+ title +:+ "' used on "
                     +:+ decimal (count (fun p => String.eqb (Models.MetaTitle (page p)) title))
                     +:+ " pages")
                    "high" "")
      \/ (0 < count (fun p => wordCount (Models.Text (page p)) <? 100)
          /\ finding
             = Finding.mk "Content" "Thin Content"
                 (decimal (count (fun p => wordCount (Models.Text (page p)) <? 100))
                  +:+ " pages have less than 100 words")
                 "medium" "").
Proof.
  intros Hlaw count. unfold generateFindings.
  fold (count (fun p => String.eqb (Models.MetaDescription (page p)) "")).
  fold (count (fun p => wordCount (Models.Text (page p)) <? 100)).
  set (missing := count (fun p => String.eqb (Models.MetaDescription (page p)) "")).
  set (thin := count (fun p => wordCount (Models.Text (page p)) <? 100)).
  set (titles := titleURLs (Scoring.Pages crawlResult)).
  set (first := if missing >? 0 then _ else _).
  set (body := fun (findings : list Finding.t) (title : string) => _).
  assert (forall f, f ∈ fold_left body (rangeOrder (map fst (map_to_list titles))) first
                    <-> f ∈ first
                        \/ exists title,
                            title <> ""
                            /\ 1 < count (fun p => String.eqb (Models.MetaTitle (page p)) title)
                            /\ f = Finding.mk "Technical" "Duplicate Title"
                                     ("Title '" +:+ title +:+ "' used on "
                                      +:+ decimal (count (fun p => String.eqb (Models.MetaTitle (page p)) title))
                                      +:+ " pages")
                                     "high" "") as Hfold.
  { intros f. subst body.
    rewrite (findings_fold
               (fun title =>
                  (Z.of_nat (length (default [] (titles !! title))) >? 1)
                  && negb (String.eqb title ""))
               (fun title =>
                  Finding.mk "Technical" "Duplicate Title"
                    ("Title '" +:+ title +:+ "' used on "
                     +:+ decimal (Z.of_nat (length (default [] (titles !! title))))
                     +:+ " pages")
                    "high" "")).
    assert (forall title,
               Z.of_nat (length (default [] (titles !! title)))
               = count (fun p => String.eqb (Models.MetaTitle (page p)) title))
      as Hlen.
    { intros title. subst titles count. cbn beta. now rewrite titleURLs_length. }
    split; (intros [Hf|[title H]]; [now left|right; exists title]).
    - destruct H as [_ [Hc ->]]. apply andb_true_iff in Hc.
      destruct Hc as [Hn Hne]. apply Z.gtb_lt in Hn. rewrite Hlen in Hn.
      split; [|split; [exact Hn | now rewrite Hlen]].
      intros ->. discriminate.
    - destruct H as [Hne [Hn ->]]. rewrite <- Hlen in Hn.
      split; [|split; [|now rewrite Hlen]].
      + rewrite (rangeOrder_permutation _ Hlaw).
        destruct (titles !! title) as [urls|] eqn:Hlook; [|cbn in Hn; lia].
        apply list_elem_of_fmap. exists (title, urls).
        split; [reflexivity | now apply elem_of_map_to_list].
      + apply andb_true_iff. split; [now apply Z.gtb_lt|].
        destruct (String.eqb_spec title "") as [->|_]; [now destruct Hne | reflexivity]. }
  assert (forall f, f ∈ first
                    <-> 0 < missing
                        /\ f = Finding.mk "Content" "Missing Meta Descriptions"
                                 (decimal missing +:+ " pages lack meta descriptions")
                                 "medium" "") as Hfirst.
  { intros f. subst first. destruct (Z.gtb_spec missing 0) as [Hpos|Hnot].
    - cbn [app]. rewrite list_elem_of_singleton. split; [now split | now intros [_ ->]].
    - split; [intros H; now apply elem_of_nil in H | intros [H _]; lia]. }
  destruct (Z.gtb_spec thin 0) as [Hpos|Hnot].
  - rewrite elem_of_app, list_elem_of_singleton, Hfold, Hfirst. split.
    + intros [[H|H]|H]; [now left | right; now left | right; right; now split].
    + intros [H|[H|[_ H]]]; [left; now left | left; now right | now right].
  - rewrite Hfold, Hfirst. split.
    + intros [H|H]; [now left | right; now left].
    + intros [H|[H|[H _]]]; [now left | now right | lia].
Qed.

End Findings.

Section FindingsShape.
Context {F : Type} {library : Library}.

Lemma findings_fold_eq {A : Type} (cond : A -> bool) (mk : A -> Finding.t)
      (keys : list A) (findings : list Finding.t) :
  fold_left (fun findings k => if cond k then findings ++ [mk k] else findings)
            keys findings
  = findings ++ map mk (List.filter cond keys).
Proof.
  revert findings. induction keys as [|k keys IH]; intros findings;
    cbn [fold_left List.filter map]; [now rewrite app_nil_r|].
  rewrite IH. destruct (cond k); [|reflexivity].
  cbn [map]. now rewrite <- app_assoc.
Qed.

Lemma elem_of_List_filter {A : Type} (cond : A -> bool) (l : list A) (x : A) :
  x ∈ List.filter cond l <-> x ∈ l /\ cond x = true.
Proof. now rewrite !list_elem_of_In, List.filter_In. Qed.

Lemma NoDup_List_filter {A : Type} (cond : A -> bool) (l : list A) :
  NoDup l -> NoDup (List.filter cond l).
Proof.
  induction 1 as [|x l Hx Hl IH]; cbn [List.filter]; [constructor|].
  destruct (cond x); [|exact IH].
  apply NoDup_cons. split; [|exact IH].
  intros Hin. apply elem_of_List_filter in Hin. now destruct Hin.
Qed.

(** The findings, one after the other. *)
Lemma generateFindings_shape (crawlResult : Scoring.CrawlResult F) :
  lawful library ->
  let count := fun test : Scoring.Page F -> bool =>
                 Z.of_nat (length (List.filter test (Scoring.Pages crawlResult))) in
  let missing := count (fun p => String.eqb (Models.MetaDescription (page p)) "") in
  let thin := count (fun p => wordCount (Models.Text (page p)) <? 100) in
  exists titles,
    NoDup titles
    /\ (forall title,
           title ∈ titles
           <-> title <> ""
               /\ 1 < count (fun p => String.eqb (Models.MetaTitle (page p)) title))
    /\ generateFindings crawlResult
       = (if missing >? 0
          then [Finding.mk "Content" "Missing Meta Descriptions"
                  (decimal missing +:+ " pages lack meta descriptions")
                  "medium" ""]
          else [])
         ++ map (fun title =>
                   Finding.mk "Technical" "Duplicate Title"
                     ("Title '" +:+ title +:+ "' used on "
                      +:+ decimal (count (fun p => String.eqb (Models.MetaTitle (page p))
                                                              title))
                      +:+ " pages")
                     "high" "")
                titles
         ++ (if thin >? 0
             then [Finding.mk "Content" "Thin Content"
                     (decimal thin +:+ " pages have less than 100 words")
                     "medium" ""]
             else []).
Proof.
  intros Hlaw count missing thin.
  set (titles := titleURLs (Scoring.Pages crawlResult)).
  set (keys := rangeOrder (map fst (map_to_list titles))).
  set (cond := fun title : string =>
                 (Z.of_nat (length (default [] (titles !! title))) >? 1)
                 && negb (String.eqb title "")).
  assert (forall title,
             Z.of_nat (length (default [] (titles !! title)))
             = count (fun p => String.eqb (Models.MetaTitle (page p)) title))
    as Hlen.
  { intros title. subst titles count. cbn beta. now rewrite titleURLs_length. }
  exists (List.filter cond keys). split; [|split].
  - apply NoDup_List_filter. subst keys.
    rewrite (rangeOrder_permutation _ Hlaw). apply NoDup_fst_map_to_list.
  - intros title. rewrite elem_of_List_filter.
    subst cond. cbn beta. rewrite andb_true_iff, Z.gtb_lt, Hlen. split.
    + intros [_ [Hn Hne]]. split; [|exact Hn]. intros ->. discriminate.
    + intros [Hne Hn]. split; [|split; [exact Hn|]].
      * subst keys. rewrite (rangeOrder_permutation _ Hlaw).
        rewrite <- Hlen in Hn.
        destruct (titles !! title) as [urls|] eqn:Hlook; [|cbn in Hn; lia].
        apply list_elem_of_fmap. exists (title, urls).
        split; [reflexivity | now apply elem_of_map_to_list].
      * destruct (String.eqb_spec title "") as [->|_];
          [now destruct Hne | reflexivity].
  - unfold generateFindings.
    fold (count (fun p => String.eqb (Models.MetaDescription (page p)) "")).
    fold (count (fun p => wordCount (Models.Text (page p)) <? 100)).
    fold missing. fold thin. fold titles. fold keys.
    rewrite (findings_fold_eq
               cond
               (fun title =>
                  Finding.mk "Technical" "Duplicate Title"
                    ("Title '" +:+ title +:+ "' used on "
                     +:+ decimal (Z.of_nat (length (default [] (titles !! title))))
                     +:+ " pages")
                    "high" "")).
    assert (map (fun title =>
                   Finding.mk "Technical" "Duplicate Title"
                     ("Title '" +:+ title +:+ "' used on "
                      +:+ decimal (Z.of_nat (length (default [] (titles !! title))))
                      +:+ " pages")
                     "high" "")
                (List.filter cond keys)
            = map (fun title =>
                     Finding.mk "Technical" "Duplicate Title"
                       ("Title '" +:+ title +:+ "' used on "
                        +:+ decimal (count (fun p => String.eqb
                                                       (Models.MetaTitle (page p))
                                                       title))
                        +:+ " pages")
                       "high" "")
                  (List.filter cond keys)) as ->.
    { apply map_ext. intros title. now rewrite Hlen. }
    destruct (missing >? 0), (thin >? 0); cbn [app];
      rewrite <- ?app_assoc, ?app_nil_r; reflexivity.
Qed.

End FindingsShape.

(** X29: the result of [generateFindings] is, in this order, the one
    finding for the pages with an empty description when there is such a
    page, one finding for every title that is not empty and that more than
    one page carries, each title once, and the one finding for the pages
    with fewer than 100 words when there is such a page, each with the
    count in its description; the titles come in the order in which [range]
    visits the map.  So a crawl result in which every page has a
    description, as the crawler stores it, gets no finding on missing
    descriptions. *)
Theorem generateFindings_reports
  {F : Type} (library : Library) (crawlResult : Scoring.CrawlResult F) :
  lawful library ->
  let count := fun test : Scoring.Page F -> bool =>
                 Z.of_nat (length (List.filter test (Scoring.Pages crawlResult))) in
  let missing := count (fun p => String.eqb (Models.MetaDescription (page p)) "") in
  let thin := count (fun p => wordCount (Models.Text (page p)) <? 100) in
  (exists titles,
      NoDup titles
      /\ (forall title,
             title ∈ titles
             <-> title <> ""
                 /\ 1 < count (fun p => String.eqb (Models.MetaTitle (page p)) title))
      /\ generateFindings crawlResult
         = (if missing >? 0
            then [Finding.mk "Content" "Missing Meta Descriptions"
                    (decimal missing +:+ " pages lack meta descriptions")
                    "medium" ""]
            else [])
           ++ map (fun title =>
                     Finding.mk "Technical" "Duplicate Title"
                       ("Title '" +:+ title +:+ "' used on "
                        +:+ decimal (count (fun p => String.eqb
                                                       (Models.MetaTitle (page p))
                                                       title))
                        +:+ " pages")
                       "high" "")
                  titles
           ++ (if thin >? 0
               then [Finding.mk "Content" "Thin Content"
                       (decimal thin +:+ " pages have less than 100 words")
                       "medium" ""]
               else []))
  /\ (Forall (fun p => Models.MetaDescription (page p) <> "")
             (Scoring.Pages crawlResult) ->
      Forall (fun finding => Finding.Type_ finding <> "Missing Meta Descriptions")
             (generateFindings crawlResult)).
Proof.
  intros Hlaw count missing thin. split.
  - now apply generateFindings_shape.
  - intros Hdesc. apply Forall_forall. intros finding Hin.
    apply (generateFindings_elem crawlResult finding Hlaw) in Hin.
    destruct Hin as [[Hpos _]|[[title [_ [_ ->]]]|[_ ->]]]; [|discriminate..].
    exfalso. revert Hpos.
    induction Hdesc as [|p pages Hp _ IH]; cbn [List.filter length]; [lia|].
    destruct (String.eqb_spec (Models.MetaDescription (page p)) "") as [He|_];
      [now destruct Hp | exact IH].
Qed.

Lemma generateFindings_reports_witness :
  lawful plainLibrary
  /\ (let library := plainLibrary in
      let crawlResult :=
        Scoring.mkCrawlResult "example.com"
          [Scoring.mkPage
             (Models.mkPage "http://example.com/" "welcome" [] "Home" "x" "x" Float64.zero)
             [] [] 200;
           Scoring.mkPage
             (Models.mkPage "http://example.com/a" "about us" [] "Home" "x" "x" Float64.zero)
             [] [] 200]
          2 in
      let count := fun test : Scoring.Page Float64.float64 -> bool =>
                     Z.of_nat (length (List.filter test (Scoring.Pages crawlResult))) in
      let missing := count (fun p => String.eqb (Models.MetaDescription (page p)) "") in
      let thin := count (fun p => wordCount (Models.Text (page p)) <? 100) in
      (exists titles,
          NoDup titles
          /\ (forall title,
                 title ∈ titles
                 <-> title <> ""
                     /\ 1 < count (fun p => String.eqb (Models.MetaTitle (page p)) title))
          /\ generateFindings crawlResult
             = (if missing >? 0
                then [Finding.mk "Content" "Missing Meta Descriptions"
                        (decimal missing +:+ " pages lack meta descriptions")
                        "medium" ""]
                else [])
               ++ map (fun title =>
                         Finding.mk "Technical" "Duplicate Title"
                           ("Title '" +:+ title +:+ "' used on "
                            +:+ decimal (count (fun p => String.eqb
                                                           (Models.MetaTitle (page p))
                                                           title))
                            +:+ " pages")
                           "high" "")
                      titles
               ++ (if thin >? 0
                   then [Finding.mk "Content" "Thin Content"
                           (decimal thin +:+ " pages have less than 100 words")
                           "medium" ""]
                   else []))
      /\ (Forall (fun p => Models.MetaDescription (page p) <> "")
                 (Scoring.Pages crawlResult) ->
          Forall (fun finding => Finding.Type_ finding <> "Missing Meta Descriptions")
                 (generateFindings crawlResult))).
Proof.
  split; [exact plainLibrary_lawful|].
  exact (generateFindings_reports plainLibrary _ plainLibrary_lawful).
Defined.

Section Reports.
Context {F : Type} {numbers : Numbers F} {arith : Analyzer.Arith F}
        {library : Library}.

Lemma recommendations_fold (findings : list Finding.t)
      (acc : list Recommendation.t) :
  fold_left
    (fun recommendations finding =>
       match recommendationFor finding with
       | Some rec => recommendations ++ [rec]
       | None => recommendations
       end)
    findings acc
  = acc ++ omap recommendationFor findings.
Proof.
  revert acc. induction findings as [|f findings IH]; intros acc;
    cbn [fold_left omap list_omap].
  - now rewrite app_nil_r.
  - rewrite IH. destruct (recommendationFor f) as [rec|]; [|reflexivity].
    now rewrite <- app_assoc.
Qed.

Lemma generateFindings_known (crawlResult : Scoring.CrawlResult F) :
  lawful library ->
  Forall (fun f =>
            (Finding.Type_ f = "Duplicate Title" /\ Finding.Severity f = "high")
            \/ ((Finding.Type_ f = "Missing Meta Descriptions"
                 \/ Finding.Type_ f = "Thin Content")
                /\ Finding.Severity f = "medium"))
         (generateFindings crawlResult).
Proof.
  intros Hlaw. apply Forall_forall. intros f Hin.
  apply (generateFindings_elem crawlResult f Hlaw) in Hin.
  destruct Hin as [[_ ->]|[[title [_ [_ ->]]]|[_ ->]]]; cbn.
  - right. split; [now left | reflexivity].
  - left. now split.
  - right. split; [now right | reflexivity].
Qed.

Lemma known_recommendations (findings : list Finding.t) :
  Forall (fun f =>
            (Finding.Type_ f = "Duplicate Title" /\ Finding.Severity f = "high")
            \/ ((Finding.Type_ f = "Missing Meta Descriptions"
                 \/ Finding.Type_ f = "Thin Content")
                /\ Finding.Severity f = "medium"))
         findings ->
  sortedBy (fun f => severityOrder (Finding.Severity f)) findings ->
  length (omap recommendationFor findings) = length findings
  /\ sortedBy (fun r => if String.eqb (Recommendation.Priority r) "critical"
                        then 0 else 1)
              (omap recommendationFor findings).
Proof.
  induction 1 as [|f findings Hf Hall IH]; cbn [sortedBy omap list_omap length];
    [now split|].
  intros [Hlow Hsorted]. destruct (IH Hsorted) as [Hlen Hrecs].
  assert (exists rec, recommendationFor f = Some rec
                      /\ (Finding.Severity f = "high"
                          -> Recommendation.Priority rec = "critical")) as [rec [Hrec Hprio]].
  { unfold recommendationFor.
    destruct Hf as [[-> Hs]|[[->| ->] Hs]]; cbn; eexists; (split; [reflexivity|]);
      [reflexivity | rewrite Hs; discriminate | rewrite Hs; discriminate]. }
  rewrite Hrec. cbn [length sortedBy]. split; [now rewrite Hlen|].
  split; [|exact Hrecs].
  apply Forall_forall. intros rec' Hin.
  apply list_elem_of_omap in Hin. destruct Hin as [f' [Hin' Hrec']].
  destruct Hf as [[_ Hs]|[_ Hs]].
  - rewrite (Hprio Hs). cbn. destruct (String.eqb _ _); lia.
  - assert (Finding.Severity f' = "medium") as Hs'.
    { rewrite Forall_forall in Hlow, Hall. specialize (Hlow f' Hin').
      destruct (Hall f' Hin') as [[_ Hh]|[_ Hm]]; [|exact Hm].
      rewrite Hs, Hh in Hlow. vm_compute in Hlow. now destruct Hlow. }
    assert (Recommendation.Priority rec' <> "critical") as Hne.
    { rewrite Forall_forall in Hall.
      unfold recommendationFor in Hrec'.
      destruct (Hall f' Hin') as [[_ Hh]|[[Ht|Ht] _]].
      - rewrite Hs' in Hh. discriminate.
      - rewrite Ht in Hrec'. cbn in Hrec'. injection Hrec' as <-. discriminate.
      - rewrite Ht in Hrec'. cbn in Hrec'. injection Hrec' as <-. discriminate. }
    destruct (String.eqb_spec (Recommendation.Priority rec') "critical") as [He|_];
      [now destruct Hne|].
    destruct (String.eqb _ _); lia.
Qed.

End Reports.

(** X30: when [range] and [sort.Slice] do what Go promises, the key
    findings of a report are the findings of [generateFindings] in the
    order of their severity, which the in-place sort of
    [generateRecommendations] leaves in the report; every finding has its
    recommendation, in the same order, so the recommendations on duplicate
    titles, which alone are critical, come first, and the top priorities
    are the actions of the first three recommendations. *)
Theorem recommendations_follow_the_findings
  {F : Type} (numbers : Numbers F) (arith : Analyzer.Arith F)
  (library : Library) (config : Config) (crawlResult : Scoring.CrawlResult F)
  (full : bool) :
  lawful library ->
  let report := fst (Analyze config crawlResult full) in
  let crawled := snd (Analyze config crawlResult full) in
  KeyFindings report ≡ₚ generateFindings crawled
  /\ sortedBy (fun f => severityOrder (Finding.Severity f)) (KeyFindings report)
  /\ Recommendations report = omap recommendationFor (KeyFindings report)
  /\ length (Recommendations report) = length (KeyFindings report)
  /\ sortedBy (fun r => if String.eqb (Recommendation.Priority r) "critical"
                        then 0 else 1)
              (Recommendations report)
  /\ TopPriorities (Summary report)
     = map Recommendation.Action (firstn 3 (Recommendations report)).
Proof.
  intros Hlaw. unfold Analyze.
  set (crawled := if AnalyzePageRank config then withPageRanks crawlResult
                  else crawlResult).
  unfold generateRecommendations. rewrite recommendations_fold.
  cbn [fst snd KeyFindings Recommendations Summary app].
  set (findings := generateFindings crawled).
  set (sorted := sortSliceBy Finding.t _ findings).
  assert (sorted ≡ₚ findings) as Hperm by apply (sortSliceBy_permutation _ Hlaw).
  assert (sortedBy (fun f => severityOrder (Finding.Severity f)) sorted) as Hsorted
    by apply (sortSliceBy_sorted _ Hlaw).
  destruct (known_recommendations sorted) as [Hlen Hrecs].
  { rewrite Hperm. now apply generateFindings_known. }
  { exact Hsorted. }
  split; [exact Hperm|]. split; [exact Hsorted|]. split; [reflexivity|].
  split; [exact Hlen|]. split; [exact Hrecs|]. reflexivity.
Qed.

Lemma recommendations_follow_the_findings_witness :
  lawful plainLibrary
  /\ length
       (Recommendations
          (fst (Analyze
                  (numbers := exactNumbers) (arith := Analyzer.exactArith)
                  (library := plainLibrary) New
                  (Scoring.mkCrawlResult "example.com"
                     [Scoring.mkPage
                        (Models.mkPage "http://example.com/" "welcome" []
                                       "Home" "x" "x" 0%Qc)
                        [] [] 200;
                      Scoring.mkPage
                        (Models.mkPage "http://example.com/a" "about us" []
                                       "Home" "x" "x" 0%Qc)
                        [] [] 200]
                     2)
                  false)))
     = length
         (KeyFindings
            (fst (Analyze
                    (numbers := exactNumbers) (arith := Analyzer.exactArith)
                    (library := plainLibrary) New
                    (Scoring.mkCrawlResult "example.com"
                       [Scoring.mkPage
                          (Models.mkPage "http://example.com/" "welcome" []
                                         "Home" "x" "x" 0%Qc)
                          [] [] 200;
                        Scoring.mkPage
                          (Models.mkPage "http://example.com/a" "about us" []
                                         "Home" "x" "x" 0%Qc)
                          [] [] 200]
                       2)
                    false))).
Proof.
  split; [exact plainLibrary_lawful|].
  apply (recommendations_follow_the_findings
           exactNumbers Analyzer.exactArith plainLibrary New _ false
           plainLibrary_lawful).
Defined.
